(* ===== verification/_CoqProject ===== *)
-Q . S2P
Prelude.v
GoStrings.v
GoTime.v
Sha256.v
Matcher.v
Api.v
Effects.v
Server.v
RaasConn.v
IntentHash.v
VMController.v
Cluster.v
VMSafety.v
VMIntent.v
VMSecrecy.v
VMBehaviour.v
VMLiveness.v
VMArrival.v
VMCache.v
VMInvariant.v
ConfigController.v
Enrolment.v
GoPath.v
Scavenger.v
RaasClient.v
RaasSession.v
RaasPromises.v
RaasSecrecy.v
RaasSystem.v
Wire.v
