(* ===== verification/Prelude.v ===== *)
(** * A verification library for the VCF Salt operator

    ** The program

    The operator ([cmd/main.go]) connects VirtualMachine objects of a
    Kubernetes API server to Salt minions behind a RaaS server, and the
    scavenger ([cmd/scavenger/main.go]) is a job that deletes the Salt keys of
    machines that are gone.  The operator runs three controllers.  The
    VirtualMachine controller ([virtualmachine_controller.go]) keeps its state
    in annotations of the VM: it accepts or generates the Salt key of a VM,
    runs the bootstrap chain (ping, pillar refresh, highstate, poll),
    reconverges a VM whose intent changed, and deletes the key with the VM.
    The SaltKeyConfig controller ([saltkeyconfig_controller.go]) says in a
    status condition whether a config is usable.  The enrolment controller
    ([enrolment_controller.go]) creates and removes the configs of namespaces
    that have none of their own.  All of them find the RaaS connection of a
    config with [internal/raasconn], match minions with
    [pkg/salt/matcher.go], and talk to RaaS through the [salt.Client]
    interface, which [pkg/salt/client.go] implements over HTTP.

    ** The model

    Everything outside the program is a call with an answer.  An operation of
    a controller is a function in a state monad that records the calls it
    makes ([Effects]: [call], [resp], [Env], [Traced], [wp]); the environment
    that answers is a parameter, so a theorem covers every answer: failures,
    conflicts, and changes by others between two calls.  The RaaS client is
    one level down: its calls are HTTP requests ([RaasClient]: [hcall],
    [HEnv]), and [RaasSystem.system] composes the levels by running each
    [salt.Client] call of a controller on the client.  Go's integers of 64
    bits, durations and times are [Z] with the wrap-around written out
    ([GoTime.wrap64], [GoTime.Sub]); strings are byte strings; a [map] whose
    iteration order Go leaves open is a [gmap] with the order as a parameter.

    ** Files

    - [Prelude]: notations, tactics, lemmas on maps and lists.
    - [GoStrings], [GoTime], [Sha256], [GoPath]: what the source uses of Go's
      [strings], [strconv], [time], [crypto/sha256] and [path] packages.
    - [Matcher]: [pkg/salt/matcher.go].
    - [Api]: errors, Kubernetes objects, [api/v1alpha1/saltkeyconfig_types.go]
      and the result types of [pkg/salt/client.go].
    - [Effects]: the calls, the monad, weakest preconditions, monitors, runs.
    - [Server]: a small API server and library functions, for the witnesses.
    - [RaasConn]: [internal/raasconn/raasconn.go].
    - [IntentHash]: the intent hash, the enforcement schedule and the watch
      filter of [virtualmachine_controller.go].
    - [VMController]: [Reconcile] and every handler of that file.
      [Cluster] is what its histories rely on of the API server, and the
      tables of its phases.  [VMSafety] (what one reconcile may do),
      [VMIntent] (its own writes, the intent hash and the watch filter),
      [VMSecrecy] (where a generated private key goes), [VMBehaviour] (what
      single handlers do), [VMLiveness] and [VMArrival] (progress), [VMCache]
      (the client cache) and [VMInvariant] (every history) hold its theorems.
    - [ConfigController]: [saltkeyconfig_controller.go].
    - [Enrolment]: [enrolment_controller.go] and its flags in [cmd/main.go];
      [Enrolment.ConfigServer] is what its convergence asks of an API server.
    - [Scavenger]: [cmd/scavenger/main.go].
    - [RaasClient]: [pkg/salt/client.go].  [RaasSession] says how a request, a
      login and an RPC go, [RaasPromises] what its operations may post, that
      its waits end and what its results mean, [RaasSecrecy] what holds over
      the life of a client: its session and where its credentials go.
    - [RaasSystem]: the controllers on the client.  [Wire]: what a reconcile
      puts on the wire, and the histories of the whole program.

    ** What the theorems show

    - Histories of a VM ([VMInvariant]): over any interleaving of reconciles,
      failures at any call, tenant changes and operator restarts, a highstate
      runs on a fresh pillar, the annotations satisfy an invariant, and the
      phases follow the table of [Cluster].  [Wire.program_history] restates
      this for the whole program, with hypotheses on the API server only.
    - One reconcile ([VMSafety], [VMCache], [VMBehaviour], [VMIntent]): which
      writes, keys, Secrets and commands it may touch, which client it uses,
      what the deletion, the reconvergence and the choice of a config do, and
      that its own writes change no intent hash and wake nobody.
    - Secrecy ([VMSecrecy], [RaasSecrecy]): two runs that differ in a generated
      private key, or in the credentials of RaaS, agree in everything but the
      bootstrap Secret, or the login documents.
    - Progress ([VMLiveness], [VMArrival]): with everything answering, a VM
      whose key is pending or accepted is Ready after a bounded number of
      reconciles.
    - Configs ([ConfigController], [RaasConn], [Enrolment]): with RaaS up, a
      config whose enforcement interval parses is Ready exactly when the
      VirtualMachine controller can get a client from it; enrolment converges
      on any API server that keeps the stated laws, and touches its own
      configs only.
    - The scavenger ([Scavenger], [GoPath]): of the accepted keys it tries
      every one no VM of the cluster carries and none a VM it listed carries
      (VMs of namespaces without a ready config are not listed), and its
      exclusion patterns mean what they say.
    - The client ([RaasSession], [RaasPromises], [RaasSecrecy], [RaasSystem]):
      session and credentials, one retry of an expired session, the documents
      each operation posts, the end of its waits, the meaning of its results
      in terms of the last reply.
    - Pure functions ([Matcher], [IntentHash]): matching, the hashed text,
      schedules.

    ** Fuel

    [GoTime.duration_loop] and [GoStrings.trim_front] get the length of their
    input, [GoPath.Match] the length of its pattern; each round consumes at
    least one character, so the fuel is never exhausted.  The polling loops of
    [RaasClient] wait for the network: their fuel is any bound on the waits
    that the caller's deadline leaves, and [RaasPromises.waits_end] shows that
    more changes nothing.

    ** Not modelled

    - The start of the manager ([cmd/main.go] but its enrolment flags): calls
      of controller-runtime with no logic of their own; the wiring in each
      [SetupWithManager]; building the Kubernetes client of the scavenger.
    - [zz_generated.deepcopy.go] and scheme registration.
    - Log lines, and the texts of Go values printed with [%v].
    - The work queue: a reconcile is one run of [Reconcile]; what others do
      meanwhile is in the answers to its calls.  The client's mutex guards two
      fields; callers that share a client run one after the other here.
    - JSON texts: decoding a text is the parameter [RaasClient.GoJSON], with
      object keys distinct; what the code does with the document is modelled.
    - TLS and the cookie jar are part of the network ([HEnv]); a context's
      deadline is the answer to a wait or a failed call.
    - Non-ASCII case folding is the parameter [GoStrings.GoUnicode]; label
      selectors, conditions, finalizers and deep equality of apimachinery are
      the parameter [Api.K8sLib], with laws where a theorem needs them. *)

From stdpp Require Export base strings list gmap sets sorting pretty.
From Stdlib Require Export Ascii ZArith Lia.

#[export] Set Warnings "-clear-no-such-hyp".

(** ** Notations *)

Declare Scope go_scope.
Delimit Scope go_scope with go.
#[global] Open Scope go_scope.

(** String equality as the Go operators [==] and [!=]. *)
Notation "s =s? t" := (String.eqb s t) (at level 70) : go_scope.
Notation "s <>s? t" := (negb (String.eqb s t)) (at level 70) : go_scope.

(** ** Tactics *)

(** Split every conjunction and existential of the context. *)
Ltac deex :=
  repeat match goal with
  | H : ex _ |- _ => destruct H
  | H : _ /\ _ |- _ => destruct H
  end.

(** Turn the boolean tests of the context and the goal into propositions. *)
Ltac reflect_bools :=
  repeat match goal with
  | H : (_ && _)%bool = true |- _ => apply andb_true_iff in H as [? ?]
  | H : (_ || _)%bool = false |- _ => apply orb_false_iff in H as [? ?]
  | H : negb _ = true |- _ => apply negb_true_iff in H
  | H : negb _ = false |- _ => apply negb_false_iff in H
  | H : String.eqb _ _ = true |- _ => apply String.eqb_eq in H
  | H : String.eqb _ _ = false |- _ => apply String.eqb_neq in H
  | H : Z.ltb _ _ = true |- _ => apply Z.ltb_lt in H
  | H : Z.ltb _ _ = false |- _ => apply Z.ltb_ge in H
  | H : Z.leb _ _ = true |- _ => apply Z.leb_le in H
  | H : Z.leb _ _ = false |- _ => apply Z.leb_gt in H
  end.

(** A closed decidable statement. *)
Ltac decided := apply (bool_decide_unpack _); vm_compute; exact I.

(** [lia] with division and remainder by constants. *)
Ltac dlia := Z.to_euclidean_division_equations; lia.

(** ** Generic lemmas *)

Create HintDb go discriminated.
Create Rewrite HintDb go.

(** The keys of [m2] added over [m1], as Go's [maps.Copy(m1, m2)]. *)
Definition maps_Copy {A} (dst src : gmap string A) : gmap string A := src ∪ dst.

(** [m[k]] on a Go map with string values: the zero value when [k] is absent. *)
Definition mget (m : gmap string string) (k : string) : string := default "" (m !! k).

Lemma mget_insert_eq m k v : mget (<[k:=v]> m) k = v.
Proof. unfold mget. by rewrite lookup_insert_eq. Qed.

Lemma mget_insert_ne m k k' v : k <> k' -> mget (<[k:=v]> m) k' = mget m k'.
Proof. intros. unfold mget. by rewrite lookup_insert_ne. Qed.

Lemma maps_Copy_lookup {A} (dst src : gmap string A) k :
  maps_Copy dst src !! k = match src !! k with Some v => Some v | None => dst !! k end.
Proof.
  unfold maps_Copy. destruct (src !! k) eqn:E.
  - by apply lookup_union_Some_l.
  - by rewrite lookup_union_r.
Qed.

Lemma mget_maps_Copy dst src k :
  mget (maps_Copy dst src) k = match src !! k with Some v => v | None => mget dst k end.
Proof. unfold mget. rewrite maps_Copy_lookup. by destruct (src !! k). Qed.

(** Deleting the keys [p] names. *)
Lemma filter_keys_lookup {A} (p : string -> bool) (m : gmap string A) k :
  filter (fun kv => p (fst kv) = false) m !! k = if p k then None else m !! k.
Proof.
  destruct (p k) eqn:E.
  - apply map_lookup_filter_None_2. right. intros v _. simpl. by rewrite E.
  - destruct (m !! k) eqn:Em.
    + by apply map_lookup_filter_Some_2.
    + apply map_lookup_filter_None_2. by left.
Qed.

#[global] Instance list_filter_perm {A} (p : A -> bool) :
  Proper (Permutation ==> Permutation) (List.filter p).
Proof.
  induction 1 as [|x l l' _ IH|x y l|l1 l2 l3 _ IH1 _ IH2]; simpl; try done.
  - destruct (p x); [by constructor|done].
  - destruct (p x), (p y); try done. apply Permutation_swap.
  - by etrans.
Qed.

Lemma string_app_nil_r (s : string) : s +:+ "" = s.
Proof. induction s as [|a s IH]; [done|]. change (String a (s +:+ "") = String a s). by f_equal. Qed.

Lemma string_app_assoc (s t u : string) : (s +:+ t) +:+ u = s +:+ (t +:+ u).
Proof.
  induction s as [|a s IH]; [done|].
  change (String a ((s +:+ t) +:+ u) = String a (s +:+ (t +:+ u))). by f_equal.
Qed.

Lemma string_app_cons (a : ascii) (s t : string) : String a s +:+ t = String a (s +:+ t).
Proof. done. Qed.

Lemma string_app_nil_l (s : string) : "" +:+ s = s.
Proof. done. Qed.

(** Concatenations in normal form: nested to the right, literals unfolded. *)
Ltac sapp := repeat first [rewrite string_app_assoc | rewrite string_app_cons | rewrite string_app_nil_l].

#[export] Hint Rewrite mget_insert_eq @string_app_nil_r @string_app_assoc : go.

(** ** Lists *)

(** [find] answers the first of the list that qualifies, or none does. *)
Lemma find_first {A} (p : A -> bool) l x :
  List.find p l = Some x <->
  exists l1 l2, l = l1 ++ x :: l2 /\ p x = true /\ Forall (fun y => p y = false) l1.
Proof.
  split.
  - induction l as [|y l IH]; simpl; [done|]. destruct (p y) eqn:E.
    + intros [= ->]. by exists [], l.
    + intros Hf. destruct (IH Hf) as (l1 & l2 & -> & ? & ?).
      exists (y :: l1), l2. repeat split; auto.
  - intros (l1 & l2 & -> & Hx & Hl). induction Hl as [|y l1 Hy Hl IH]; simpl.
    + by rewrite Hx.
    + by rewrite Hy.
Qed.

Lemma find_none_Forall {A} (p : A -> bool) l :
  List.find p l = None <-> Forall (fun y => p y = false) l.
Proof.
  induction l as [|y l IH]; simpl; [done|]. rewrite Forall_cons.
  destruct (p y); split; intros; deex; try done; tauto.
Qed.
