(* ===== verification/GoStrings.v ===== *)
(** * The Go string functions the operator calls

    Go strings are byte sequences, as Rocq's [string] is.  The functions of
    the packages [strings], [strconv], [sort] and [slices] the sources use
    are defined here byte for byte.  The Unicode tables behind
    [strings.EqualFold] and [strings.ToLower] on non-ASCII input are a
    parameter ([GoUnicode]): no theorem depends on their content. *)

From S2P Require Import Prelude.

Local Open Scope Z_scope.

Definition byte_of (c : ascii) : Z := Z.of_N (N_of_ascii c).

Definition is_ascii (c : ascii) : bool := byte_of c <? 128.
Definition is_upper (c : ascii) : bool := (65 <=? byte_of c) && (byte_of c <=? 90).
Definition is_digit (c : ascii) : bool := (48 <=? byte_of c) && (byte_of c <=? 57).
Definition digit_val (c : ascii) : Z := byte_of c - 48.

Definition ascii_of_Z (z : Z) : ascii := ascii_of_N (Z.to_N z).

Definition lower_byte (c : ascii) : ascii :=
  if is_upper c then ascii_of_Z (byte_of c + 32) else c.

Fixpoint string_map (f : ascii -> ascii) (s : string) : string :=
  match s with
  | EmptyString => EmptyString
  | String c s' => String (f c) (string_map f s')
  end.

Fixpoint string_forallb (p : ascii -> bool) (s : string) : bool :=
  match s with
  | EmptyString => true
  | String c s' => p c && string_forallb p s'
  end.

Definition isASCII (s : string) : bool := string_forallb is_ascii s.

(** Case mapping and case folding of strings that are not pure ASCII. *)
Class GoUnicode := {
  unicode_ToLower : string -> string;
  unicode_EqualFold : string -> string -> bool;
}.

(** [strings.HasPrefix], [strings.Contains]. *)
Definition HasPrefix (s prefix : string) : bool := String.prefix prefix s.

Fixpoint Contains (s sub : string) : bool :=
  HasPrefix s sub ||
  match s with
  | EmptyString => false
  | String _ s' => Contains s' sub
  end.

(** [strings.ToLower]. *)
Definition ToLower `{GoUnicode} (s : string) : string :=
  if isASCII s then string_map lower_byte s else unicode_ToLower s.

(** Two ASCII bytes equal up to letter case, as the fast path of [strings.EqualFold] compares. *)
Definition fold_byte (a b : ascii) : bool :=
  Ascii.eqb a b
  || (let sr := Z.min (byte_of a) (byte_of b) in
      let tr := Z.max (byte_of a) (byte_of b) in
      (65 <=? sr) && (sr <=? 90) && (tr =? sr + 32)).

(** [strings.EqualFold]: the ASCII loop, then Unicode folding from the first non-ASCII byte. *)
Fixpoint EqualFold `{GoUnicode} (s t : string) : bool :=
  match s, t with
  | String a s', String b t' =>
      if is_ascii a && is_ascii b
      then if fold_byte a b then EqualFold s' t' else false
      else unicode_EqualFold s t
  | EmptyString, EmptyString => true
  | _, _ => false
  end.

(** Unicode case folding of texts without non-ASCII letters, for concrete evaluations. *)
Definition ascii_only : GoUnicode :=
  {| unicode_ToLower s := s; unicode_EqualFold s t := String.eqb s t |}.

(** [strings.Split(s, sep)] for a one-byte separator. *)
Fixpoint Split (sep : ascii) (s : string) : list string :=
  match s with
  | EmptyString => [EmptyString]
  | String c s' =>
      if Ascii.eqb c sep then EmptyString :: Split sep s'
      else match Split sep s' with
           | [] => [String c EmptyString]
           | p :: ps => String c p :: ps
           end
  end.

(** [strings.Join]. *)
Fixpoint Join (l : list string) (sep : string) : string :=
  match l with
  | [] => EmptyString
  | [s] => s
  | s :: l' => s +:+ sep +:+ Join l' sep
  end.

(** [strings.TrimRight(s, c)] for a one-byte cutset. *)
Fixpoint TrimRight (c : ascii) (s : string) : string :=
  match s with
  | EmptyString => EmptyString
  | String a s' =>
      match TrimRight c s' with
      | EmptyString => if Ascii.eqb a c then EmptyString else String a EmptyString
      | t => String a t
      end
  end.

(** The UTF-8 encodings of the characters [unicode.IsSpace] holds of. *)
Definition space_encodings : list (list Z) :=
  [[9]; [10]; [11]; [12]; [13]; [32]; [194; 133]; [194; 160]; [225; 154; 128];
   [226; 128; 128]; [226; 128; 129]; [226; 128; 130]; [226; 128; 131]; [226; 128; 132];
   [226; 128; 133]; [226; 128; 134]; [226; 128; 135]; [226; 128; 136]; [226; 128; 137];
   [226; 128; 138]; [226; 128; 168]; [226; 128; 169]; [226; 128; 175]; [226; 129; 159];
   [227; 128; 128]].

Definition bytes_of (s : string) : list Z := byte_of <$> String.list_ascii_of_string s.
Definition string_of_bytes (l : list Z) : string := String.string_of_list_ascii (ascii_of_Z <$> l).

Fixpoint is_prefix (p l : list Z) : bool :=
  match p, l with
  | [], _ => true
  | a :: p', b :: l' => (a =? b) && is_prefix p' l'
  | _, _ => false
  end.

(** The spaces of [sp] taken off the front of [l], at most [fuel] of them. *)
Fixpoint trim_front (fuel : nat) (sp : list (list Z)) (l : list Z) : list Z :=
  match fuel with
  | O => l
  | S n => match List.find (fun p => is_prefix p l) sp with
           | Some p => trim_front n sp (drop (length p) l)
           | None => l
           end
  end.

(** [strings.TrimSpace]. *)
Definition TrimSpace (s : string) : string :=
  let l := trim_front (String.length s) space_encodings (bytes_of s) in
  string_of_bytes (reverse (trim_front (length l) (reverse <$> space_encodings) (reverse l))).

(** The value of a run of decimal digits; [None] at the first other byte. *)
Fixpoint digits_value (acc : Z) (s : string) : option Z :=
  match s with
  | EmptyString => Some acc
  | String c s' => if is_digit c then digits_value (10 * acc + digit_val c) s' else None
  end.

Definition int64_min : Z := - 2 ^ 63.
Definition int64_max : Z := 2 ^ 63 - 1.
Definition in_int64 (z : Z) : bool := (int64_min <=? z) && (z <=? int64_max).

(** [strconv.Atoi]: an optional sign and at least one digit, in range. *)
Definition Atoi (s : string) : option Z :=
  let '(neg, ds) :=
    match s with
    | String c s' => if Ascii.eqb c "-" then (true, s')
                     else if Ascii.eqb c "+" then (false, s') else (false, s)
    | EmptyString => (false, s)
    end in
  match ds with
  | EmptyString => None
  | _ => match digits_value 0 ds with
         | Some v => let z := if (neg : bool) then - v else v in
                     if in_int64 z then Some z else None
         | None => None
         end
  end.

(** [strconv.Itoa]. *)
Definition Itoa (z : Z) : string := pretty z.

(** [sort.Strings]: the byte-wise order. *)
Definition sort_Strings (l : list string) : list string := merge_sort String.le l.

(** No byte of [s] is [c]. *)
Definition no_byte (c : ascii) (s : string) : bool := string_forallb (fun a => negb (Ascii.eqb a c)) s.

(** ** Lemmas *)

Lemma fold_byte_refl a : fold_byte a a = true.
Proof. unfold fold_byte. by rewrite Ascii.eqb_refl. Qed.

Lemma EqualFold_refl_ascii `{GoUnicode} s : isASCII s = true -> EqualFold s s = true.
Proof.
  induction s as [|a s IH]; simpl; [done|].
  unfold isASCII; simpl. intros [-> Hs]%andb_true_iff. simpl.
  rewrite fold_byte_refl. by apply IH.
Qed.

Lemma Split_cons sep s : exists p ps, Split sep s = p :: ps.
Proof.
  destruct s as [|c s]; simpl; [eauto|].
  destruct (Ascii.eqb c sep); [eauto|]. destruct (Split sep s); eauto.
Qed.

Lemma Join_cons s sep l : l <> [] -> Join (s :: l) sep = s +:+ sep +:+ Join l sep.
Proof. by destruct l. Qed.

(** Joining the parts of a split string gives the string back. *)
Lemma Join_Split sep s : Join (Split sep s) (String sep "") = s.
Proof.
  induction s as [|c s IH]; simpl; [done|].
  destruct (Split_cons sep s) as (p & ps & E). rewrite E in IH |- *.
  destruct (Ascii.eqb c sep) eqn:Ec.
  - apply Ascii.eqb_eq in Ec as ->. rewrite Join_cons by done.
    by rewrite IH.
  - destruct ps as [|q ps].
    + simpl in *. by rewrite IH.
    + rewrite Join_cons in IH |- * by done. rewrite <- IH. done.
Qed.

Lemma Split_parts_no_sep sep s : Forall (fun p => no_byte sep p = true) (Split sep s).
Proof.
  induction s as [|c s IH]; simpl.
  - by repeat constructor.
  - destruct (Split_cons sep s) as (p & ps & E). rewrite E in IH |- *.
    destruct (Ascii.eqb c sep) eqn:Ec.
    + by constructor.
    + inversion IH; subst. constructor; [|done].
      unfold no_byte in *. simpl. by rewrite Ec.
Qed.

Lemma Split_app_sep sep s t :
  no_byte sep s = true -> Split sep (s +:+ String sep t) = s :: Split sep t.
Proof.
  induction s as [|c s IH]; intros Hs.
  - change ("" +:+ String sep t) with (String sep t). cbn [Split]. by rewrite Ascii.eqb_refl.
  - unfold no_byte in Hs; simpl in Hs. apply andb_true_iff in Hs as [Hc%negb_true_iff Hs].
    rewrite string_app_cons. cbn [Split]. rewrite Hc, IH by done. done.
Qed.

Lemma Split_no_sep sep s : no_byte sep s = true -> Split sep s = [s].
Proof.
  induction s as [|c s IH]; intros Hs; [done|].
  unfold no_byte in Hs; simpl in Hs. apply andb_true_iff in Hs as [Hc%negb_true_iff Hs].
  cbn [Split]. rewrite Hc, IH by done. done.
Qed.

(** Splitting a joined list gives the list back, when no part holds the separator. *)
Lemma Split_Join sep l :
  l <> [] -> Forall (fun p => no_byte sep p = true) l ->
  Split sep (Join l (String sep "")) = l.
Proof.
  intros Hne Hl. induction Hl as [|p l Hp Hl IH]; [done|].
  destruct l as [|q l].
  - simpl. by apply Split_no_sep.
  - rewrite Join_cons by done.
    change (String sep "" +:+ Join (q :: l) (String sep "")) with (String sep (Join (q :: l) (String sep ""))).
    rewrite Split_app_sep by done. f_equal. by apply IH.
Qed.

(** [sort.Strings] sorts, permutes, and so depends on the elements only. *)
Lemma sort_Strings_perm l : sort_Strings l ≡ₚ l.
Proof. apply merge_sort_Permutation. Qed.

Lemma sort_Strings_sorted l : StronglySorted String.le (sort_Strings l).
Proof. apply (StronglySorted_merge_sort _). Qed.

Lemma sort_Strings_ext l l' : l ≡ₚ l' -> sort_Strings l = sort_Strings l'.
Proof.
  intros Hp. apply (StronglySorted_unique String.le); [apply sort_Strings_sorted..|].
  by rewrite !sort_Strings_perm.
Qed.

Lemma HasPrefix_app p s : HasPrefix (p +:+ s) p = true.
Proof.
  unfold HasPrefix. induction p as [|a p IH].
  - by destruct s.
  - rewrite string_app_cons. simpl. by destruct (ascii_dec a a).
Qed.

Lemma HasPrefix_inv s p : HasPrefix s p = true -> exists t, s = p +:+ t.
Proof.
  unfold HasPrefix. revert s. induction p as [|a p IH]; intros s Hs; [by exists s|].
  destruct s as [|b s]; simpl in Hs; [done|].
  destruct (ascii_dec a b) as [->|]; [|done].
  destruct (IH _ Hs) as [t ->]. exists t. by rewrite string_app_cons.
Qed.
