(* ===== verification/GoTime.v ===== *)
(** * Go's [time] package, as far as the operator uses it

    A [time.Time] is the number of nanoseconds since the Unix epoch and a
    [time.Duration] an int64 number of nanoseconds, both in [Z].
    [time.ParseDuration] follows the library's loop, its float64 step for
    fractions included (IEEE binary64 through [SpecFloat]), and
    [time.Parse(time.RFC3339, _)] the library's lenient layout parser: an
    optional fraction after the seconds and a one-digit hour are accepted. *)

From Stdlib Require Import SpecFloat.
From S2P Require Import Prelude GoStrings.

Local Open Scope Z_scope.

(** ** Durations *)

Definition Nanosecond : Z := 1.
Definition Microsecond : Z := 1000.
Definition Millisecond : Z := 1000000.
Definition Second : Z := 1000000000.
Definition Minute : Z := 60 * Second.
Definition Hour : Z := 60 * Minute.

(** Two's complement wrap-around at 64 bits. *)
Definition wrap64 (z : Z) : Z := (z + 2 ^ 63) mod 2 ^ 64 - 2 ^ 63.

(** [t.Sub(u)]: the difference, saturated to the int64 range. *)
Definition Sub (t u : Z) : Z := Z.max int64_min (Z.min int64_max (t - u)).

Definition unitMap (u : string) : option Z :=
  if u =s? "ns" then Some Nanosecond
  else if (u =s? "us") || (u =s? string_of_bytes [194; 181; 115])
          || (u =s? string_of_bytes [206; 188; 115]) then Some Microsecond
  else if u =s? "ms" then Some Millisecond
  else if u =s? "s" then Some Second
  else if u =s? "m" then Some Minute
  else if u =s? "h" then Some Hour
  else None.

(** [leadingInt]: the leading digits of [s], [None] when they overflow 1<<63. *)
Fixpoint leadingInt (x : Z) (s : string) : option (Z * string) :=
  match s with
  | String c s' =>
      if is_digit c then
        if 2 ^ 63 / 10 <? x then None
        else let x' := 10 * x + digit_val c in
             if 2 ^ 63 <? x' then None else leadingInt x' s'
      else Some (x, s)
  | EmptyString => Some (x, s)
  end.

(** [leadingFraction]: digits, ten to their number, and the rest; digits past overflow are skipped. *)
Fixpoint leadingFraction (x scale : Z) (overflow : bool) (s : string) : Z * Z * string :=
  match s with
  | String c s' =>
      if is_digit c then
        if overflow then leadingFraction x scale true s'
        else if (2 ^ 63 - 1) / 10 <? x then leadingFraction x scale true s'
        else let y := 10 * x + digit_val c in
             if 2 ^ 63 <? y then leadingFraction x scale true s'
             else leadingFraction y (10 * scale) false s'
      else (x, scale, s)
  | EmptyString => (x, scale, s)
  end.

Definition float64 (z : Z) : spec_float := binary_normalize 53 1024 z 0 false.

(** The integer part of a finite float: truncation toward zero. *)
Definition trunc_float (x : spec_float) : Z :=
  match x with
  | S754_finite sign m e =>
      let z := if 0 <=? e then Z.pos m * 2 ^ e else Z.pos m / 2 ^ (- e) in
      if sign then - z else z
  | _ => 0
  end.

(** [uint64(float64(f) * (float64(unit) / scale))], of nonnegative numbers. *)
Definition frac_units (f unit scale : Z) : Z :=
  trunc_float (SFmul 53 1024 (float64 f) (SFdiv 53 1024 (float64 unit) (float64 scale))).

(** The unit: everything up to the next digit or period. *)
Fixpoint split_unit (s : string) : string * string :=
  match s with
  | String c s' =>
      if Ascii.eqb c "." || is_digit c then (EmptyString, s)
      else let '(u, r) := split_unit s' in (String c u, r)
  | EmptyString => (EmptyString, EmptyString)
  end.

Definition begins_number (s : string) : bool :=
  match s with String c _ => Ascii.eqb c "." || is_digit c | EmptyString => false end.

Definition begins_digit (s : string) : bool :=
  match s with String c _ => is_digit c | EmptyString => false end.

(** One term [v.f unit] of the duration: its value in nanoseconds and the rest. *)
Definition duration_term (s : string) : option (Z * string) :=
  if begins_number s then
    match leadingInt 0 s with
    | None => None
    | Some (v, s1) =>
        let pre := begins_digit s in
        let '(f, scale, s2, post) :=
          match s1 with
          | String c s1' =>
              if Ascii.eqb c "." then
                let '(f, scale, r) := leadingFraction 0 1 false s1' in
                (f, scale, r, begins_digit s1')
              else (0, 1, s1, false)
          | EmptyString => (0, 1, s1, false)
          end in
        if negb pre && negb post then None
        else
          let '(u, s3) := split_unit s2 in
          if u =s? "" then None
          else match unitMap u with
               | None => None
               | Some unit =>
                   if 2 ^ 63 / unit <? v then None
                   else
                     let v1 := v * unit in
                     let v2 := if 0 <? f then v1 + frac_units f unit scale else v1 in
                     if (0 <? f) && (2 ^ 63 <? v2) then None else Some (v2, s3)
               end
    end
  else None.

(** The loop of [time.ParseDuration]; [fuel] bounds the number of terms. *)
Fixpoint duration_loop (fuel : nat) (d : Z) (s : string) : option Z :=
  match s with
  | EmptyString => Some d
  | _ =>
      match fuel with
      | O => None
      | S n =>
          match duration_term s with
          | None => None
          | Some (v, s') =>
              let d' := (d + v) mod 2 ^ 64 in
              if 2 ^ 63 <? d' then None else duration_loop n d' s'
          end
      end
  end.

(** [time.ParseDuration]; [None] is an error. *)
Definition ParseDuration (s : string) : option Z :=
  let '(neg, s1) :=
    match s with
    | String c s' => if Ascii.eqb c "-" then (true, s')
                     else if Ascii.eqb c "+" then (false, s') else (false, s)
    | EmptyString => (false, s)
    end in
  if s1 =s? "0" then Some 0
  else if s1 =s? "" then None
  else match duration_loop (String.length s1) 0 s1 with
       | None => None
       | Some d => if neg then Some (- d)
                   else if int64_max <? d then None else Some d
       end.

(** ** The calendar *)

Definition is_leap (y : Z) : bool :=
  (y mod 4 =? 0) && (negb (y mod 100 =? 0) || (y mod 400 =? 0)).

(** Days from 1 January of year 1 to 1 January of year [y]. *)
Definition days_before_year (y : Z) : Z :=
  let p := y - 1 in 365 * p + p / 4 - p / 100 + p / 400.

Definition month_lengths (y : Z) : list Z :=
  [31; if is_leap y then 29 else 28; 31; 30; 31; 30; 31; 31; 30; 31; 30; 31].

Definition daysIn (m y : Z) : Z := nth (Z.to_nat (m - 1)) (month_lengths y) 0.

Definition sumZ (l : list Z) : Z := foldr Z.add 0 l.

Definition days_before_month (m y : Z) : Z := sumZ (take (Z.to_nat (m - 1)) (month_lengths y)).

(** Days since 1 January 1970. *)
Definition unix_epoch_days : Z := days_before_year 1970.
Definition days_of_date (y m d : Z) : Z :=
  days_before_year y + days_before_month m y + (d - 1) - unix_epoch_days.

Definition year_of_days (n : Z) : Z :=
  let g := 400 * n / 146097 + 1 in
  if n <? days_before_year g then g - 1
  else if days_before_year (g + 1) <=? n then g + 1
  else g.

Fixpoint month_scan (ls : list Z) (m doy : Z) : Z * Z :=
  match ls with
  | [] => (m, doy)
  | l :: ls' => if doy <? l then (m, doy) else month_scan ls' (m + 1) (doy - l)
  end.

(** Year, month and day of a number of days since 1 January 1970. *)
Definition date_of_days (n : Z) : Z * Z * Z :=
  let k := n + unix_epoch_days in
  let y := year_of_days k in
  let '(m, doy) := month_scan (month_lengths y) 1 (k - days_before_year y) in
  (y, m, doy + 1).

(** ** RFC 3339 *)

Definition digit_char (d : Z) : ascii := ascii_of_Z (48 + d).
Definition pad2 (n : Z) : string := String (digit_char (n / 10)) (String (digit_char (n mod 10)) "").
Definition pad4 (n : Z) : string := pad2 (n / 100) +:+ pad2 (n mod 100).

(** The year, at least four digits wide. *)
Definition format_year (y : Z) : string :=
  let w n := if n <? 10000 then pad4 n else Itoa n in
  if y <? 0 then String "-" (w (- y)) else w y.

(** [t.UTC().Format(time.RFC3339)]. *)
Definition FormatRFC3339 (t : Z) : string :=
  let secs := t / Second in
  let days := secs / 86400 in
  let sod := secs mod 86400 in
  let '(y, m, d) := date_of_days days in
  format_year y +:+ String "-" (pad2 m +:+ String "-" (pad2 d +:+ String "T"
    (pad2 (sod / 3600) +:+ String ":" (pad2 (sod / 60 mod 60) +:+ String ":"
      (pad2 (sod mod 60) +:+ "Z"))))).

(** [getnum]: one or two leading digits, exactly two when [fixed]. *)
Definition getnum (fixed : bool) (s : string) : option (Z * string) :=
  match s with
  | String a s1 =>
      if is_digit a then
        match s1 with
        | String b s2 => if is_digit b then Some (10 * digit_val a + digit_val b, s2)
                         else if fixed then None else Some (digit_val a, s1)
        | EmptyString => if fixed then None else Some (digit_val a, s1)
        end
      else None
  | EmptyString => None
  end.

Definition getyear (s : string) : option (Z * string) :=
  match s with
  | String a (String b (String c (String d r))) =>
      if is_digit a && is_digit b && is_digit c && is_digit d
      then Some (1000 * digit_val a + 100 * digit_val b + 10 * digit_val c + digit_val d, r)
      else None
  | _ => None
  end.

(** [skip]: the literal byte [c] of the layout. *)
Definition skip_byte (c : ascii) (s : string) : option string :=
  match s with
  | String a s' => if Ascii.eqb a c then Some s' else None
  | EmptyString => None
  end.

(** Nanoseconds of the fraction digits: the first nine count. *)
Fixpoint frac_digits (n : nat) (s : string) : Z * string :=
  match s with
  | String c s' =>
      if is_digit c then
        match n with
        | O => frac_digits O s'
        | S n' => let '(v, r) := frac_digits n' s' in (digit_val c * 10 ^ Z.of_nat n' + v, r)
        end
      else (0, s)
  | EmptyString => (0, s)
  end.

Definition getfraction (s : string) : Z * string :=
  match s with
  | String p (String c r) =>
      if (Ascii.eqb p "." || Ascii.eqb p ",") && is_digit c
      then frac_digits 9 (String c r) else (0, s)
  | _ => (0, s)
  end.

(** The zone: [Z], or a signed [hh:mm] offset in seconds. *)
Definition getzone (s : string) : option (Z * string) :=
  match s with
  | String c s1 =>
      if Ascii.eqb c "Z" then Some (0, s1)
      else
        match getnum true s1 with
        | Some (hr, s2) =>
            match skip_byte ":" s2 with
            | Some s3 =>
                match getnum true s3 with
                | Some (mm, s4) =>
                    if (24 <? hr) || (60 <? mm) then None
                    else if Ascii.eqb c "+" then Some ((hr * 60 + mm) * 60, s4)
                    else if Ascii.eqb c "-" then Some (- ((hr * 60 + mm) * 60), s4)
                    else None
                | None => None
                end
            | None => None
            end
        | None => None
        end
  | EmptyString => None
  end.

(** The fields of a timestamp, in the order of the layout. *)
Definition parse_fields (s : string) : option (Z * Z * Z * Z * Z * Z * Z * Z) :=
  '(y, s) ← getyear s; s ← skip_byte "-" s;
  '(mo, s) ← getnum true s; s ← skip_byte "-" s;
  '(d, s) ← getnum true s; s ← skip_byte "T" s;
  '(h, s) ← getnum false s; s ← skip_byte ":" s;
  '(mi, s) ← getnum true s; s ← skip_byte ":" s;
  '(se, s) ← getnum true s;
  let '(ns, s) := getfraction s in
  '(off, s) ← getzone s;
  if s =s? "" then Some (y, mo, d, h, mi, se, ns, off) else None.

(** [time.Parse(time.RFC3339, s)]; [None] is an error. *)
Definition ParseRFC3339 (s : string) : option Z :=
  '(y, mo, d, h, mi, se, ns, off) ← parse_fields s;
  if (1 <=? mo) && (mo <=? 12) && (1 <=? d) && (d <=? daysIn mo y)
     && (h <? 24) && (mi <? 60) && (se <? 60)
  then Some ((days_of_date y mo d * 86400 + h * 3600 + mi * 60 + se - off) * Second + ns)
  else None.

(** The years the four-digit layout covers. *)
Definition rfc3339_year (t : Z) : bool :=
  let y := (date_of_days (t / Second / 86400)).1.1 in (0 <=? y) && (y <? 10000).

(** ** Lemmas *)

Lemma days_before_year_step y :
  days_before_year (y + 1) = days_before_year y + 365 + (if is_leap y then 1 else 0).
Proof.
  unfold days_before_year, is_leap. replace (y + 1 - 1) with y by lia.
  destruct (Z.eqb_spec (y mod 4) 0), (Z.eqb_spec (y mod 100) 0), (Z.eqb_spec (y mod 400) 0);
    simpl; dlia.
Qed.

Lemma year_of_days_spec n :
  days_before_year (year_of_days n) <= n < days_before_year (year_of_days n + 1).
Proof.
  unfold year_of_days. set (g := 400 * n / 146097 + 1).
  assert (days_before_year (g - 1) <= n < days_before_year (g + 2))
    by (unfold days_before_year, g; dlia).
  destruct (Z.ltb_spec n (days_before_year g)).
  - replace (g - 1 + 1) with g by lia. lia.
  - destruct (Z.leb_spec (days_before_year (g + 1)) n); [|lia].
    replace (g + 1 + 1) with (g + 2) by lia. lia.
Qed.

Lemma sumZ_month_lengths y : sumZ (month_lengths y) = 365 + (if is_leap y then 1 else 0).
Proof. unfold month_lengths, sumZ. by destruct (is_leap y). Qed.

Lemma month_scan_spec ls m doy m' doy' :
  0 <= doy < sumZ ls -> month_scan ls m doy = (m', doy') ->
  exists i, (i < length ls)%nat /\ m' = m + Z.of_nat i
            /\ doy = sumZ (take i ls) + doy' /\ 0 <= doy' < nth i ls 0.
Proof.
  revert m doy. induction ls as [|l ls IH]; intros m doy Hd Hs; simpl in *; [lia|].
  destruct (Z.ltb_spec doy l).
  - injection Hs as <- <-. exists O. simpl. lia.
  - destruct (IH (m + 1) (doy - l)) as (i & ? & ? & ? & ?); [lia|done|].
    exists (S i). simpl. lia.
Qed.

(** [date_of_days] gives a valid date, and the one [days_of_date] maps back. *)
Lemma date_of_days_spec n y m d :
  date_of_days n = (y, m, d) ->
  1 <= m <= 12 /\ 1 <= d <= daysIn m y /\ days_of_date y m d = n.
Proof.
  unfold date_of_days. set (k := n + unix_epoch_days).
  pose proof (year_of_days_spec k) as Hy. rewrite days_before_year_step in Hy.
  destruct (month_scan _ _ _) as [m' doy'] eqn:Em. intros [= <- <- <-].
  apply month_scan_spec in Em as (i & Hi & -> & Hd & Hd'); [|rewrite sumZ_month_lengths; lia].
  change (length (month_lengths (year_of_days k))) with 12%nat in Hi.
  unfold days_of_date, days_before_month, daysIn.
  replace (Z.to_nat (1 + Z.of_nat i - 1)) with i by lia.
  split; [lia|]. split; [lia|]. unfold k in *. lia.
Qed.

Lemma digit_char_byte d : 0 <= d < 10 -> byte_of (digit_char d) = 48 + d.
Proof.
  intros. unfold byte_of, digit_char, ascii_of_Z. rewrite N_ascii_embedding; lia.
Qed.

Lemma digit_char_digit d : 0 <= d < 10 -> is_digit (digit_char d) = true.
Proof. intros. unfold is_digit. rewrite digit_char_byte by lia. lia. Qed.

Lemma digit_char_val d : 0 <= d < 10 -> digit_val (digit_char d) = d.
Proof. intros. unfold digit_val. rewrite digit_char_byte by lia. lia. Qed.

Lemma getnum_pad2 fixed n s : 0 <= n < 100 -> getnum fixed (pad2 n +:+ s) = Some (n, s).
Proof.
  intros. unfold pad2. sapp. unfold getnum.
  rewrite !digit_char_digit, !digit_char_val by dlia.
  do 2 f_equal. dlia.
Qed.

Lemma getyear_pad4 n s : 0 <= n < 10000 -> getyear (pad4 n +:+ s) = Some (n, s).
Proof.
  intros. unfold pad4, pad2. sapp. unfold getyear.
  rewrite !digit_char_digit, !digit_char_val by dlia. simpl.
  do 2 f_equal. dlia.
Qed.

Lemma skip_byte_cons c s : skip_byte c (String c s) = Some s.
Proof. unfold skip_byte. by rewrite Ascii.eqb_refl. Qed.

(** Parsing the digits of a formatted timestamp gives its fields. *)
Lemma parse_fields_format y m d h mi se :
  0 <= y < 10000 -> 0 <= m < 100 -> 0 <= d < 100 -> 0 <= h < 100 -> 0 <= mi < 100 -> 0 <= se < 100 ->
  parse_fields (format_year y +:+ String "-" (pad2 m +:+ String "-" (pad2 d +:+ String "T"
    (pad2 h +:+ String ":" (pad2 mi +:+ String ":" (pad2 se +:+ "Z"))))))
  = Some (y, m, d, h, mi, se, 0, 0).
Proof.
  intros Hy **. unfold parse_fields, format_year.
  destruct (Z.ltb_spec y 0); [lia|]. destruct (Z.ltb_spec y 10000); [|lia].
  rewrite getyear_pad4 by done. cbn [mbind option_bind]. rewrite skip_byte_cons.
  cbn [mbind option_bind].
  repeat (rewrite getnum_pad2 by lia; cbn [mbind option_bind];
          first [rewrite skip_byte_cons; cbn [mbind option_bind] | done]).
Qed.

(** [time.Parse] undoes [Format] up to the fraction of the second. *)
Lemma ParseRFC3339_Format t :
  rfc3339_year t = true -> ParseRFC3339 (FormatRFC3339 t) = Some (t - t mod Second).
Proof.
  unfold rfc3339_year, FormatRFC3339. intros Hy.
  destruct (date_of_days (t / Second / 86400)) as [[y m] d] eqn:Ed. simpl in Hy.
  apply date_of_days_spec in Ed as (Hm & Hd & Hn).
  assert (daysIn m y <= 31).
  { unfold daysIn, month_lengths.
    assert (exists i, m - 1 = Z.of_nat i /\ (i < 12)%nat) as (i & -> & Hi) by (exists (Z.to_nat (m - 1)); lia).
    rewrite Nat2Z.id. do 12 (destruct i as [|i]; [simpl; destruct (is_leap y); lia|]). lia. }
  unfold ParseRFC3339. rewrite parse_fields_format by dlia. cbn [mbind option_bind].
  replace (_ && _)%bool with true by dlia.
  rewrite Hn. f_equal. unfold Second in *. dlia.
Qed.

(** ** Durations: range and termination *)

Lemma leadingInt_range x s v r :
  0 <= x <= 2 ^ 63 -> leadingInt x s = Some (v, r) -> 0 <= v <= 2 ^ 63.
Proof.
  revert x. induction s as [|c s IH]; intros x Hx; simpl; [by intros [= <- <-]|].
  destruct (is_digit c) eqn:Ed; [|by intros [= <- <-]].
  destruct (Z.ltb_spec (2 ^ 63 / 10) x); [done|].
  destruct (Z.ltb_spec (2 ^ 63) (10 * x + digit_val c)); [done|].
  apply IH. unfold is_digit, digit_val in *. lia.
Qed.

Lemma leadingInt_length x s v r :
  leadingInt x s = Some (v, r) -> (String.length r <= String.length s)%nat.
Proof.
  revert x. induction s as [|c s IH]; intros x; simpl; [by intros [= <- <-]|].
  destruct (is_digit c); [|by intros [= <- <-]].
  destruct (Z.ltb _ _); [done|]. destruct (Z.ltb _ _); [done|].
  intros H%IH. lia.
Qed.

Lemma leadingFraction_length x sc o s v sc' r :
  leadingFraction x sc o s = (v, sc', r) -> (String.length r <= String.length s)%nat.
Proof.
  revert x sc o. induction s as [|c s IH]; intros x sc o; simpl; [by intros [= <- <- <-]|].
  destruct (is_digit c); [|by intros [= <- <- <-]].
  destruct o; [intros H%IH; lia|].
  destruct (Z.ltb _ _); [intros H%IH; lia|].
  destruct (Z.ltb _ _); intros H%IH; lia.
Qed.

Lemma split_unit_length s u r :
  split_unit s = (u, r) -> String.length s = (String.length u + String.length r)%nat.
Proof.
  revert u r. induction s as [|c s IH]; intros u r; simpl; [by intros [= <- <-]|].
  destruct (_ || _)%bool; [by intros [= <- <-]|].
  destruct (split_unit s) as [u' r'] eqn:E. intros [= <- <-]. simpl. by rewrite (IH u' r').
Qed.

(** Every term of a duration consumes at least one byte. *)
Lemma duration_term_length s v r :
  duration_term s = Some (v, r) -> (String.length r < String.length s)%nat.
Proof.
  unfold duration_term. destruct (begins_number s); [|done].
  destruct (leadingInt 0 s) as [[v1 s1]|] eqn:E1; [|done]. apply leadingInt_length in E1.
  intros H.
  assert (exists f sc s2 post,
            match s1 with
            | String c s1' => if Ascii.eqb c "." then
                 let '(f, scale, r) := leadingFraction 0 1 false s1' in (f, scale, r, begins_digit s1')
               else (0, 1, s1, false)
            | EmptyString => (0, 1, s1, false) end = (f, sc, s2, post)
            /\ (String.length s2 <= String.length s1)%nat) as (f & sc & s2 & post & E2 & Hl).
  { destruct s1 as [|c s1']; [by repeat eexists|].
    destruct (Ascii.eqb c "."); [|by repeat eexists].
    destruct (leadingFraction 0 1 false s1') as [[f sc] r2] eqn:E.
    apply leadingFraction_length in E. do 4 eexists. split; [done|]. simpl. lia. }
  rewrite E2 in H. destruct (_ && _)%bool; [done|].
  destruct (split_unit s2) as [u s3] eqn:E3. apply split_unit_length in E3.
  destruct (String.eqb_spec u ""); [done|]. destruct u as [|? u]; [done|]. simpl in E3.
  destruct (unitMap _); [|done]. destruct (Z.ltb _ _); [done|].
  destruct (_ && _)%bool; [done|]. injection H as <- <-. lia.
Qed.

(** The loop ends before its fuel does: any fuel that covers the string gives the same answer. *)
Lemma duration_loop_fuel n m d s :
  (String.length s <= n)%nat -> (String.length s <= m)%nat ->
  duration_loop n d s = duration_loop m d s.
Proof.
  revert m d s. induction n as [|n IH]; intros m d s Hn Hm.
  - destruct s; [by destruct m|simpl in Hn; lia].
  - destruct s as [|c s]; [by destruct m|]. destruct m as [|m]; [simpl in Hm; lia|].
    cbn [duration_loop]. destruct (duration_term (String c s)) as [[v r]|] eqn:E; [|done].
    apply duration_term_length in E. destruct (Z.ltb _ _); [done|]. apply IH; lia.
Qed.

Lemma duration_loop_range n d s d' :
  0 <= d <= 2 ^ 63 -> duration_loop n d s = Some d' -> 0 <= d' <= 2 ^ 63.
Proof.
  revert d s. induction n as [|n IH]; intros d s Hd; destruct s as [|c s]; cbn [duration_loop];
    try (intros [= <-]; done); try done.
  destruct (duration_term _) as [[v r]|]; [|done].
  destruct (Z.ltb_spec (2 ^ 63) ((d + v) mod 2 ^ 64)); [done|]. apply IH.
  pose proof (Z.mod_pos_bound (d + v) (2 ^ 64)). lia.
Qed.

(** A parsed duration fits an int64. *)
Lemma ParseDuration_int64 s d : ParseDuration s = Some d -> int64_min <= d <= int64_max.
Proof.
  unfold ParseDuration, int64_min, int64_max.
  set (p := match s with EmptyString => _ | String _ _ => _ end). destruct p as [neg s1].
  destruct (s1 =s? "0"); [intros [= <-]; lia|]. destruct (s1 =s? ""); [done|].
  destruct (duration_loop _ 0 s1) as [d0|] eqn:E; [|done].
  apply duration_loop_range in E; [|lia].
  destruct neg; [intros [= <-]; lia|].
  destruct (Z.ltb_spec (2 ^ 63 - 1) d0); [done|]. intros [= <-]; lia.
Qed.
