(* ===== verification/Sha256.v ===== *)
(** * SHA-256 and hexadecimal encoding

    Go's [crypto/sha256.Sum256] and [encoding/hex.EncodeToString], on 32-bit
    words kept in [Z].  The examples are the published test vectors. *)

From S2P Require Import Prelude GoStrings.

Local Open Scope Z_scope.

(** ** 32-bit words *)

Definition w32 (z : Z) : Z := Z.land z (Z.ones 32).
Definition rotr (n x : Z) : Z := Z.lor (Z.shiftr x n) (w32 (Z.shiftl x (32 - n))).

Definition Ch (x y z : Z) : Z := Z.lxor (Z.land x y) (Z.land (Z.lxor x (Z.ones 32)) z).
Definition Maj (x y z : Z) : Z := Z.lxor (Z.lxor (Z.land x y) (Z.land x z)) (Z.land y z).
Definition Sigma0 (x : Z) : Z := Z.lxor (Z.lxor (rotr 2 x) (rotr 13 x)) (rotr 22 x).
Definition Sigma1 (x : Z) : Z := Z.lxor (Z.lxor (rotr 6 x) (rotr 11 x)) (rotr 25 x).
Definition sigma0 (x : Z) : Z := Z.lxor (Z.lxor (rotr 7 x) (rotr 18 x)) (Z.shiftr x 3).
Definition sigma1 (x : Z) : Z := Z.lxor (Z.lxor (rotr 17 x) (rotr 19 x)) (Z.shiftr x 10).

Definition round_constants : list Z :=
  [1116352408; 1899447441; 3049323471; 3921009573; 961987163; 1508970993;
   2453635748; 2870763221; 3624381080; 310598401; 607225278; 1426881987;
   1925078388; 2162078206; 2614888103; 3248222580; 3835390401; 4022224774;
   264347078; 604807628; 770255983; 1249150122; 1555081692; 1996064986;
   2554220882; 2821834349; 2952996808; 3210313671; 3336571891; 3584528711;
   113926993; 338241895; 666307205; 773529912; 1294757372; 1396182291;
   1695183700; 1986661051; 2177026350; 2456956037; 2730485921; 2820302411;
   3259730800; 3345764771; 3516065817; 3600352804; 4094571909; 275423344;
   430227734; 506948616; 659060556; 883997877; 958139571; 1322822218;
   1537002063; 1747873779; 1955562222; 2024104815; 2227730452; 2361852424;
   2428436474; 2756734187; 3204031479; 3329325298].

Definition initial_hash : list Z :=
  [1779033703; 3144134277; 1013904242; 2773480762; 1359893119; 2600822924;
   528734635; 1541459225].

(** ** Padding and the message schedule *)

(** [n] as [k] bytes, most significant first. *)
Fixpoint be_bytes (k : nat) (n : Z) : list Z :=
  match k with
  | O => []
  | S k' => Z.land (Z.shiftr n (8 * Z.of_nat k')) 255 :: be_bytes k' n
  end.

Definition pad_message (l : list Z) : list Z :=
  let n := Z.of_nat (length l) in
  l ++ [128] ++ replicate (Z.to_nat ((55 - n) mod 64)) 0 ++ be_bytes 8 (8 * n).

(** A big-endian word from four bytes. *)
Fixpoint words_of_bytes (l : list Z) : list Z :=
  match l with
  | a :: b :: c :: d :: l' =>
      (Z.shiftl a 24 + Z.shiftl b 16 + Z.shiftl c 8 + d) :: words_of_bytes l'
  | _ => []
  end.

(** The schedule: [win] holds the last sixteen words, and [n] more are produced. *)
Fixpoint schedule (n : nat) (win : list Z) : list Z :=
  match n with
  | O => []
  | S n' =>
      match win with
      | w0 :: rest =>
          let w1 := nth 0 rest 0 in
          let w9 := nth 8 rest 0 in
          let w14 := nth 13 rest 0 in
          w0 :: schedule n' (rest ++ [w32 (sigma1 w14 + w9 + sigma0 w1 + w0)])
      | [] => []
      end
  end.

(** ** Compression *)

Definition sha_round (h : list Z) (kw : Z * Z) : list Z :=
  match h with
  | [a; b; c; d; e; f; g; hh] =>
      let t1 := hh + Sigma1 e + Ch e f g + kw.1 + kw.2 in
      let t2 := Sigma0 a + Maj a b c in
      [w32 (t1 + t2); a; b; c; w32 (d + t1); e; f; g]
  | _ => h
  end.

Definition sha_block (h block : list Z) : list Z :=
  let h' := foldl sha_round h (zip round_constants (schedule 64 block)) in
  zip_with (fun x y => w32 (x + y)) h h'.

Fixpoint sha_blocks (fuel : nat) (h words : list Z) : list Z :=
  match fuel with
  | O => h
  | S n => match words with
           | [] => h
           | _ => sha_blocks n (sha_block h (take 16 words)) (drop 16 words)
           end
  end.

(** [sha256.Sum256], as its 32 bytes. *)
Definition Sum256 (s : string) : list Z :=
  let words := words_of_bytes (pad_message (bytes_of s)) in
  mjoin (be_bytes 4 <$> sha_blocks (length words) initial_hash words).

(** ** Hexadecimal *)

Definition hex_char (d : Z) : ascii :=
  if d <? 10 then ascii_of_Z (48 + d) else ascii_of_Z (87 + d).

(** [hex.EncodeToString]. *)
Fixpoint hex_EncodeToString (l : list Z) : string :=
  match l with
  | [] => EmptyString
  | b :: l' => String (hex_char (Z.shiftr b 4)) (String (hex_char (Z.land b 15)) (hex_EncodeToString l'))
  end.

(** [binary.BigEndian.Uint64]. *)
Definition BigEndian_Uint64 (l : list Z) : Z :=
  foldl (fun acc b => Z.shiftl acc 8 + b) 0 (take 8 l).

(** ** Test vectors *)

Example sha256_empty :
  hex_EncodeToString (Sum256 "") = "e3b0c44298fc1c149afbf4c8996fb92427ae41e4649b934ca495991b7852b855".
Proof. vm_compute. reflexivity. Qed.

Example sha256_abc :
  hex_EncodeToString (Sum256 "abc") = "ba7816bf8f01cfea414140de5dae2223b00361a396177a9cb410ff61f20015ad".
Proof. vm_compute. reflexivity. Qed.

Example sha256_two_blocks :
  hex_EncodeToString (Sum256 "abcdbcdecdefdefgefghfghighijhijkijkljklmklmnlmnomnopnopq")
  = "248d6a61d20638b8e5c026930c3e6039a33ce45964ff2167f6ecedd419db06c1".
Proof. vm_compute. reflexivity. Qed.

(** ** Lemmas *)

Lemma be_bytes_range k n : Forall (fun b => 0 <= b < 256) (be_bytes k n).
Proof.
  induction k as [|k IH]; constructor; [|done].
  change 255 with (Z.ones 8). rewrite Z.land_ones by lia.
  apply Z.mod_pos_bound. lia.
Qed.

(** The digest is made of bytes. *)
Lemma Sum256_range s : Forall (fun b => 0 <= b < 256) (Sum256 s).
Proof.
  unfold Sum256. induction (sha_blocks _ _ _) as [|w ws IH]; [constructor|].
  change (Forall (fun b => 0 <= b < 256) (be_bytes 4 w ++ mjoin (be_bytes 4 <$> ws))). apply Forall_app. split; [apply be_bytes_range|done].
Qed.

Lemma BigEndian_Uint64_range l :
  Forall (fun b => 0 <= b < 256) l -> 0 <= BigEndian_Uint64 l < 2 ^ 64.
Proof.
  intros Hl. unfold BigEndian_Uint64.
  assert (forall k acc m, (length m <= k)%nat -> Forall (fun b => 0 <= b < 256) m -> 0 <= acc ->
            0 <= foldl (fun acc b => Z.shiftl acc 8 + b) acc m < (acc + 1) * 256 ^ Z.of_nat k) as H.
  { induction k as [|k IH]; intros acc m Hk Hm Ha.
    - destruct m; simpl in *; lia.
    - destruct m as [|b m]; simpl in *.
      + pose proof (Z.pow_pos_nonneg 256 (Z.of_nat (S k))). nia.
      + inversion Hm; subst. rewrite Z.shiftl_mul_pow2 by lia.
        destruct (IH (acc * 2 ^ 8 + b) m) as [? Hlt]; [lia|done|lia|]. split; [done|].
        eapply Z.lt_le_trans; [exact Hlt|].
        replace (Z.of_nat (S k)) with (Z.succ (Z.of_nat k)) by lia.
        rewrite Z.pow_succ_r by lia.
        pose proof (Z.pow_pos_nonneg 256 (Z.of_nat k)). nia. }
  apply (H 8%nat 0 (take 8 l)); [rewrite length_take; lia|by apply Forall_take|lia].
Qed.
