(* ===== verification/Matcher.v ===== *)
(** * Matching a pending Salt key to a VM ([pkg/salt/matcher.go])

    [FindMinionID] picks the pending key that belongs to a VM: by name, by
    IP address or rotated IP address, by the name followed by a dot.  Each
    of the three loops of the source is one [List.find]. *)

From S2P Require Import Prelude GoStrings.

Local Open Scope Z_scope.

(** ** Model *)

Inductive MatchMethod := MatchByName | MatchByIP | MatchByShiftedIP | MatchByPrefix | MatchNone.

(** The string value of each constant. *)
Definition method_string (m : MatchMethod) : string :=
  match m with
  | MatchByName => "name"
  | MatchByIP => "ip"
  | MatchByShiftedIP => "shifted-ip"
  | MatchByPrefix => "prefix"
  | MatchNone => "none"
  end.

#[global] Instance MatchMethod_eq_dec : EqDecision MatchMethod.
Proof. solve_decision. Defined.

Record MatchResult := { MinionID : string; Method : MatchMethod }.

(** One octet of a dotted address, as the loop body checks it. *)
Definition octet_ok (p : string) : bool :=
  if (Nat.eqb (String.length p) 0) || (Nat.ltb 3 (String.length p)) then false
  else match Atoi p with
       | Some n => (0 <=? n) && (n <=? 255)
       | None => false
       end.

Definition shiftFirstOctet (ip : string) : string :=
  if ip =s? "" then ""
  else match Split "." ip with
       | [a; b; c; d] =>
           if forallb octet_ok [a; b; c; d]
           then Join [b; c; d; a] "."
           else ""
       | _ => ""
       end.

Section FindMinionID.
Context `{GoUnicode}.

(** The body of the second loop: the method by which [key] matches an address. *)
Definition ip_method (vmIP shiftedIP key : string) : option MatchMethod :=
  if (vmIP <>s? "") && (key =s? vmIP) then Some MatchByIP
  else if (shiftedIP <>s? "") && (key =s? shiftedIP) then Some MatchByShiftedIP
  else None.

Definition prefix_matches (vmName key : string) : bool :=
  (vmName <>s? "") && HasPrefix (ToLower key) (ToLower vmName +:+ ".").

(** The second loop: the first key that matches either address. *)
Fixpoint find_ip (vmIP shiftedIP : string) (keys : list string) : option MatchResult :=
  match keys with
  | [] => None
  | key :: keys' =>
      match ip_method vmIP shiftedIP key with
      | Some m => Some {| MinionID := key; Method := m |}
      | None => find_ip vmIP shiftedIP keys'
      end
  end.

Definition FindMinionID (vmName vmIP : string) (pendingKeys : list string) : MatchResult :=
  let shiftedIP := shiftFirstOctet vmIP in
  match List.find (fun key => EqualFold key vmName) pendingKeys with
  | Some key => {| MinionID := key; Method := MatchByName |}
  | None =>
      match find_ip vmIP shiftedIP pendingKeys with
      | Some r => r
      | None =>
          match List.find (prefix_matches vmName) pendingKeys with
          | Some key => {| MinionID := key; Method := MatchByPrefix |}
          | None => {| MinionID := ""; Method := MatchNone |}
          end
      end
  end.

(** The contract of each method: when the key [key] may be taken for the VM. *)
Definition key_matches (vmName vmIP key : string) (m : MatchMethod) : Prop :=
  match m with
  | MatchByName => EqualFold key vmName = true
  | MatchByIP => vmIP <> "" /\ key = vmIP
  | MatchByShiftedIP => shiftFirstOctet vmIP <> "" /\ key = shiftFirstOctet vmIP /\ key <> vmIP
  | MatchByPrefix => vmName <> "" /\ HasPrefix (ToLower key) (ToLower vmName +:+ ".") = true
  | MatchNone => False
  end.

(** The rank of a method, in the documented order. *)
Definition method_rank (m : MatchMethod) : nat :=
  match m with
  | MatchByName => 0
  | MatchByIP => 1
  | MatchByShiftedIP => 2
  | MatchByPrefix => 3
  | MatchNone => 4
  end.

(** No key with the rotated address is listed before the one with the address itself. *)
Definition address_first (vmIP : string) (keys : list string) : Prop :=
  forall l1 l2, keys = l1 ++ shiftFirstOctet vmIP :: l2 -> vmIP ∈ keys ->
    shiftFirstOctet vmIP <> vmIP -> vmIP ∈ l1.

(** No key of [keys] matches with a method of rank below [n]. *)
Definition none_below (vmName vmIP : string) (n : nat) (keys : list string) : Prop :=
  forall k m, k ∈ keys -> key_matches vmName vmIP k m -> (n <= method_rank m)%nat.

(** ** Lemmas *)

Lemma ip_method_Some vmName vmIP key m :
  ip_method vmIP (shiftFirstOctet vmIP) key = Some m ->
  key_matches vmName vmIP key m /\ (m = MatchByIP \/ m = MatchByShiftedIP).
Proof.
  unfold ip_method. intros Hm.
  destruct (String.eqb_spec vmIP ""), (String.eqb_spec key vmIP),
    (String.eqb_spec (shiftFirstOctet vmIP) ""), (String.eqb_spec key (shiftFirstOctet vmIP));
    simpl in Hm; simplify_eq/=; auto; split; auto; repeat split; congruence.
Qed.

Lemma ip_method_None vmIP key :
  ip_method vmIP (shiftFirstOctet vmIP) key = None <->
  ~ (vmIP <> "" /\ key = vmIP) /\
  ~ (shiftFirstOctet vmIP <> "" /\ key = shiftFirstOctet vmIP).
Proof.
  unfold ip_method.
  destruct (String.eqb_spec vmIP ""), (String.eqb_spec key vmIP),
    (String.eqb_spec (shiftFirstOctet vmIP) ""), (String.eqb_spec key (shiftFirstOctet vmIP));
    simpl; split; intros; try done; try split; try tauto; deex; tauto.
Qed.

Lemma find_ip_first vmIP shiftedIP keys r :
  find_ip vmIP shiftedIP keys = Some r ->
  exists l1 l2, keys = l1 ++ MinionID r :: l2 /\ ip_method vmIP shiftedIP (MinionID r) = Some (Method r)
    /\ Forall (fun k => ip_method vmIP shiftedIP k = None) l1.
Proof.
  induction keys as [|k keys IH]; simpl; [done|].
  destruct (ip_method vmIP shiftedIP k) eqn:E.
  - intros [= <-]. by exists [], keys.
  - intros (l1 & l2 & -> & ? & ?)%IH. exists (k :: l1), l2. repeat split; auto.
Qed.

Lemma find_ip_None vmIP shiftedIP keys :
  find_ip vmIP shiftedIP keys = None -> Forall (fun k => ip_method vmIP shiftedIP k = None) keys.
Proof.
  induction keys as [|k keys IH]; simpl; [done|].
  destruct (ip_method vmIP shiftedIP k) eqn:E; [done|]. auto.
Qed.

Lemma none_below_0 vmName vmIP keys : none_below vmName vmIP 0 keys.
Proof. intros k m _ _. lia. Qed.

Lemma none_below_step vmName vmIP n keys :
  none_below vmName vmIP n keys ->
  (forall k m, k ∈ keys -> method_rank m = n -> ~ key_matches vmName vmIP k m) ->
  none_below vmName vmIP (S n) keys.
Proof.
  intros Hb Hn k m Hk Hm. specialize (Hb k m Hk Hm).
  destruct (decide (method_rank m = n)) as [E|]; [|lia]. by destruct (Hn k m Hk E).
Qed.

Lemma prefix_matches_true vmName vmIP key :
  prefix_matches vmName key = true -> key_matches vmName vmIP key MatchByPrefix.
Proof. unfold prefix_matches. simpl. intros. by reflect_bools. Qed.

Lemma no_name_rank vmName vmIP keys :
  Forall (fun k => EqualFold k vmName = false) keys -> none_below vmName vmIP 1 keys.
Proof.
  intros Hf. apply none_below_step; [apply none_below_0|].
  intros k m Hk Hm HM. rewrite Forall_forall in Hf. specialize (Hf k Hk).
  destruct m; simpl in *; congruence || lia.
Qed.

Lemma no_ip_rank vmName vmIP keys :
  none_below vmName vmIP 1 keys ->
  Forall (fun k => ip_method vmIP (shiftFirstOctet vmIP) k = None) keys ->
  none_below vmName vmIP 3 keys.
Proof.
  intros Hb Hf. apply none_below_step; [apply none_below_step; [done|]|].
  all: intros k m Hk Hm HM; rewrite Forall_forall in Hf; specialize (Hf k Hk);
    apply ip_method_None in Hf as [? ?]; destruct m; simpl in *; lia || tauto.
Qed.

Lemma no_prefix_rank vmName vmIP keys :
  none_below vmName vmIP 3 keys ->
  Forall (fun k => prefix_matches vmName k = false) keys ->
  none_below vmName vmIP 4 keys.
Proof.
  intros Hb Hf. apply none_below_step; [done|].
  intros k m Hk Hm HM. rewrite Forall_forall in Hf. specialize (Hf k Hk).
  destruct m; simpl in *; try lia. destruct HM as [Hne HM].
  unfold prefix_matches in Hf. rewrite HM in Hf. apply String.eqb_neq in Hne.
  by rewrite Hne in Hf.
Qed.

Lemma find_ip_rank vmName vmIP keys r :
  find_ip vmIP (shiftFirstOctet vmIP) keys = Some r ->
  none_below vmName vmIP 1 keys -> address_first vmIP keys ->
  Method r <> MatchNone /\ key_matches vmName vmIP (MinionID r) (Method r) /\
  exists l1 l2, keys = l1 ++ MinionID r :: l2 /\
    none_below vmName vmIP (method_rank (Method r)) keys /\
    none_below vmName vmIP (S (method_rank (Method r))) l1.
Proof.
  intros (l1 & l2 & Hk & Hm & Hl)%find_ip_first Hb Ho.
  destruct (ip_method_Some vmName _ _ _ Hm) as [HM Hr].
  assert (none_below vmName vmIP 3 l1) as Hl3.
  { apply no_ip_rank; [|done]. intros k m Hin. apply Hb. rewrite Hk. set_solver. }
  split; [by destruct Hr as [-> | ->]|]. split; [done|]. exists l1, l2. split; [done|]. clear Hm.
  destruct Hr as [Hr|Hr]; rewrite Hr in *; simpl; split.
  - done.
  - intros k m Hin Hkm. specialize (Hl3 k m Hin Hkm). lia.
  - destruct HM as (Hs & Hid & Hne). apply none_below_step; [done|]. intros k m Hin Hm1 Hkm.
    destruct m; try done. destruct Hkm as [Hip ->]. rewrite Hid in Hk, Hne.
    specialize (Ho l1 l2 Hk Hin Hne). specialize (Hl3 vmIP MatchByIP Ho (conj Hip eq_refl)). simpl in Hl3. lia.
  - done.
Qed.

(** A matched key is one of the keys and matches by the method it is returned with. *)
Lemma FindMinionID_matches vmName vmIP keys :
  let r := FindMinionID vmName vmIP keys in
  Method r <> MatchNone -> MinionID r ∈ keys /\ key_matches vmName vmIP (MinionID r) (Method r).
Proof.
  unfold FindMinionID. cbv zeta.
  destruct (List.find _ keys) as [k|] eqn:En.
  { apply find_first in En as (l1 & l2 & -> & Hk & _). simpl. split; [set_solver|done]. }
  destruct (find_ip _ _ keys) as [r|] eqn:Ei.
  { apply find_ip_first in Ei as (l1 & l2 & -> & Hm & _). split; [set_solver|].
    by apply (ip_method_Some vmName) in Hm as [? _]. }
  destruct (List.find (prefix_matches vmName) keys) as [k|] eqn:Ep; [|done].
  apply find_first in Ep as (l1 & l2 & -> & Hk & _). simpl. split; [set_solver|].
  by apply (prefix_matches_true _ vmIP).
Qed.

Lemma key_matches_nonempty vmName vmIP key m :
  vmName <> "" -> key_matches vmName vmIP key m -> key <> "".
Proof.
  intros Hn Hm ->. destruct m; simpl in Hm; deex; try congruence; destruct vmName; try done.
  by destruct (ToLower _).
Qed.

(** C36: A VM is given a pending key exactly when one matches it, and the key it is given is one of
    the pending keys, matches by the method it is returned with (equal name up to case, the IP
    address, the rotated IP address, the name followed by a dot), and no pending key matches by a
    method documented before it, nor an earlier one by the same method: name before address before
    rotated address before prefix. For the last two of these the key with the address must not be
    listed after one with the rotated address, which the loop would take (a finding). *)
Theorem FindMinionID_correct (vmName vmIP : string) (keys : list string) (Horder : address_first vmIP keys) :
  let r := FindMinionID vmName vmIP keys in
  (Method r = MatchNone ->
     MinionID r = "" /\ forall k m, k ∈ keys -> ~ key_matches vmName vmIP k m) /\
  (Method r <> MatchNone ->
     key_matches vmName vmIP (MinionID r) (Method r) /\
     exists l1 l2, keys = l1 ++ MinionID r :: l2 /\
       none_below vmName vmIP (method_rank (Method r)) keys /\
       none_below vmName vmIP (S (method_rank (Method r))) l1).
Proof.
  unfold FindMinionID. cbv zeta.
  destruct (List.find _ keys) as [k|] eqn:En.
  { apply find_first in En as (l1 & l2 & -> & Hk & Hl).
    split; [done|]. split; [done|]. exists l1, l2.
    split; [done|]. split; [apply none_below_0|]. by apply no_name_rank. }
  apply find_none_Forall in En. apply (no_name_rank _ vmIP) in En as Hb1.
  destruct (find_ip _ _ keys) as [r|] eqn:Ei.
  { destruct (find_ip_rank vmName _ _ _ Ei Hb1 Horder) as (Hne & ? & ?). by split. }
  apply find_ip_None in Ei. apply (no_ip_rank _ _ _ Hb1) in Ei as Hb2.
  destruct (List.find (prefix_matches vmName) keys) as [k|] eqn:Ep.
  - apply find_first in Ep as (l1 & l2 & -> & Hk & Hl). split; [done|]. simpl.
    split; [by apply (prefix_matches_true _ vmIP)|]. exists l1, l2.
    do 2 (split; [done|]). apply no_prefix_rank; [|done].
    intros k' m Hin. apply Hb2. set_solver.
  - apply find_none_Forall in Ep. apply (no_prefix_rank _ _ _ Hb2) in Ep as Hb3.
    split; [|done]. intros _. split; [done|].
    intros k m Hk Hm. specialize (Hb3 k m Hk Hm). destruct m; simpl in *; done || lia.
Qed.

End FindMinionID.

(** ** Rotating an address *)

Lemma shiftFirstOctet_valid a b c d :
  forallb octet_ok [a; b; c; d] = true ->
  forallb (no_byte ".") [a; b; c; d] = true ->
  shiftFirstOctet (Join [a; b; c; d] ".") = Join [b; c; d; a] ".".
Proof.
  intros Ho Hn. unfold shiftFirstOctet.
  rewrite Split_Join; [|done|by apply List.Forall_forall, List.forallb_forall, Hn].
  rewrite Ho. destruct (String.eqb_spec (Join [a; b; c; d] ".") EmptyString); [|done].
  cbn [forallb] in Ho. destruct a; [done|]. done.
Qed.

Lemma shiftFirstOctet_inv ip :
  shiftFirstOctet ip <> "" ->
  exists a b c d, ip = Join [a; b; c; d] "." /\
    forallb octet_ok [a; b; c; d] = true /\ forallb (no_byte ".") [a; b; c; d] = true.
Proof.
  unfold shiftFirstOctet. destruct (ip =s? ""); [done|].
  pose proof (Join_Split "." ip) as HJ. pose proof (Split_parts_no_sep "." ip) as HN.
  destruct (Split "." ip) as [|a [|b [|c [|d [|]]]]]; try done.
  destruct (forallb octet_ok [a; b; c; d]) eqn:Ho; [|done]. intros _.
  exists a, b, c, d. repeat split; try done.
  apply List.forallb_forall, List.Forall_forall, HN.
Qed.

Lemma forallb_rotate {A} (p : A -> bool) a b c d :
  forallb p [a; b; c; d] = true -> forallb p [b; c; d; a] = true.
Proof. simpl. intros. reflect_bools. repeat (apply andb_true_iff; split); auto. Qed.

(** Rotating an address is a true rotation: four rotations of a well-formed dotted address give
    it back, so different VM addresses never claim the same rotated key. *)
Theorem shiftFirstOctet_rotates (ip : string) :
  shiftFirstOctet ip <> "" ->
  shiftFirstOctet (shiftFirstOctet (shiftFirstOctet (shiftFirstOctet ip))) = ip.
Proof.
  intros (a & b & c & d & -> & Ho & Hn)%shiftFirstOctet_inv.
  rewrite !shiftFirstOctet_valid; auto using forallb_rotate.
Qed.

(** Both addresses are tried key by key: when a rotated address is pending before the exact
    one, the rotated key is taken although the exact key is there. *)
Theorem shifted_ip_before_exact_ip `{GoUnicode} :
  FindMinionID "web" "10.0.0.7" ["0.0.7.10"; "10.0.0.7"]
  = {| MinionID := "0.0.7.10"; Method := MatchByShiftedIP |}
  /\ key_matches "web" "10.0.0.7" "10.0.0.7" MatchByIP.
Proof. by vm_compute. Qed.

(** At the address 10.20.30.40. *)
Lemma shiftFirstOctet_rotates_witness :
  shiftFirstOctet "10.20.30.40" = "20.30.40.10"
  /\ shiftFirstOctet (shiftFirstOctet (shiftFirstOctet (shiftFirstOctet "10.20.30.40"))) = "10.20.30.40".
Proof.
  split; [reflexivity|]. apply (shiftFirstOctet_rotates "10.20.30.40"). vm_compute. discriminate.
Defined.

Section Witness.
#[local] Existing Instance ascii_only.

(** C36 at a VM with three keys pending: the exact address wins over the rotated one and over the prefix. *)
Lemma FindMinionID_correct_witness :
  let keys := ["web.example"; "10.0.0.7"; "0.0.7.10"] in
  address_first "10.0.0.7" keys
  /\ FindMinionID "web" "10.0.0.7" keys = {| MinionID := "10.0.0.7"; Method := MatchByIP |}
  /\ key_matches "web" "10.0.0.7" "10.0.0.7" MatchByIP.
Proof.
  intros keys. assert (address_first "10.0.0.7" keys) as Ho.
  { intros l1 l2 E _ _. destruct l1 as [|a [|b l1]]; vm_compute in E; [done..|]. injection E as _ <- _. set_solver. }
  assert (FindMinionID "web" "10.0.0.7" keys = {| MinionID := "10.0.0.7"; Method := MatchByIP |}) as E by by vm_compute.
  split; [exact Ho|]. split; [exact E|]. pose proof (FindMinionID_correct "web" "10.0.0.7" keys Ho) as Hc.
  cbv zeta in Hc. rewrite E in Hc. destruct Hc as [_ Hc]. apply Hc. discriminate.
Defined.

End Witness.
