(* ===== verification/Api.v ===== *)
(** * The operator's data: errors, API objects, Salt results

    The Go types of [api/v1alpha1], of [pkg/salt] and of the Kubernetes
    objects the controllers read and write, as records and inductive types.
    A VirtualMachine is handled by the code as an unstructured object; [VM]
    holds the fields it reads or writes, and [vm_rest] everything else.
    Functions of the Kubernetes libraries are the parameter [K8sLib]. *)

From Stdlib Require Import SpecFloat.
From S2P Require Import Prelude GoStrings.

#[local] Set Warnings "-register-all".

Local Open Scope Z_scope.

(** ** Errors and messages *)

(** The reasons of an API error the code tells apart. *)
Inductive api_reason := NotFound | AlreadyExists | OtherReason.

(** A formatted text is kept as its format and its arguments: no code reads the rendered text. *)
Inductive error :=
| EApi (r : api_reason) (text : string)
| EText (m : message)
| ERaas (Reason : string) (Message : message)
with message :=
| Msg (format : string) (args : list farg)
with farg :=
| FStr (s : string)
| FInt (z : Z)
| FDur (d : Z)
| FErr (e : error)   (* %v *)
| FWrap (e : error). (* %w *)

(** [fmt.Errorf] and [errors.New]. *)
Definition Errorf (format : string) (args : list farg) : error := EText (Msg format args).

(** The API status an error carries, through the errors it wraps. *)
Fixpoint ReasonForError (e : error) : option api_reason :=
  match e with
  | EApi r _ => Some r
  | EText (Msg _ args) =>
      (fix go (l : list farg) : option api_reason :=
         match l with
         | [] => None
         | FWrap e' :: _ => ReasonForError e'
         | _ :: l' => go l'
         end) args
  | ERaas _ _ => None
  end.

Definition IsNotFound (e : error) : bool :=
  match ReasonForError e with Some NotFound => true | _ => false end.
Definition IsAlreadyExists (e : error) : bool :=
  match ReasonForError e with Some AlreadyExists => true | _ => false end.

(** A Go pair of a value and an error. *)
Inductive res (A : Type) := Ok (a : A) | Err (e : error).
Arguments Ok {A} a.
Arguments Err {A} e.

(** [client.IgnoreNotFound]: the error, unless it says the object is gone. *)
Definition IgnoreNotFound (e : option error) : option error :=
  match e with Some e => if IsNotFound e then None else Some e | None => None end.

(** ** Decoded JSON *)

(** A value of Go type [any] as [encoding/json] decodes one; object keys are distinct. *)
Inductive any :=
| ANull
| ABool (b : bool)
| ANum (f : spec_float)
| AStr (s : string)
| AList (l : list any)
| AMap (m : list (string * any)).

(** [m[k]] on a [map[string]any]. *)
Fixpoint alookup (k : string) (m : list (string * any)) : option any :=
  match m with
  | [] => None
  | (k', v) :: m' => if k =s? k' then Some v else alookup k m'
  end.

(** The type assertions [v.(map[string]any)], [v.(string)], [v.(bool)]. *)
Definition as_map (v : any) : option (list (string * any)) :=
  match v with AMap m => Some m | _ => None end.
Definition as_str (v : any) : option string :=
  match v with AStr s => Some s | _ => None end.
Definition as_bool (v : any) : option bool :=
  match v with ABool b => Some b | _ => None end.
Definition as_list (v : any) : option (list any) :=
  match v with AList l => Some l | _ => None end.

(** [m[k] == s] for a string constant [s]. *)
Definition field_is (m : list (string * any)) (k s : string) : bool :=
  match alookup k m with Some (AStr t) => t =s? s | _ => false end.

(** ** SaltKeyConfig ([api/v1alpha1/saltkeyconfig_types.go]) *)

Definition KeyAcceptanceDiscovery : string := "discovery".
Definition KeyAcceptancePreseed : string := "preseed".

(** The label of the objects the operator makes ([internal/controller/enrolment_controller.go]). *)
Definition LabelManagedBy : string := "salt.vcf.io/managed-by".
Definition ManagedByOperator : string := "vcf-salt-operator".

(** [metav1.LabelSelector]. *)
Record LabelSelectorRequirement := { lsr_Key : string; lsr_Operator : string; lsr_Values : list string }.
Record LabelSelector := {
  MatchLabels : gmap string string;
  MatchExpressions : list LabelSelectorRequirement;
}.

Record SaltKeyConfigSpec := {
  RaasURL : string;
  CredentialsSecret : string;
  KeyAcceptance : string;
  AcceptTimeout : string;
  RequeueInterval : string;
  MasterID : string;
  SkipTLSVerify : bool;
  VMSelector : option LabelSelector;
  RetryToken : string;
  EnforcementInterval : string;
}.

(** [metav1.Condition]. *)
Record Condition := {
  c_Type : string;
  c_Status : string;
  c_ObservedGeneration : Z;
  c_LastTransitionTime : option Z; (* None: the zero time *)
  c_Reason : string;
  c_Message : message;
}.

Definition ConditionTrue : string := "True".
Definition ConditionFalse : string := "False".

Record SaltKeyConfigStatus := {
  ObservedGeneration : Z;
  Conditions : list Condition;
}.

Record SaltKeyConfig := {
  cfg_Name : string;
  cfg_Namespace : string;
  cfg_Labels : gmap string string;
  cfg_ResourceVersion : string;
  cfg_Generation : Z;
  cfg_Spec : SaltKeyConfigSpec;
  cfg_Status : SaltKeyConfigStatus;
}.

(** ** Kubernetes objects *)

Record VM := {
  vm_name : string;
  vm_namespace : string;
  vm_uid : string;
  vm_apiVersion : string;
  vm_kind : string;
  vm_labels : gmap string string;
  vm_annotations : option (gmap string string); (* None: the field is absent *)
  vm_finalizers : list string;
  vm_deletionTimestamp : option string;
  vm_resourceVersion : option string;
  vm_managedFields : option any;
  vm_guestInfo : list any;          (* spec.readinessProbe.guestInfo *)
  vm_conditions : list any;         (* status.conditions *)
  vm_phase : string;                (* status.phase, empty when absent *)
  vm_powerState : string;           (* status.powerState *)
  vm_primaryIP4 : string;           (* status.network.primaryIP4 *)
  vm_rest : any;
}.

Definition GetAnnotations (vm : VM) : gmap string string := default ∅ (vm_annotations vm).

Definition set_annotations (a : option (gmap string string)) (vm : VM) : VM :=
  {| vm_name := vm_name vm; vm_namespace := vm_namespace vm; vm_uid := vm_uid vm;
     vm_apiVersion := vm_apiVersion vm; vm_kind := vm_kind vm; vm_labels := vm_labels vm;
     vm_annotations := a; vm_finalizers := vm_finalizers vm;
     vm_deletionTimestamp := vm_deletionTimestamp vm;
     vm_resourceVersion := vm_resourceVersion vm; vm_managedFields := vm_managedFields vm;
     vm_guestInfo := vm_guestInfo vm; vm_conditions := vm_conditions vm; vm_phase := vm_phase vm;
     vm_powerState := vm_powerState vm; vm_primaryIP4 := vm_primaryIP4 vm; vm_rest := vm_rest vm |}.

Definition set_finalizers (f : list string) (vm : VM) : VM :=
  {| vm_name := vm_name vm; vm_namespace := vm_namespace vm; vm_uid := vm_uid vm;
     vm_apiVersion := vm_apiVersion vm; vm_kind := vm_kind vm; vm_labels := vm_labels vm;
     vm_annotations := vm_annotations vm; vm_finalizers := f;
     vm_deletionTimestamp := vm_deletionTimestamp vm;
     vm_resourceVersion := vm_resourceVersion vm; vm_managedFields := vm_managedFields vm;
     vm_guestInfo := vm_guestInfo vm; vm_conditions := vm_conditions vm; vm_phase := vm_phase vm;
     vm_powerState := vm_powerState vm; vm_primaryIP4 := vm_primaryIP4 vm; vm_rest := vm_rest vm |}.

Definition set_conditions (c : list any) (vm : VM) : VM :=
  {| vm_name := vm_name vm; vm_namespace := vm_namespace vm; vm_uid := vm_uid vm;
     vm_apiVersion := vm_apiVersion vm; vm_kind := vm_kind vm; vm_labels := vm_labels vm;
     vm_annotations := vm_annotations vm; vm_finalizers := vm_finalizers vm;
     vm_deletionTimestamp := vm_deletionTimestamp vm;
     vm_resourceVersion := vm_resourceVersion vm; vm_managedFields := vm_managedFields vm;
     vm_guestInfo := vm_guestInfo vm; vm_conditions := c; vm_phase := vm_phase vm;
     vm_powerState := vm_powerState vm; vm_primaryIP4 := vm_primaryIP4 vm; vm_rest := vm_rest vm |}.

(** The server-side bookkeeping fields [metadata.resourceVersion] and [metadata.managedFields]. *)
Definition set_bookkeeping (rv : option string) (mf : option any) (vm : VM) : VM :=
  {| vm_name := vm_name vm; vm_namespace := vm_namespace vm; vm_uid := vm_uid vm;
     vm_apiVersion := vm_apiVersion vm; vm_kind := vm_kind vm; vm_labels := vm_labels vm;
     vm_annotations := vm_annotations vm; vm_finalizers := vm_finalizers vm;
     vm_deletionTimestamp := vm_deletionTimestamp vm;
     vm_resourceVersion := rv; vm_managedFields := mf;
     vm_guestInfo := vm_guestInfo vm; vm_conditions := vm_conditions vm; vm_phase := vm_phase vm;
     vm_powerState := vm_powerState vm; vm_primaryIP4 := vm_primaryIP4 vm; vm_rest := vm_rest vm |}.

Record OwnerReference := { or_APIVersion : string; or_Kind : string; or_Name : string; or_UID : string }.

Record Secret := {
  sec_Name : string;
  sec_Namespace : string;
  sec_Labels : gmap string string;
  sec_OwnerReferences : list OwnerReference;
  sec_Type : string;
  sec_Data : gmap string string;
}.

Record Namespace := {
  ns_Name : string;
  ns_Labels : gmap string string;
  ns_deletionTimestamp : option string;
}.

(** ** Results of Salt jobs ([pkg/salt/client.go]) *)

(** [Return] holds the raw JSON of the job's return, decoded. *)
Record JIDResult := {
  jr_MinionID : string;
  jr_JID : string;
  jr_Fun : string;
  jr_Return : any;
  jr_Retcode : Z;
  jr_Success : bool;
}.

Record KeyPair := { kp_Pub : string; kp_Priv : string }.

(** [json.Unmarshal(r.Return, &b)] into a bool: [null] leaves it false. *)
Definition BoolReturn (r : JIDResult) : bool * bool :=
  match jr_Return r with
  | ABool b => (b, true)
  | ANull => (false, true)
  | _ => (false, false)
  end.

Definition HighstateOK (r : JIDResult) : bool := jr_Success r && (jr_Retcode r =? 0).

Section StateResults.
Context `{GoUnicode}.

(** Decoding one object into [struct { Result bool `json:"result"` }]: field names match up to
    case and the last one wins; [None] is a type error. *)
Fixpoint decode_state_fields (acc : bool) (m : list (string * any)) : option bool :=
  match m with
  | [] => Some acc
  | (k, v) :: m' =>
      if EqualFold k "result" then
        match v with
        | ABool b => decode_state_fields b m'
        | ANull => decode_state_fields acc m'
        | _ => None
        end
      else decode_state_fields acc m'
  end.

Definition decode_state (v : any) : option bool :=
  match v with
  | AMap m => decode_state_fields false m
  | ANull => Some false
  | _ => None
  end.

Fixpoint decode_states (m : list (string * any)) : option (list (string * bool)) :=
  match m with
  | [] => Some []
  | (id, v) :: m' =>
      match decode_state v, decode_states m' with
      | Some b, Some l => Some ((id, b) :: l)
      | _, _ => None
      end
  end.

(** The IDs of the failed states, sorted; none when the return is not a map of states. *)
Definition FailedStateIDs (r : JIDResult) : list string :=
  match jr_Return r with
  | AMap m =>
      match decode_states m with
      | Some states => sort_Strings ((filter (fun p => snd p = false) states).*1)
      | None => []
      end
  | _ => []
  end.

End StateResults.

(** ** The Kubernetes libraries *)

(** [labels.Selector]. *)
Record Selector := { sel_Empty : bool; sel_Matches : gmap string string -> bool }.

Class K8sLib := {
  IsStatusConditionTrue : list Condition -> string -> bool;
  SetStatusCondition : Z -> list Condition -> Condition -> list Condition; (* with the clock it reads *)
  LabelSelectorAsSelector : LabelSelector -> res Selector;
  ContainsFinalizer : list string -> string -> bool;
  AddFinalizer : list string -> string -> list string;
  RemoveFinalizer : list string -> string -> list string;
  DeepEqual : VM -> VM -> bool;
}.

(** What the documentation of these functions promises. *)
Class K8sLibLaws `{K8sLib} := {
  status_condition_set now c cs : IsStatusConditionTrue (SetStatusCondition now cs c) (c_Type c)
                                  = (c_Status c =s? ConditionTrue);
  status_condition_other now c cs t : t <> c_Type c ->
    IsStatusConditionTrue (SetStatusCondition now cs c) t = IsStatusConditionTrue cs t;
  status_condition_again now now' c cs : c_LastTransitionTime c = None ->
    SetStatusCondition now' (SetStatusCondition now cs c) c = SetStatusCondition now cs c;
  contains_finalizer f fs : ContainsFinalizer fs f = true <-> f ∈ fs;
  add_finalizer f fs g : g ∈ AddFinalizer fs f <-> g ∈ fs \/ g = f;
  remove_finalizer f fs g : g ∈ RemoveFinalizer fs f <-> g ∈ fs /\ g <> f;
  deep_equal a b : DeepEqual a b = true <-> a = b;
}.

(** [cfg.IsReady()]. *)
Definition IsReady `{K8sLib} (cfg : SaltKeyConfig) : bool :=
  IsStatusConditionTrue (Conditions (cfg_Status cfg)) "Ready".

(** ** Decidable equality *)

#[global] Instance spec_float_eq_dec : EqDecision spec_float.
Proof. solve_decision. Defined.

#[global] Instance any_eq_dec : EqDecision any.
Proof.
  refine (fix go (a b : any) {struct a} : Decision (a = b) :=
    match a, b with
    | ANull, ANull => left eq_refl
    | ABool x, ABool y => cast_if (decide (x = y))
    | ANum x, ANum y => cast_if (decide (x = y))
    | AStr x, AStr y => cast_if (decide (x = y))
    | AList x, AList y => cast_if (@list_eq_dec _ go x y)
    | AMap x, AMap y => cast_if (@list_eq_dec _ (fun p q => @prod_eq_dec _ _ _ go p q) x y)
    | _, _ => right _
    end); abstract congruence.
Defined.

#[global] Instance VM_eq_dec : EqDecision VM.
Proof. solve_decision. Defined.

#[global] Instance OwnerReference_eq_dec : EqDecision OwnerReference.
Proof. solve_decision. Defined.

#[global] Instance Secret_eq_dec : EqDecision Secret.
Proof. solve_decision. Defined.
