(* ===== verification/Effects.v ===== *)
(** * Effects: the calls the operator makes and the monad that runs them

    Everything outside the program is reached through a [call]: the clock,
    the Kubernetes API server, the event recorder and the [salt.Client]
    interface.  [Env] answers calls and is a parameter of every operation,
    so a theorem over all [Env] covers every answer, failures included.  An
    operation is a function from a state to a result, the list of calls it
    made with their answers, and the new state. *)

From S2P Require Import Prelude GoStrings Api.

Local Open Scope Z_scope.

(** ** Calls *)

(** [C] is the type of client handles, the values of interface type [salt.Client]. *)
Inductive call (C : Type) :=
(* time.Now *)
| CNow
(* client.Client, VirtualMachines; a namespace of None lists every namespace *)
| CGetVM (ns name : string)
| CListVMs (ns : option string)
| CPatchVM (base modified : VM)
(* client.Client, Secrets *)
| CGetSecret (ns name : string)
| CCreateSecret (s : Secret)
| CUpdateSecret (s : Secret)
| CPatchSecretData (ns name : string) (data : gmap string string)
(* client.Client, SaltKeyConfigs *)
| CGetConfig (ns name : string)
| CListConfigs (ns : option string)
| CListConfigsLabelled (key value : string)
| CCreateConfig (cfg : SaltKeyConfig)
| CPatchConfig (base modified : SaltKeyConfig)
| CPatchConfigStatus (base modified : SaltKeyConfig)
| CDeleteConfig (cfg : SaltKeyConfig)
(* client.Client, Namespaces *)
| CGetNamespace (name : string)
(* record.EventRecorder *)
| CEvent (obj : VM) (eventtype reason : string) (m : message)
(* SaltClientFactory and salt.Client *)
| CNewClient (raasURL username password masterID : string) (skipTLS : bool)
| CLogin (c : C)
| CListPendingKeys (c : C)
| CListAcceptedKeys (c : C)
| CAcceptKey (c : C) (minionID : string)
| CDeleteKey (c : C) (minionID : string)
| CTestPing (c : C) (minionID : string)
| CRefreshPillar (c : C) (minionID : string)
| CDispatchHighstate (c : C) (minionID : string)
| CPollJID (c : C) (minionID jid : string)
| CMasterLastSeen (c : C)
| CKeyStates (c : C) (minionID : string)
| CGenAcceptKey (c : C) (minionID : string) (force : bool)
| CMasterPublicKey (c : C).

Arguments CNow {C}.
Arguments CGetVM {C}.
Arguments CListVMs {C}.
Arguments CPatchVM {C}.
Arguments CGetSecret {C}.
Arguments CCreateSecret {C}.
Arguments CUpdateSecret {C}.
Arguments CPatchSecretData {C}.
Arguments CGetConfig {C}.
Arguments CListConfigs {C}.
Arguments CListConfigsLabelled {C}.
Arguments CCreateConfig {C}.
Arguments CPatchConfig {C}.
Arguments CPatchConfigStatus {C}.
Arguments CDeleteConfig {C}.
Arguments CGetNamespace {C}.
Arguments CEvent {C}.
Arguments CNewClient {C}.
Arguments CLogin {C}.
Arguments CListPendingKeys {C}.
Arguments CListAcceptedKeys {C}.
Arguments CAcceptKey {C}.
Arguments CDeleteKey {C}.
Arguments CTestPing {C}.
Arguments CRefreshPillar {C}.
Arguments CDispatchHighstate {C}.
Arguments CPollJID {C}.
Arguments CMasterLastSeen {C}.
Arguments CKeyStates {C}.
Arguments CGenAcceptKey {C}.
Arguments CMasterPublicKey {C}.

(** The type of the answer to a call; [option error] is a Go [error], [None] for nil. *)
Definition resp {C} (c : call C) : Type :=
  match c with
  | CNow => Z
  | CGetVM _ _ => res VM
  | CListVMs _ => res (list VM)
  | CPatchVM _ _ => res VM
  | CGetSecret _ _ => res Secret
  | CCreateSecret _ | CUpdateSecret _ | CPatchSecretData _ _ _ => option error
  | CGetConfig _ _ => res SaltKeyConfig
  | CListConfigs _ | CListConfigsLabelled _ _ => res (list SaltKeyConfig)
  | CCreateConfig _ | CDeleteConfig _ => option error
  | CPatchConfig _ _ | CPatchConfigStatus _ _ => res SaltKeyConfig
  | CGetNamespace _ => res Namespace
  | CEvent _ _ _ _ => unit
  | CNewClient _ _ _ _ _ => C
  | CLogin _ => option error
  | CListPendingKeys _ | CListAcceptedKeys _ => res (list string)
  | CAcceptKey _ _ | CDeleteKey _ _ => option error
  | CTestPing _ _ | CRefreshPillar _ _ => res bool
  | CDispatchHighstate _ _ => res string
  | CPollJID _ _ _ => res (option JIDResult)      (* None: not done *)
  | CMasterLastSeen _ => res string
  | CKeyStates _ _ => res (list string)
  | CGenAcceptKey _ _ _ => res (option KeyPair)   (* None: a nil pair *)
  | CMasterPublicKey _ => res string
  end.

Class Env (W C : Type) := env : forall c : call C, W -> resp c * W.

(** A call with its answer. *)
Definition obs (C : Type) : Type := { c : call C & resp c }.
Definition Obs {C} (c : call C) (r : resp c) : obs C := existT c r.

(** ** The monad *)

(** State passing with a trace of observations in [O]. *)
Definition Traced (O S A : Type) : Type := S -> A * list O * S.

#[global] Instance M_ret O S : MRet (Traced O S) := fun A a s => (a, [], s).
#[global] Instance M_bind O S : MBind (Traced O S) := fun A B f m s =>
  let '(a, t1, s1) := m s in
  let '(b, t2, s2) := f a s1 in
  (b, t1 ++ t2, s2).

(** The monad of the controllers: the observations are calls with their answers. *)
Abbreviation M C := (Traced (obs C)).

(** A component's state holds the world its calls act on. *)
Class HasWorld (S W : Type) := {
  world : S -> W;
  set_world : W -> S -> S;
}.

#[global] Instance world_self W : HasWorld W W := {| world w := w; set_world w _ := w |}.

Definition perform {W C S} `{Env W C, HasWorld S W} (c : call C) : M C S (resp c) :=
  fun s => let '(r, w') := env c (world s) in (r, [Obs c r], set_world w' s).

Definition gets {O S A} (f : S -> A) : Traced O S A := fun s => (f s, [], s).
Definition modify {O S} (f : S -> S) : Traced O S unit := fun s => (tt, [], f s).

(** What a reconcile returns: a result with its [RequeueAfter], or an error. *)
Inductive outcome := Done (requeueAfter : Z) | Fail (e : error).

(** [return ctrl.Result{}, err]. *)
Definition returnErr (e : option error) : outcome :=
  match e with Some e => Fail e | None => Done 0 end.

(** ** Weakest preconditions *)

Definition wp {O S A} (m : Traced O S A) (s : S) (Q : A -> list O -> S -> Prop) : Prop :=
  let '(a, t, s') := m s in Q a t s'.

Definition obs_of {C} (o : obs C) : call C := projT1 o.

(** A call that changes something outside the operator: an API write or a Salt command. *)
Definition is_write {C} (c : call C) : bool :=
  match c with
  | CPatchVM _ _ | CCreateSecret _ | CUpdateSecret _ | CPatchSecretData _ _ _
  | CCreateConfig _ | CPatchConfig _ _ | CPatchConfigStatus _ _ | CDeleteConfig _
  | CEvent _ _ _ _
  | CAcceptKey _ _ | CDeleteKey _ _ | CTestPing _ _ | CRefreshPillar _ _
  | CDispatchHighstate _ _ | CGenAcceptKey _ _ _ => true
  | _ => false
  end.

Definition writes {C} (t : list (obs C)) : list (call C) :=
  List.filter is_write (obs_of <$> t).

(** ** Monitors *)

(** A safety property of traces as an automaton: [None] is a violation. *)
Fixpoint monitor {O G} (step : G -> O -> option G) (g : G) (t : list O) : option G :=
  match t with
  | [] => Some g
  | o :: t' => match step g o with Some g' => monitor step g' t' | None => None end
  end.

(** The weakest precondition that carries the monitor's state along. *)
Definition mwp {O G S A} (step : G -> O -> option G) (g : G) (m : Traced O S A) (s : S)
    (Q : A -> G -> S -> Prop) : Prop :=
  wp m s (fun a t s' => exists g', monitor step g t = Some g' /\ Q a g' s').

(** The answer to a Secret read. *)
Definition secret_read {C} (o : obs C) : option (res Secret) :=
  match o with
  | existT c r =>
      match c as c0 return resp c0 -> option (res Secret) with
      | CGetSecret _ _ => fun r => Some r
      | _ => fun _ => None
      end r
  end.

(** ** Lemmas *)

Section wp.
Context {O S : Type}.

Lemma wp_run {A} (m : Traced O S A) s Q a t s' : wp m s Q -> m s = (a, t, s') -> Q a t s'.
Proof. unfold wp. intros Hw E. by rewrite E in Hw. Qed.

Lemma wp_result {A} (m : Traced O S A) s Q : wp m s Q -> Q (m s).1.1 (m s).1.2 (m s).2.
Proof. unfold wp. by destruct (m s) as [[a t] s']. Qed.

Lemma wp_intro {A} (m : Traced O S A) s (Q : A -> list O -> S -> Prop) :
  (forall a t s', m s = (a, t, s') -> Q a t s') -> wp m s Q.
Proof. unfold wp. destruct (m s) as [[a t] s']. auto. Qed.

Lemma wp_ret {A} (a : A) s (Q : A -> list O -> S -> Prop) : Q a [] s -> wp (mret a) s Q.
Proof. done. Qed.

Lemma wp_bind {A B} (m : Traced O S A) (f : A -> Traced O S B) s Q :
  wp m s (fun a t s1 => wp (f a) s1 (fun b t' s2 => Q b (t ++ t') s2)) -> wp (m ≫= f) s Q.
Proof.
  unfold wp, mbind, M_bind. destruct (m s) as [[a t] s1]. by destruct (f a s1) as [[b t'] s2].
Qed.

Lemma wp_mono {A} (m : Traced O S A) s (Q Q' : A -> list O -> S -> Prop) :
  wp m s Q -> (forall a t s', Q a t s' -> Q' a t s') -> wp m s Q'.
Proof. unfold wp. destruct (m s) as [[a t] s']. auto. Qed.

Lemma wp_and {A} (m : Traced O S A) s (Q Q' : A -> list O -> S -> Prop) :
  wp m s Q -> wp m s Q' -> wp m s (fun a t s' => Q a t s' /\ Q' a t s').
Proof. unfold wp. destruct (m s) as [[a t] s']. auto. Qed.

Lemma wp_gets {A} (f : S -> A) s (Q : A -> list O -> S -> Prop) :
  Q (f s) [] s -> wp (gets f) s Q.
Proof. done. Qed.

Lemma wp_modify (f : S -> S) s (Q : unit -> list O -> S -> Prop) :
  Q tt [] (f s) -> wp (modify f) s Q.
Proof. done. Qed.

End wp.

(** ** Determinacy *)

(** The answers decide what the operation does: two runs whose traces agree as far as they go
    return the same. *)
Definition determined {O S A} (m : Traced O S A) : Prop :=
  forall s1 s2 a1 a2 t1 t2 s1' s2' u1 u2,
    m s1 = (a1, t1, s1') -> m s2 = (a2, t2, s2') -> t1 ++ u1 = t2 ++ u2 -> a1 = a2 /\ t1 = t2.

Section determined.
Context {O S : Type}.

Lemma det_ret {A} (a : A) : determined (mret a : Traced O S A).
Proof. by intros s1 s2 a1 a2 t1 t2 s1' s2' u1 u2 [= <- <- _] [= <- <- _]. Qed.

Lemma det_bind {A B} (m : Traced O S A) (f : A -> Traced O S B) :
  determined m -> (forall a, determined (f a)) -> determined (m ≫= f).
Proof.
  intros Hm Hf s1 s2 b1 b2 t1 t2 s1' s2' u1 u2. unfold mbind, M_bind.
  destruct (m s1) as [[a1 ta1] sa1] eqn:Ea1, (m s2) as [[a2 ta2] sa2] eqn:Ea2.
  destruct (f a1 sa1) as [[x1 tx1] sx1] eqn:Ex1, (f a2 sa2) as [[x2 tx2] sx2] eqn:Ex2.
  intros [= <- <- <-] [= <- <- <-]. rewrite <- !app_assoc. intros Ht.
  destruct (Hm _ _ _ _ _ _ _ _ _ _ Ea1 Ea2 Ht) as [<- <-]. apply app_inv_head in Ht.
  by destruct (Hf a1 _ _ _ _ _ _ _ _ _ _ Ex1 Ex2 Ht) as [<- <-].
Qed.

End determined.

Section monitor.
Context {O S G : Type} (step : G -> O -> option G).

Lemma mwp_ret {A} g (a : A) s (Q : A -> G -> S -> Prop) : Q a g s -> mwp step g (mret a) s Q.
Proof. intros HQ. by exists g. Qed.

Lemma monitor_app g (t t' : list O) :
  monitor step g (t ++ t') = match monitor step g t with Some g' => monitor step g' t' | None => None end.
Proof.
  revert g. induction t as [|o t IH]; intros g; [done|]. simpl. destruct (step g o); auto.
Qed.

Lemma mwp_bind {A B} g (m : Traced O S A) (k : A -> Traced O S B) s Q :
  mwp step g m s (fun a g' s' => mwp step g' (k a) s' Q) -> mwp step g (m ≫= k) s Q.
Proof.
  unfold mwp. intros Hm. apply wp_bind. eapply wp_mono; [exact Hm|].
  intros a t s1 (g1 & Hg & Hk). eapply wp_mono; [exact Hk|].
  intros b t' s2 (g2 & Hg' & HQ). exists g2. split; [|done]. by rewrite monitor_app, Hg.
Qed.

Lemma mwp_mono {A} g (m : Traced O S A) s (Q Q' : A -> G -> S -> Prop) :
  mwp step g m s Q -> (forall a g' s', Q a g' s' -> Q' a g' s') -> mwp step g m s Q'.
Proof.
  intros Hm HQ. eapply wp_mono; [exact Hm|]. intros a t s' (g' & ? & ?). eauto.
Qed.

Lemma mwp_gets {A} g (h : S -> A) s (Q : A -> G -> S -> Prop) : Q (h s) g s -> mwp step g (gets h) s Q.
Proof. intros HQ. by exists g. Qed.

Lemma mwp_modify g (h : S -> S) s (Q : unit -> G -> S -> Prop) : Q tt g (h s) -> mwp step g (modify h) s Q.
Proof. intros HQ. by exists g. Qed.

End monitor.

Section perform.
Context {C S W : Type} `{Env W C, HasWorld S W}.

Lemma wp_perform (c : call C) s Q :
  (forall r w', env c (world s) = (r, w') -> Q r [Obs c r] (set_world w' s)) ->
  wp (perform c) s Q.
Proof. unfold wp, perform. destruct (env c (world s)) as [r w']. auto. Qed.

Lemma det_get_secret ns n :
  determined (perform (CGetSecret ns n) : M C S (res Secret)).
Proof.
  intros s1 s2 a1 a2 t1 t2 s1' s2' u1 u2. unfold perform.
  destruct (env _ (world s1)) as [r1 w1], (env _ (world s2)) as [r2 w2].
  intros [= <- <- _] [= <- <- _] [Ht _]%app_inj_1; [|done].
  apply (f_equal (fmap secret_read)) in Ht. simpl in Ht. by injection Ht as [= <-].
Qed.

Lemma mwp_perform {G} (step : G -> obs C -> option G) g (c : call C) s (Q : resp c -> G -> S -> Prop) :
  (forall r w', env c (world s) = (r, w') ->
     exists g', step g (Obs c r) = Some g' /\ Q r g' (set_world w' s)) ->
  mwp step g (perform c) s Q.
Proof.
  intros Hc. apply wp_perform. intros r w' E. destruct (Hc r w' E) as (g' & Hg & HQ).
  exists g'. split; [|done]. cbn [monitor]. by rewrite Hg.
Qed.

End perform.

(** Step over a call, to a goal about every answer. *)
Ltac wp_call := match goal with |- wp (perform ?c) ?s ?Q => refine (wp_perform c s Q _) end.

Ltac mwp_call := match goal with |- mwp ?st ?g (perform ?c) ?s ?Q => refine (mwp_perform st g c s Q _) end.

(** ** Agreement of two runs *)

(** The second operation does what the first does, state by state: its observations are renamed by [rn]
    and its result by [f]. *)
Definition agrees_map {O S A} (rn : O -> O) (f : A -> A) (m m' : Traced O S A) : Prop :=
  forall s, m' s = let '(a, t, s') := m s in (f a, rn <$> t, s').

Definition agrees {O S A} (rn : O -> O) (m m' : Traced O S A) : Prop := agrees_map rn (fun a => a) m m'.

Section agrees.
Context {O S : Type} (rn : O -> O).

Lemma agrees_ret {A} (a : A) : agrees rn (mret a : Traced O S A) (mret a).
Proof. done. Qed.

Lemma agrees_bind_map {A B} (f : A -> A) (m m' : Traced O S A) (k k' : A -> Traced O S B) :
  agrees_map rn f m m' -> (forall a, agrees rn (k a) (k' (f a))) -> agrees rn (m ≫= k) (m' ≫= k').
Proof.
  intros Hm Hk s. unfold mbind, M_bind. rewrite (Hm s). destruct (m s) as [[a t] s1].
  rewrite (Hk a s1). destruct (k a s1) as [[b t'] s2]. by rewrite fmap_app.
Qed.

Lemma agrees_bind {A B} (m m' : Traced O S A) (k k' : A -> Traced O S B) :
  agrees rn m m' -> (forall a, agrees rn (k a) (k' a)) -> agrees rn (m ≫= k) (m' ≫= k').
Proof. apply agrees_bind_map. Qed.

Lemma agrees_gets {A} (f : S -> A) : agrees rn (gets f) (gets f).
Proof. done. Qed.

Lemma agrees_modify (f : S -> S) : agrees rn (modify f) (modify f).
Proof. done. Qed.

End agrees.

(** ** Runs: an operation acts on the world through its calls alone *)

Section Runs.
Context {W C : Type} `{Env W C}.

(** The calls [t], one after the other, take the world from the first to the last. *)
Inductive runs : W -> list (obs C) -> W -> Prop :=
| runs_nil w : runs w [] w
| runs_call w q r w' t w'' : env q w = (r, w') -> runs w' t w'' -> runs w (Obs q r :: t) w''.

Lemma runs_app w t w' t' w'' : runs w t w' -> runs w' t' w'' -> runs w (t ++ t') w''.
Proof. induction 1; [done|]. intros. econstructor; eauto. Qed.

Context {S : Type} `{HasWorld S W}.

Class WorldLaw : Prop := world_set w (s : S) : world (set_world w s) = w.

Definition follows {A} (m : M C S A) : Prop :=
  forall s, wp m s (fun _ t s' => runs (world s) t (world s')).

Lemma follows_ret {A} (a : A) : follows (mret a).
Proof. intros s. apply wp_ret, runs_nil. Qed.

Lemma follows_bind {A B} (m : M C S A) (k : A -> M C S B) :
  follows m -> (forall a, follows (k a)) -> follows (m ≫= k).
Proof.
  intros Hm Hk s. apply wp_bind. eapply wp_mono; [exact (Hm s)|]. intros a t s1 Ht.
  eapply wp_mono; [exact (Hk a s1)|]. intros b t' s2 Ht'. cbv beta in *. by eapply runs_app.
Qed.

Lemma follows_perform `{!WorldLaw} (q : call C) : follows (perform q).
Proof.
  intros s. apply wp_perform. intros r w' E. rewrite world_set. by eapply runs_call; [|constructor].
Qed.

Lemma follows_gets {A} (f : S -> A) : follows (gets f).
Proof. intros s. apply wp_gets, runs_nil. Qed.

Lemma follows_modify (f : S -> S) : (forall s, world (f s) = world s) -> follows (modify f).
Proof. intros Hf s. apply wp_modify. rewrite Hf. apply runs_nil. Qed.

End Runs.

Arguments WorldLaw W {S _}.

(** The head of an application. *)
Ltac app_head m := match m with ?f _ => app_head f | _ => m end.

(** Step through the structure of an operation, unfolding what it calls. *)
Ltac follows_step :=
  match goal with
  | |- follows (mret _) => apply follows_ret
  | |- follows (_ ≫= _) => apply follows_bind; [|intros ?]
  | |- follows (perform ?q) => exact (follows_perform q)
  | |- follows (gets _) => apply follows_gets
  | |- follows (modify _) => apply follows_modify; reflexivity
  | |- follows (match ?x with _ => _ end) => destruct x
  | |- follows (if ?b then _ else _) => destruct b
  | |- follows ?m => let f := app_head m in unfold f; cbv zeta
  end.

(** The monad laws, pointwise. *)
Lemma M_bind_ret_l {O S A B} (a : A) (f : A -> Traced O S B) s : (mret a ≫= f) s = f a s.
Proof. unfold mbind, M_bind, mret, M_ret. by destruct (f a s) as [[? ?] ?]. Qed.

Lemma M_bind_assoc {O S A B D} (m : Traced O S A) (f : A -> Traced O S B) (g : B -> Traced O S D) s :
  ((m ≫= f) ≫= g) s = (m ≫= (fun a => f a ≫= g)) s.
Proof.
  unfold mbind, M_bind. destruct (m s) as [[a t] s1]. destruct (f a s1) as [[b t'] s2].
  destruct (g b s2) as [[d t''] s3]. by rewrite app_assoc.
Qed.

Lemma wp_assoc {O S A B D} (m : Traced O S A) (f : A -> Traced O S B) (g : B -> Traced O S D) s
    (Q : D -> list O -> S -> Prop) : wp (m ≫= (fun a => f a ≫= g)) s Q -> wp ((m ≫= f) ≫= g) s Q.
Proof. unfold wp. by rewrite M_bind_assoc. Qed.

Lemma writes_app {C} (t t' : list (obs C)) : writes (t ++ t') = writes t ++ writes t'.
Proof. unfold writes. by rewrite fmap_app, List.filter_app. Qed.

#[export] Hint Rewrite @writes_app : go.
