(* ===== verification/Server.v ===== *)
(** * A concrete API server and Salt service

    Merge patches as the API server applies them, and an executable instance
    of every parameter of the development: an in-memory cluster with a clock
    and scripted Salt answers as [Env], reference implementations of the
    Kubernetes library functions as [K8sLib], ASCII-only case folding as
    [GoUnicode].  Theorems quantify over all instances; the examples that
    show their hypotheses can hold run on this one. *)

From S2P Require Import Prelude GoStrings Api Effects.

Local Open Scope Z_scope.

(** ** Merge patches *)

(** The value of a key after the JSON merge patch from [base] to [modified] is applied. *)
Definition merge_key {A} `{EqDecision A} (base modified cur : option A) : option A :=
  if decide (base = modified) then cur else modified.

Definition merge_annotations (base modified cur : gmap string string) : gmap string string :=
  let patch := merge (fun b m => if decide (b = m) then None else Some m) base modified in
  merge (fun p c => match p with Some v => v | None => c end) patch cur.

Definition merge_vm (base modified cur : VM) : VM :=
  set_finalizers (if decide (vm_finalizers base = vm_finalizers modified)
                  then vm_finalizers cur else vm_finalizers modified)
    (set_annotations (if decide (vm_annotations base = vm_annotations modified)
                      then vm_annotations cur
                      else Some (merge_annotations (GetAnnotations base) (GetAnnotations modified)
                                                   (GetAnnotations cur))) cur).

Definition vm_key (vm : VM) : string * string := (vm_namespace vm, vm_name vm).

(** ** Library functions *)

Definition condition_true (cs : list Condition) (t : string) : bool :=
  match List.find (fun c => c_Type c =s? t) cs with
  | Some c => c_Status c =s? ConditionTrue
  | None => false
  end.

Definition transition_time (now : Z) (c : Condition) : option Z :=
  Some (default now (c_LastTransitionTime c)).

(** A new status moves the transition time, the same status keeps it. *)
Definition merge_condition (now : Z) (old new : Condition) : Condition :=
  {| c_Type := c_Type old; c_Status := c_Status new;
     c_ObservedGeneration := c_ObservedGeneration new;
     c_LastTransitionTime := if c_Status old =s? c_Status new then c_LastTransitionTime old
                             else transition_time now new;
     c_Reason := c_Reason new; c_Message := c_Message new |}.

Fixpoint set_condition (now : Z) (cs : list Condition) (new : Condition) : list Condition :=
  match cs with
  | [] => [{| c_Type := c_Type new; c_Status := c_Status new;
              c_ObservedGeneration := c_ObservedGeneration new;
              c_LastTransitionTime := transition_time now new;
              c_Reason := c_Reason new; c_Message := c_Message new |}]
  | c :: cs' => if c_Type c =s? c_Type new then merge_condition now c new :: cs'
                else c :: set_condition now cs' new
  end.

Definition requirement_matches (r : LabelSelectorRequirement) (labels : gmap string string) : option bool :=
  let v := labels !! lsr_Key r in
  let within := match v with Some v => existsb (String.eqb v) (lsr_Values r) | None => false end in
  if lsr_Operator r =s? "In" then Some within
  else if lsr_Operator r =s? "NotIn" then Some (negb within)
  else if lsr_Operator r =s? "Exists" then Some (bool_decide (is_Some v))
  else if lsr_Operator r =s? "DoesNotExist" then Some (bool_decide (v = None))
  else None.

Definition selector_of (sel : LabelSelector) : res Selector :=
  if forallb (fun r => match requirement_matches r ∅ with Some _ => true | None => false end)
             (MatchExpressions sel)
  then Ok {| sel_Empty := bool_decide (MatchLabels sel = ∅) && bool_decide (length (MatchExpressions sel) = 0%nat);
             sel_Matches labels := bool_decide (MatchLabels sel ⊆ labels)
               && forallb (fun r => match requirement_matches r labels with Some b => b | None => false end)
                          (MatchExpressions sel) |}
  else Err (Errorf "not a valid label selector operator" []).

Definition reference_lib : K8sLib := {|
  IsStatusConditionTrue := condition_true;
  SetStatusCondition := set_condition;
  LabelSelectorAsSelector := selector_of;
  ContainsFinalizer fs f := bool_decide (f ∈ fs);
  AddFinalizer fs f := if decide (f ∈ fs) then fs else fs ++ [f];
  RemoveFinalizer fs f := filter (fun g => g <> f) fs;
  DeepEqual a b := bool_decide (a = b);
|}.

(** ** The service *)

(** What the Salt side answers. *)
Record Answers := {
  an_login : option error;
  an_pending : res (list string);
  an_accepted : res (list string);
  an_accept : option error;
  an_delete : option error;
  an_ping : res bool;
  an_refresh : res bool;
  an_highstate : res string;
  an_poll : res (option JIDResult);
  an_seen : res string;
  an_states : res (list string);
  an_pair : res (option KeyPair);
  an_masterPub : res string;
}.

Record World := {
  w_now : Z;
  w_vms : list VM;
  w_secrets : list Secret;
  w_configs : list SaltKeyConfig;
  w_namespaces : list Namespace;
  w_answers : Answers;
}.

Definition set_vms (l : list VM) (w : World) : World :=
  {| w_now := w_now w; w_vms := l; w_secrets := w_secrets w; w_configs := w_configs w;
     w_namespaces := w_namespaces w; w_answers := w_answers w |}.
Definition set_secrets (l : list Secret) (w : World) : World :=
  {| w_now := w_now w; w_vms := w_vms w; w_secrets := l; w_configs := w_configs w;
     w_namespaces := w_namespaces w; w_answers := w_answers w |}.
Definition set_configs (l : list SaltKeyConfig) (w : World) : World :=
  {| w_now := w_now w; w_vms := w_vms w; w_secrets := w_secrets w; w_configs := l;
     w_namespaces := w_namespaces w; w_answers := w_answers w |}.
Definition set_now (n : Z) (w : World) : World :=
  {| w_now := n; w_vms := w_vms w; w_secrets := w_secrets w; w_configs := w_configs w;
     w_namespaces := w_namespaces w; w_answers := w_answers w |}.

Definition not_found {A} : res A := Err (EApi NotFound "not found").

Definition find_vm (k : string * string) (l : list VM) : option VM :=
  List.find (fun v => bool_decide (vm_key v = k)) l.

(** An object under deletion goes when its last finalizer goes. *)
Definition finalized (vm : VM) : bool :=
  bool_decide (is_Some (vm_deletionTimestamp vm)) && bool_decide (length (vm_finalizers vm) = 0%nat).

Definition put_vm (k : string * string) (v : VM) (l : list VM) : list VM :=
  if finalized v then List.filter (fun x => negb (bool_decide (vm_key x = k))) l
  else (fun x => if decide (vm_key x = k) then v else x) <$> l.

Definition secret_is (ns n : string) (s : Secret) : bool :=
  (sec_Namespace s =s? ns) && (sec_Name s =s? n).

Definition config_is (ns n : string) (c : SaltKeyConfig) : bool :=
  (cfg_Namespace c =s? ns) && (cfg_Name c =s? n).

(** A field the patch changes takes its new value. *)
Definition merge_config (m cur : SaltKeyConfig) (status : bool) : SaltKeyConfig :=
  {| cfg_Name := cfg_Name cur; cfg_Namespace := cfg_Namespace cur;
     cfg_Labels := if status then cfg_Labels cur else cfg_Labels m;
     cfg_ResourceVersion := cfg_ResourceVersion cur;
     cfg_Generation := cfg_Generation cur;
     cfg_Spec := if status then cfg_Spec cur else cfg_Spec m;
     cfg_Status := if status then cfg_Status m else cfg_Status cur |}.

Definition patch_config (m : SaltKeyConfig) (status : bool) (w : World) : res SaltKeyConfig * World :=
  match List.find (config_is (cfg_Namespace m) (cfg_Name m)) (w_configs w) with
  | None => (not_found, w)
  | Some cur =>
      let c := merge_config m cur status in
      (Ok c, set_configs ((fun x => if config_is (cfg_Namespace m) (cfg_Name m) x then c else x)
                            <$> w_configs w) w)
  end.

Definition in_ns {A} (ns : A -> string) (o : option string) (x : A) : bool :=
  match o with None => true | Some n => ns x =s? n end.

(** A client handle: the endpoint and the user. *)
Definition Handle : Type := string * string.

Definition serve (c : call Handle) (w : World) : resp c * World :=
  match c as c0 return resp c0 * World with
  | CNow => (w_now w, set_now (w_now w + 1) w)
  | CGetVM ns n => (match find_vm (ns, n) (w_vms w) with Some v => Ok v | None => not_found end, w)
  | CListVMs o => (Ok (List.filter (in_ns vm_namespace o) (w_vms w)), w)
  | CPatchVM b m =>
      match find_vm (vm_key b) (w_vms w) with
      | None => (not_found, w)
      | Some cur => let v := merge_vm b m cur in (Ok v, set_vms (put_vm (vm_key b) v (w_vms w)) w)
      end
  | CGetSecret ns n =>
      (match List.find (secret_is ns n) (w_secrets w) with Some s => Ok s | None => not_found end, w)
  | CCreateSecret s =>
      if existsb (secret_is (sec_Namespace s) (sec_Name s)) (w_secrets w)
      then (Some (EApi AlreadyExists "exists"), w) else (None, set_secrets (s :: w_secrets w) w)
  | CUpdateSecret s =>
      if existsb (secret_is (sec_Namespace s) (sec_Name s)) (w_secrets w)
      then (None, set_secrets ((fun x => if secret_is (sec_Namespace s) (sec_Name s) x then s else x)
                                 <$> w_secrets w) w)
      else (Some (EApi NotFound "not found"), w)
  | CPatchSecretData ns n data =>
      if existsb (secret_is ns n) (w_secrets w)
      then (None, set_secrets ((fun x => if secret_is ns n x
                                         then {| sec_Name := sec_Name x; sec_Namespace := sec_Namespace x;
                                                 sec_Labels := sec_Labels x;
                                                 sec_OwnerReferences := sec_OwnerReferences x;
                                                 sec_Type := sec_Type x;
                                                 sec_Data := maps_Copy (sec_Data x) data |}
                                         else x) <$> w_secrets w) w)
      else (Some (EApi NotFound "not found"), w)
  | CGetConfig ns n =>
      (match List.find (config_is ns n) (w_configs w) with Some c => Ok c | None => not_found end, w)
  | CListConfigs o => (Ok (List.filter (in_ns cfg_Namespace o) (w_configs w)), w)
  | CListConfigsLabelled key value =>
      (Ok (List.filter (fun c => bool_decide (cfg_Labels c !! key = Some value)) (w_configs w)), w)
  | CCreateConfig c =>
      if existsb (config_is (cfg_Namespace c) (cfg_Name c)) (w_configs w)
      then (Some (EApi AlreadyExists "exists"), w) else (None, set_configs (c :: w_configs w) w)
  | CPatchConfig _ m => patch_config m false w
  | CPatchConfigStatus _ m => patch_config m true w
  | CDeleteConfig c =>
      if existsb (config_is (cfg_Namespace c) (cfg_Name c)) (w_configs w)
      then (None, set_configs (List.filter (fun x => negb (config_is (cfg_Namespace c) (cfg_Name c) x)) (w_configs w)) w)
      else (Some (EApi NotFound "not found"), w)
  | CGetNamespace n =>
      (match List.find (fun x => ns_Name x =s? n) (w_namespaces w) with Some x => Ok x | None => not_found end, w)
  | CEvent _ _ _ _ => (tt, w)
  | CNewClient url user _ _ _ => ((url, user), w)
  | CLogin _ => (an_login (w_answers w), w)
  | CListPendingKeys _ => (an_pending (w_answers w), w)
  | CListAcceptedKeys _ => (an_accepted (w_answers w), w)
  | CAcceptKey _ _ => (an_accept (w_answers w), w)
  | CDeleteKey _ _ => (an_delete (w_answers w), w)
  | CTestPing _ _ => (an_ping (w_answers w), w)
  | CRefreshPillar _ _ => (an_refresh (w_answers w), w)
  | CDispatchHighstate _ _ => (match an_highstate (w_answers w) with
                               | Ok j => if j =s? "" then Err (Errorf "empty jid" []) else Ok j
                               | Err e => Err e
                               end, w)
  | CPollJID _ _ _ => (an_poll (w_answers w), w)
  | CMasterLastSeen _ => (an_seen (w_answers w), w)
  | CKeyStates _ _ => (an_states (w_answers w), w)
  | CGenAcceptKey _ _ _ => (an_pair (w_answers w), w)
  | CMasterPublicKey _ => (an_masterPub (w_answers w), w)
  end.

Definition server : Env World Handle := serve.

(** A service where every Salt command succeeds. *)
Definition all_well : Answers := {|
  an_login := None;
  an_pending := Ok ["vm-a"];
  an_accepted := Ok ["vm-a"];
  an_accept := None;
  an_delete := None;
  an_ping := Ok true;
  an_refresh := Ok true;
  an_highstate := Ok "20260101000000000001";
  an_poll := Ok (Some {| jr_MinionID := "vm-a"; jr_JID := "20260101000000000001";
                         jr_Fun := "state.highstate"; jr_Return := AMap []; jr_Retcode := 0;
                         jr_Success := true |});
  an_seen := Ok "2026-01-01T00:00:00Z";
  an_states := Ok [];
  an_pair := Ok (Some {| kp_Pub := "PUB"; kp_Priv := "PRIV" |});
  an_masterPub := Ok "MASTER";
|}.

(** ** A small cluster *)

Definition demo_spec : SaltKeyConfigSpec := {|
  RaasURL := "https://raas.example"; CredentialsSecret := "raas"; KeyAcceptance := "discovery";
  AcceptTimeout := "10m"; RequeueInterval := "30s"; MasterID := "master-1"; SkipTLSVerify := false;
  VMSelector := None; RetryToken := ""; EnforcementInterval := "";
|}.

Definition demo_config_with (spec : SaltKeyConfigSpec) : SaltKeyConfig := {|
  cfg_Name := "salt"; cfg_Namespace := "team"; cfg_Labels := ∅; cfg_ResourceVersion := "7";
  cfg_Generation := 1; cfg_Spec := spec;
  cfg_Status := {| ObservedGeneration := 1;
                   Conditions := [{| c_Type := "Ready"; c_Status := "True"; c_ObservedGeneration := 1;
                                     c_LastTransitionTime := Some 0; c_Reason := "Valid";
                                     c_Message := Msg "ok" [] |}] |};
|}.

Definition demo_secret : Secret := {|
  sec_Name := "raas"; sec_Namespace := "team"; sec_Labels := ∅; sec_OwnerReferences := [];
  sec_Type := "Opaque"; sec_Data := list_to_map [("username", "u"); ("password", "p")];
|}.

(** A running VM of the namespace [team] with the given annotations. *)
Definition demo_vm (a : list (string * string)) : VM := {|
  vm_name := "vm-a"; vm_namespace := "team"; vm_uid := "uid-a"; vm_apiVersion := "vmoperator.vmware.com/v1alpha3";
  vm_kind := "VirtualMachine"; vm_labels := ∅;
  vm_annotations := Some (list_to_map a); vm_finalizers := []; vm_deletionTimestamp := None;
  vm_resourceVersion := Some "1"; vm_managedFields := None; vm_guestInfo := []; vm_conditions := [];
  vm_phase := ""; vm_powerState := "PoweredOn"; vm_primaryIP4 := "10.0.0.7"; vm_rest := ANull;
|}.

(** 2026-01-01T00:00:00Z in nanoseconds. *)
Definition demo_now : Z := 1767225600 * 1000000000.

Definition demo_world (cfg : SaltKeyConfig) (vms : list VM) (an : Answers) : World := {|
  w_now := demo_now; w_vms := vms; w_secrets := [demo_secret]; w_configs := [cfg];
  w_namespaces := []; w_answers := an;
|}.

(** ** Lemmas *)

Lemma merge_annotations_lookup b m c k :
  merge_annotations b m c !! k = merge_key (b !! k) (m !! k) (c !! k).
Proof.
  unfold merge_annotations, merge_key. rewrite !lookup_merge.
  destruct (b !! k), (m !! k), (c !! k); simpl; repeat case_decide; simplify_eq/=; done.
Qed.

Lemma GetAnnotations_merge_vm b m c k :
  GetAnnotations (merge_vm b m c) !! k
  = merge_key (GetAnnotations b !! k) (GetAnnotations m !! k) (GetAnnotations c !! k).
Proof.
  unfold merge_vm, GetAnnotations at 1, merge_key. simpl.
  case_decide as E.
  - unfold GetAnnotations. rewrite E. by rewrite decide_True.
  - simpl. by rewrite merge_annotations_lookup.
Qed.

Lemma condition_true_set now c cs :
  condition_true (set_condition now cs c) (c_Type c) = (c_Status c =s? ConditionTrue).
Proof.
  unfold condition_true. induction cs as [|x cs IH]; simpl.
  - by rewrite String.eqb_refl.
  - destruct (c_Type x =s? c_Type c) eqn:E; simpl; by rewrite E.
Qed.

Lemma condition_true_other now c cs t : t <> c_Type c ->
  condition_true (set_condition now cs c) t = condition_true cs t.
Proof.
  intros Ht. unfold condition_true. induction cs as [|x cs IH]; simpl.
  - by rewrite (proj2 (String.eqb_neq _ _)).
  - destruct (String.eqb_spec (c_Type x) (c_Type c)) as [E|]; simpl.
    + rewrite E. by rewrite (proj2 (String.eqb_neq _ _)).
    + destruct (c_Type x =s? t); auto.
Qed.

Lemma set_condition_again now now' c cs : c_LastTransitionTime c = None ->
  set_condition now' (set_condition now cs c) c = set_condition now cs c.
Proof.
  intros Hc. induction cs as [|x cs IH]; simpl.
  - rewrite String.eqb_refl. unfold merge_condition. simpl. by rewrite String.eqb_refl.
  - destruct (c_Type x =s? c_Type c) eqn:E; simpl; rewrite E; [|by rewrite IH].
    unfold merge_condition at 1. simpl. by rewrite String.eqb_refl.
Qed.

#[local] Existing Instance reference_lib.

Lemma reference_laws : K8sLibLaws.
Proof.
  constructor; simpl.
  - apply condition_true_set.
  - apply condition_true_other.
  - apply set_condition_again.
  - intros. apply bool_decide_eq_true.
  - intros f fs g. case_decide; set_solver.
  - intros f fs g. rewrite list_elem_of_filter. set_solver.
  - intros. apply bool_decide_eq_true.
Qed.

Lemma find_vm_key k l v : find_vm k l = Some v -> vm_key v = k.
Proof. intros [_ Hv]%List.find_some. by apply bool_decide_eq_true in Hv. Qed.

(** The stored object after a write: the written one, or none when it was finalized. *)
Lemma find_put_vm k v l :
  vm_key v = k -> is_Some (find_vm k l) ->
  find_vm k (put_vm k v l) = None \/ find_vm k (put_vm k v l) = Some v.
Proof.
  intros Hv Hs. unfold put_vm, find_vm in *. destruct (finalized v).
  - left. clear Hs. induction l as [|x l IH]; simpl; [done|].
    case_bool_decide; simpl; [done|]. by rewrite bool_decide_eq_false_2.
  - right. induction l as [|x l IH]; simpl in *; [by destruct Hs|].
    case_decide as E; simpl; [by rewrite bool_decide_eq_true_2|].
    rewrite bool_decide_eq_false_2 by done. apply IH. by rewrite bool_decide_eq_false_2 in Hs.
Qed.

Lemma find_put_vm_other k k' v l :
  k' <> k -> vm_key v = k -> find_vm k' (put_vm k v l) = find_vm k' l.
Proof.
  intros Hn Hv. unfold put_vm, find_vm. destruct (finalized v).
  - induction l as [|x l IH]; simpl; [done|]. destruct (decide (vm_key x = k)) as [E|E].
    + rewrite bool_decide_eq_true_2 by done. simpl. rewrite IH.
      by rewrite bool_decide_eq_false_2 by congruence.
    + rewrite bool_decide_eq_false_2 by done. simpl. by rewrite IH.
  - induction l as [|x l IH]; [done|]. rewrite fmap_cons. simpl.
    destruct (decide (vm_key x = k)) as [E|E].
    + by rewrite !bool_decide_eq_false_2 by congruence.
    + by destruct (bool_decide _).
Qed.
