(* ===== verification/RaasConn.v ===== *)
(** * Resolving a RaaS connection ([internal/raasconn/raasconn.go])

    A SaltKeyConfig that names a credentials Secret uses its own URL and
    master with the Secret's user and password.  Any other config uses the
    operator's default connection, whose Secret supplies everything, and may
    only restate what the default says. *)

From S2P Require Import Prelude GoStrings Api Effects Server.

Local Open Scope Z_scope.

(** ** Model *)

Definition KeyURL : string := "url".
Definition KeyMasterID : string := "masterID".
Definition KeyUsername : string := "username".
Definition KeyPassword : string := "password".
Definition KeySkipTLSVerify : string := "skipTLSVerify".

Definition ReasonSecretNotFound : string := "SecretNotFound".
Definition ReasonSecretInvalid : string := "SecretInvalid".
Definition ReasonGetSecretFailed : string := "GetSecretFailed".
Definition ReasonIncompleteSpec : string := "IncompleteSpec".
Definition ReasonDefaultNotSet : string := "DefaultConnectionNotConfigured".
Definition ReasonConnectionMismatch : string := "ConnectionMismatch".

Definition SourceNamespaceSecret : string := "namespace".
Definition SourceDefaultConnection : string := "default".

Definition DefaultConnectionFlag : string := "default-connection-secret".

(** [raasconn.Default]. *)
Record DefaultConn := { def_Namespace : string; def_SecretName : string }.

Definition Configured (d : DefaultConn) : bool :=
  (def_Namespace d <>s? "") && (def_SecretName d <>s? "").

Record Connection := {
  conn_URL : string;
  conn_MasterID : string;
  conn_Username : string;
  conn_Password : string;
  conn_SkipTLSVerify : bool;
  conn_Source : string;
}.

Section Resolve.
Context {W C S : Type} `{GoUnicode} `{Env W C} `{HasWorld S W}.

Definition readSecret (namespace name : string) : M C S (res (gmap string string)) :=
  r ← perform (CGetSecret namespace name);
  match r with
  | Ok secret => mret (Ok (sec_Data secret))
  | Err e =>
      if IsNotFound e
      then mret (Err (ERaas ReasonSecretNotFound
             (Msg "Secret %q not found in namespace %q" [FStr name; FStr namespace])))
      else mret (Err (ERaas ReasonGetSecretFailed
             (Msg "Could not read Secret %s/%s: %v" [FStr namespace; FStr name; FErr e])))
  end.

Definition resolveNamespaceSecret (cfg : SaltKeyConfig) : M C S (res Connection) :=
  let spec := cfg_Spec cfg in
  if (RaasURL spec =s? "") || (MasterID spec =s? "") then
    mret (Err (ERaas ReasonIncompleteSpec
      (Msg "spec.raasURL and spec.masterID are required when spec.credentialsSecret is set" [])))
  else
    r ← readSecret (cfg_Namespace cfg) (CredentialsSecret spec);
    match r with
    | Err e => mret (Err e)
    | Ok data =>
        if (mget data KeyUsername =s? "") || (mget data KeyPassword =s? "") then
          mret (Err (ERaas ReasonSecretInvalid
            (Msg "Secret %q must contain non-empty keys username and password"
                 [FStr (CredentialsSecret spec)])))
        else
          mret (Ok {| conn_URL := RaasURL spec;
                      conn_MasterID := MasterID spec;
                      conn_Username := mget data KeyUsername;
                      conn_Password := mget data KeyPassword;
                      conn_SkipTLSVerify := SkipTLSVerify spec;
                      conn_Source := SourceNamespaceSecret |})
    end.

(** [Default.Load]. *)
Definition Load (d : DefaultConn) : M C S (res Connection) :=
  r ← readSecret (def_Namespace d) (def_SecretName d);
  match r with
  | Err e => mret (Err e)
  | Ok data =>
      if existsb (fun k => mget data k =s? "") [KeyURL; KeyMasterID; KeyUsername; KeyPassword] then
        mret (Err (ERaas ReasonSecretInvalid
          (Msg "default connection Secret %s/%s must contain non-empty keys %q, %q, %q and %q"
               [FStr (def_Namespace d); FStr (def_SecretName d);
                FStr KeyURL; FStr KeyMasterID; FStr KeyUsername; FStr KeyPassword])))
      else
        mret (Ok {| conn_URL := mget data KeyURL;
                    conn_MasterID := mget data KeyMasterID;
                    conn_Username := mget data KeyUsername;
                    conn_Password := mget data KeyPassword;
                    conn_SkipTLSVerify := EqualFold (mget data KeySkipTLSVerify) "true";
                    conn_Source := SourceDefaultConnection |})
  end.

Definition resolveDefault (cfg : SaltKeyConfig) (def : DefaultConn) : M C S (res Connection) :=
  if negb (Configured def) then
    mret (Err (ERaas ReasonDefaultNotSet
      (Msg "spec.credentialsSecret is empty and the operator has no default connection (--%s)"
           [FStr DefaultConnectionFlag])))
  else
    r ← Load def;
    match r with
    | Err e => mret (Err e)
    | Ok conn =>
        let spec := cfg_Spec cfg in
        if (RaasURL spec <>s? "") && (RaasURL spec <>s? conn_URL conn) then
          mret (Err (ERaas ReasonConnectionMismatch
            (Msg "spec.raasURL %q differs from the operator's default connection, set spec.credentialsSecret to use another endpoint"
                 [FStr (RaasURL spec)])))
        else if (MasterID spec <>s? "") && (MasterID spec <>s? conn_MasterID conn) then
          mret (Err (ERaas ReasonConnectionMismatch
            (Msg "spec.masterID %q differs from the operator's default connection"
                 [FStr (MasterID spec)])))
        else if SkipTLSVerify spec && negb (conn_SkipTLSVerify conn) then
          mret (Err (ERaas ReasonConnectionMismatch
            (Msg "spec.skipTLSVerify cannot disable TLS verification for the operator's default connection" [])))
        else mret (Ok conn)
    end.

Definition Resolve (cfg : SaltKeyConfig) (def : DefaultConn) : M C S (res Connection) :=
  if CredentialsSecret (cfg_Spec cfg) <>s? "" then resolveNamespaceSecret cfg
  else resolveDefault cfg def.

(** ** Specification *)

(** The one Secret a config may make the operator read. *)
Definition connection_secret (cfg : SaltKeyConfig) (def : DefaultConn) : string * string :=
  if CredentialsSecret (cfg_Spec cfg) =s? "" then (def_Namespace def, def_SecretName def)
  else (cfg_Namespace cfg, CredentialsSecret (cfg_Spec cfg)).

(** The connection a config and the data of its Secret stand for. *)
Inductive connects (cfg : SaltKeyConfig) (def : DefaultConn) (data : gmap string string) : Connection -> Prop :=
| connects_own conn :
    CredentialsSecret (cfg_Spec cfg) <> "" ->
    conn_URL conn = RaasURL (cfg_Spec cfg) -> conn_MasterID conn = MasterID (cfg_Spec cfg) ->
    conn_SkipTLSVerify conn = SkipTLSVerify (cfg_Spec cfg) ->
    conn_Username conn = mget data KeyUsername -> conn_Password conn = mget data KeyPassword ->
    conn_Source conn = SourceNamespaceSecret -> connects cfg def data conn
| connects_default conn :
    CredentialsSecret (cfg_Spec cfg) = "" -> Configured def = true ->
    conn_URL conn = mget data KeyURL -> conn_MasterID conn = mget data KeyMasterID ->
    conn_Username conn = mget data KeyUsername -> conn_Password conn = mget data KeyPassword ->
    conn_SkipTLSVerify conn = EqualFold (mget data KeySkipTLSVerify) "true" ->
    (* the config may restate the connection, not redirect or weaken it *)
    RaasURL (cfg_Spec cfg) = "" \/ RaasURL (cfg_Spec cfg) = conn_URL conn ->
    MasterID (cfg_Spec cfg) = "" \/ MasterID (cfg_Spec cfg) = conn_MasterID conn ->
    (SkipTLSVerify (cfg_Spec cfg) = true -> conn_SkipTLSVerify conn = true) ->
    conn_Source conn = SourceDefaultConnection -> connects cfg def data conn.

Definition complete_conn (conn : Connection) : Prop :=
  conn_URL conn <> "" /\ conn_MasterID conn <> "" /\ conn_Username conn <> "" /\ conn_Password conn <> "".

Definition raas_reasons : list string :=
  [ReasonSecretNotFound; ReasonSecretInvalid; ReasonGetSecretFailed; ReasonIncompleteSpec;
   ReasonDefaultNotSet; ReasonConnectionMismatch].

Definition raas_error (e : error) : Prop := exists r m, e = ERaas r m /\ r ∈ raas_reasons.

(** What a resolution did: no call, or the one read of its Secret, and what came of it. *)
Definition resolution (cfg : SaltKeyConfig) (def : DefaultConn)
    (r : res Connection) (t : list (obs C)) : Prop :=
  match r with
  | Err e => raas_error e /\ (forall conn sec,
               t = [Obs (CGetSecret (connection_secret cfg def).1 (connection_secret cfg def).2) (Ok sec)] ->
               connects cfg def (sec_Data sec) conn -> ~ complete_conn conn)
  | Ok conn => complete_conn conn /\ exists sec,
                 t = [Obs (CGetSecret (connection_secret cfg def).1 (connection_secret cfg def).2) (Ok sec)]
                 /\ connects cfg def (sec_Data sec) conn
  end /\ (t = [] \/ exists r', t = [Obs (CGetSecret (connection_secret cfg def).1 (connection_secret cfg def).2) r']).

(** ** Lemmas *)

Lemma wp_readSecret ns n s Q :
  (forall r w', env (CGetSecret ns n) (world s) = (r, w') ->
     match r with
     | Ok sec => Q (Ok (sec_Data sec)) [Obs (CGetSecret ns n) r] (set_world w' s)
     | Err _ => forall e, raas_error e -> Q (Err e) [Obs (CGetSecret ns n) r] (set_world w' s)
     end) -> wp (readSecret ns n) s Q.
Proof.
  intros HQ. unfold readSecret. apply wp_bind. wp_call. intros r w' E. specialize (HQ r w' E).
  destruct r as [sec|e]; [by apply wp_ret|].
  destruct (IsNotFound e); apply wp_ret, HQ; eexists _, _; (split; [done|]); set_solver.
Qed.

Lemma wp_resolveNamespaceSecret cfg def s :
  CredentialsSecret (cfg_Spec cfg) <> "" ->
  wp (resolveNamespaceSecret cfg) s (fun r t _ => resolution cfg def r t).
Proof.
  intros Hc. unfold resolveNamespaceSecret, resolution, connection_secret. apply String.eqb_neq in Hc as Hc'.
  rewrite Hc'. cbv zeta.
  destruct ((RaasURL _ =s? "") || _) eqn:Ei.
  { apply wp_ret. split; [|by left]. split; [eexists _, _; split; [done|set_solver]|done]. }
  reflect_bools. apply wp_bind, wp_readSecret. intros [sec|e0] w' E; simpl.
  - destruct ((mget _ KeyUsername =s? "") || _) eqn:Eu; apply wp_ret; simpl; (split; [|by eauto]).
    + split; [eexists _, _; split; [done|set_solver]|]. intros conn sec' Hs Hconn (Hu & Hm & Hn & Hp).
      apply (f_equal (fmap secret_read)) in Hs as [= <-].
      inversion Hconn; [|done]. apply orb_true_iff in Eu as [Eu|Eu]; reflect_bools; congruence.
    + reflect_bools. split; [by repeat split|]. eexists. split; [done|]. by apply connects_own.
  - intros e He. apply wp_ret. simpl. split; [|by eauto]. split; [done|].
    intros conn sec Hs. by apply (f_equal (fmap secret_read)) in Hs.
Qed.

Lemma wp_resolveDefault cfg def s :
  CredentialsSecret (cfg_Spec cfg) = "" ->
  wp (resolveDefault cfg def) s (fun r t _ => resolution cfg def r t).
Proof.
  intros Hc. unfold resolveDefault, Load, resolution, connection_secret.
  rewrite Hc, String.eqb_refl. cbn [fst snd]. destruct (Configured def) eqn:Ed; cbn [negb]; cycle 1.
  { apply wp_ret. split; [|by left]. split; [eexists _, _; split; [done|set_solver]|done]. }
  apply wp_bind, wp_bind, wp_readSecret. intros [sec|e0] w' E; cbv beta iota; cycle 1.
  { intros e He. apply wp_ret. simpl. apply wp_ret. simpl. split; [|by eauto]. split; [done|].
    intros conn sec Hs. by apply (f_equal (fmap secret_read)) in Hs. }
  assert (forall conn, connects cfg def (sec_Data sec) conn -> complete_conn conn ->
    existsb (fun k => mget (sec_Data sec) k =s? "") [KeyURL; KeyMasterID; KeyUsername; KeyPassword] = false
    /\ conn = {| conn_URL := mget (sec_Data sec) KeyURL; conn_MasterID := mget (sec_Data sec) KeyMasterID;
                 conn_Username := mget (sec_Data sec) KeyUsername; conn_Password := mget (sec_Data sec) KeyPassword;
                 conn_SkipTLSVerify := EqualFold (mget (sec_Data sec) KeySkipTLSVerify) "true";
                 conn_Source := SourceDefaultConnection |}) as Hcc.
  { intros conn Hconn (Hu & Hm & Hn & Hp). inversion Hconn as [|? _ _ E1 E2 E3 E4 E5 _ _ _ E6]; [done|subst].
    simpl. rewrite E1 in Hu. rewrite E2 in Hm. rewrite E3 in Hn. rewrite E4 in Hp.
    apply String.eqb_neq in Hu, Hm, Hn, Hp. rewrite Hu, Hm, Hn, Hp. split; [done|].
    destruct conn; simpl in *; by subst. }
  (* an error after the read is right when no complete connection stands for the data *)
  assert (forall reason m, reason ∈ raas_reasons ->
    (forall conn, connects cfg def (sec_Data sec) conn -> complete_conn conn -> False) ->
    resolution cfg def (Err (ERaas reason m))
      [Obs (CGetSecret (def_Namespace def) (def_SecretName def)) (Ok sec)]) as Herr.
  { intros reason m Hr Hno. unfold resolution, connection_secret. rewrite Hc. simpl. split; [|by eauto].
    split; [by eexists _, _|]. intros conn sec' Hs Hconn Hcomp.
    apply (f_equal (fmap secret_read)) in Hs as [= <-]. by eapply Hno. }
  unfold resolution, connection_secret in Herr. rewrite Hc in Herr. simpl in Herr.
  destruct (existsb _ _) eqn:Ee.
  { do 2 apply wp_ret. apply Herr; [set_solver|].
    intros conn Hconn Hcomp. by destruct (Hcc conn Hconn Hcomp) as [Hf _]. }
  apply wp_ret. simpl.
  assert (ReasonSecretInvalid ∈ raas_reasons /\ ReasonConnectionMismatch ∈ raas_reasons) as [Hr1 Hr2] by set_solver.
  repeat match goal with |- wp (if ?b then _ else _) _ _ => destruct b eqn:?; reflect_bools end;
    apply wp_ret; first [apply Herr; [exact Hr2|];
      intros conn Hconn Hcomp; destruct (Hcc conn Hconn Hcomp) as [_ ->];
      inversion Hconn as [|? _ _ _ _ _ _ _ E1 E2 E3 _]; [done|];
      simpl in *; intuition congruence | idtac].
  split; [|by eauto]. cbn [existsb] in Ee. reflect_bools. split; [by repeat split|].
  exists sec. split; [done|]. apply connects_default; try done; cbn [conn_URL conn_MasterID conn_SkipTLSVerify].
  - apply andb_false_iff in Heqb as [?|?]; reflect_bools; auto.
  - apply andb_false_iff in Heqb0 as [?|?]; reflect_bools; auto.
  - intros Hs. rewrite Hs in Heqb1. simpl in Heqb1. by apply negb_false_iff in Heqb1.
Qed.

Lemma det_Resolve cfg def : determined (Resolve cfg def : M C S _).
Proof.
  unfold Resolve, resolveNamespaceSecret, resolveDefault, Load, readSecret.
  repeat first [apply det_ret | apply det_get_secret | apply det_bind; [|intros]
               | match goal with
                 | |- determined (if ?b then _ else _) => destruct b
                 | |- determined (match ?r with Ok _ => _ | Err _ => _ end) => destruct r
                 end].
Qed.

Lemma wp_Resolve cfg def s : wp (Resolve cfg def) s (fun r t _ => resolution cfg def r t).
Proof.
  unfold Resolve. destruct (CredentialsSecret (cfg_Spec cfg) =s? "") eqn:E; reflect_bools; simpl.
  - by apply wp_resolveDefault.
  - by apply wp_resolveNamespaceSecret.
Qed.

(** *** Case by case *)

(** The config says enough to read a Secret. *)
Definition may_read (cfg : SaltKeyConfig) (def : DefaultConn) : Prop :=
  if CredentialsSecret (cfg_Spec cfg) =s? "" then Configured def = true
  else RaasURL (cfg_Spec cfg) <> "" /\ MasterID (cfg_Spec cfg) <> "".

(** The keys the Secret must have. *)
Definition required_keys (cfg : SaltKeyConfig) : list string :=
  if CredentialsSecret (cfg_Spec cfg) =s? "" then ["url"; "masterID"; "username"; "password"]
  else ["username"; "password"].

(** The config asks for another endpoint or master than the default connection, or for less TLS. *)
Definition mismatches (cfg : SaltKeyConfig) (data : gmap string string) : Prop :=
  RaasURL (cfg_Spec cfg) <> "" /\ RaasURL (cfg_Spec cfg) <> mget data "url"
  \/ MasterID (cfg_Spec cfg) <> "" /\ MasterID (cfg_Spec cfg) <> mget data "masterID"
  \/ SkipTLSVerify (cfg_Spec cfg) = true /\ EqualFold (mget data "skipTLSVerify") "true" = false.

Definition secret_get (cfg : SaltKeyConfig) (def : DefaultConn) (r : res Secret) : obs C :=
  Obs (CGetSecret (connection_secret cfg def).1 (connection_secret cfg def).2) r.

(** The result of a resolution and the reads it made. *)
Inductive resolved (cfg : SaltKeyConfig) (def : DefaultConn) : res Connection -> list (obs C) -> Prop :=
| rv_incomplete m :
    CredentialsSecret (cfg_Spec cfg) <> "" -> RaasURL (cfg_Spec cfg) = "" \/ MasterID (cfg_Spec cfg) = "" ->
    resolved cfg def (Err (ERaas ReasonIncompleteSpec m)) []
| rv_not_set m :
    CredentialsSecret (cfg_Spec cfg) = "" -> Configured def = false ->
    resolved cfg def (Err (ERaas ReasonDefaultNotSet m)) []
| rv_not_found e m :
    may_read cfg def -> IsNotFound e = true ->
    resolved cfg def (Err (ERaas ReasonSecretNotFound m)) [secret_get cfg def (Err e)]
| rv_unread e m :
    may_read cfg def -> IsNotFound e = false ->
    resolved cfg def (Err (ERaas ReasonGetSecretFailed m)) [secret_get cfg def (Err e)]
| rv_invalid sec m :
    may_read cfg def -> Exists (fun k => mget (sec_Data sec) k = "") (required_keys cfg) ->
    resolved cfg def (Err (ERaas ReasonSecretInvalid m)) [secret_get cfg def (Ok sec)]
| rv_mismatch sec m :
    may_read cfg def -> CredentialsSecret (cfg_Spec cfg) = "" ->
    Forall (fun k => mget (sec_Data sec) k <> "") (required_keys cfg) -> mismatches cfg (sec_Data sec) ->
    resolved cfg def (Err (ERaas ReasonConnectionMismatch m)) [secret_get cfg def (Ok sec)]
| rv_connection sec conn :
    may_read cfg def -> Forall (fun k => mget (sec_Data sec) k <> "") (required_keys cfg) ->
    connects cfg def (sec_Data sec) conn -> complete_conn conn ->
    resolved cfg def (Ok conn) [secret_get cfg def (Ok sec)].

Lemma wp_readSecret_resolved cfg def (s : S) (k : res (gmap string string) -> M C S (res Connection)) :
  may_read cfg def ->
  (forall e, k (Err e) = mret (Err e)) ->
  (forall sec s', wp (k (Ok (sec_Data sec))) s' (fun r t _ => resolved cfg def r (secret_get cfg def (Ok sec) :: t))) ->
  wp (readSecret (connection_secret cfg def).1 (connection_secret cfg def).2 ≫= k) s (fun r t _ => resolved cfg def r t).
Proof.
  intros Hr He Hk. unfold readSecret. apply wp_bind, wp_bind. wp_call. intros [sec|e] w' _.
  - apply wp_ret. rewrite app_nil_r. apply Hk.
  - destruct (IsNotFound e) eqn:En; apply wp_ret; rewrite He; apply wp_ret; rewrite app_nil_r;
      [by apply rv_not_found|by apply rv_unread].
Qed.

Lemma wp_resolveNamespaceSecret_resolved cfg def (s : S) :
  CredentialsSecret (cfg_Spec cfg) <> "" ->
  wp (resolveNamespaceSecret cfg) s (fun r t _ => resolved cfg def r t).
Proof.
  intros Hc. unfold resolveNamespaceSecret. cbv zeta. destruct (_ || _) eqn:Ei.
  { apply wp_ret. apply rv_incomplete; [done|]. apply orb_true_iff in Ei as [?|?]; reflect_bools; auto. }
  reflect_bools. apply String.eqb_neq in Hc as Hc'.
  assert (connection_secret cfg def = (cfg_Namespace cfg, CredentialsSecret (cfg_Spec cfg))) as Hsec
    by (unfold connection_secret; by rewrite Hc').
  assert (may_read cfg def) as Hr by (unfold may_read; by rewrite Hc').
  pose proof (wp_readSecret_resolved cfg def s) as Hread. rewrite Hsec in Hread. apply Hread; [done|done|].
  intros sec s'. assert (required_keys cfg = ["username"; "password"]) as Hk by (unfold required_keys; by rewrite Hc').
  destruct (_ || _) eqn:Eu; apply wp_ret.
  - apply rv_invalid; [done|]. rewrite Hk. apply orb_true_iff in Eu as [?|?]; reflect_bools; [by left|by right; left].
  - reflect_bools. apply rv_connection; [done|rewrite Hk; by repeat constructor|by apply connects_own|by repeat split].
Qed.

Lemma wp_resolveDefault_resolved cfg def (s : S) :
  CredentialsSecret (cfg_Spec cfg) = "" ->
  wp (resolveDefault cfg def) s (fun r t _ => resolved cfg def r t).
Proof.
  intros Hc. unfold resolveDefault. destruct (Configured def) eqn:Ed; cbn [negb]; [|by apply wp_ret, rv_not_set].
  assert (connection_secret cfg def = (def_Namespace def, def_SecretName def)) as Hsec
    by (unfold connection_secret; by rewrite Hc).
  assert (may_read cfg def) as Hr by (unfold may_read; by rewrite Hc).
  assert (required_keys cfg = ["url"; "masterID"; "username"; "password"]) as Hk by (unfold required_keys; by rewrite Hc).
  unfold Load. apply wp_assoc.
  pose proof (wp_readSecret_resolved cfg def s) as Hread. rewrite Hsec in Hread. apply Hread; [done| |].
  { intros e. done. }
  intros sec s'. destruct (existsb _ _) eqn:Ee.
  { apply wp_bind, wp_ret, wp_ret. apply rv_invalid; [done|]. rewrite Hk.
    apply existsb_exists in Ee as (key & Hin & Hkey). apply Exists_exists. exists key.
    split; [by apply list_elem_of_In|by apply String.eqb_eq]. }
  apply wp_bind, wp_ret. cbv beta iota zeta. cbn [existsb] in Ee. reflect_bools.
  assert (Forall (fun k => mget (sec_Data sec) k <> "") (required_keys cfg)) as Hall by (rewrite Hk; by repeat constructor).
  cbn [conn_URL conn_MasterID conn_SkipTLSVerify].
  destruct (_ && _) eqn:E1; [apply wp_ret, rv_mismatch; try done; reflect_bools; by left|].
  destruct ((MasterID _ <>s? "") && _) eqn:E2; [apply wp_ret, rv_mismatch; try done; reflect_bools; right; by left|].
  destruct (SkipTLSVerify _ && _) eqn:E3; apply wp_ret.
  { apply rv_mismatch; try done. right; right. by apply andb_true_iff in E3 as [? ?%negb_true_iff]. }
  apply rv_connection; [done|done| |by repeat split].
  apply connects_default; try done; cbn [conn_URL conn_MasterID conn_SkipTLSVerify].
  - apply andb_false_iff in E1 as [?|?]; reflect_bools; auto.
  - apply andb_false_iff in E2 as [?|?]; reflect_bools; auto.
  - intros Hs. rewrite Hs in E3. simpl in E3. by apply negb_false_iff in E3.
Qed.

Lemma wp_Resolve_resolved cfg def s : wp (Resolve cfg def) s (fun r t _ => resolved cfg def r t).
Proof.
  unfold Resolve. destruct (CredentialsSecret (cfg_Spec cfg) =s? "") eqn:E; reflect_bools; simpl.
  - by apply wp_resolveDefault_resolved.
  - by apply wp_resolveNamespaceSecret_resolved.
Qed.

(** The spec decides whether the one Secret is read. *)
Lemma resolved_reads cfg def r t : resolved cfg def r t ->
  ~ may_read cfg def /\ t = [] \/ may_read cfg def /\ exists a, t = [secret_get cfg def a].
Proof.
  unfold may_read. intros [m Hc Hi|m Hc Hd|e m Hr ?|e m Hr ?|sec m Hr ?|sec m Hr ? ? ?|sec conn Hr ? ? ?];
    [left|left|right; eauto..].
  - apply String.eqb_neq in Hc. rewrite Hc. split; [|done]. intros [Hu Hm]. by destruct Hi.
  - rewrite Hc, String.eqb_refl, Hd. by split.
Qed.

(** C30: Resolving a connection reads at most one Secret, the one the config names in its own
    namespace or the operator's default one. It succeeds exactly when that Secret was read and stands for
    a complete connection: own credentials use the config's endpoint, the default connection is
    taken whole and a config can neither redirect it nor turn TLS verification off for it. Nothing is read
    only when a config with own credentials has no endpoint or master, or there is no default connection;
    and every failure carries the documented reason of its case. *)
Theorem Resolve_correct cfg def s :
  wp (Resolve cfg def) s (fun r t _ => resolved cfg def r t
    /\ ((exists conn, r = Ok conn) <-> exists sec conn,
          t = [secret_get cfg def (Ok sec)] /\ connects cfg def (sec_Data sec) conn /\ complete_conn conn)).
Proof.
  apply wp_and.
  - apply wp_Resolve_resolved.
  - eapply wp_mono; [apply wp_Resolve|]. intros r t _ [Hr _]. destruct r as [conn|e].
    + destruct Hr as (Hcc & sec & -> & Hconn). split; [|by eexists]. intros _. by exists sec, conn.
    + destruct Hr as [_ Hno]. split; [by intros []|]. intros (sec & conn & Ht & Hconn & Hcc). by destruct (Hno conn sec Ht).
Qed.

End Resolve.
