(* ===== verification/IntentHash.v ===== *)
(** * Annotations, the intent hash and scheduled enforcement

    The pure part of [internal/controller/virtualmachine_controller.go]: the
    annotation names and which of them the operator writes, the hash of the
    tenant-set annotations that detects Day-2 changes, the due time of
    scheduled enforcement, and the filter that drops the watch events the
    operator's own writes cause.  [VMIntent] relates the hash and the filter
    to the writes of the controller. *)

From S2P Require Import Prelude GoStrings GoTime Sha256 Api Effects Server.

Local Open Scope Z_scope.

(** ** Constants *)

Definition saltFinalizer : string := "salt.vcf.io/cleanup".
Definition intentHashVersion : string := "v2:".
Definition failedStatusPrefix : string := "Failed/".
Definition saltStatusReady : string := "Ready".
Definition saltStatusHighstateDispatched : string := "HighstateDispatched".

Definition keyStatusAccepted : string := "Accepted".
Definition keyStatusFailed : string := "Failed".
Definition keyStatusDeleted : string := "Deleted".
Definition keyStatusPreseeded : string := "Preseeded".
Definition matchMethodPreseed : string := "preseed".
Definition bootstrapSecretSuffix : string := "-salt-bootstrap".
Definition bootstrapKeyCleared : string := "cleared".
Definition guestSignalKey : string := "salt-key-written".

Definition annotationTrue : string := "true".
Definition annotationFalse : string := "false".

Definition AnnotationManaged : string := "salt.vcf.io/managed".
Definition AnnotationKeyStatus : string := "salt.vcf.io/key-status".
Definition AnnotationMinionID : string := "salt.vcf.io/minion-id".
Definition AnnotationMatchMethod : string := "salt.vcf.io/match-method".
Definition AnnotationSaltStatus : string := "salt.vcf.io/salt-status".
Definition AnnotationReady : string := "salt.vcf.io/ready".
Definition AnnotationHighstateJID : string := "salt.vcf.io/highstate-jid".
Definition AnnotationHighstateStatus : string := "salt.vcf.io/highstate-status".
Definition AnnotationHighstateTime : string := "salt.vcf.io/highstate-time".
Definition AnnotationRoles : string := "salt.vcf.io/roles".
Definition AnnotationRolesHash : string := "salt.vcf.io/roles-hash".
Definition AnnotationAcceptedAt : string := "salt.vcf.io/accepted-at".
Definition AnnotationKeyCleared : string := "salt.vcf.io/key-cleared".
Definition AnnotationHighstateFailedCount : string := "salt.vcf.io/highstate-failed-count".
Definition AnnotationHighstateFailedStates : string := "salt.vcf.io/highstate-failed-states".
Definition AnnotationRetryRequest : string := "salt.vcf.io/retry-request".
Definition AnnotationRetryHandled : string := "salt.vcf.io/retry-handled".
Definition AnnotationBulkRetryHandled : string := "salt.vcf.io/bulk-retry-handled".

Definition vmBackupVersionAnnotation : string := "vmoperator.vmware.com/backup-version".
Definition vmConversionAnnotation : string := "vmoperator.vmware.com/conversion".
Definition vmBackupCondition : string := "VirtualMachineBackupUpToDate".
Definition vmConditionReady : string := "Ready".
Definition vmConditionCreated : string := "VirtualMachineCreated".

(** The annotations left out of the intent: those the operator writes, and the retry request. *)
Definition nonIntentAnnotations : gset string :=
  list_to_set [AnnotationKeyStatus; AnnotationMinionID; AnnotationMatchMethod; AnnotationSaltStatus;
    AnnotationReady; AnnotationHighstateJID; AnnotationHighstateStatus; AnnotationHighstateTime;
    AnnotationRolesHash; AnnotationAcceptedAt; AnnotationKeyCleared; AnnotationHighstateFailedCount;
    AnnotationHighstateFailedStates; AnnotationRetryHandled; AnnotationBulkRetryHandled;
    AnnotationRetryRequest].

(** ** The intent hash *)

Definition is_intent (k : string) : bool :=
  HasPrefix k "salt.vcf.io/" && bool_decide (k ∉ nonIntentAnnotations).

(** The keys the loop over the map collects, for one iteration order [l] of the map. *)
Definition intent_keys_of (l : list (string * string)) : list string :=
  List.filter is_intent l.*1.

(** The text that is hashed: a line [key=value] per intent key, in order. *)
Definition intent_lines (a : gmap string string) (keys : list string) : string :=
  foldr (fun k rest => k +:+ "=" +:+ mget a k +:+ String (ascii_of_Z 10) rest) "" keys.

Definition intent_text (a : gmap string string) : string :=
  intent_lines a (sort_Strings (intent_keys_of (map_to_list a))).

(** What [intent_text] can be read back under: keys have no equals sign (Kubernetes refuses one)
    and values no newline. *)
Definition line_clean (a : gmap string string) : bool :=
  forallb (fun kv => negb (is_intent (fst kv))
                     || (no_byte "=" (fst kv) && no_byte (ascii_of_Z 10) (snd kv))) (map_to_list a).

Definition computeIntentHash (a : gmap string string) : string :=
  intentHashVersion +:+ hex_EncodeToString (take 8 (Sum256 (intent_text a))).

Definition computeLegacyRolesHash (roles : string) : string :=
  hex_EncodeToString (take 8 (Sum256 roles)).

(** ** Scheduled enforcement *)

Definition enforcementJitter (uid : string) (interval : Z) : Z :=
  let spread := Z.quot interval 10 in
  if (spread <=? 0) || (uid =s? "") then 0
  else BigEndian_Uint64 (Sum256 uid) mod spread.

Definition enforcementDue (cfg : option SaltKeyConfig) (uid lastHighstate : string) (now : Z) : bool * Z :=
  match cfg with
  | None => (false, 0)
  | Some cfg =>
      if EnforcementInterval (cfg_Spec cfg) =s? "" then (false, 0)
      else match ParseDuration (EnforcementInterval (cfg_Spec cfg)) with
           | None => (false, 0)
           | Some interval =>
               if interval <=? 0 then (false, 0)
               else if lastHighstate =s? "" then (false, 0)
               else match ParseRFC3339 lastHighstate with
                    | None => (false, 0)
                    | Some last =>
                        let elapsed := Sub now last in
                        let effective := wrap64 (interval + enforcementJitter uid interval) in
                        if effective <=? elapsed then (true, 0)
                        else (false, wrap64 (effective - elapsed))
                    end
           end
  end.

Definition parseDurationOrDefault (s : string) (fallback : Z) : Z :=
  if s =s? "" then fallback
  else match ParseDuration s with Some d => d | None => fallback end.

(** ** Watch events of the operator's own writes *)

(** A condition VM Operator updates on every backup, dropped before comparing. *)
Definition is_backup_condition (c : any) : bool :=
  match c with AMap m => field_is m "type" vmBackupCondition | _ => false end.

Definition dropped_annotation (k : string) : bool :=
  (bool_decide (k ∈ nonIntentAnnotations) && (k <>s? AnnotationRetryRequest))
  || (k =s? vmBackupVersionAnnotation) || (k =s? vmConversionAnnotation).

Definition withoutOwnWrites (vm : VM) : VM :=
  let vm1 := set_bookkeeping None None vm in
  let vm2 := set_annotations
               (filter (fun kv => dropped_annotation (fst kv) = false) <$> vm_annotations vm1) vm1 in
  set_conditions (List.filter (fun c => negb (is_backup_condition c)) (vm_conditions vm2)) vm2.

Definition ownWritesOnly `{K8sLib} (oldObj newObj : VM) : bool :=
  DeepEqual (withoutOwnWrites oldObj) (withoutOwnWrites newObj).

(** ** Specification *)

(** The annotations the README documents as written by the operator. *)
Definition operator_annotations : list string :=
  ["salt.vcf.io/key-status"; "salt.vcf.io/minion-id"; "salt.vcf.io/match-method"; "salt.vcf.io/salt-status";
   "salt.vcf.io/ready"; "salt.vcf.io/highstate-jid"; "salt.vcf.io/highstate-status"; "salt.vcf.io/highstate-time";
   "salt.vcf.io/roles-hash"; "salt.vcf.io/accepted-at"; "salt.vcf.io/key-cleared";
   "salt.vcf.io/highstate-failed-count"; "salt.vcf.io/highstate-failed-states";
   "salt.vcf.io/retry-handled"; "salt.vcf.io/bulk-retry-handled"].

(** The annotations VM Operator keeps its backup state in. *)
Definition backup_annotations : list string :=
  ["vmoperator.vmware.com/backup-version"; "vmoperator.vmware.com/conversion"].

Definition retry_annotation : string := "salt.vcf.io/retry-request".

(** An annotation that states what the tenant wants of Salt. *)
Definition tenant_annotation (k : string) : Prop :=
  HasPrefix k "salt.vcf.io/" = true /\ k ∉ operator_annotations /\ k <> retry_annotation.

(** ** Lemmas: the hash *)

Lemma computeIntentHash_prefix a : HasPrefix (computeIntentHash a) intentHashVersion = true.
Proof. apply HasPrefix_app. Qed.

Lemma computeIntentHash_nonempty a : computeIntentHash a <> "".
Proof. done. Qed.

#[export] Hint Resolve computeIntentHash_prefix computeIntentHash_nonempty : go.

(** ** Lemmas: what the hash depends on *)

Lemma intent_keys_elem a k :
  k ∈ intent_keys_of (map_to_list a) <-> is_intent k = true /\ is_Some (a !! k).
Proof.
  unfold intent_keys_of. rewrite list_elem_of_In, List.filter_In, <- list_elem_of_In.
  rewrite list_elem_of_fmap. split.
  - intros [([k' v] & -> & Hin%elem_of_map_to_list) Hk]. split; [done|]. by exists v.
  - intros [Hk [v Hv]]. split; [|done]. exists (k, v). split; [done|]. by apply elem_of_map_to_list.
Qed.

Lemma intent_keys_NoDup a : NoDup (intent_keys_of (map_to_list a)).
Proof.
  unfold intent_keys_of. apply NoDup_ListNoDup, List.NoDup_filter, NoDup_ListNoDup.
  apply NoDup_fst_map_to_list.
Qed.

(** The sorted keys of a map, for any order the map is iterated in. *)
Lemma intent_keys_order a l :
  l ≡ₚ map_to_list a ->
  sort_Strings (intent_keys_of l) = sort_Strings (intent_keys_of (map_to_list a)).
Proof.
  intros Hp. apply sort_Strings_ext. unfold intent_keys_of. by rewrite Hp.
Qed.

Lemma intent_lines_agree a b keys :
  Forall (fun k => a !! k = b !! k) keys -> intent_lines a keys = intent_lines b keys.
Proof.
  induction 1 as [|k keys Hk _ IH]; [done|]. simpl. unfold mget. by rewrite Hk, IH.
Qed.

(** Maps that agree on the intent keys have the same text. *)
Lemma intent_text_agree a b :
  (forall k, is_intent k = true -> a !! k = b !! k) -> intent_text a = intent_text b.
Proof.
  intros Hab. unfold intent_text.
  replace (sort_Strings (intent_keys_of (map_to_list b)))
    with (sort_Strings (intent_keys_of (map_to_list a))).
  - apply intent_lines_agree, Forall_forall. intros k Hk. apply Hab.
    rewrite sort_Strings_perm in Hk. by apply intent_keys_elem in Hk as [? _].
  - apply sort_Strings_ext, NoDup_Permutation; [apply intent_keys_NoDup..|].
    intros k. rewrite !intent_keys_elem. split; intros [Hk Hs]; split; try done.
    + by rewrite <- Hab.
    + by rewrite Hab.
Qed.

(** ** Lemmas: reading the text back *)

Lemma app_sep_inj c s1 s2 t1 t2 :
  no_byte c s1 = true -> no_byte c s2 = true ->
  s1 +:+ String c t1 = s2 +:+ String c t2 -> s1 = s2 /\ t1 = t2.
Proof.
  revert s2. induction s1 as [|a s1 IH]; intros [|b s2] H1 H2;
    rewrite ?string_app_cons, ?string_app_nil_l; intros E.
  - by injection E.
  - injection E as -> _. unfold no_byte in H2. simpl in H2. by rewrite Ascii.eqb_refl in H2.
  - injection E as -> _. unfold no_byte in H1. simpl in H1. by rewrite Ascii.eqb_refl in H1.
  - unfold no_byte in H1, H2. simpl in H1, H2. reflect_bools. injection E as -> E.
    destruct (IH s2) as [-> ->]; done.
Qed.

(** A line of the text determines its key, its value and the rest. *)
Lemma intent_line_inj k1 k2 v1 v2 r1 r2 :
  no_byte "=" k1 = true -> no_byte "=" k2 = true ->
  no_byte (ascii_of_Z 10) v1 = true -> no_byte (ascii_of_Z 10) v2 = true ->
  k1 +:+ "=" +:+ v1 +:+ String (ascii_of_Z 10) r1 = k2 +:+ "=" +:+ v2 +:+ String (ascii_of_Z 10) r2 ->
  k1 = k2 /\ v1 = v2 /\ r1 = r2.
Proof.
  intros Hk1 Hk2 Hv1 Hv2 E. change ("=" +:+ ?x) with (String "=" x) in E.
  apply app_sep_inj in E as [-> E]; [|done..].
  by apply app_sep_inj in E as [-> ->].
Qed.

Lemma line_clean_lookup a k :
  line_clean a = true -> is_intent k = true -> is_Some (a !! k) ->
  no_byte "=" k = true /\ no_byte (ascii_of_Z 10) (mget a k) = true.
Proof.
  unfold line_clean. rewrite List.forallb_forall. intros Ha Hk [v Hv].
  specialize (Ha (k, v)). rewrite <- list_elem_of_In, elem_of_map_to_list in Ha.
  specialize (Ha Hv). simpl in Ha. rewrite Hk in Ha. unfold mget. rewrite Hv. simpl in *.
  by apply andb_true_iff.
Qed.

Lemma intent_lines_inj a b l1 l2 :
  Forall (fun k => no_byte "=" k = true /\ no_byte (ascii_of_Z 10) (mget a k) = true) l1 ->
  Forall (fun k => no_byte "=" k = true /\ no_byte (ascii_of_Z 10) (mget b k) = true) l2 ->
  intent_lines a l1 = intent_lines b l2 -> l1 = l2 /\ Forall (fun k => mget a k = mget b k) l1.
Proof.
  intros H1. revert l2. induction H1 as [|k1 l1 [Hk1 Hv1] _ IH]; intros l2 H2 E.
  - destruct H2 as [|k2 l2]; [done|]. simpl in E. by destruct k2.
  - destruct H2 as [|k2 l2 [Hk2 Hv2] H2]; [simpl in E; by destruct k1|].
    simpl in E. apply intent_line_inj in E as (-> & Hv & E); [|done..].
    destruct (IH l2 H2 E) as [-> Hall]. auto.
Qed.

Lemma intent_text_inj a b :
  line_clean a = true -> line_clean b = true -> intent_text a = intent_text b ->
  forall k, is_intent k = true -> a !! k = b !! k.
Proof.
  intros Ha Hb E.
  assert (forall c, line_clean c = true -> Forall (fun k => no_byte "=" k = true
            /\ no_byte (ascii_of_Z 10) (mget c k) = true) (sort_Strings (intent_keys_of (map_to_list c)))) as Hc.
  { intros c Hc. apply Forall_forall. intros k Hk. rewrite sort_Strings_perm, intent_keys_elem in Hk.
    destruct Hk. by apply line_clean_lookup. }
  apply intent_lines_inj in E as [El Hv]; [|by apply Hc..].
  assert (forall k, is_intent k = true -> is_Some (a !! k) <-> is_Some (b !! k)) as Hs.
  { intros k Hk. pose proof (intent_keys_elem a k) as Ea. pose proof (intent_keys_elem b k) as Eb.
    rewrite <- sort_Strings_perm, El, sort_Strings_perm in Ea. tauto. }
  intros k Hk. destruct (decide (is_Some (a !! k))) as [Hx|Hx].
  - rewrite Forall_forall in Hv. pose proof (Hv k) as Hm. unfold mget in Hm.
    destruct Hx as [x Hx], (proj1 (Hs k Hk) ltac:(by eexists)) as [y Hy].
    rewrite Hx, Hy in *. simpl in Hm. f_equal. apply Hm.
    rewrite sort_Strings_perm, intent_keys_elem, Hx. by eauto.
  - rewrite <- eq_None_not_Some in Hx. rewrite Hx. symmetry. apply eq_None_not_Some.
    rewrite <- Hs, Hx by done. by intros [? ?].
Qed.

(** ** Lemmas: enforcement *)

Lemma enforcementJitter_range uid interval :
  0 <= enforcementJitter uid interval /\
  (0 < interval -> enforcementJitter uid interval <= Z.quot interval 10).
Proof.
  unfold enforcementJitter. cbv zeta.
  destruct ((Z.quot interval 10 <=? 0) || (uid =s? "")) eqn:E.
  - split; [lia|]. intros. apply Z.quot_pos; lia.
  - reflect_bools. pose proof (Z.mod_pos_bound (BigEndian_Uint64 (Sum256 uid)) (Z.quot interval 10)). lia.
Qed.

Lemma wrap64_id z : int64_min <= z <= int64_max -> wrap64 z = z.
Proof.
  unfold wrap64, int64_min, int64_max. intros. rewrite Z.mod_small; lia.
Qed.

(** The schedule of a VM with a usable interval and a recorded highstate. *)
Lemma enforcementDue_eq cfg uid lastHighstate now interval last :
  ParseDuration (EnforcementInterval (cfg_Spec cfg)) = Some interval ->
  0 < interval -> interval + Z.quot interval 10 <= int64_max ->
  ParseRFC3339 lastHighstate = Some last ->
  enforcementDue (Some cfg) uid lastHighstate now
  = let due_at := interval + enforcementJitter uid interval in
    if due_at <=? Sub now last then (true, 0) else (false, wrap64 (due_at - Sub now last)).
Proof.
  intros Hi Hpos Hmax Hl. unfold enforcementDue. rewrite Hi, Hl.
  destruct (EnforcementInterval (cfg_Spec cfg) =s? "") eqn:E1; reflect_bools; [by rewrite E1 in Hi|].
  destruct (interval <=? 0) eqn:E2; reflect_bools; [lia|].
  destruct (lastHighstate =s? "") eqn:E3; reflect_bools; [by rewrite E3 in Hl|].
  pose proof (enforcementJitter_range uid interval) as [? ?].
  cbv zeta. rewrite wrap64_id; [done|]. unfold int64_min, int64_max in *. lia.
Qed.

(** ** Lemmas: watch events *)

Lemma withoutOwnWrites_annotations vm k :
  GetAnnotations (withoutOwnWrites vm) !! k
  = if dropped_annotation k then None else GetAnnotations vm !! k.
Proof.
  unfold withoutOwnWrites, GetAnnotations. simpl.
  destruct (vm_annotations vm) as [a|]; simpl; [|by destruct (dropped_annotation k); rewrite ?lookup_empty].
  apply filter_keys_lookup.
Qed.

(** The set of the source holds the documented annotations, and the retry request. *)
Lemma nonIntent_iff k : k ∈ nonIntentAnnotations <-> k ∈ operator_annotations \/ k = retry_annotation.
Proof.
  rewrite <- list_elem_of_singleton, <- elem_of_app. unfold nonIntentAnnotations.
  rewrite elem_of_list_to_set. reflexivity.
Qed.

Lemma is_intent_iff k : is_intent k = true <-> tenant_annotation k.
Proof.
  unfold is_intent, tenant_annotation. rewrite andb_true_iff, bool_decide_eq_true, nonIntent_iff. naive_solver.
Qed.

Lemma dropped_iff k : dropped_annotation k = true <-> k ∈ operator_annotations ++ backup_annotations.
Proof.
  assert (retry_annotation ∉ operator_annotations) as Hr.
  { apply (bool_decide_eq_false_1 (retry_annotation ∈ operator_annotations)). vm_compute. reflexivity. }
  unfold dropped_annotation. rewrite !orb_true_iff, andb_true_iff, bool_decide_eq_true, nonIntent_iff,
    negb_true_iff, !String.eqb_eq, String.eqb_neq, elem_of_app. unfold backup_annotations.
  rewrite !elem_of_cons, elem_of_nil. change AnnotationRetryRequest with retry_annotation.
  unfold vmBackupVersionAnnotation, vmConversionAnnotation. naive_solver.
Qed.

(** ** Theorems *)

(** C38: The text that is hashed misses no change: when values have no newline, two annotation maps
    with the same text have the same tenant annotations. *)
Theorem intent_text_injective a b :
  line_clean a = true -> line_clean b = true -> intent_text a = intent_text b ->
  forall k, is_intent k = true -> a !! k = b !! k.
Proof. apply intent_text_inj. Qed.

(** A value with a newline can hide a change: two annotation maps that differ in a tenant
    annotation have the same text, so the same hash, and the change starts no reconvergence. *)
Theorem intent_text_newline_collision :
  let a := list_to_map [("salt.vcf.io/a", "1" +:+ String (ascii_of_Z 10) "salt.vcf.io/b=2")] : gmap string string in
  let b := list_to_map [("salt.vcf.io/a", "1"); ("salt.vcf.io/b", "2")] : gmap string string in
  intent_text a = intent_text b /\ computeIntentHash a = computeIntentHash b
  /\ is_intent "salt.vcf.io/b" = true /\ a !! "salt.vcf.io/b" <> b !! "salt.vcf.io/b".
Proof. vm_compute. repeat split; discriminate. Qed.

(** C39: Scheduled enforcement with a usable interval never runs early and never stalls: a VM is due
    only when its last highstate is at least the interval old, a VM that is not due waits at most
    the interval and a tenth (no overflow), and it is due when that wait is over. *)
Theorem enforcement_schedule cfg uid lastHighstate now interval last :
  ParseDuration (EnforcementInterval (cfg_Spec cfg)) = Some interval ->
  0 < interval -> interval + Z.quot interval 10 <= int64_max ->
  ParseRFC3339 lastHighstate = Some last -> last <= now ->
  let '(due, wait) := enforcementDue (Some cfg) uid lastHighstate now in
  if due then interval <= now - last /\ wait = 0
  else 0 < wait <= interval + Z.quot interval 10
       /\ enforcementDue (Some cfg) uid lastHighstate (now + wait) = (true, 0).
Proof.
  intros Hi Hpos Hmax Hl Hnow. pose proof (enforcementJitter_range uid interval) as [Hj0 Hj].
  specialize (Hj Hpos). rewrite !(enforcementDue_eq _ _ _ _ interval last) by done. cbv zeta.
  destruct (_ <=? Sub now last) eqn:E; reflect_bools.
  - split; [|done]. unfold Sub, int64_min, int64_max in *. lia.
  - rewrite !(enforcementDue_eq _ _ _ _ interval last) by done. cbv zeta.
    rewrite wrap64_id by (unfold Sub, int64_min, int64_max in *; lia).
    split; [unfold Sub, int64_min, int64_max in *; lia|].
    rewrite (proj2 (Z.leb_le _ _)); [done|]. unfold Sub, int64_min, int64_max in *. lia.
Qed.

(** An interval near the end of the duration range overflows when the jitter is added: a VM
    whose highstate ended a second ago is due at once, so every reconcile runs another highstate. *)
Theorem enforcement_overflow :
  let cfg := {| cfg_Name := "salt"; cfg_Namespace := "team"; cfg_Labels := ∅; cfg_ResourceVersion := "1";
                cfg_Generation := 1;
                cfg_Spec := {| RaasURL := ""; CredentialsSecret := ""; KeyAcceptance := ""; AcceptTimeout := "";
                               RequeueInterval := ""; MasterID := ""; SkipTLSVerify := false; VMSelector := None;
                               RetryToken := ""; EnforcementInterval := "2562047h" |};
                cfg_Status := {| ObservedGeneration := 1; Conditions := [] |} |} in
  ParseRFC3339 "2026-01-01T00:00:00Z" = Some (1767225600 * Second)
  /\ enforcementDue (Some cfg) "uid-a" "2026-01-01T00:00:00Z" (1767225601 * Second) = (true, 0).
Proof. vm_compute. split; reflexivity. Qed.

(** ** Witnesses *)

Definition demo_intent : gmap string string :=
  list_to_map [("salt.vcf.io/managed", "true"); ("salt.vcf.io/roles", "web,db"); ("app", "shop")].

Lemma intent_text_injective_witness :
  line_clean demo_intent = true
  /\ forall b, line_clean b = true -> intent_text demo_intent = intent_text b ->
       b !! "salt.vcf.io/roles" = Some "web,db".
Proof.
  split; [by vm_compute|]. intros b Hb E.
  rewrite <- (intent_text_injective demo_intent b ltac:(by vm_compute) Hb E); by vm_compute.
Defined.

(** A VM last converged an hour ago under an interval of a day waits. *)
Lemma enforcement_schedule_witness :
  let cfg := demo_config_with {| RaasURL := ""; CredentialsSecret := ""; KeyAcceptance := ""; AcceptTimeout := "";
               RequeueInterval := ""; MasterID := ""; SkipTLSVerify := false; VMSelector := None;
               RetryToken := ""; EnforcementInterval := "24h" |} in
  let '(due, wait) := enforcementDue (Some cfg) "uid-a" "2026-01-01T00:00:00Z" (demo_now + Hour) in
  due = false /\ 0 < wait <= 24 * Hour + Z.quot (24 * Hour) 10
  /\ enforcementDue (Some cfg) "uid-a" "2026-01-01T00:00:00Z" (demo_now + Hour + wait) = (true, 0).
Proof.
  pose proof (enforcement_schedule
    (demo_config_with {| RaasURL := ""; CredentialsSecret := ""; KeyAcceptance := ""; AcceptTimeout := "";
               RequeueInterval := ""; MasterID := ""; SkipTLSVerify := false; VMSelector := None;
               RetryToken := ""; EnforcementInterval := "24h" |})
    "uid-a" "2026-01-01T00:00:00Z" (demo_now + Hour) (24 * Hour) demo_now
    ltac:(vm_compute; reflexivity) ltac:(vm_compute; reflexivity) ltac:(vm_compute; discriminate)
    ltac:(vm_compute; reflexivity) ltac:(vm_compute; discriminate)) as Hs.
  cbv zeta. destruct (enforcementDue _ _ _ (demo_now + Hour)) as [due wait] eqn:E.
  destruct due; [vm_compute in E; discriminate|]. by split.
Defined.
