(* ===== verification/VMController.v ===== *)
(** * The VirtualMachine controller ([internal/controller/virtualmachine_controller.go])

    [Reconcile] and every handler it calls, one definition per function, as
    programs over [Env].  The reconciler's own state is the cache of logged-in
    Salt clients.  Handlers that change the VM object they are given return
    it, as the source updates it in place.  Log lines are left out. *)

From S2P Require Import Prelude GoStrings GoTime Matcher Api Effects RaasConn IntentHash.

Local Open Scope Z_scope.

(** ** Constants *)

Definition postAcceptStepTimeout : Z := 2 * Minute.
Definition minMasterSilence : Z := Minute.
Definition eventMasterSilent : string := "SaltMasterSilent".
Definition postAcceptDelay : Z := 30 * Second.
Definition maxBootstrapDuration : Z := 10 * Minute.
Definition saltClientCacheTTL : Z := 20 * Minute.


Definition EventTypeNormal : string := "Normal".
Definition EventTypeWarning : string := "Warning".

(** ** State *)

Record saltCacheEntry (C : Type) := {
  ce_client : C;
  ce_configRV : string;
  ce_expiresAt : Z;
}.
Arguments ce_client {C}.
Arguments ce_configRV {C}.
Arguments ce_expiresAt {C}.

(** The world, and the entries of [saltClientCache] by namespace and name of the config. *)
Record VMState (W C : Type) := {
  vs_world : W;
  vs_cache : gmap (string * string) (saltCacheEntry C);
}.
Arguments vs_world {W C}.
Arguments vs_cache {W C}.

#[global] Instance VMState_world W C : HasWorld (VMState W C) W := {|
  world := vs_world;
  set_world w s := {| vs_world := w; vs_cache := vs_cache s |};
|}.

Definition set_cache {W C : Type} (f : gmap (string * string) (saltCacheEntry C) -> gmap (string * string) (saltCacheEntry C))
    (s : VMState W C) : VMState W C :=
  {| vs_world := vs_world s; vs_cache := f (vs_cache s) |}.

(** An annotation map written as in the source. *)
Definition anns (l : list (string * string)) : gmap string string := list_to_map l.

(** [vm.GetAnnotations()[k]]. *)
Definition ann (vm : VM) (k : string) : string := mget (GetAnnotations vm) k.

Definition being_deleted (vm : VM) : bool :=
  match vm_deletionTimestamp vm with Some _ => true | None => false end.

Section Controller.
Context {W C : Type} `{GoUnicode} `{K8sLib} `{Env W C}.

(** The reconciler's [DefaultConnection]. *)
Context (DefaultConnection : DefaultConn).

Abbreviation ctl := (M C (VMState W C)).

(** ** Primitives *)

Definition Event (vm : VM) (eventtype reason : string) (m : message) : ctl unit :=
  perform (CEvent vm eventtype reason m).

(** [time.Since]. *)
Definition Since (t : Z) : ctl Z :=
  now ← perform CNow; mret (Sub now t).

Definition patchAnnotations (vm : VM) (additions : gmap string string) : ctl (VM * option error) :=
  let vm' := set_annotations (Some (maps_Copy (GetAnnotations vm) additions)) vm in
  r ← perform (CPatchVM vm vm');
  match r with
  | Ok v => mret (v, None)
  | Err e => mret (vm', Some e)
  end.

(** The finalizer block the handlers share: nothing when the VM has it. *)
Definition addSaltFinalizer (vm : VM) : ctl (VM * option error) :=
  if ContainsFinalizer (vm_finalizers vm) saltFinalizer then mret (vm, None)
  else
    let vm' := set_finalizers (AddFinalizer (vm_finalizers vm) saltFinalizer) vm in
    r ← perform (CPatchVM vm vm');
    match r with
    | Ok v => mret (v, None)
    | Err e => mret (vm', Some e)
    end.

(** ** The client cache *)

Definition cache_get (key : string * string) (configRV : string) : ctl (option C) :=
  entries ← gets vs_cache;
  match entries !! key with
  | None => mret None
  | Some e =>
      stale ← (if ce_configRV e <>s? configRV then mret true
               else now ← perform CNow; mret (ce_expiresAt e <? now));
      if (stale : bool)
      then modify (set_cache (delete key)) ;; mret None
      else mret (Some (ce_client e))
  end.

Definition cache_set (key : string * string) (configRV : string) (cl : C) : ctl unit :=
  now ← perform CNow;
  modify (set_cache (insert key {| ce_client := cl; ce_configRV := configRV;
                                   ce_expiresAt := now + saltClientCacheTTL |})).

Definition saltClientFromConfig (cfg : SaltKeyConfig) : ctl (res C) :=
  let key := (cfg_Namespace cfg, cfg_Name cfg) in
  hit ← cache_get key (cfg_ResourceVersion cfg);
  match hit with
  | Some cl => mret (Ok cl)
  | None =>
      rc ← Resolve cfg DefaultConnection;
      match rc with
      | Err e => mret (Err e)
      | Ok conn =>
          cl ← perform (CNewClient (conn_URL conn) (conn_Username conn) (conn_Password conn)
                                   (conn_MasterID conn) (conn_SkipTLSVerify conn));
          le ← perform (CLogin cl);
          match le with
          | Some e => mret (Err (Errorf "salt login for %s/%s: %w"
                                        [FStr (cfg_Namespace cfg); FStr (cfg_Name cfg); FWrap e]))
          | None => cache_set key (cfg_ResourceVersion cfg) cl ;; mret (Ok cl)
          end
      end
  end.

(** ** The preseeded key *)

Definition clearBootstrapKey (vm : VM) : ctl (option error) :=
  let name := vm_name vm +:+ bootstrapSecretSuffix in
  r ← perform (CPatchSecretData (vm_namespace vm) name
                 (anns [("minion.pem", bootstrapKeyCleared); ("minion.pub", bootstrapKeyCleared)]));
  match IgnoreNotFound r with
  | Some e => mret (Some (Errorf "clear Secret %s/%s: %w" [FStr (vm_namespace vm); FStr name; FWrap e]))
  | None => mret None
  end.

Definition clearPreseedKey (vm : VM) (trigger : message) : ctl (VM * option error) :=
  if (ann vm AnnotationMatchMethod <>s? matchMethodPreseed)
     || (ann vm AnnotationKeyCleared =s? annotationTrue)
  then mret (vm, None)
  else
    ce ← clearBootstrapKey vm;
    match ce with
    | Some e => mret (vm, Some e)
    | None =>
        '(vm, pe) ← patchAnnotations vm (anns [(AnnotationKeyCleared, annotationTrue)]);
        match pe with
        | Some e => mret (vm, Some e)
        | None =>
            Event vm EventTypeNormal "SaltKeyCleared"
              (let '(Msg tf ta) := trigger in
               Msg ("Private key for minion %q removed from Secret %s after " +:+ tf)
                 ([FStr (ann vm AnnotationMinionID); FStr (vm_name vm +:+ bootstrapSecretSuffix)] ++ ta)) ;;
            mret (vm, None)
        end
    end.

Definition is_guest_probe (p : any) : bool :=
  match p with AMap m => field_is m "key" guestSignalKey | _ => false end.

Definition is_ready_condition (c : any) : bool :=
  match c with AMap m => field_is m "type" vmConditionReady && field_is m "status" "True" | _ => false end.

Definition guestSignalled (vm : VM) : bool :=
  if negb (existsb is_guest_probe (vm_guestInfo vm)) then false
  else existsb is_ready_condition (vm_conditions vm).

Definition is_created_condition (c : any) : option (list (string * any)) :=
  match c with
  | AMap m => if field_is m "type" vmConditionCreated && field_is m "status" "True" then Some m else None
  | _ => None
  end.

(** The loop of [sinceVSphereCreate]: the first true VirtualMachineCreated condition decides. *)
Fixpoint since_create (conditions : list any) : ctl (Z * bool) :=
  match conditions with
  | [] => mret (0, false)
  | c :: rest =>
      match is_created_condition c with
      | None => since_create rest
      | Some m =>
          let ts := match alookup "lastTransitionTime" m with Some (AStr s) => s | _ => "" end in
          match ParseRFC3339 ts with
          | None => mret (0, false)
          | Some createdAt => d ← Since createdAt; mret (d, true)
          end
      end
  end.

Definition sinceVSphereCreate (vm : VM) : ctl (Z * bool) := since_create (vm_conditions vm).

(** The first other VM whose minion-id annotation is [minionID]. *)
Definition minionIDOwner (vm : VM) (minionID : string) : ctl (res (option VM)) :=
  r ← perform (CListVMs None);
  match r with
  | Err e => mret (Err (Errorf "list VirtualMachines: %w" [FWrap e]))
  | Ok items =>
      mret (Ok (List.find (fun other => (vm_uid other <>s? vm_uid vm)
                                        && (ann other AnnotationMinionID =s? minionID)) items))
  end.

Definition bootstrapSecret (vm : VM) (minionID : string) (pair : KeyPair) (masterPub : string) : Secret :=
  {| sec_Name := vm_name vm +:+ bootstrapSecretSuffix;
     sec_Namespace := vm_namespace vm;
     sec_Labels := anns [(LabelManagedBy, ManagedByOperator)];
     sec_OwnerReferences := [{| or_APIVersion := vm_apiVersion vm; or_Kind := vm_kind vm;
                                or_Name := vm_name vm; or_UID := vm_uid vm |}];
     sec_Type := "Opaque";
     sec_Data := anns [("minion.pem", kp_Priv pair); ("minion.pub", kp_Pub pair);
                       ("minion_master.pub", masterPub); ("minion_id", minionID)] |}.

Definition writeBootstrapSecret (vm : VM) (minionID : string) (pair : KeyPair) (masterPub : string)
  : ctl (option error) :=
  let secret := bootstrapSecret vm minionID pair masterPub in
  ce ← perform (CCreateSecret secret);
  err ← (match ce with
         | Some e => if IsAlreadyExists e then perform (CUpdateSecret secret) else mret (Some e)
         | None => mret None
         end);
  match err with
  | Some e => mret (Some (Errorf "write Secret %s/%s: %w"
                                 [FStr (sec_Namespace secret); FStr (sec_Name secret); FWrap e]))
  | None => mret None
  end.

Definition markPreseedAccepted (vm : VM) (requeueAfter : Z) : ctl outcome :=
  let minionID := ann vm AnnotationMinionID in
  now ← perform CNow;
  '(vm, pe) ← patchAnnotations vm (anns [(AnnotationKeyStatus, keyStatusAccepted);
                                         (AnnotationAcceptedAt, FormatRFC3339 now)]);
  match pe with
  | Some e => mret (Fail e)
  | None =>
      Event vm EventTypeNormal "SaltKeyAccepted"
        (Msg "VM running with the preseeded key for minion %q" [FStr minionID]) ;;
      mret (Done requeueAfter)
  end.

(** The end of [runPreseedKey], from the generated pair on. *)
Definition finishPreseed (vm : VM) (saltClient : C) (minionID : string) (pair : KeyPair)
    (requeueAfter : Z) : ctl outcome :=
  mp ← perform (CMasterPublicKey saltClient);
  match mp with
  | Err e => mret (Fail (Errorf "master public key for %s: %w" [FStr minionID; FWrap e]))
  | Ok masterPub =>
      we ← writeBootstrapSecret vm minionID pair masterPub;
      match we with
      | Some e => mret (Fail e)
      | None =>
          '(vm, fe) ← addSaltFinalizer vm;
          match fe with
          | Some e => mret (Fail e)
          | None =>
              '(vm, pe) ← patchAnnotations vm (anns [(AnnotationKeyStatus, keyStatusPreseeded);
                                                     (AnnotationMinionID, minionID);
                                                     (AnnotationMatchMethod, matchMethodPreseed)]);
              match pe with
              | Some e => mret (Fail e)
              | None =>
                  Event vm EventTypeNormal "SaltKeyPreseeded"
                    (Msg "Salt key generated and accepted for minion %q, written to Secret %s"
                         [FStr minionID; FStr (vm_name vm +:+ bootstrapSecretSuffix)]) ;;
                  mret (Done requeueAfter)
              end
          end
      end
  end.

Definition runPreseedKey (vm : VM) (saltClient : C) (requeueAfter : Z) : ctl outcome :=
  let minionID := vm_name vm in
  ow ← minionIDOwner vm minionID;
  match ow with
  | Err e => mret (Fail e)
  | Ok (Some owner) =>
      if being_deleted owner then mret (Done requeueAfter)
      else
        '(vm, pe) ← patchAnnotations vm (anns [(AnnotationKeyStatus, keyStatusFailed)]);
        match pe with
        | Some e => mret (Fail e)
        | None =>
            Event vm EventTypeWarning "SaltMinionIDInUse"
              (Msg "Minion ID %q belongs to VirtualMachine %s, no key generated"
                   [FStr minionID; FStr (vm_namespace owner +:+ "/" +:+ vm_name owner)]) ;;
            mret (Done 0)
        end
  | Ok None =>
      ks ← perform (CKeyStates saltClient minionID);
      match ks with
      | Err e => mret (Fail (Errorf "key state for %s: %w" [FStr minionID; FWrap e]))
      | Ok states =>
          let force := existsb (fun s => s <>s? "denied") states in
          (if existsb (String.eqb "pending") states || existsb (String.eqb "rejected") states
           then Event vm EventTypeWarning "SaltForeignKeyReplaced"
                  (Msg "Key for minion %q in state %s was not generated by the operator and is replaced"
                       [FStr minionID; FStr (Join states ",")])
           else mret tt) ;;
          gp ← perform (CGenAcceptKey saltClient minionID force);
          match gp with
          | Err e => mret (Fail (Errorf "generate key for %s: %w" [FStr minionID; FWrap e]))
          | Ok None => mret (Fail (Errorf "generate key for %s: a key appeared on the master after the state check"
                                          [FStr minionID]))
          | Ok (Some kp) => finishPreseed vm saltClient minionID kp requeueAfter
          end
      end
  end.

(** ** Accepting a discovered key *)

Definition runAcceptKey (vm : VM) (saltClient : C) (primaryIP : string)
    (acceptTimeout requeueAfter : Z) : ctl outcome :=
  pk ← perform (CListPendingKeys saltClient);
  match pk with
  | Err e => mret (Fail (Errorf "list pending keys for %s: %w" [FStr (vm_name vm); FWrap e]))
  | Ok pendingKeys =>
      let m := FindMinionID (vm_name vm) primaryIP pendingKeys in
      if negb (bool_decide (Method m = MatchNone)) then
        ae ← perform (CAcceptKey saltClient (MinionID m));
        match ae with
        | Some e => mret (Fail (Errorf "accept key %q for %s: %w" [FStr (MinionID m); FStr (vm_name vm); FWrap e]))
        | None =>
            now ← perform CNow;
            '(vm, pe) ← patchAnnotations vm (anns [(AnnotationKeyStatus, keyStatusAccepted);
                                                   (AnnotationMinionID, MinionID m);
                                                   (AnnotationMatchMethod, method_string (Method m));
                                                   (AnnotationAcceptedAt, FormatRFC3339 now)]);
            match pe with
            | Some e => mret (Fail e)
            | None =>
                '(vm, fe) ← addSaltFinalizer vm;
                match fe with
                | Some e => mret (Fail e)
                | None =>
                    Event vm EventTypeNormal "SaltKeyAccepted"
                      (Msg "Salt key accepted for minion %q (match: %s)"
                           [FStr (MinionID m); FStr (method_string (Method m))]) ;;
                    mret (Done requeueAfter)
                end
            end
        end
      else
        '(elapsed, created) ← sinceVSphereCreate vm;
        if negb created || (elapsed <? acceptTimeout) then mret (Done requeueAfter)
        else if ann vm AnnotationKeyStatus =s? keyStatusFailed then mret (Done 0)
        else
          '(vm, pe) ← patchAnnotations vm (anns [(AnnotationKeyStatus, keyStatusFailed)]);
          match pe with
          | Some e => mret (Fail e)
          | None =>
              Event vm EventTypeWarning "SaltKeyTimeout"
                (Msg "No pending Salt key found for %q after %s" [FStr (vm_name vm); FDur acceptTimeout]) ;;
              mret (Done 0)
          end
  end.

(** ** The bootstrap chain *)

(** [masterLastSeen]: empty when RaaS does not say. *)
Definition masterLastSeen (c : C) : ctl string :=
  r ← perform (CMasterLastSeen c);
  match r with Ok seen => mret seen | Err _ => mret "" end.

(** The diagnosis of a silent master: its presence record did not move for [minMasterSilence]. *)
Definition masterSilence (c : C) (before : string) (started : Z) : ctl (option message) :=
  if before =s? "" then mret None
  else
    d ← Since started;
    if d <? minMasterSilence then mret None
    else
      seen ← masterLastSeen c;
      if seen <>s? before then mret None
      else mret (Some (Msg "the Salt master has not reported to RaaS since %s, it is down or cut off from RaaS"
                           [FStr before])).

(** [silent + ", " + msg], and [msg] alone when the master is not silent. *)
Definition with_silence (silent : option message) (msg : message) : message :=
  match silent with
  | Some (Msg f a) => let '(Msg f' a') := msg in Msg (f +:+ ", " +:+ f') (a ++ a')
  | None => msg
  end.

(** The event reason: [eventMasterSilent] when the master is silent. *)
Definition silence_reason (silent : option message) (reason : string) : string :=
  match silent with Some _ => eventMasterSilent | None => reason end.

(** Whether a failed step may still be retried: within [maxBootstrapDuration] of the acceptance. *)
Definition in_retry_window (vm : VM) : ctl bool :=
  match ParseRFC3339 (ann vm AnnotationAcceptedAt) with
  | Some acceptedAt => d ← Since acceptedAt; mret (d <? maxBootstrapDuration)
  | None => mret false
  end.

Definition step_message (what : string) (r : res bool) : message :=
  match r with
  | Err e => Msg (what +:+ ": %v") [FErr e]
  | Ok _ => Msg (what +:+ " returned false") []
  end.

(** [err != nil || !ok]. *)
Definition step_failed (r : res bool) : bool :=
  match r with Ok ok => negb ok | Err _ => true end.

Definition runPing (vm : VM) (saltClient : C) (minionID : string) (requeueAfter : Z) : ctl outcome :=
  masterBefore ← masterLastSeen saltClient;
  started ← perform CNow;
  r ← perform (CTestPing saltClient minionID);
  if step_failed r then
    silent ← masterSilence saltClient masterBefore started;
    let msg := with_silence silent (step_message "test.ping" r) in
    let retryReason := silence_reason silent "SaltPingRetry" in
    let failReason := silence_reason silent "SaltPingFailed" in
    retry ← in_retry_window vm;
    if (retry : bool) then
      Event vm EventTypeWarning retryReason
        (let '(Msg f a) := msg in
         Msg ("test.ping failed for minion %q, retrying: " +:+ f) (FStr minionID :: a)) ;;
      mret (Done (60 * Second))
    else
      '(vm, ce) ← clearPreseedKey vm (Msg "the failed ping" []);
      match ce with
      | Some e => mret (Fail e)
      | None =>
          '(vm, pe) ← patchAnnotations vm (anns [(AnnotationSaltStatus, "Failed/Ping");
                                                 (AnnotationReady, annotationFalse)]);
          match pe with
          | Some e => mret (Fail e)
          | None => Event vm EventTypeWarning failReason msg ;; mret (Done 0)
          end
      end
  else
    '(vm, ce) ← clearPreseedKey vm (Msg "the first ping" []);
    match ce with
    | Some e => mret (Fail e)
    | None =>
        '(vm, pe) ← patchAnnotations vm (anns [(AnnotationSaltStatus, "Pinged")]);
        match pe with
        | Some e => mret (Fail e)
        | None =>
            Event vm EventTypeNormal "SaltPingSucceeded"
              (Msg "test.ping succeeded for minion %q" [FStr minionID]) ;;
            mret (Done requeueAfter)
        end
    end.

Definition runRefreshPillar (vm : VM) (saltClient : C) (minionID : string) (requeueAfter : Z) : ctl outcome :=
  masterBefore ← masterLastSeen saltClient;
  started ← perform CNow;
  r ← perform (CRefreshPillar saltClient minionID);
  if step_failed r then
    silent ← masterSilence saltClient masterBefore started;
    let msg := with_silence silent (step_message "refresh_pillar" r) in
    let retryReason := silence_reason silent "SaltPillarRefreshRetry" in
    let failReason := silence_reason silent "SaltPillarRefreshFailed" in
    retry ← in_retry_window vm;
    if (retry : bool) then
      Event vm EventTypeWarning retryReason
        (let '(Msg f a) := msg in
         Msg ("refresh_pillar failed for minion %q, retrying: " +:+ f) (FStr minionID :: a)) ;;
      mret (Done (60 * Second))
    else
      '(vm, pe) ← patchAnnotations vm (anns [(AnnotationSaltStatus, "Failed/PillarRefresh");
                                             (AnnotationReady, annotationFalse)]);
      match pe with
      | Some e => mret (Fail e)
      | None => Event vm EventTypeWarning failReason msg ;; mret (Done 0)
      end
  else
    '(vm, pe) ← patchAnnotations vm (anns [(AnnotationSaltStatus, "PillarRefreshed")]);
    match pe with
    | Some e => mret (Fail e)
    | None =>
        Event vm EventTypeNormal "SaltPillarRefreshed"
          (Msg "refresh_pillar succeeded for minion %q" [FStr minionID]) ;;
        mret (Done requeueAfter)
    end.

Definition runDispatchHighstate (vm : VM) (saltClient : C) (minionID : string) (requeueAfter : Z) : ctl outcome :=
  r ← perform (CDispatchHighstate saltClient minionID);
  match r with
  | Err e =>
      '(vm, pe) ← patchAnnotations vm (anns [(AnnotationSaltStatus, "Failed/HighstateDispatch");
                                             (AnnotationReady, annotationFalse)]);
      match pe with
      | Some e' => mret (Fail e')
      | None =>
          Event vm EventTypeWarning "SaltHighstateDispatchFailed"
            (Msg "highstate dispatch failed for %q: %v" [FStr minionID; FErr e]) ;;
          mret (Done 0)
      end
  | Ok jid =>
      let intentHash := computeIntentHash (GetAnnotations vm) in
      '(vm, pe) ← patchAnnotations vm (anns [(AnnotationSaltStatus, saltStatusHighstateDispatched);
                                             (AnnotationHighstateJID, jid);
                                             (AnnotationHighstateStatus, "InProgress");
                                             (AnnotationReady, annotationFalse);
                                             (AnnotationRolesHash, intentHash)]);
      match pe with
      | Some e => mret (Fail e)
      | None =>
          Event vm EventTypeNormal "SaltHighstateDispatched"
            (Msg "state.highstate dispatched for minion %q (JID: %s)" [FStr minionID; FStr jid]) ;;
          mret (Done requeueAfter)
      end
  end.

Definition runPollHighstate (vm : VM) (saltClient : C) (minionID jid : string) (requeueAfter : Z) : ctl outcome :=
  if jid =s? "" then mret (Done requeueAfter)
  else
    r ← perform (CPollJID saltClient minionID jid);
    match r with
    | Err _ => mret (Done requeueAfter)
    | Ok None => mret (Done requeueAfter)
    | Ok (Some result) =>
        t ← perform CNow;
        let now := FormatRFC3339 t in
        let failedIDs := FailedStateIDs result in
        let failedStates := Join failedIDs "," in
        if HighstateOK result then
          '(vm, pe) ← patchAnnotations vm (anns [(AnnotationSaltStatus, saltStatusReady);
                                                 (AnnotationReady, annotationTrue);
                                                 (AnnotationHighstateStatus, "Success");
                                                 (AnnotationHighstateTime, now);
                                                 (AnnotationHighstateFailedCount, "0");
                                                 (AnnotationHighstateFailedStates, "")]);
          match pe with
          | Some e => mret (Fail e)
          | None =>
              Event vm EventTypeNormal "SaltHighstateSuccess"
                (Msg "state.highstate succeeded for minion %q (JID: %s)" [FStr minionID; FStr jid]) ;;
              mret (Done requeueAfter)
          end
        else
          '(vm, pe) ← patchAnnotations vm (anns [(AnnotationSaltStatus, "Failed/Highstate");
                                                 (AnnotationReady, annotationFalse);
                                                 (AnnotationHighstateStatus, "Failed");
                                                 (AnnotationHighstateTime, now);
                                                 (AnnotationHighstateFailedCount, Itoa (Z.of_nat (length failedIDs)));
                                                 (AnnotationHighstateFailedStates, failedStates)]);
          match pe with
          | Some e => mret (Fail e)
          | None =>
              Event vm EventTypeWarning "SaltHighstateFailed"
                (Msg "state.highstate failed for minion %q (JID: %s, retcode: %d, failed: %s)"
                     [FStr minionID; FStr jid; FInt (jr_Retcode result); FStr failedStates]) ;;
              mret (Done 0)
          end
    end.

(** ** Reconvergence *)

(** [withMarkers]: the markers override the patch. *)
Definition withMarkers (markers patch : gmap string string) : gmap string string :=
  maps_Copy patch markers.

Definition runDay2 (vm : VM) (saltClient : C) (minionID : string) (markers : gmap string string)
    (requeueAfter : Z) : ctl outcome :=
  masterBefore ← masterLastSeen saltClient;
  started ← perform CNow;
  r ← perform (CRefreshPillar saltClient minionID);
  if step_failed r then
    silent ← masterSilence saltClient masterBefore started;
    let msg := with_silence silent (step_message "Day-2 refresh_pillar" r) in
    let failReason := silence_reason silent "SaltDay2PillarFailed" in
    '(vm, pe) ← patchAnnotations vm (withMarkers markers
                  (anns [(AnnotationSaltStatus, "Failed/PillarRefresh");
                         (AnnotationReady, annotationFalse)]));
    match pe with
    | Some e => mret (Fail e)
    | None => Event vm EventTypeWarning failReason msg ;; mret (Done 0)
    end
  else
    d ← perform (CDispatchHighstate saltClient minionID);
    match d with
    | Err e =>
        '(vm, pe) ← patchAnnotations vm (withMarkers markers
                      (anns [(AnnotationSaltStatus, "Failed/HighstateDispatch");
                             (AnnotationReady, annotationFalse)]));
        match pe with
        | Some e' => mret (Fail e')
        | None =>
            Event vm EventTypeWarning "SaltDay2HighstateFailed"
              (Msg "Day-2 highstate dispatch failed: %v" [FErr e]) ;;
            mret (Done 0)
        end
    | Ok jid =>
        '(vm, pe) ← patchAnnotations vm (withMarkers markers
                      (anns [(AnnotationSaltStatus, saltStatusHighstateDispatched);
                             (AnnotationHighstateJID, jid);
                             (AnnotationHighstateStatus, "InProgress");
                             (AnnotationReady, annotationFalse)]));
        match pe with
        | Some e => mret (Fail e)
        | None =>
            Event vm EventTypeNormal "SaltDay2Dispatched"
              (Msg "Day-2 state.highstate dispatched for minion %q (JID: %s)" [FStr minionID; FStr jid]) ;;
            mret (Done requeueAfter)
        end
    end.

(** A retry the VM asks for and has not been given yet. *)
Definition retry_requested (a : gmap string string) : bool :=
  (mget a AnnotationRetryRequest <>s? "")
  && (mget a AnnotationRetryRequest <>s? mget a AnnotationRetryHandled).

Definition bulk_token (cfg : option SaltKeyConfig) : string :=
  match cfg with Some cfg => RetryToken (cfg_Spec cfg) | None => "" end.

(** A namespace-wide retry the VM has not recorded yet. *)
Definition bulk_changed (cfg : option SaltKeyConfig) (a : gmap string string) : bool :=
  (bulk_token cfg <>s? "") && (bulk_token cfg <>s? mget a AnnotationBulkRetryHandled).

(** [patch] with the retry markers the caller acts on. *)
Definition add_retry_markers (cfg : option SaltKeyConfig) (a patch : gmap string string) : gmap string string :=
  let patch := if retry_requested a
               then <[AnnotationRetryHandled := mget a AnnotationRetryRequest]> patch else patch in
  if bulk_changed cfg a then <[AnnotationBulkRetryHandled := bulk_token cfg]> patch else patch.

Definition restartFirstChain (vm : VM) (cfg : option SaltKeyConfig) (minionID : string)
    (requeueAfter : Z) : ctl outcome :=
  let annotations := GetAnnotations vm in
  if negb (retry_requested annotations) && negb (bulk_changed cfg annotations) then mret (Done 0)
  else
    let patch := add_retry_markers cfg annotations
                   (anns [(AnnotationSaltStatus, ""); (AnnotationReady, annotationFalse)]) in
    '(vm, pe) ← patchAnnotations vm patch;
    match pe with
    | Some e => mret (Fail e)
    | None =>
        Event vm EventTypeNormal "SaltReconvergenceRequested"
          (Msg "Re-running the Salt chain for minion %q after a failure before its first highstate" [FStr minionID]) ;;
        mret (Done requeueAfter)
    end.

Definition adoptLegacyIntentHash (vm : VM) (storedHash : string) : ctl (VM * bool * option error) :=
  let annotations := GetAnnotations vm in
  if computeLegacyRolesHash (mget annotations AnnotationRoles) <>s? storedHash then mret (vm, false, None)
  else
    '(vm, pe) ← patchAnnotations vm (anns [(AnnotationRolesHash, computeIntentHash annotations)]);
    mret (vm, true, pe).

(** The reconvergence proper, once a trigger is known: the last part of [checkReconvergence]. *)
Definition reconverge (vm : VM) (saltClient : C) (cfg : option SaltKeyConfig)
    (annotations : gmap string string) (minionID : string) (requeueAfter : Z) : ctl outcome :=
  let failed := HasPrefix (mget annotations AnnotationSaltStatus) failedStatusPrefix in
  if failed then
    let patch := add_retry_markers cfg annotations
                   (anns [(AnnotationSaltStatus, ""); (AnnotationReady, annotationFalse);
                          (AnnotationHighstateStatus, "");
                          (AnnotationRolesHash, computeIntentHash annotations)]) in
    '(vm, pe) ← patchAnnotations vm patch;
    match pe with
    | Some e => mret (Fail e)
    | None =>
        Event vm EventTypeNormal "SaltReconvergenceRequested"
          (Msg "Re-running the Salt chain for minion %q after a terminal failure" [FStr minionID]) ;;
        mret (Done requeueAfter)
    end
  else
    let markers := add_retry_markers cfg annotations
                     (anns [(AnnotationRolesHash, computeIntentHash annotations)]) in
    runDay2 vm saltClient minionID markers requeueAfter.

(** The middle of [checkReconvergence]: the triggers, from a current hash on. *)
Definition checkTriggers (vm : VM) (saltClient : C) (cfg : option SaltKeyConfig)
    (annotations : gmap string string) (minionID : string) (requeueAfter : Z) : ctl outcome :=
  let failed := HasPrefix (mget annotations AnnotationSaltStatus) failedStatusPrefix in
  let previousHash := mget annotations AnnotationRolesHash in
  let intentChanged := computeIntentHash annotations <>s? previousHash in
  let retryRequested := retry_requested annotations in
  let bulkChanged := bulk_changed cfg annotations in
  if negb intentChanged && negb retryRequested && (negb bulkChanged || negb failed) then
    '(vm, pe) ← (if bulkChanged
                 then patchAnnotations vm (anns [(AnnotationBulkRetryHandled, bulk_token cfg)])
                 else mret (vm, None));
    match pe with
    | Some e => mret (Fail e)
    | None =>
        if mget annotations AnnotationSaltStatus <>s? saltStatusReady then mret (Done 0)
        else
          now ← perform CNow;
          let '(due, wait) := enforcementDue cfg (vm_uid vm) (mget annotations AnnotationHighstateTime) now in
          if negb due then mret (Done wait)
          else reconverge vm saltClient cfg annotations minionID requeueAfter
    end
  else reconverge vm saltClient cfg annotations minionID requeueAfter.

Definition checkReconvergence (vm : VM) (saltClient : C) (cfg : option SaltKeyConfig)
    (minionID : string) (requeueAfter : Z) : ctl outcome :=
  let annotations := GetAnnotations vm in
  let failed := HasPrefix (mget annotations AnnotationSaltStatus) failedStatusPrefix in
  let previousHash := mget annotations AnnotationRolesHash in
  if previousHash =s? "" then
    if negb failed then mret (Done 0)
    else restartFirstChain vm cfg minionID requeueAfter
  else
    '(vm, done, ae) ← (if negb (HasPrefix previousHash intentHashVersion)
                       then adoptLegacyIntentHash vm previousHash
                       else mret (vm, false, None));
    if (done : bool) || (match ae with Some _ => true | None => false end)
    then mret (returnErr ae)
    else checkTriggers vm saltClient cfg annotations minionID requeueAfter.

Definition reconcilePostAccept (vm : VM) (saltClient : C) (cfg : SaltKeyConfig)
    (minionID : string) (requeueAfter : Z) : ctl outcome :=
  if minionID =s? "" then mret (Done 0)
  else
    let status := ann vm AnnotationSaltStatus in
    if status =s? "" then
      wait ← (match ParseRFC3339 (ann vm AnnotationAcceptedAt) with
              | Some acceptedAt => d ← Since acceptedAt; mret (wrap64 (postAcceptDelay - d))
              | None => mret 0
              end);
      if 0 <? wait then mret (Done wait)
      else runPing vm saltClient minionID requeueAfter
    else if status =s? "Pinged" then runRefreshPillar vm saltClient minionID requeueAfter
    else if status =s? "PillarRefreshed" then runDispatchHighstate vm saltClient minionID requeueAfter
    else if status =s? saltStatusHighstateDispatched then
      runPollHighstate vm saltClient minionID (ann vm AnnotationHighstateJID) requeueAfter
    else checkReconvergence vm saltClient (Some cfg) minionID requeueAfter.

(** ** The entry points *)

(** The part of [reconcileCreate] for a VM whose key is not accepted yet. *)
Definition reconcileKey (vm : VM) (cfg : SaltKeyConfig) (timedOut : bool)
    (acceptTimeout requeueAfter : Z) : ctl outcome :=
  let preseeded := ann vm AnnotationKeyStatus =s? keyStatusPreseeded in
  if (ann vm AnnotationKeyStatus =s? keyStatusFailed)
     && (ann vm AnnotationMatchMethod =s? matchMethodPreseed)
  then mret (Done 0)
  else if (KeyAcceptance (cfg_Spec cfg) =s? KeyAcceptancePreseed) && negb preseeded then
    sc ← saltClientFromConfig cfg;
    match sc with
    | Err e => mret (Fail (Errorf "get salt client for %s: %w" [FStr (vm_name vm); FWrap e]))
    | Ok saltClient => runPreseedKey vm saltClient requeueAfter
    end
  else
    let running := (vm_phase vm =s? "Running") || (vm_powerState vm =s? "PoweredOn") in
    let primaryIP := vm_primaryIP4 vm in
    if (negb running || (primaryIP =s? "")) && preseeded && timedOut then
      '(vm, pe) ← patchAnnotations vm (anns [(AnnotationKeyStatus, keyStatusFailed)]);
      match pe with
      | Some e => mret (Fail e)
      | None =>
          Event vm EventTypeWarning "SaltKeyTimeout"
            (Msg "VM not running with an IP %s after creation in vSphere, recreate it for a new key"
                 [FDur acceptTimeout]) ;;
          mret (Done 0)
      end
    else if negb running || (primaryIP =s? "") then mret (Done requeueAfter)
    else if preseeded then markPreseedAccepted vm requeueAfter
    else
      sc ← saltClientFromConfig cfg;
      match sc with
      | Err e => mret (Fail (Errorf "get salt client for %s: %w" [FStr (vm_name vm); FWrap e]))
      | Ok saltClient => runAcceptKey vm saltClient primaryIP acceptTimeout requeueAfter
      end.

(** The part of [reconcileCreate] for a VM whose key is accepted. *)
Definition reconcileAccepted (vm : VM) (cfg : SaltKeyConfig) (requeueAfter : Z) : ctl outcome :=
  '(vm, fe) ← addSaltFinalizer vm;
  match fe with
  | Some e => mret (Fail (Errorf "re-add finalizer to %s: %w" [FStr (vm_name vm); FWrap e]))
  | None =>
      sc ← saltClientFromConfig cfg;
      match sc with
      | Err e => mret (Fail (Errorf "get salt client for %s: %w" [FStr (vm_name vm); FWrap e]))
      | Ok saltClient =>
          reconcilePostAccept vm saltClient cfg (ann vm AnnotationMinionID) requeueAfter
      end
  end.

Definition reconcileCreate (vm : VM) (cfg : SaltKeyConfig) : ctl outcome :=
  let requeueAfter := parseDurationOrDefault (RequeueInterval (cfg_Spec cfg)) (30 * Second) in
  let acceptTimeout := parseDurationOrDefault (AcceptTimeout (cfg_Spec cfg)) (10 * Minute) in
  '(elapsed, created) ← sinceVSphereCreate vm;
  let timedOut := created && (acceptTimeout <=? elapsed) in
  '(vm, ce) ← (if guestSignalled vm then clearPreseedKey vm (Msg "the guest signal" [])
               else if timedOut then clearPreseedKey vm (Msg "acceptTimeout %s" [FDur acceptTimeout])
               else mret (vm, None));
  match ce with
  | Some e => mret (Fail e)
  | None =>
      if ann vm AnnotationKeyStatus <>s? keyStatusAccepted
      then reconcileKey vm cfg timedOut acceptTimeout requeueAfter
      else reconcileAccepted vm cfg requeueAfter
  end.

Definition removeSaltFinalizer (vm : VM) : ctl outcome :=
  r ← perform (CGetVM (vm_namespace vm) (vm_name vm));
  match r with
  | Err e => mret (returnErr (IgnoreNotFound (Some e)))
  | Ok latest =>
      if ContainsFinalizer (vm_finalizers latest) saltFinalizer then
        p ← perform (CPatchVM latest
                       (set_finalizers (RemoveFinalizer (vm_finalizers latest) saltFinalizer) latest));
        match p with
        | Err e => mret (returnErr (IgnoreNotFound (Some e)))
        | Ok _ => mret (Done 0)
        end
      else mret (Done 0)
  end.

Definition reconcileDelete (vm : VM) (cfg : SaltKeyConfig) : ctl outcome :=
  let minionID := ann vm AnnotationMinionID in
  if minionID =s? "" then mret (Done 0)
  else if ann vm AnnotationKeyStatus =s? keyStatusDeleted then removeSaltFinalizer vm
  else
    sc ← saltClientFromConfig cfg;
    match sc with
    | Err _ => mret (Done 0)
    | Ok saltClient =>
        deleteErr ← perform (CDeleteKey saltClient minionID);
        let '(status, eventType, reason, eventMsg) :=
          match deleteErr with
          | None => (keyStatusDeleted, EventTypeNormal, "SaltKeyDeleted",
                     Msg "Salt key deleted for minion %q" [FStr minionID])
          | Some e => ("DeleteFailed", EventTypeWarning, "SaltKeyDeleteFailed",
                       Msg "Salt key deletion failed for minion %q: %v" [FStr minionID; FErr e])
          end in
        '(vm, _) ← patchAnnotations vm (anns [(AnnotationKeyStatus, status)]);
        Event vm eventType reason eventMsg ;;
        removeSaltFinalizer vm
    end.

(** The loop of [findSaltKeyConfig]: a team's ready config wins over an enrolled one. *)
Fixpoint pick_config (enrolled : option SaltKeyConfig) (items : list SaltKeyConfig) : option SaltKeyConfig :=
  match items with
  | [] => enrolled
  | cfg :: rest =>
      if negb (IsReady cfg) then pick_config enrolled rest
      else if mget (cfg_Labels cfg) LabelManagedBy <>s? ManagedByOperator then Some cfg
      else pick_config (match enrolled with None => Some cfg | Some _ => enrolled end) rest
  end.

Definition findSaltKeyConfig (namespace : string) : ctl (res (option SaltKeyConfig)) :=
  r ← perform (CListConfigs (Some namespace));
  match r with
  | Err e => mret (Err e)
  | Ok items => mret (Ok (pick_config None items))
  end.

Definition matchesVMSelector (cfg : SaltKeyConfig) (vm : VM) : bool :=
  match VMSelector (cfg_Spec cfg) with
  | None => true
  | Some sel =>
      match LabelSelectorAsSelector sel with
      | Err _ => false
      | Ok s => sel_Matches s (vm_labels vm)
      end
  end.

Definition Reconcile (ns name : string) : ctl outcome :=
  r ← perform (CGetVM ns name);
  match r with
  | Err e => mret (returnErr (IgnoreNotFound (Some e)))
  | Ok vm =>
      if ann vm AnnotationManaged <>s? annotationTrue then mret (Done 0)
      else
        fc ← findSaltKeyConfig ns;
        match fc with
        | Err e => mret (Fail e)
        | Ok None => mret (Done 0)
        | Ok (Some cfg) =>
            if being_deleted vm then reconcileDelete vm cfg
            else if negb (matchesVMSelector cfg vm) then mret (Done 0)
            else reconcileCreate vm cfg
        end
  end.

(** The VMs to reconcile when a SaltKeyConfig of namespace [ns] changes. *)
Definition saltKeyConfigToVMs (ns : string) : ctl (list (string * string)) :=
  r ← perform (CListVMs (Some ns));
  match r with
  | Err _ => mret []
  | Ok items =>
      mret ((fun vm => (vm_namespace vm, vm_name vm)) <$>
              List.filter (fun vm => ann vm AnnotationManaged =s? annotationTrue) items)
  end.

End Controller.

(** ** Lemmas: literal annotation maps *)

(** The value a literal annotation map gives a key. *)
Fixpoint alist_get (k : string) (l : list (string * string)) : option string :=
  match l with
  | [] => None
  | (k', v) :: l' => if k' =s? k then Some v else alist_get k l'
  end.

Lemma anns_lookup l k : anns l !! k = alist_get k l.
Proof.
  unfold anns. induction l as [|[k' v] l IH]; [done|]. simpl.
  destruct (String.eqb_spec k' k) as [->|].
  - by rewrite lookup_insert_eq.
  - by rewrite lookup_insert_ne.
Qed.

(** Compute lookups in literal annotation maps. *)
Ltac closed_eqb :=
  repeat match goal with
  | |- context [String.eqb ?a ?b] =>
      let v := eval vm_compute in (String.eqb a b) in
      match v with
      | true => change (String.eqb a b) with true
      | false => change (String.eqb a b) with false
      end
  end.
