(* ===== verification/Cluster.v ===== *)
(** * What the controller relies on of the API server

    The theorems about whole histories of a VM fix one VM and look at the
    object stored for it, [stored w].  [step_ok] says what a call may do to
    that object: reads return it, a merge patch writes exactly the fields it
    changes (and may have been applied even when the call reports an error),
    and between any two calls tenants and other controllers may change
    everything but the annotations only the operator writes.  [gwp] is the
    Hoare logic the histories are proved with: it carries a ghost value,
    the minion whose pillar is fresh, computed from the calls made. *)

From S2P Require Import Prelude GoStrings Api Effects Server IntentHash VMController.

Local Open Scope Z_scope.

(** ** The annotations the operator owns *)

Definition owned_keys : gset string := nonIntentAnnotations ∖ {[AnnotationRetryRequest]}.

Definition owned (vm : VM) : gmap string string :=
  filter (fun kv => fst kv ∈ owned_keys) (GetAnnotations vm).

(** [v'] is [v] after changes the operator did not make. *)
Definition same_owned (v v' : VM) : Prop :=
  owned v' = owned v /\ vm_name v' = vm_name v /\ vm_namespace v' = vm_namespace v
  /\ vm_uid v' = vm_uid v /\ (being_deleted v = true -> being_deleted v' = true).

(** What others may do to the stored object while a reconcile runs: delete it or change it. *)
Inductive interferes : option VM -> option VM -> Prop :=
| int_gone x : interferes x None
| int_edit v v' : same_owned v v' -> interferes (Some v) (Some v').

(** ** Steps *)

(** [v] is what the server stores and returns for the patch, up to its bookkeeping fields. *)
Definition patched (base modified cur v : VM) : Prop :=
  exists rv mf, v = set_bookkeeping rv mf (merge_vm base modified cur).

(** The effect of a call on the object stored under [k], from [x] to [y]. *)
Definition step_ok {C} (k : string * string) (c : call C) (x : option VM) : resp c -> option VM -> Prop :=
  match c as c0 return resp c0 -> option VM -> Prop with
  | CGetVM ns n => fun r y =>
      if decide ((ns, n) = k) then
        match r with
        | Ok v => interferes x (Some v) /\ interferes (Some v) y
        | Err _ => interferes x y
        end
      else interferes x y
  | CPatchVM b m => fun r y =>
      if decide (vm_key b = k) then
        match r with
        | Ok v => exists cur, interferes x (Some cur) /\ patched b m cur v /\ interferes (Some v) y
        | Err _ => interferes x y
                   \/ exists cur v, interferes x (Some cur) /\ patched b m cur v /\ interferes (Some v) y
        end
      else interferes x y
  | _ => fun _ y => interferes x y
  end.

Class ClusterLaws {W C} `{Env W C} (k : string * string) (stored : W -> option VM) : Prop := {
  cluster_step c w r w' : env c w = (r, w') -> step_ok k c (stored w) r (stored w');
  cluster_key w v : stored w = Some v -> vm_key v = k;
}.

(** ** What the salt client promises *)

(** The promise of [DispatchHighstate] the controller builds on: a job has an ID. *)
Class SaltPromises (W C : Type) `{Env W C} : Prop := {
  highstate_jid c m w j w' : env (CDispatchHighstate c m) w = (Ok j, w') -> j <> "";
}.

(** ** The phase table *)

(** The transitions of the key status. *)
Definition key_edges : list (string * string) :=
  [("", keyStatusPreseeded); ("", keyStatusAccepted); ("", keyStatusFailed);
   (keyStatusFailed, keyStatusPreseeded); (keyStatusFailed, keyStatusAccepted);
   (keyStatusPreseeded, keyStatusAccepted); (keyStatusPreseeded, keyStatusFailed);
   (keyStatusPreseeded, keyStatusDeleted); (keyStatusPreseeded, "DeleteFailed");
   (keyStatusAccepted, keyStatusDeleted); (keyStatusAccepted, "DeleteFailed");
   (keyStatusFailed, keyStatusDeleted); (keyStatusFailed, "DeleteFailed");
   ("DeleteFailed", keyStatusDeleted)].

(** The transitions of the bootstrap chain and of Day-2 reconvergence. *)
Definition chain_edges : list (string * string) :=
  [("", "Pinged"); ("", "Failed/Ping");
   ("Pinged", "PillarRefreshed"); ("Pinged", "Failed/PillarRefresh");
   ("PillarRefreshed", saltStatusHighstateDispatched); ("PillarRefreshed", "Failed/HighstateDispatch");
   (saltStatusHighstateDispatched, saltStatusReady); (saltStatusHighstateDispatched, "Failed/Highstate");
   (saltStatusReady, saltStatusHighstateDispatched); (saltStatusReady, "Failed/PillarRefresh");
   (saltStatusReady, "Failed/HighstateDispatch");
   ("Failed/Ping", ""); ("Failed/PillarRefresh", ""); ("Failed/HighstateDispatch", "");
   ("Failed/Highstate", "")].

Definition edge (table : list (string * string)) (x y : string) : bool :=
  (x =s? y) || existsb (fun p => (fst p =s? x) && (snd p =s? y)) table.

(** A write of the VM moves both statuses along the table. *)
Definition patch_ok (b m : VM) : bool :=
  edge key_edges (ann b AnnotationKeyStatus) (ann m AnnotationKeyStatus)
  && edge chain_edges (ann b AnnotationSaltStatus) (ann m AnnotationSaltStatus).

(** ** Pillar freshness *)

(** The minion whose pillar is fresh after a call: a successful refresh makes it so, a failed
    refresh, a ping (the start of a chain) and a finished highstate end it.  [None] is a
    violation: a highstate dispatched for a minion whose pillar is not fresh, or a write of the
    VM that leaves the phase table. *)
Definition fresh_step {C} (f : option string) (o : obs C) : option (option string) :=
  match o with
  | existT c r =>
      match c as c0 return resp c0 -> option (option string) with
      | CTestPing _ _ => fun _ => Some None
      | CRefreshPillar _ m => fun r => match r with Ok true => Some (Some m) | _ => Some None end
      | CDispatchHighstate _ m => fun _ => if decide (f = Some m) then Some f else None
      | CPollJID _ _ _ => fun r => match r with Ok (Some _) => Some None | _ => Some f end
      | CPatchVM b m => fun _ => if patch_ok b m then Some f else None
      | _ => fun _ => Some f
      end r
  end.

Abbreviation fresh_after := (monitor fresh_step).

(** ** The Hoare logic *)

Abbreviation gwp := (mwp fresh_step).

(** A call that neither patches a VM nor matters for pillar freshness. *)
Definition neutral {C} (c : call C) : bool :=
  match c with
  | CPatchVM _ _ | CTestPing _ _ | CRefreshPillar _ _ | CDispatchHighstate _ _ | CPollJID _ _ _ => false
  | _ => true
  end.

(** ** Lemmas *)

Lemma same_owned_refl v : same_owned v v.
Proof. by repeat split. Qed.

Lemma same_owned_trans v1 v2 v3 : same_owned v1 v2 -> same_owned v2 v3 -> same_owned v1 v3.
Proof.
  intros (? & ? & ? & ? & ?) (? & ? & ? & ? & ?). repeat split; try congruence. auto.
Qed.

#[global] Instance same_owned_preorder : PreOrder same_owned.
Proof. split; [intros ?; apply same_owned_refl|intros ???; apply same_owned_trans]. Qed.

Lemma interferes_trans x y z : interferes x y -> interferes y z -> interferes x z.
Proof.
  intros Hxy Hyz. inversion Hyz; subst; [constructor|].
  inversion Hxy; subst. constructor. by etrans.
Qed.

Lemma owned_lookup vm k : k ∈ owned_keys -> owned vm !! k = GetAnnotations vm !! k.
Proof.
  intros Hk. unfold owned. destruct (GetAnnotations vm !! k) eqn:E.
  - by apply map_lookup_filter_Some_2.
  - apply map_lookup_filter_None_2. by left.
Qed.

Lemma owned_eq v v' :
  owned v = owned v' <->
  forall k, k ∈ owned_keys -> GetAnnotations v !! k = GetAnnotations v' !! k.
Proof.
  split.
  - intros He k Hk. by rewrite <- !owned_lookup, He.
  - intros He. apply map_eq. intros k. destruct (decide (k ∈ owned_keys)) as [Hk|Hk].
    + rewrite !owned_lookup by done. auto.
    + unfold owned. rewrite !map_lookup_filter_None_2; [done|right; intros; done..].
Qed.

(** Patching an object whose owned annotations are the base's gives it the modified ones. *)
Lemma owned_merge_vm b m c : owned c = owned b -> owned (merge_vm b m c) = owned m.
Proof.
  intros Hc. apply owned_eq. intros k Hk. rewrite GetAnnotations_merge_vm.
  rewrite owned_eq in Hc. rewrite Hc by done. unfold merge_key. by case_decide.
Qed.

Lemma patched_same_owned b m c v :
  same_owned b c -> patched b m c v -> owned m = owned v /\ vm_name v = vm_name b
  /\ vm_namespace v = vm_namespace b /\ vm_uid v = vm_uid b
  /\ (being_deleted b = true -> being_deleted v = true).
Proof.
  intros (Ho & Hn & Hs & Hu & Hd) (rv & mf & ->). repeat split; try done.
  symmetry. change (owned (merge_vm b m c) = owned m). by apply owned_merge_vm.
Qed.


(** ** The concrete server obeys the laws *)

#[local] Existing Instance server.

Definition stored_at (k : string * string) (w : World) : option VM := find_vm k (w_vms w).

Lemma interferes_refl x : interferes x x.
Proof. destruct x; constructor. apply same_owned_refl. Qed.

Lemma server_laws k : ClusterLaws (W := World) (C := Handle) k (stored_at k).
Proof.
  constructor; [|intros w v; apply find_vm_key].
  intros c w r w' E. unfold env, server in E. unfold stored_at.
  assert (forall x y : World, w_vms x = w_vms y -> interferes (find_vm k (w_vms x)) (find_vm k (w_vms y))) as Hsame.
  { intros x y ->. apply interferes_refl. }
  destruct c; simpl in E; unfold patch_config in E; simpl;
    try (repeat case_match; simplify_eq; by apply Hsame).
  - case_decide as Hk; [|simplify_eq; by apply Hsame].
    rewrite Hk in E. destruct (find_vm k (w_vms w)) eqn:Ef; simplify_eq/=; rewrite Ef;
      repeat split; apply interferes_refl.
  - destruct (find_vm (vm_key base) (w_vms w)) as [cur|] eqn:Ef; simplify_eq; simpl.
    + pose proof (find_vm_key _ _ _ Ef) as Hc. case_decide as Hk.
      * exists cur. rewrite <- Hk, Ef. split; [apply interferes_refl|].
        split; [by exists (vm_resourceVersion cur), (vm_managedFields cur)|].
        destruct (find_put_vm (vm_key base) (merge_vm base modified cur) (w_vms w)) as [->| ->];
          [done|by eexists|constructor|apply interferes_refl].
      * rewrite find_put_vm_other by done. apply interferes_refl.
    + case_decide; [left|]; apply interferes_refl.
Qed.

Lemma server_promises : SaltPromises World Handle.
Proof.
  constructor. intros c m w j w' E. unfold env, server in E. simpl in E.
  destruct (an_highstate _) as [j'|]; [|done]. destruct (String.eqb_spec j' ""); by simplify_eq.
Qed.
