(* ===== verification/VMSafety.v ===== *)
(** * What one reconcile may do

    A monitor over the calls of one [Reconcile] that says which calls are
    authorised: what the operator may write to a VM, which Salt keys it may
    accept, generate or delete, which minion it may command, and what it may
    put into a Secret.  Nothing is assumed of the API server or of Salt: the
    theorems hold for every [Env], so for every answer and every failure. *)

From S2P Require Import Prelude GoStrings GoTime Matcher Api Effects RaasConn.
From S2P Require Import Server IntentHash VMController Cluster.

Local Open Scope Z_scope.

(** ** The monitor *)

(** What the reconcile has learnt from the answers so far. *)
Record KeyView := {
  kv_seen : list VM;                    (* the VM, as the server returned it *)
  kv_pending : option (list string);    (* the last pending keys listed *)
  kv_vms : option (list VM);            (* the last cluster-wide VM list *)
  kv_states : option (list string);     (* the last key states of the VM's name *)
  kv_pair : option (string * KeyPair);  (* the key pair generated, and for which minion *)
  kv_master : option string;            (* the master's public key *)
}.

Definition nothing_seen : KeyView :=
  {| kv_seen := []; kv_pending := None; kv_vms := None; kv_states := None; kv_pair := None; kv_master := None |}.

Definition see (v : VM) (g : KeyView) : KeyView :=
  {| kv_seen := v :: kv_seen g; kv_pending := kv_pending g; kv_vms := kv_vms g;
     kv_states := kv_states g; kv_pair := kv_pair g; kv_master := kv_master g |}.
Definition set_pending (l : list string) (g : KeyView) : KeyView :=
  {| kv_seen := kv_seen g; kv_pending := Some l; kv_vms := kv_vms g;
     kv_states := kv_states g; kv_pair := kv_pair g; kv_master := kv_master g |}.
Definition set_listed (l : list VM) (g : KeyView) : KeyView :=
  {| kv_seen := kv_seen g; kv_pending := kv_pending g; kv_vms := Some l;
     kv_states := kv_states g; kv_pair := kv_pair g; kv_master := kv_master g |}.
Definition set_states (l : list string) (g : KeyView) : KeyView :=
  {| kv_seen := kv_seen g; kv_pending := kv_pending g; kv_vms := kv_vms g;
     kv_states := Some l; kv_pair := kv_pair g; kv_master := kv_master g |}.
Definition set_pair (p : string * KeyPair) (g : KeyView) : KeyView :=
  {| kv_seen := kv_seen g; kv_pending := kv_pending g; kv_vms := kv_vms g;
     kv_states := kv_states g; kv_pair := Some p; kv_master := kv_master g |}.
Definition set_master (m : string) (g : KeyView) : KeyView :=
  {| kv_seen := kv_seen g; kv_pending := kv_pending g; kv_vms := kv_vms g;
     kv_states := kv_states g; kv_pair := kv_pair g; kv_master := Some m |}.

Definition key_status (vm : VM) : string := ann vm AnnotationKeyStatus.
Definition minion_of (vm : VM) : string := ann vm AnnotationMinionID.

Definition owned_key (k : string) : bool := bool_decide (k ∈ owned_keys).

(** The annotations of a VM that are not the operator's. *)
Definition foreign (vm : VM) : gmap string string :=
  filter (fun kv => owned_key (fst kv) = false) (GetAnnotations vm).

Section Monitor.
Context `{GoUnicode} `{K8sLib}.

(** The operator writes its own annotations, or adds or removes its own finalizer. *)
Definition write_confined (b m : VM) : bool :=
  (bool_decide (m = set_annotations (vm_annotations m) b) && bool_decide (foreign m = foreign b))
  || bool_decide (m = set_finalizers (AddFinalizer (vm_finalizers b) saltFinalizer) b)
  || bool_decide (m = set_finalizers (RemoveFinalizer (vm_finalizers b) saltFinalizer) b).

(** A VM the operator bootstraps: managed and not under deletion. *)
Definition bootstraps (vm : VM) : bool :=
  (ann vm AnnotationManaged =s? annotationTrue) && negb (being_deleted vm).

Definition accepted (vm : VM) : bool := key_status vm =s? keyStatusAccepted.

(** Accepting [key] for [vm]: it is the pending key the matcher picks. *)
Definition may_accept (pending : list string) (key : string) (vm : VM) : bool :=
  let r := FindMinionID (vm_name vm) (vm_primaryIP4 vm) pending in
  (key_status vm <>s? keyStatusAccepted)
  && negb (bool_decide (Method r = MatchNone)) && (MinionID r =s? key).

(** Generating a key for [vm]: under its own name, that no other VM holds. *)
Definition may_generate (vms : list VM) (states : list string) (minion : string) (force : bool) (vm : VM) : bool :=
  (key_status vm <>s? keyStatusAccepted) && (key_status vm <>s? keyStatusPreseeded)
  && (minion =s? vm_name vm)
  && forallb (fun other => (vm_uid other =s? vm_uid vm) || (minion_of other <>s? minion)) vms
  && Bool.eqb force (existsb (fun s => s <>s? "denied") states).

(** Commanding [minion] for [vm]: its own minion. *)
Definition may_command (minion : string) (vm : VM) : bool :=
  (minion =s? minion_of vm) && (minion <>s? "").

(** Deleting the key of [minion] for [vm]: its own, with the VM. *)
Definition may_delete (minion : string) (vm : VM) : bool :=
  (ann vm AnnotationManaged =s? annotationTrue) && being_deleted vm && (minion =s? minion_of vm) && (minion <>s? "") && (key_status vm <>s? keyStatusDeleted).

(** Clearing the Secret of [vm]: its own bootstrap Secret, of a preseeded VM, both key halves. *)
Definition may_clear (ns name : string) (data : gmap string string) (vm : VM) : bool :=
  (ns =s? vm_namespace vm) && (name =s? vm_name vm +:+ bootstrapSecretSuffix)
  && (ann vm AnnotationMatchMethod =s? matchMethodPreseed)
  && bool_decide (data = anns [("minion.pem", bootstrapKeyCleared); ("minion.pub", bootstrapKeyCleared)]).

(** Whether some object the server returned is a managed VM that authorises the call. *)
Definition authorised (p : VM -> bool) (g : KeyView) : bool := existsb p (kv_seen g).

Definition with2 {A B} (x : option A) (y : option B) (f : A -> B -> bool) : bool :=
  match x, y with Some a, Some b => f a b | _, _ => false end.

Definition key_step {C} (g : KeyView) (o : obs C) : option KeyView :=
  match o with
  | existT c r =>
      match c as c0 return resp c0 -> option KeyView with
      | CGetVM _ _ => fun r => match r with Ok v => Some (see v g) | Err _ => Some g end
      | CPatchVM b m => fun r =>
          if bool_decide (b ∈ kv_seen g) && write_confined b m
          then match r with Ok v => Some (see v g) | Err _ => Some g end else None
      | CListPendingKeys _ => fun r => match r with Ok l => Some (set_pending l g) | Err _ => Some g end
      | CListVMs None => fun r => match r with Ok l => Some (set_listed l g) | Err _ => Some g end
      | CKeyStates _ _ => fun r => match r with Ok l => Some (set_states l g) | Err _ => Some g end
      | CMasterPublicKey _ => fun r => match r with Ok m => Some (set_master m g) | Err _ => Some g end
      | CAcceptKey _ key => fun _ =>
          if authorised bootstraps g
             && match kv_pending g with Some l => authorised (may_accept l key) g | None => false end
          then Some g else None
      | CGenAcceptKey _ minion force => fun r =>
          if authorised bootstraps g && with2 (kv_vms g) (kv_states g) (fun vms states => authorised (may_generate vms states minion force) g)
          then match r with Ok (Some p) => Some (set_pair (minion, p) g) | _ => Some g end else None
      | CCreateSecret s | CUpdateSecret s => fun _ =>
          if authorised bootstraps g && with2 (kv_pair g) (kv_master g)
               (fun p mp => authorised (fun vm => bool_decide (fst p = vm_name vm /\ s = bootstrapSecret vm (vm_name vm) (snd p) mp)) g)
          then Some g else None
      | CPatchSecretData ns name data => fun _ =>
          if authorised bootstraps g && authorised (may_clear ns name data) g then Some g else None
      | CDeleteKey _ minion => fun _ => if authorised (may_delete minion) g then Some g else None
      | CTestPing _ minion | CRefreshPillar _ minion | CDispatchHighstate _ minion
      | CPollJID _ minion _ => fun _ =>
          if authorised bootstraps g && authorised accepted g && authorised (may_command minion) g
          then Some g else None
      | CCreateConfig _ | CPatchConfig _ _ | CPatchConfigStatus _ _ | CDeleteConfig _ => fun _ => None
      | _ => fun _ => Some g
      end r
  end.

End Monitor.

(** The API server returned [v] in the calls [t]. *)
Definition returned {C} (t : list (obs C)) (v : VM) : Prop :=
  (exists ns n, Obs (CGetVM ns n) (Ok v) ∈ t) \/ (exists b m, Obs (CPatchVM b m) (Ok v) ∈ t).

(** What a view says is what the calls [t] answered. *)
Record view_of {C} (t : list (obs C)) (g : KeyView) : Prop := {
  view_seen v : v ∈ kv_seen g -> returned t v;
  view_pending l : kv_pending g = Some l -> exists c, Obs (CListPendingKeys c) (Ok l) ∈ t;
  view_vms l : kv_vms g = Some l -> Obs (CListVMs None) (Ok l) ∈ t;
  view_states l : kv_states g = Some l -> exists c m, Obs (CKeyStates c m) (Ok l) ∈ t;
  view_pair m p : kv_pair g = Some (m, p) -> exists c f, Obs (CGenAcceptKey c m f) (Ok (Some p)) ∈ t;
  view_master p : kv_master g = Some p -> exists c, Obs (CMasterPublicKey c) (Ok p) ∈ t;
}.

(** ** Lemmas *)

Lemma authorised_seen (p : VM -> bool) g vm : vm ∈ kv_seen g -> p vm = true -> authorised p g = true.
Proof.
  intros Hv Hp. apply existsb_exists. exists vm. by rewrite <- list_elem_of_In.
Qed.

(** A patch of the operator's own annotations. *)
Definition owned_patch (adds : gmap string string) : Prop :=
  forall k, is_Some (adds !! k) -> owned_key k = true.

Lemma foreign_patch vm adds :
  owned_patch adds ->
  foreign (set_annotations (Some (maps_Copy (GetAnnotations vm) adds)) vm) = foreign vm.
Proof.
  intros Ha. unfold foreign. change (GetAnnotations (set_annotations (Some ?a) vm)) with a.
  apply map_eq. intros k. rewrite !filter_keys_lookup, maps_Copy_lookup.
  destruct (adds !! k) eqn:E; [|done]. by rewrite (Ha k) by eauto.
Qed.

Lemma owned_anns l : forallb (fun p => owned_key (fst p)) l = true -> owned_patch (anns l).
Proof.
  intros Hl k [v E]. apply elem_of_list_to_map_2 in E.
  rewrite List.forallb_forall in Hl. specialize (Hl (k, v)). rewrite <- list_elem_of_In in Hl. by apply Hl.
Qed.

Lemma owned_copy p q : owned_patch p -> owned_patch q -> owned_patch (maps_Copy p q).
Proof.
  intros Hp Hq k. rewrite maps_Copy_lookup. destruct (q !! k) eqn:E; [intros; apply Hq; eauto|apply Hp].
Qed.

Lemma owned_retry_markers cfg a p : owned_patch p -> owned_patch (add_retry_markers cfg a p).
Proof.
  assert (forall q k v, owned_key k = true -> owned_patch q -> owned_patch (<[k:=v]> q)) as Hi.
  { intros q k v Hk Hq k'. destruct (decide (k = k')) as [<-|]; [done|].
    rewrite lookup_insert_ne by done. apply Hq. }
  intros Hp. unfold add_retry_markers.
  destruct (retry_requested a), (bulk_changed cfg a);
    repeat (apply Hi; [vm_compute; reflexivity|]); done.
Qed.

(** A patch of the operator's annotations is confined; so is the bookkeeping of markers. *)
Lemma confined_annotations `{K8sLib} vm adds :
  foreign (set_annotations (Some (maps_Copy (GetAnnotations vm) adds)) vm) = foreign vm ->
  write_confined vm (set_annotations (Some (maps_Copy (GetAnnotations vm) adds)) vm) = true.
Proof.
  intros Hf. unfold write_confined. rewrite (bool_decide_eq_true_2 (_ = set_annotations _ _)) by done.
  by rewrite bool_decide_eq_true_2.
Qed.

Section Proofs.
Context {W C : Type} `{GoUnicode} `{K8sLib} `{Env W C}.
Context (DefaultConnection : DefaultConn).
Abbreviation ctl := (M C (VMState W C)).
Abbreviation kwp := (mwp (S := VMState W C) (O := obs C) key_step).
Implicit Types (s : VMState W C) (vm : VM) (g : KeyView).

(** A program that may run once the objects [vs] were seen. *)
Definition safe {A} (vs : list VM) (m : ctl A) : Prop :=
  forall g s, vs ⊆ kv_seen g -> kwp g m s (fun _ _ _ => True).

(** A program that keeps [vm] seen, and all the monitor knows. *)
Definition still {A} (m : ctl A) : Prop := forall g s, kwp g m s (fun _ g' _ => g' = g).

Lemma still_safe {A} vs (m : ctl A) : still m -> safe vs m.
Proof. intros Hm g s _. eapply mwp_mono; [apply Hm|done]. Qed.

Lemma still_bind {A B} (m : ctl A) (f : A -> ctl B) : still m -> (forall a, still (f a)) -> still (m ≫= f).
Proof.
  intros Hm Hf g s. apply mwp_bind. eapply mwp_mono; [apply Hm|]. intros a g' s' ->. apply Hf.
Qed.

Lemma safe_bind {A B} vs (m : ctl A) (f : A -> ctl B) :
  still m -> (forall a, safe vs (f a)) -> safe vs (m ≫= f).
Proof.
  intros Hm Hf g s Hv. apply mwp_bind. eapply mwp_mono; [apply Hm|]. intros a g' s' ->. by apply Hf.
Qed.

Lemma still_ret {A} (a : A) : still (mret a).
Proof. intros g s. by apply mwp_ret. Qed.
Lemma still_gets {A} (h : VMState W C -> A) : still (gets h).
Proof. intros g s. by apply mwp_gets. Qed.
Lemma still_modify h : still (modify h).
Proof. intros g s. by apply mwp_modify. Qed.

Definition is_still (c : call C) : bool :=
  match c with
  | CNow | CGetSecret _ _ | CGetConfig _ _ | CListConfigs _ | CListConfigsLabelled _ _ | CGetNamespace _
  | CEvent _ _ _ _ | CNewClient _ _ _ _ _ | CLogin _ | CListAcceptedKeys _ | CMasterLastSeen _ => true
  | _ => false
  end.

Lemma still_perform (c : call C) : is_still c = true -> still (perform c).
Proof. intros Hc g s. apply mwp_perform. intros r w' E. exists g. split; [by destruct c|done]. Qed.

Ltac still_tac :=
  repeat first
    [ apply still_ret | apply still_gets | apply still_modify
    | match goal with |- still (perform ?c) => exact (still_perform c eq_refl) end
    | apply still_bind; [|intros]
    | match goal with
      | |- still (match ?x with _ => _ end) => destruct x
      | |- still (let '_ := ?x in _) => destruct x
      end ].

Lemma still_Event vm t r m : still (Event vm t r m).
Proof. unfold Event. still_tac. Qed.
Lemma still_Since t : still (Since t).
Proof. unfold Since. still_tac. Qed.
Lemma still_saltClientFromConfig cfg : still (saltClientFromConfig DefaultConnection cfg).
Proof.
  unfold saltClientFromConfig, cache_get, cache_set, Resolve, resolveNamespaceSecret, resolveDefault,
    Load, readSecret. cbv zeta. still_tac.
Qed.
Lemma still_masterSilence c b t : still (masterSilence c b t).
Proof. unfold masterSilence, masterLastSeen, Since. still_tac. Qed.
Lemma still_masterLastSeen c : still (masterLastSeen c).
Proof. unfold masterLastSeen. still_tac. Qed.
Lemma still_in_retry_window vm : still (in_retry_window vm).
Proof. unfold in_retry_window, Since. still_tac. Qed.
Lemma still_findSaltKeyConfig ns : still (findSaltKeyConfig ns).
Proof. unfold findSaltKeyConfig. still_tac. Qed.
Lemma still_sinceVSphereCreate vm : still (sinceVSphereCreate vm).
Proof.
  unfold sinceVSphereCreate. induction (vm_conditions vm) as [|c cs IH]; simpl; [still_tac|].
  destruct (is_created_condition c); [|done]. unfold Since. still_tac.
Qed.

Ltac still_solve :=
  repeat first [ apply still_masterLastSeen | apply still_masterSilence | apply still_in_retry_window
               | apply still_Since | apply still_Event | apply still_saltClientFromConfig
               | apply still_sinceVSphereCreate | apply still_findSaltKeyConfig | progress still_tac ].

(** One still step, or a still end. *)
Ltac sstep := apply safe_bind; [solve [still_solve] | intros ?].
Ltac send := apply still_safe; solve [still_solve].

(** A write of the VM: the object returned is seen. *)
Lemma kwp_patch g vm m s Q :
  vm ∈ kv_seen g -> write_confined vm m = true ->
  (forall r s', Q r (match r with Ok v => see v g | Err _ => g end) s') ->
  kwp g (perform (CPatchVM vm m)) s Q.
Proof.
  intros Hv Hc HQ. apply mwp_perform. intros r w' E.
  exists (match r with Ok v => see v g | Err _ => g end). split; [|apply HQ].
  simpl. rewrite bool_decide_eq_true_2, Hc by done. by destruct r.
Qed.

(** A patch of annotations, then the rest: on success the returned object is seen. *)
Lemma safe_patch vs vm adds (f : VM -> option error -> ctl outcome) :
  vm ∈ vs -> owned_patch adds -> (forall v e, f v (Some e) = mret (Fail e)) ->
  (forall v, safe (v :: vs) (f v None)) ->
  safe vs ('(v, pe) ← patchAnnotations vm adds; f v pe).
Proof.
  intros Hin Ha He Hf g s Hv. unfold patchAnnotations. cbv zeta. apply mwp_bind, mwp_bind.
  apply kwp_patch; [by apply Hv|by apply confined_annotations, foreign_patch|]. intros [v|e] s'; apply mwp_ret.
  - apply Hf. simpl. set_solver.
  - rewrite He. by apply mwp_ret.
Qed.

Lemma safe_addSaltFinalizer vs vm (f : VM -> option error -> ctl outcome) :
  vm ∈ vs -> (forall v e, exists e', f v (Some e) = mret (Fail e')) ->
  (forall v, safe (v :: vs) (f v None)) ->
  safe vs ('(v, fe) ← addSaltFinalizer vm; f v fe).
Proof.
  intros Hin He Hf g s Hv. unfold addSaltFinalizer. apply mwp_bind.
  destruct (ContainsFinalizer _ _). { apply mwp_ret. apply Hf. set_solver. }
  cbv zeta. apply mwp_bind. apply kwp_patch; [by apply Hv| |].
  - unfold write_confined. rewrite (bool_decide_eq_true_2 (set_finalizers _ vm = set_finalizers _ vm)) by done.
    by rewrite orb_true_r.
  - intros [v|e] s'; apply mwp_ret; [apply Hf; simpl; set_solver|].
    destruct (He (set_finalizers (AddFinalizer (vm_finalizers vm) saltFinalizer) vm) e) as [e' ->].
    by apply mwp_ret.
Qed.

(** An authorised call that teaches the monitor nothing. *)
Lemma safe_call {A} vs (c : call C) (f : resp c -> ctl A) :
  (forall g r, vs ⊆ kv_seen g -> key_step g (Obs c r) = Some g) -> (forall r, safe vs (f r)) ->
  safe vs (perform c ≫= f).
Proof.
  intros Hc Hf g s Hv. apply mwp_bind. mwp_call. intros r w' E. exists g. split; [by apply Hc|].
  by apply Hf.
Qed.

Ltac scall := match goal with |- safe ?vs (perform ?c ≫= ?f) => refine (safe_call vs c f _ _) end.

(** The VM in hand was seen. *)
Ltac seen := solve [repeat first [assumption | apply list_elem_of_here | apply list_elem_of_further]].

(** Every owned patch of the handlers: literal annotations, with markers. *)
Ltac owned_tac :=
  lazymatch goal with
  | |- owned_patch (anns _) => apply owned_anns; vm_compute; reflexivity
  | |- owned_patch (add_retry_markers _ _ _) => apply owned_retry_markers; owned_tac
  | |- owned_patch (withMarkers _ _) => apply owned_copy; owned_tac
  | |- _ => assumption
  end.

Ltac spatch := apply safe_patch; [seen | owned_tac | done | intros ?].
Ltac slast := spatch; send.

(** [clearPreseedKey], then the rest. *)
Lemma safe_clear vs vm vm0 m (f : VM -> option error -> ctl outcome) :
  vm ∈ vs -> vm0 ∈ vs -> bootstraps vm0 = true -> (forall v e, f v (Some e) = mret (Fail e)) -> (forall v, safe (v :: vs) (f v None)) ->
  safe vs ('(v, ce) ← clearPreseedKey vm m; f v ce).
Proof.
  intros Hin Hin0 Hb He Hf g s Hv. unfold clearPreseedKey. apply mwp_bind.
  assert (vm :: vs ⊆ kv_seen g) as Hv' by set_solver.
  destruct (ann vm AnnotationMatchMethod =s? matchMethodPreseed) eqn:Em; cbn [negb orb];
    [|apply mwp_ret; by apply Hf].
  destruct (ann vm AnnotationKeyCleared =s? annotationTrue); [apply mwp_ret; by apply Hf|].
  pose proof (authorised_seen _ _ _ (Hv _ Hin0) Hb) as Hab. specialize (Hv _ Hin).
  unfold clearBootstrapKey. cbv zeta. apply mwp_bind, mwp_bind. mwp_call. intros r w' E.
  exists g. split.
  { simpl. rewrite Hab. erewrite authorised_seen; [done|exact Hv|]. unfold may_clear. rewrite !String.eqb_refl, Em.
    by rewrite bool_decide_eq_true_2. }
  destruct (IgnoreNotFound r); apply mwp_ret. { apply mwp_ret. rewrite He. by apply mwp_ret. }
  apply mwp_bind. unfold patchAnnotations. cbv zeta. apply mwp_bind. apply kwp_patch; [done| |].
  { apply confined_annotations, foreign_patch. owned_tac. }
  intros [v|e] s'; apply mwp_ret; cycle 1. { apply mwp_ret. rewrite He. by apply mwp_ret. }
  apply mwp_bind. eapply mwp_mono; [apply still_Event|]. intros _ g' s2 ->. apply mwp_ret, Hf.
  simpl. set_solver.
Qed.

(** A Salt command for the minion of an accepted VM. *)
Lemma command_ok (c : call C) g vm0 acc vm minion r :
  vm0 ∈ kv_seen g -> bootstraps vm0 = true -> acc ∈ kv_seen g -> accepted acc = true ->
  vm ∈ kv_seen g -> may_command minion vm = true ->
  match c with
  | CTestPing _ m | CRefreshPillar _ m | CDispatchHighstate _ m | CPollJID _ m _ => m = minion
  | _ => False
  end ->
  key_step g (Obs c r) = Some g.
Proof.
  intros H0v H0b Hav Hab Hv Hm Hc. pose proof (authorised_seen _ _ _ Hv Hm) as Ha.
  pose proof (authorised_seen _ _ _ H0v H0b) as Hb. pose proof (authorised_seen _ _ _ Hav Hab) as Hac.
  destruct c; try done; subst; simpl; by rewrite Hb, Hac, Ha.
Qed.

(** The chain runs on the object [vm] for a minion the object [auth] authorises. *)
Section Chain.
Context (vs : list VM) (vm vm0 acc auth : VM) (minion : string).
Hypothesis Hvm : vm ∈ vs.
Hypothesis Hvm0 : vm0 ∈ vs.
Hypothesis Hb : bootstraps vm0 = true.
Hypothesis Hacc : acc ∈ vs.
Hypothesis Hac : accepted acc = true.
Hypothesis Hauth : auth ∈ vs.
Hypothesis Hm : may_command minion auth = true.

Ltac scmd :=
  scall; [intros ?? Hg; by eapply command_ok; [apply Hg, Hvm0|exact Hb|apply Hg, Hacc|exact Hac|apply Hg, Hauth|exact Hm|] | intros ?].

Lemma safe_runPing c rq : safe vs (runPing vm c minion rq).
Proof.
  unfold runPing. sstep. sstep. scmd. case_match.
  - sstep. cbv zeta. sstep. case_match; [send|]. eapply safe_clear; [seen|exact Hvm0|exact Hb|done|]. intros v. slast.
  - eapply safe_clear; [seen|exact Hvm0|exact Hb|done|]. intros v. slast.
Qed.

Lemma safe_runRefreshPillar c rq : safe vs (runRefreshPillar vm c minion rq).
Proof.
  unfold runRefreshPillar. sstep. sstep. scmd. case_match; [|slast].
  sstep. cbv zeta. sstep. case_match; [send|slast].
Qed.

Lemma safe_runDispatchHighstate c rq : safe vs (runDispatchHighstate vm c minion rq).
Proof. unfold runDispatchHighstate. scmd. case_match; cbv zeta; slast. Qed.

Lemma safe_runPollHighstate c jid rq : safe vs (runPollHighstate vm c minion jid rq).
Proof.
  unfold runPollHighstate. case_match; [send|]. scmd. case_match; [|send]. case_match; [|send].
  sstep. cbv zeta. case_match; slast.
Qed.

Lemma safe_runDay2 c markers rq : owned_patch markers -> safe vs (runDay2 vm c minion markers rq).
Proof.
  intros Hmk. unfold runDay2. sstep. sstep. scmd. case_match; [sstep; cbv zeta; slast|].
  scmd. case_match; slast.
Qed.

Lemma safe_restartFirstChain cfg rq : safe vs (restartFirstChain vm cfg minion rq).
Proof. unfold restartFirstChain. cbv zeta. case_match; [send|slast]. Qed.

Lemma safe_reconverge c cfg a rq : safe vs (reconverge vm c cfg a minion rq).
Proof.
  unfold reconverge. cbv zeta. case_match; [slast|]. apply safe_runDay2. owned_tac.
Qed.

End Chain.

Lemma safe_weaken {A} vs vs' (m : ctl A) : vs ⊆ vs' -> safe vs m -> safe vs' m.
Proof. intros Hs Hm g s Hg. apply Hm. set_solver. Qed.

(** An accepted VM: [vm] is the object in hand, [acc] had the accepted status, [vm0] is the object
    the reconcile began with. *)
Section Accepted.
Context (vs : list VM) (vm vm0 acc : VM) (minion : string).
Hypothesis Hvm : vm ∈ vs.
Hypothesis Hvm0 : vm0 ∈ vs.
Hypothesis Hb : bootstraps vm0 = true.
Hypothesis Hacc : acc ∈ vs.
Hypothesis Hac : accepted acc = true.
Hypothesis Hm : may_command minion vm = true.

Lemma safe_checkTriggers c cfg rq : safe vs (checkTriggers vm c cfg (GetAnnotations vm) minion rq).
Proof.
  unfold checkTriggers. cbv zeta.
  assert (forall v vs', v ∈ vs' -> vs ⊆ vs' -> safe vs' (reconverge v c cfg (GetAnnotations vm) minion rq)) as Hre.
  { intros v vs' Hv Hs.
    refine (safe_reconverge vs' v vm0 acc vm minion Hv (Hs _ Hvm0) Hb (Hs _ Hacc) Hac (Hs _ Hvm) Hm _ _ _ _). }
  case_match; [|by apply Hre].
  assert (forall v vs', v ∈ vs' -> vs ⊆ vs' ->
    safe vs' (if mget (GetAnnotations vm) AnnotationSaltStatus <>s? saltStatusReady then mret (Done 0)
             else now ← perform CNow;
                  let '(due, wait) := enforcementDue cfg (vm_uid v)
                        (mget (GetAnnotations vm) AnnotationHighstateTime) now in
                  if negb due then mret (Done wait)
                  else reconverge v c cfg (GetAnnotations vm) minion rq)) as Hrest.
  { intros v vs' Hv Hs. case_match; [send|]. sstep. case_match. case_match; [send|]. by apply Hre. }
  destruct (bulk_changed cfg (GetAnnotations vm)).
  - spatch. apply Hrest; [seen|set_solver].
  - intros g s Hg. apply mwp_bind, mwp_ret. by refine (Hrest vm vs _ _ g s Hg).
Qed.

Lemma safe_checkReconvergence c cfg rq : safe vs (checkReconvergence vm c cfg minion rq).
Proof.
  unfold checkReconvergence. cbv zeta. case_match.
  { case_match; [send|]. apply safe_restartFirstChain. seen. }
  case_match; cycle 1.
  { intros g s Hg. apply mwp_bind, mwp_ret. exact (safe_checkTriggers c cfg rq g s Hg). }
  intros g s Hg. unfold adoptLegacyIntentHash. cbv zeta. apply mwp_bind.
  case_match. { apply mwp_ret. exact (safe_checkTriggers c cfg rq g s Hg). }
  apply mwp_bind. unfold patchAnnotations. cbv zeta. apply mwp_bind. apply kwp_patch; [by apply Hg| |].
  { apply confined_annotations, foreign_patch. owned_tac. }
  intros [v|e] s'; apply mwp_ret, mwp_ret, mwp_ret; done.
Qed.

Lemma safe_chain c cfg rq : safe vs (reconcilePostAccept vm c cfg minion rq).
Proof.
  unfold reconcilePostAccept. case_match; [send|]. cbv zeta.
  case_match. { sstep. case_match; [send|]. by apply (safe_runPing vs vm vm0 acc vm minion). }
  case_match; [by apply (safe_runRefreshPillar vs vm vm0 acc vm minion)|].
  case_match; [by apply (safe_runDispatchHighstate vs vm vm0 acc vm minion)|].
  case_match; [by apply (safe_runPollHighstate vs vm vm0 acc vm minion)|].
  apply safe_checkReconvergence.
Qed.

End Accepted.

(** The key phases: [vm] is the object in hand, [vm0] the object the reconcile began with. *)
Section Key.
Context (vs : list VM) (vm0 : VM).
Hypothesis Hvm0 : vm0 ∈ vs.
Hypothesis Hb : bootstraps vm0 = true.

Lemma safe_reconcilePostAccept vm acc c cfg rq :
  vm ∈ vs -> acc ∈ vs -> accepted acc = true ->
  safe vs (reconcilePostAccept vm c cfg (ann vm AnnotationMinionID) rq).
Proof.
  intros Hvm Hacc Hac. destruct (String.eqb_spec (ann vm AnnotationMinionID) "") as [E|E].
  - unfold reconcilePostAccept. rewrite E. send.
  - apply (safe_chain vs vm vm0 acc); try done. unfold may_command, minion_of.
    apply String.eqb_neq in E. by rewrite E, String.eqb_refl.
Qed.

Lemma safe_markPreseedAccepted vm rq : vm ∈ vs -> safe vs (markPreseedAccepted vm rq).
Proof. intros Hvm. unfold markPreseedAccepted. cbv zeta. sstep. slast. Qed.

Lemma kwp_writeBootstrapSecret g s vm p mp Q :
  vs ⊆ kv_seen g -> vm ∈ vs -> kv_pair g = Some (vm_name vm, p) -> kv_master g = Some mp ->
  (forall e s', Q e g s') -> kwp g (writeBootstrapSecret vm (vm_name vm) p mp) s Q.
Proof.
  intros Hg Hvm Hp Hmp HQ. unfold writeBootstrapSecret. cbv zeta.
  pose proof (authorised_seen _ _ _ (Hg _ Hvm0) Hb) as Hab.
  assert (authorised (fun v => bool_decide (vm_name vm = vm_name v
            /\ bootstrapSecret vm (vm_name vm) p mp = bootstrapSecret v (vm_name v) p mp)) g = true) as Has.
  { eapply authorised_seen; [by apply Hg|]. by apply bool_decide_eq_true_2. }
  apply mwp_bind. mwp_call. intros r w' E. exists g.
  split; [simpl; rewrite Hab, Hp, Hmp; simpl; by rewrite Has|].
  assert (forall err s', kwp g (match err with
      | Some e => mret (Some (Errorf "write Secret %s/%s: %w"
                   [FStr (sec_Namespace (bootstrapSecret vm (vm_name vm) p mp));
                    FStr (sec_Name (bootstrapSecret vm (vm_name vm) p mp)); FWrap e]))
      | None => mret None end) s' Q) as Hend.
  { intros err s'. destruct err; apply mwp_ret; apply HQ. }
  apply mwp_bind. destruct r as [e|]; [|apply mwp_ret; exact (Hend None _)].
  destruct (IsAlreadyExists e); [|apply mwp_ret; exact (Hend (Some e) _)].
  mwp_call. intros r' w2 E2. exists g.
  split; [simpl; rewrite Hab, Hp, Hmp; simpl; by rewrite Has|]. exact (Hend r' _).
Qed.

Lemma safe_runPreseedKey vm c rq :
  vm ∈ vs -> accepted vm = false -> key_status vm <> keyStatusPreseeded -> safe vs (runPreseedKey vm c rq).
Proof.
  intros Hvm Hna Hnp g s Hg. unfold runPreseedKey, minionIDOwner. cbv zeta. apply mwp_bind, mwp_bind.
  mwp_call. intros r w' E. destruct r as [items|e]; cycle 1.
  { exists g. split; [done|]. by apply mwp_ret, mwp_ret. }
  exists (set_listed items g). split; [done|]. apply mwp_ret.
  destruct (List.find _ items) as [owner|] eqn:Ef.
  { case_match; [by apply mwp_ret|]. assert (vs ⊆ kv_seen (set_listed items g)) as Hg' by done.
    revert Hg'. generalize (set_listed items g). intros g' Hg'.
    match goal with |- kwp _ ?m ?s0 _ => refine ((_ : safe vs m) g' s0 Hg') end. slast. }
  apply mwp_bind. mwp_call. intros r w2 E2. destruct r as [states|e]; cycle 1.
  { eexists. split; [done|]. by apply mwp_ret. }
  exists (set_states states (set_listed items g)). split; [done|]. apply mwp_bind.
  eapply mwp_mono with (Q := fun _ g' _ => g' = set_states states (set_listed items g)).
  { case_match; [apply still_Event|by apply mwp_ret]. }
  intros _ g' s' ->. apply mwp_bind. mwp_call. intros r w3 E3.
  set (g1 := set_states states (set_listed items g)).
  assert (authorised bootstraps g1 = true) as Hab by exact (authorised_seen _ g1 vm0 (Hg _ Hvm0) Hb).
  assert (authorised (may_generate items states (vm_name vm) (existsb (fun st => st <>s? "denied") states)) g1 = true) as Hag.
  { apply (authorised_seen _ g1 vm (Hg _ Hvm)). unfold may_generate, accepted in *. rewrite Hna.
    apply String.eqb_neq in Hnp. rewrite Hnp, String.eqb_refl, Bool.eqb_reflx, andb_true_r. simpl.
    apply List.forallb_forall. intros other Hin. apply (List.find_none _ _ Ef) in Hin.
    cbv beta in Hin. unfold minion_of. by destruct (vm_uid other =s? vm_uid vm), (ann other _ =s? _). }
  exists (match r with Ok (Some p) => set_pair (vm_name vm, p) g1 | _ => g1 end).
  split; [simpl; rewrite Hab; cbn [andb with2]; rewrite Hag; by destruct r as [[]|]|].
  destruct r as [[p|]|e]; [|by apply mwp_ret..].
  unfold finishPreseed. apply mwp_bind. mwp_call. intros r w4 E4.
  destruct r as [mp|e]; [|by (eexists; split; [done|by apply mwp_ret])].
  exists (set_master mp (set_pair (vm_name vm, p) g1)). split; [done|]. apply mwp_bind.
  eapply kwp_writeBootstrapSecret; [done..|]. intros we s5. destruct we; [by apply mwp_ret|].
  match goal with |- kwp ?g ?m ?s0 _ => refine ((_ : safe vs m) g s0 Hg) end.
  apply safe_addSaltFinalizer; [done|by intros; eexists|]. intros v. slast.
Qed.

Lemma safe_runAcceptKey vm c at' rq :
  vm ∈ vs -> accepted vm = false -> safe vs (runAcceptKey vm c (vm_primaryIP4 vm) at' rq).
Proof.
  intros Hvm Hna g s Hg. unfold runAcceptKey. apply mwp_bind. mwp_call. intros r w' E.
  destruct r as [pending|e]; [|by (eexists; split; [done|by apply mwp_ret])].
  exists (set_pending pending g). split; [done|]. cbv zeta.
  assert (vs ⊆ kv_seen (set_pending pending g)) as Hg' by done.
  destruct (negb _) eqn:Em; cycle 1.
  { match goal with |- kwp ?g ?m ?s0 _ => refine ((_ : safe vs m) g s0 Hg') end.
    sstep. case_match. case_match; [send|]. case_match; [send|slast]. }
  apply mwp_bind. mwp_call. intros r w2 E2. exists (set_pending pending g). split.
  { simpl. rewrite (authorised_seen _ _ _ (Hg' _ Hvm0) Hb).
    erewrite authorised_seen; [done|exact (Hg' _ Hvm)|]. unfold may_accept, accepted in *.
    by rewrite Hna, Em, String.eqb_refl. }
  match goal with |- kwp ?g ?m ?s0 _ => refine ((_ : safe vs m) g s0 Hg') end.
  case_match; [send|]. sstep. spatch.
  apply safe_addSaltFinalizer; [seen|by intros; eexists|]. intros v'. send.
Qed.

Lemma safe_reconcileKey vm cfg b at' rq :
  vm ∈ vs -> accepted vm = false -> safe vs (reconcileKey DefaultConnection vm cfg b at' rq).
Proof.
  intros Hvm Hna. unfold reconcileKey. cbv zeta. case_match; [send|].
  destruct ((KeyAcceptance _ =s? _) && _) eqn:Ea.
  { reflect_bools. sstep. case_match; [|send]. by apply safe_runPreseedKey. }
  case_match; [slast|]. case_match; [send|]. case_match; [by apply safe_markPreseedAccepted|].
  sstep. case_match; [|send]. by apply safe_runAcceptKey.
Qed.

End Key.

Lemma safe_reconcileCreate vm cfg :
  bootstraps vm = true -> safe [vm] (reconcileCreate DefaultConnection vm cfg).
Proof.
  intros Hb. unfold reconcileCreate. cbv zeta. sstep. case_match.
  assert (forall v vs tO x y, v ∈ vs -> vm ∈ vs ->
    safe vs (if ann v AnnotationKeyStatus <>s? keyStatusAccepted
             then reconcileKey DefaultConnection v cfg tO x y
             else reconcileAccepted DefaultConnection v cfg y)) as Hrest.
  { intros v vs tO x y Hv Hvm. destruct (accepted v) eqn:Ea; unfold accepted, key_status in *; rewrite Ea; simpl.
    - unfold reconcileAccepted. apply safe_addSaltFinalizer; [done|by intros; eexists|]. intros v'.
      sstep. case_match; [|send]. eapply (safe_reconcilePostAccept _ vm) with (acc := v); try done; seen.
    - by apply (safe_reconcileKey _ vm). }
  case_match; [eapply safe_clear; [seen|seen|done|done|]; intros v; apply Hrest; seen|].
  case_match; [eapply safe_clear; [seen|seen|done|done|]; intros v; apply Hrest; seen|].
  intros g s Hg. apply mwp_bind, mwp_ret. refine (Hrest vm [vm] _ _ _ _ _ g s Hg); seen.
Qed.

Lemma safe_removeSaltFinalizer vs vm : safe vs (removeSaltFinalizer vm).
Proof.
  intros g s Hg. unfold removeSaltFinalizer. apply mwp_bind. mwp_call. intros r w' E.
  destruct r as [v|e]; [|by (eexists; split; [done|by apply mwp_ret])].
  exists (see v g). split; [done|]. case_match; [|by apply mwp_ret]. apply mwp_bind.
  apply kwp_patch; [simpl; set_solver| |].
  - unfold write_confined. apply orb_true_iff. right. by apply bool_decide_eq_true_2.
  - intros [v2|e] s'; by apply mwp_ret.
Qed.

Lemma safe_reconcileDelete vm cfg :
  ann vm AnnotationManaged = annotationTrue -> being_deleted vm = true ->
  safe [vm] (reconcileDelete DefaultConnection vm cfg).
Proof.
  intros Hm Hd. unfold reconcileDelete. cbv zeta. case_match eqn:Ei; [send|].
  case_match eqn:Ek; [apply safe_removeSaltFinalizer|]. sstep. case_match; [|send].
  scall.
  { intros g r Hg. simpl. erewrite authorised_seen; [done|apply Hg; seen|].
    unfold may_delete, key_status, minion_of. by rewrite Hm, Hd, Ei, Ek, !String.eqb_refl. }
  intros r.
  assert (forall st t rs ms, safe [vm] ('(v, _) ← patchAnnotations vm (anns [(AnnotationKeyStatus, st)]);
            Event v t rs ms ;; removeSaltFinalizer v)) as Hend.
  { intros st t rs ms g s Hg. unfold patchAnnotations. cbv zeta. apply mwp_bind, mwp_bind.
    apply kwp_patch; [apply Hg; seen|apply confined_annotations, foreign_patch; owned_tac|].
    intros r' s'. destruct r' as [v|e]; apply mwp_ret, mwp_bind;
      (eapply mwp_mono; [apply still_Event|]); intros _ g' s2 ->; eapply safe_removeSaltFinalizer with (vs := []);
      apply list_subseteq_nil. }
  destruct r; apply Hend.
Qed.

Lemma safe_Reconcile ns name g s :
  kwp g (Reconcile DefaultConnection ns name) s (fun _ _ _ => True).
Proof.
  unfold Reconcile. apply mwp_bind. mwp_call. intros r w' E.
  destruct r as [v|e]; [|by (eexists; split; [done|by apply mwp_ret])].
  exists (see v g). split; [done|].
  match goal with |- kwp ?g ?m ?s0 _ => refine ((_ : safe [v] m) g s0 _) end; [|simpl; set_solver].
  case_match eqn:Hm; [send|]. reflect_bools. sstep. case_match; [|send]. case_match; [|send].
  case_match eqn:Hd; [by apply safe_reconcileDelete|]. case_match; [send|].
  apply safe_reconcileCreate. unfold bootstraps. by rewrite Hm, Hd.
Qed.

End Proofs.

(** ** Reading the monitor's view back from the calls *)

Section View.
Context {C : Type} `{GoUnicode} `{K8sLib}.
Implicit Types (t : list (obs C)).

Lemma returned_app t t' v : returned t v -> returned (t ++ t') v.
Proof.
  intros [(ns & n & Hin)|(b & m & Hin)]; [left|right]; eexists _, _; apply elem_of_app; by left.
Qed.

Lemma view_weaken t o g : view_of t g -> view_of (t ++ [o]) g.
Proof.
  intros []. constructor; intros; [by apply returned_app, view_seen0|..].
  all: first [destruct (view_pending0 _ ltac:(eassumption)) as [? ?]
             |pose proof (view_vms0 _ ltac:(eassumption))
             |destruct (view_states0 _ ltac:(eassumption)) as (? & ? & ?)
             |destruct (view_pair0 _ _ ltac:(eassumption)) as (? & ? & ?)
             |destruct (view_master0 _ ltac:(eassumption)) as [? ?]];
    repeat eexists; apply elem_of_app; by left; eauto.
Qed.

Lemma view_see t g v : view_of t g -> returned t v -> view_of t (see v g).
Proof.
  intros [] Hr. constructor; simpl; auto. intros v' [->|Hv]%elem_of_cons; auto.
Qed.

Lemma elem_snoc t (o : obs C) : o ∈ t ++ [o].
Proof. apply elem_of_app. right. by apply list_elem_of_singleton. Qed.

Lemma view_step t g o g' : view_of t g -> key_step g o = Some g' -> view_of (t ++ [o]) g'.
Proof.
  intros Hv Hs. apply (view_weaken _ o) in Hv. pose proof (elem_snoc t o) as Ho.
  destruct o as [c r]. destruct c; simpl in Hs; repeat case_match; simplify_eq; try exact Hv.
  all: try (apply view_see; [done|]).
  all: try (left; by eexists _, _).
  all: try (right; by eexists _, _).
  all: destruct Hv; constructor; simpl; auto; intros; simplify_eq; repeat eexists; exact Ho.
Qed.

(** A view at any point of an accepted trace. *)
Lemma monitor_view t t' g g' :
  view_of t' g -> monitor key_step g t = Some g' -> view_of (t' ++ t) g'.
Proof.
  revert g t'. induction t as [|o t IH]; intros g t' Hv Hm; simpl in Hm.
  - simplify_eq. by rewrite app_nil_r.
  - destruct (key_step g o) as [g1|] eqn:E; [|done].
    replace (t' ++ o :: t) with ((t' ++ [o]) ++ t) by (by rewrite <- app_assoc).
    eapply IH; [|done]. by eapply view_step.
Qed.

Lemma nothing_view : view_of (C := C) [] nothing_seen.
Proof. constructor; simpl; intros; try done. by apply not_elem_of_nil in H1. Qed.

(** The call after [t1] was authorised by a view of [t1]. *)
Lemma monitor_at t1 t2 (o : obs C) g' :
  monitor key_step nothing_seen (t1 ++ o :: t2) = Some g' ->
  exists g, view_of t1 g /\ is_Some (key_step g o).
Proof.
  rewrite monitor_app. destruct (monitor key_step nothing_seen t1) as [g|] eqn:E; [|done].
  intros Hm. exists g. split; [exact (monitor_view t1 [] _ _ nothing_view E)|].
  simpl in Hm. destruct (key_step g o); [by eexists|done].
Qed.

Lemma authorised_inv (p : VM -> bool) t g :
  view_of t g -> authorised p g = true -> exists v, returned t v /\ p v = true.
Proof.
  intros Hv (v & Hin & Hp)%existsb_exists. exists v. split; [|done].
  apply view_seen with g; [done|]. by apply list_elem_of_In.
Qed.

(** What the monitor says of a call in the middle of an accepted trace. *)

Lemma accept_authorised t1 t2 (c : C) key r g' :
  monitor key_step nothing_seen (t1 ++ Obs (CAcceptKey c key) r :: t2) = Some g' ->
  (exists v0, returned t1 v0 /\ bootstraps v0 = true) /\
  exists c' pending v m, Obs (CListPendingKeys c') (Ok pending) ∈ t1 /\ returned t1 v
    /\ key ∈ pending /\ key_matches (vm_name v) (vm_primaryIP4 v) key m
    /\ key_status v <> keyStatusAccepted.
Proof.
  intros Hm.
  apply monitor_at in Hm as (g & Hv & [g1 Hs]). simpl in Hs.
  destruct (authorised bootstraps g) eqn:Hb; [|done].
  destruct (kv_pending g) as [l|] eqn:Hp; [|done]. destruct (authorised (may_accept l key) g) eqn:Ha; [|done].
  split; [by apply (authorised_inv bootstraps t1 g)|].
  apply (view_pending _ _ Hv) in Hp as [c' Hp]. apply (authorised_inv _ t1 g Hv) in Ha as (v & Hrv & Ha).
  unfold may_accept in Ha. reflect_bools. subst key.
  match goal with Hx : bool_decide _ = false |- _ => apply bool_decide_eq_false in Hx as Hne end.
  apply FindMinionID_matches in Hne as [Hin Hkm].
  eexists c', l, v, _. repeat split; eauto.
Qed.

Lemma delete_authorised t1 t2 (c : C) minion r g' :
  monitor key_step nothing_seen (t1 ++ Obs (CDeleteKey c minion) r :: t2) = Some g' ->
  minion <> "" /\ exists v, returned t1 v /\ being_deleted v = true
    /\ ann v AnnotationManaged = annotationTrue /\ minion = minion_of v
    /\ key_status v <> keyStatusDeleted.
Proof.
  intros Hm.
  apply monitor_at in Hm as (g & Hv & [g1 Hs]). simpl in Hs.
  destruct (authorised (may_delete minion) g) eqn:Ha; [|done].
  apply (authorised_inv _ t1 g Hv) in Ha as (v & Hrv & Ha). unfold may_delete in Ha. reflect_bools.
  split; [done|]. by exists v.
Qed.

(** A VM without a key that may have one generated under [minion]: by its own name, which no VM of a
    cluster-wide listing holds, overwriting a key in a state other than denied. *)
Definition key_generated_for t1 (minion : string) (force : bool) (v : VM) : Prop :=
  exists vms states, returned t1 v /\ minion = vm_name v
    /\ key_status v <> keyStatusAccepted /\ key_status v <> keyStatusPreseeded
    /\ Obs (CListVMs None) (Ok vms) ∈ t1
    /\ (forall other, other ∈ vms -> minion_of other = minion -> vm_uid other = vm_uid v)
    /\ (exists c' m', Obs (CKeyStates c' m') (Ok states) ∈ t1)
    /\ (force = true <-> exists st, st ∈ states /\ st <> "denied").

Lemma generate_authorised t1 t2 (c : C) minion force r g' :
  monitor key_step nothing_seen (t1 ++ Obs (CGenAcceptKey c minion force) r :: t2) = Some g' ->
  (exists v0, returned t1 v0 /\ bootstraps v0 = true) /\ exists v, key_generated_for t1 minion force v.
Proof.
  intros Hm.
  apply monitor_at in Hm as (g & Hv & [g1 Hs]). simpl in Hs.
  destruct (authorised bootstraps g) eqn:Hb; [|done]. split; [by apply (authorised_inv bootstraps t1 g)|].
  unfold with2 in Hs. destruct (kv_vms g) as [vms|] eqn:Hvms; [|done].
  destruct (kv_states g) as [states|] eqn:Hst; [|done].
  destruct (authorised (may_generate vms states minion force) g) eqn:Ha; [|done].
  apply (authorised_inv _ t1 g Hv) in Ha as (v & Hrv & Ha). unfold may_generate in Ha. reflect_bools.
  subst minion. exists v, vms, states. repeat split; try done.
  - by apply view_vms with g.
  - intros other Hin Hmo.
    match goal with Hx : forallb _ vms = true |- _ => rewrite List.forallb_forall in Hx; specialize (Hx other) end.
    rewrite list_elem_of_In in Hin.
    match goal with Hx : List.In other vms -> _ |- _ => specialize (Hx Hin); apply orb_true_iff in Hx as [Hx|Hx]; reflect_bools end;
      congruence.
  - destruct (view_states _ _ Hv _ Hst) as (c' & m' & ?). eauto.
  - intros ->. match goal with Hx : Bool.eqb true _ = true |- _ => apply eqb_prop in Hx; symmetry in Hx;
      apply existsb_exists in Hx as (st & Hin & Hx) end. reflect_bools. exists st. by rewrite list_elem_of_In.
  - intros (st & Hin & Hne). match goal with Hx : Bool.eqb force _ = true |- _ => apply eqb_prop in Hx as -> end.
    apply existsb_exists. exists st. rewrite <- list_elem_of_In. split; [done|]. by apply negb_true_iff, String.eqb_neq.
Qed.

(** The minion a call commands. *)
Definition commands (c : call C) : option string :=
  match c with
  | CTestPing _ m | CRefreshPillar _ m | CDispatchHighstate _ m | CPollJID _ m _ => Some m
  | _ => None
  end.

Lemma command_authorised t1 t2 (c : call C) r minion g' :
  commands c = Some minion ->
  monitor key_step nothing_seen (t1 ++ Obs c r :: t2) = Some g' ->
  minion <> ""
  /\ (exists v0, returned t1 v0 /\ bootstraps v0 = true)
  /\ (exists v1, returned t1 v1 /\ key_status v1 = keyStatusAccepted)
  /\ (exists v, returned t1 v /\ minion_of v = minion).
Proof.
  intros Hc Hm.
  apply monitor_at in Hm as (g & Hv & [g1 Hs]).
  assert (authorised bootstraps g && authorised accepted g && authorised (may_command minion) g = true) as Ha.
  { destruct c; try done; injection Hc as <-; simpl in Hs; by destruct (_ && authorised (may_command _) g). }
  apply andb_true_iff in Ha as [[Hb Ha]%andb_true_iff Hcm].
  apply (authorised_inv _ t1 g Hv) in Hb as (v0 & Hr0 & Hb).
  apply (authorised_inv _ t1 g Hv) in Ha as (v1 & Hr1 & Ha).
  apply (authorised_inv _ t1 g Hv) in Hcm as (v & Hr & Hcm).
  clear Hs Hc. unfold may_command, accepted in *. reflect_bools.
  split; [assumption|]. split; [by exists v0|]. split; [by exists v1|]. by exists v.
Qed.

End View.

(** ** Theorems *)

Section Theorems.
Context {W C : Type} `{GoUnicode} `{K8sLib} `{Env W C}.
Context (DefaultConnection : DefaultConn).

Lemma Reconcile_monitored ns name (s : VMState W C) (Q : list (obs C) -> Prop) :
  (forall t, (exists g, monitor key_step nothing_seen t = Some g) -> Q t) ->
  wp (Reconcile DefaultConnection ns name) s (fun _ t _ => Q t).
Proof.
  intros HQ. eapply wp_mono; [apply (safe_Reconcile DefaultConnection ns name nothing_seen)|].
  intros a t s' (g & Hg & _). apply HQ. by exists g.
Qed.

(** What the monitor says of a write of a VM. *)
Lemma monitored_patch (t1 t2 : list (obs C)) b m r g' :
  monitor key_step nothing_seen (t1 ++ Obs (CPatchVM b m) r :: t2) = Some g' ->
  returned t1 b /\
  ((m = set_annotations (vm_annotations m) b
    /\ forall k, k ∉ owned_keys -> GetAnnotations m !! k = GetAnnotations b !! k)
   \/ m = set_finalizers (AddFinalizer (vm_finalizers b) saltFinalizer) b
   \/ m = set_finalizers (RemoveFinalizer (vm_finalizers b) saltFinalizer) b).
Proof.
  intros Hm.
  apply monitor_at in Hm as (g & Hv & [g1 Hs]). simpl in Hs.
  destruct (bool_decide (b ∈ kv_seen g)) eqn:Hb; [|done]. apply bool_decide_eq_true in Hb.
  split; [by apply Hv|]. destruct (write_confined b m) eqn:Hc; [|done]. unfold write_confined in Hc.
  apply orb_true_iff in Hc as [[Hc|Hc]%orb_true_iff|Hc].
  - left. apply andb_true_iff in Hc as [Hc1 Hc2]. apply bool_decide_eq_true in Hc1, Hc2.
    split; [done|]. intros k Hk. apply (f_equal (lookup k)) in Hc2. unfold foreign in Hc2.
    rewrite !filter_keys_lookup in Hc2. unfold owned_key in Hc2. by rewrite bool_decide_eq_false_2 in Hc2.
  - right. left. by apply bool_decide_eq_true in Hc.
  - right. right. by apply bool_decide_eq_true in Hc.
Qed.

(** C16: The operator writes to a VM only as the API server returned it earlier in the reconcile,
    and changes nothing of it but the annotations it owns or its own finalizer: tenant
    annotations, the retry request, the spec and other finalizers stay as they are. *)
Theorem vm_writes_confined ns name (s : VMState W C) :
  wp (Reconcile DefaultConnection ns name) s (fun _ t _ =>
    forall t1 t2 b m r, t = t1 ++ Obs (CPatchVM b m) r :: t2 ->
      returned t1 b /\
      ((m = set_annotations (vm_annotations m) b
        /\ forall k, k ∉ owned_keys -> GetAnnotations m !! k = GetAnnotations b !! k)
       \/ m = set_finalizers (AddFinalizer (vm_finalizers b) saltFinalizer) b
       \/ m = set_finalizers (RemoveFinalizer (vm_finalizers b) saltFinalizer) b)).
Proof. apply Reconcile_monitored. intros t [g' Hm] t1 t2 b m r ->. by eapply monitored_patch. Qed.

(** C12: A discovered key is accepted only for a managed VM that is not under deletion and whose key
    is not accepted yet, and only a key that the master listed as pending and that matches the
    name or the address of that VM. *)
Theorem accepted_key_matches ns name (s : VMState W C) :
  wp (Reconcile DefaultConnection ns name) s (fun _ t _ =>
    forall t1 t2 c key r, t = t1 ++ Obs (CAcceptKey c key) r :: t2 ->
      (exists v0, returned t1 v0 /\ bootstraps v0 = true) /\
      exists c' pending v m, Obs (CListPendingKeys c') (Ok pending) ∈ t1 /\ returned t1 v
        /\ key ∈ pending /\ key_matches (vm_name v) (vm_primaryIP4 v) key m
        /\ key_status v <> keyStatusAccepted).
Proof. apply Reconcile_monitored. intros t [g' Hm] t1 t2 c key r ->. by eapply accept_authorised. Qed.

(** C14: A key is generated only for a managed VM that is not under deletion and has no key yet,
    under that VM's own name, after a listing of the whole cluster in which no other VM holds that
    minion ID, and it overwrites a key on the master only in a state other than denied. *)
Theorem generated_key_unclaimed ns name (s : VMState W C) :
  wp (Reconcile DefaultConnection ns name) s (fun _ t _ =>
    forall t1 t2 c minion force r, t = t1 ++ Obs (CGenAcceptKey c minion force) r :: t2 ->
      (exists v0, returned t1 v0 /\ bootstraps v0 = true) /\
      exists v vms states, returned t1 v /\ minion = vm_name v
        /\ key_status v <> keyStatusAccepted /\ key_status v <> keyStatusPreseeded
        /\ Obs (CListVMs None) (Ok vms) ∈ t1
        /\ (forall other, other ∈ vms -> minion_of other = minion -> vm_uid other = vm_uid v)
        /\ (exists c' m', Obs (CKeyStates c' m') (Ok states) ∈ t1)
        /\ (force = true <-> exists st, st ∈ states /\ st <> "denied")).
Proof.
  apply Reconcile_monitored. intros t [g' Hm] t1 t2 c minion force r ->. by eapply generate_authorised.
Qed.

(** C13: A key is deleted from the master only for a managed VM under deletion, it is the key of the
    minion ID recorded on that VM, and it was not deleted before. *)
Theorem deleted_key_is_own ns name (s : VMState W C) :
  wp (Reconcile DefaultConnection ns name) s (fun _ t _ =>
    forall t1 t2 c minion r, t = t1 ++ Obs (CDeleteKey c minion) r :: t2 ->
      minion <> "" /\ exists v, returned t1 v /\ being_deleted v = true
        /\ ann v AnnotationManaged = annotationTrue /\ minion = minion_of v
        /\ key_status v <> keyStatusDeleted).
Proof. apply Reconcile_monitored. intros t [g' Hm] t1 t2 c minion r ->. by eapply delete_authorised. Qed.

(** C17: Salt is only ever commanded (ping, pillar refresh, highstate, poll) for the minion ID
    recorded on a VM the server returned, in a reconcile of a managed VM that is not under
    deletion and whose key is accepted. *)
Theorem commands_own_minion ns name (s : VMState W C) :
  wp (Reconcile DefaultConnection ns name) s (fun _ t _ =>
    forall t1 t2 c r minion, t = t1 ++ Obs c r :: t2 ->
      commands c = Some minion ->
      minion <> ""
      /\ (exists v0, returned t1 v0 /\ bootstraps v0 = true)
      /\ (exists v1, returned t1 v1 /\ key_status v1 = keyStatusAccepted)
      /\ (exists v, returned t1 v /\ minion_of v = minion)).
Proof. apply Reconcile_monitored. intros t [g' Hm] t1 t2 c r minion -> Hc. by eapply command_authorised. Qed.

End Theorems.
