(* ===== verification/VMIntent.v ===== *)
(** * The controller's own writes, the intent hash and the watch filter

    The operator and the tenant write annotations of the same VM.  The intent
    hash must not see what the operator writes, or each of its writes would
    start another reconvergence; the watch filter must drop the events these
    writes cause, and no other.  Both are stated for the documented lists of
    annotations, and for the writes [Reconcile] makes. *)

From S2P Require Import Prelude GoStrings GoTime Sha256 Matcher Api Effects RaasConn.
From S2P Require Import Server IntentHash VMController Cluster VMSafety.

Local Open Scope Z_scope.

(** ** Lemmas *)

Section Lemmas.
Context `{GoUnicode} `{K8sLib}.

Lemma owned_operator k : k ∈ owned_keys -> k ∈ operator_annotations.
Proof.
  unfold owned_keys. rewrite elem_of_difference, elem_of_singleton, nonIntent_iff.
  intros [[Hk|Hk] Hn]; [done|by destruct Hn].
Qed.

Lemma tenant_not_owned k : tenant_annotation k -> k ∉ owned_keys.
Proof. intros (_ & Hk & _) Ho. by apply Hk, owned_operator. Qed.

Lemma hash_tenant_only a b :
  (forall k, tenant_annotation k -> a !! k = b !! k) -> computeIntentHash a = computeIntentHash b.
Proof.
  intros Hab. unfold computeIntentHash. rewrite (intent_text_agree a b); [done|].
  intros k Hk. by apply Hab, is_intent_iff.
Qed.

(** The two objects compare alike when they differ in dropped annotations and bookkeeping alone. *)
Lemma dropped_only `{!K8sLibLaws} vm a a' rv mf :
  vm_annotations vm = Some a ->
  (forall k, k ∉ operator_annotations ++ backup_annotations -> a' !! k = a !! k) ->
  ownWritesOnly vm (set_bookkeeping rv mf (set_annotations (Some a') vm)) = true.
Proof.
  intros Ha Hk. apply deep_equal. unfold withoutOwnWrites, set_conditions, set_annotations, set_bookkeeping. simpl.
  f_equal. rewrite Ha. simpl. f_equal. apply map_eq. intros k. rewrite !filter_keys_lookup.
  destruct (dropped_annotation k) eqn:E; [done|]. symmetry. apply Hk. rewrite <- dropped_iff. congruence.
Qed.

(** What an update must change to be looked at. *)
Definition tenant_change (vm vm' : VM) : Prop :=
  (exists k, k ∉ operator_annotations ++ backup_annotations /\ GetAnnotations vm !! k <> GetAnnotations vm' !! k)
  \/ vm_finalizers vm <> vm_finalizers vm' \/ vm_deletionTimestamp vm <> vm_deletionTimestamp vm'
  \/ vm_labels vm <> vm_labels vm' \/ vm_guestInfo vm <> vm_guestInfo vm'
  \/ vm_phase vm <> vm_phase vm' \/ vm_powerState vm <> vm_powerState vm'
  \/ vm_primaryIP4 vm <> vm_primaryIP4 vm' \/ vm_rest vm <> vm_rest vm'.

Lemma tenant_change_kept `{!K8sLibLaws} vm vm' : tenant_change vm vm' -> ownWritesOnly vm vm' = false.
Proof.
  intros Hd. apply not_true_iff_false. unfold ownWritesOnly. rewrite deep_equal. intros E.
  destruct Hd as [(k & Hk & Hne)|Hd].
  - rewrite <- dropped_iff, not_true_iff_false in Hk. apply Hne.
    pose proof (withoutOwnWrites_annotations vm k) as E1. by rewrite E, withoutOwnWrites_annotations, Hk in E1.
  - pose proof (f_equal vm_finalizers E). pose proof (f_equal vm_deletionTimestamp E).
    pose proof (f_equal vm_labels E). pose proof (f_equal vm_guestInfo E). pose proof (f_equal vm_phase E).
    pose proof (f_equal vm_powerState E). pose proof (f_equal vm_primaryIP4 E). pose proof (f_equal vm_rest E).
    simpl in *. tauto.
Qed.

End Lemmas.

(** ** Theorems *)

Section Theorems.
Context {W C : Type} `{GoUnicode} `{K8sLib} `{!K8sLibLaws} `{Env W C}.
Context (DefaultConnection : DefaultConn).

(** C37: The intent hash depends only on the tenant's own salt.vcf.io annotations: it is the same for
    annotation maps that differ only in the annotations the operator is documented to write, the retry
    request and annotations of others, and in whatever order the map is iterated. So no write of a VM the
    reconcile makes changes the hash, whatever the API server and Salt answer. *)
Theorem intent_hash_tenant_only :
  (forall a b, (forall k, tenant_annotation k -> a !! k = b !! k) -> computeIntentHash a = computeIntentHash b)
  /\ (forall a l, l ≡ₚ map_to_list a ->
        computeIntentHash a = "v2:" +:+
          hex_EncodeToString (take 8 (Sum256 (intent_lines a (sort_Strings (intent_keys_of l))))))
  /\ forall ns name (s : VMState W C), wp (Reconcile DefaultConnection ns name) s (fun _ t _ =>
       forall b m r, Obs (CPatchVM b m) r ∈ t ->
         computeIntentHash (GetAnnotations m) = computeIntentHash (GetAnnotations b)).
Proof.
  split; [exact hash_tenant_only|]. split.
  - intros a l Hl. unfold computeIntentHash, intent_text. by rewrite (intent_keys_order a l Hl).
  - intros ns name s. apply Reconcile_monitored. intros t [g' Hm] b m r (t1 & t2 & ->)%list_elem_of_split.
    apply monitored_patch in Hm as [_ [[_ Hk]|[-> | ->]]]; [|done..].
    apply hash_tenant_only. intros k Ht. by apply Hk, tenant_not_owned.
Qed.


End Theorems.

(** ** Witnesses *)

Section Witnesses.
#[local] Existing Instances ascii_only reference_lib reference_laws server.

(** The key status and a retry request leave the hash of a tenant's annotations as it is. *)
Lemma intent_hash_tenant_only_witness :
  computeIntentHash (maps_Copy demo_intent (list_to_map [("salt.vcf.io/key-status", "Accepted"); ("salt.vcf.io/retry-request", "1")]))
  = computeIntentHash demo_intent.
Proof.
  apply (proj1 (intent_hash_tenant_only (W := World) (C := Handle) {| def_Namespace := ""; def_SecretName := "" |})).
  intros k (_ & Ho & Hr). rewrite maps_Copy_lookup. destruct (list_to_map _ !! k) eqn:E; [|done]. exfalso.
  apply elem_of_list_to_map_2 in E. simpl in E.
  rewrite !elem_of_cons in E. destruct E as [E|[E|E]]; [| |by apply not_elem_of_nil in E];
    injection E as Ek _; rewrite Ek in *; [apply Ho; vm_compute; left|apply Hr; reflexivity].
Defined.


End Witnesses.
