(* ===== verification/VMSecrecy.v ===== *)
(** * Where a generated private key goes

    The controller never looks at the private key it asks the master for: it
    puts it into the VM's bootstrap Secret, and nothing else of what it does
    depends on it.  Two runs of [Reconcile] that differ in the private keys
    the master generates differ in those Secrets alone. *)

From S2P Require Import Prelude GoStrings GoTime Matcher Api Effects RaasConn.
From S2P Require Import Server IntentHash VMController Cluster VMSafety.

Local Open Scope Z_scope.

(** ** Exchanging two private keys *)

(** The exchange of [a] and [b]. *)
Definition exchange (a b x : string) : string :=
  if x =s? a then b else if x =s? b then a else x.

Lemma exchange_involutive a b x : exchange a b (exchange a b x) = x.
Proof.
  unfold exchange. destruct (String.eqb_spec x a) as [->|Ha].
  - rewrite String.eqb_refl. by destruct (String.eqb_spec b a) as [->|].
  - destruct (String.eqb_spec x b) as [->|Hb]; [by rewrite String.eqb_refl|].
    by apply String.eqb_neq in Ha, Hb; rewrite Ha, Hb.
Qed.

Definition exchange_pair (a b : string) (p : KeyPair) : KeyPair :=
  {| kp_Pub := kp_Pub p; kp_Priv := exchange a b (kp_Priv p) |}.

(** In a Secret, the key is the value of [minion.pem]. *)
Definition exchange_secret (a b : string) (s : Secret) : Secret :=
  {| sec_Name := sec_Name s; sec_Namespace := sec_Namespace s; sec_Labels := sec_Labels s;
     sec_OwnerReferences := sec_OwnerReferences s; sec_Type := sec_Type s;
     sec_Data := alter (exchange a b) "minion.pem" (sec_Data s) |}.

Definition exchange_generated (a b : string) (r : res (option KeyPair)) : res (option KeyPair) :=
  match r with Ok (Some p) => Ok (Some (exchange_pair a b p)) | _ => r end.

(** The call and its answer with the keys exchanged: in the generated pair, and in a Secret written. *)
Definition exchange_obs {C} (a b : string) (o : obs C) : obs C :=
  match o with
  | existT q r =>
      match q as q0 return resp q0 -> obs C with
      | CGenAcceptKey c m f => fun r => Obs (CGenAcceptKey c m f) (exchange_generated a b r)
      | CCreateSecret s => fun r => Obs (CCreateSecret (exchange_secret a b s)) r
      | CUpdateSecret s => fun r => Obs (CUpdateSecret (exchange_secret a b s)) r
      | q0 => fun r => Obs q0 r
      end r
  end.

(** The environment in which the master generates [b] where it generated [a], and [a] where it generated
    [b], and that takes the Secrets with the other key like those with the one. *)
Definition exchanged {W C} (a b : string) (world : Env W C) : Env W C := fun q w =>
  match q as q0 return resp q0 * W with
  | CGenAcceptKey c m f => let '(r, w') := world (CGenAcceptKey c m f) w in (exchange_generated a b r, w')
  | CCreateSecret s => world (CCreateSecret (exchange_secret a b s)) w
  | CUpdateSecret s => world (CUpdateSecret (exchange_secret a b s)) w
  | q0 => world q0 w
  end.

Lemma exchange_secret_involutive a b s : exchange_secret a b (exchange_secret a b s) = s.
Proof.
  destruct s as [n ns l o t d]. unfold exchange_secret. simpl. f_equal. apply map_eq. intros k.
  destruct (decide (k = "minion.pem")) as [->|Hk].
  - rewrite !lookup_alter_eq. destruct (d !! "minion.pem"); [simpl; by rewrite exchange_involutive|done].
  - by rewrite !lookup_alter_ne by done.
Qed.

Lemma bootstrapSecret_exchange a b vm m p mp :
  bootstrapSecret vm m (exchange_pair a b p) mp = exchange_secret a b (bootstrapSecret vm m p mp).
Proof.
  unfold bootstrapSecret, exchange_secret. cbn [sec_Name sec_Namespace sec_Labels sec_OwnerReferences sec_Type sec_Data].
  assert (forall d, alter (exchange a b) "minion.pem" (<["minion.pem":=kp_Priv p]> d)
                    = <["minion.pem":=exchange a b (kp_Priv p)]> (d : gmap string string)) as Ha
    by (intros d; apply alter_insert_eq).
  unfold anns. cbn [list_to_map foldr fst snd]. by rewrite Ha.
Qed.

(** ** The two runs agree *)

Section Runs.
Context {W C : Type} `{GoUnicode} `{K8sLib} (e1 : Env W C) (a b : string).
Context (DefaultConnection : DefaultConn).

#[local] Abbreviation e2 := (exchanged a b e1).
#[local] Abbreviation agrees := (Effects.agrees (S := VMState W C) (exchange_obs a b)).

(** A call that carries no private key. *)
Definition carries_none (q : call C) : bool :=
  match q with CGenAcceptKey _ _ _ | CCreateSecret _ | CUpdateSecret _ => false | _ => true end.

Lemma agrees_perform q : carries_none q = true ->
  agrees (@perform W C _ e1 _ q) (@perform W C _ e2 _ q).
Proof.
  intros Hq s. unfold perform, env, exchanged. destruct q; try done; simpl; by destruct (e1 _ _) as [r w'].
Qed.

Lemma agrees_create s : agrees (@perform W C _ e1 _ (CCreateSecret s)) (@perform W C _ e2 _ (CCreateSecret (exchange_secret a b s))).
Proof.
  intros st. unfold perform, env, exchanged. simpl. rewrite exchange_secret_involutive. by destruct (e1 _ _) as [r w'].
Qed.

Lemma agrees_update s : agrees (@perform W C _ e1 _ (CUpdateSecret s)) (@perform W C _ e2 _ (CUpdateSecret (exchange_secret a b s))).
Proof.
  intros st. unfold perform, env, exchanged. simpl. rewrite exchange_secret_involutive. by destruct (e1 _ _) as [r w'].
Qed.

Lemma agrees_generate c m f :
  agrees_map (exchange_obs a b) (exchange_generated a b)
    (@perform W C (VMState W C) e1 _ (CGenAcceptKey c m f)) (@perform W C _ e2 _ (CGenAcceptKey c m f)).
Proof. intros st. unfold perform, env, exchanged. simpl. by destruct (e1 _ _) as [r w']. Qed.

(** Step through two runs of one operation, unfolding what it calls. *)
Ltac agrees_step :=
  match goal with
  | |- Effects.agrees _ (mret _) _ => apply agrees_ret
  | |- Effects.agrees _ (_ ≫= _) _ => apply agrees_bind; [|intros ?]
  | |- Effects.agrees _ (gets _) _ => apply agrees_gets
  | |- Effects.agrees _ (modify _) _ => apply agrees_modify
  | |- Effects.agrees _ (perform ?q) _ => exact (agrees_perform q eq_refl)
  | |- Effects.agrees _ (match ?x with _ => _ end) _ => destruct x
  | |- Effects.agrees _ ?m _ => let f := app_head m in unfold f; cbv zeta
  end.

Lemma agrees_patchAnnotations vm p : agrees (@patchAnnotations W C e1 vm p) (@patchAnnotations W C e2 vm p).
Proof. repeat agrees_step. Qed.

Lemma agrees_since_create cs : agrees (@since_create W C e1 cs) (@since_create W C e2 cs).
Proof. induction cs as [|c cs IH]; cbn [since_create]; repeat first [exact IH | agrees_step]. Qed.

Lemma agrees_writeBootstrapSecret vm m p mp :
  agrees (@writeBootstrapSecret W C e1 vm m p mp) (@writeBootstrapSecret W C e2 vm m (exchange_pair a b p) mp).
Proof.
  unfold writeBootstrapSecret. cbv zeta. rewrite bootstrapSecret_exchange.
  repeat first [apply agrees_create | apply agrees_update | agrees_step].
Qed.

Lemma agrees_finishPreseed vm c m p rq :
  agrees (@finishPreseed W C _ e1 vm c m p rq) (@finishPreseed W C _ e2 vm c m (exchange_pair a b p) rq).
Proof. unfold finishPreseed. repeat first [apply agrees_writeBootstrapSecret | agrees_step]. Qed.

(** The generated pair goes to the end of [runPreseedKey], or nowhere. *)
Lemma agrees_generated c m f (k k' : res (option KeyPair) -> M C (VMState W C) outcome) :
  (forall r, agrees (k r) (k' (exchange_generated a b r))) ->
  agrees (@perform W C _ e1 _ (CGenAcceptKey c m f) ≫= k) (@perform W C _ e2 _ (CGenAcceptKey c m f) ≫= k').
Proof. apply agrees_bind_map, agrees_generate. Qed.

Lemma agrees_runPreseedKey vm c rq : agrees (@runPreseedKey W C _ e1 vm c rq) (@runPreseedKey W C _ e2 vm c rq).
Proof.
  unfold runPreseedKey. cbv zeta.
  repeat first [apply agrees_generated; intros [[p|]|e]; simpl | apply agrees_finishPreseed | agrees_step].
Qed.

Lemma agrees_Reconcile ns name :
  agrees (@Reconcile W C _ _ e1 DefaultConnection ns name) (@Reconcile W C _ _ e2 DefaultConnection ns name).
Proof. repeat first [apply agrees_runPreseedKey | apply agrees_patchAnnotations | apply agrees_since_create | agrees_step]. Qed.

End Runs.

(** ** Theorem *)

Section Theorems.
Context {W C : Type} `{GoUnicode} `{K8sLib} (world : Env W C).
Context (DefaultConnection : DefaultConn).

#[local] Existing Instance world.

(** The Secrets a reconcile writes: the VM's own bootstrap Secret with the pair just generated for it, or
    one that clears both halves of it. *)
Definition secret_allowed (t1 : list (obs C)) (q : call C) : Prop :=
  match q with
  | CCreateSecret sec | CUpdateSecret sec =>
      exists v p mp, returned t1 v /\ sec = bootstrapSecret v (vm_name v) p mp
        /\ (exists c f, Obs (CGenAcceptKey c (vm_name v) f) (Ok (Some p)) ∈ t1)
        /\ (exists c, Obs (CMasterPublicKey c) (Ok mp) ∈ t1)
  | CPatchSecretData sns sn data =>
      exists v, returned t1 v /\ sns = vm_namespace v /\ sn = vm_name v +:+ bootstrapSecretSuffix
        /\ ann v AnnotationMatchMethod = matchMethodPreseed
        /\ mget data "minion.pem" = bootstrapKeyCleared /\ mget data "minion.pub" = bootstrapKeyCleared
  | _ => True
  end.

Lemma secret_authorised t1 t2 (q : call C) r g' :
  monitor key_step nothing_seen (t1 ++ Obs q r :: t2) = Some g' -> secret_allowed t1 q.
Proof.
  intros Hm. apply monitor_at in Hm as (g & Hv & [g1 Hs]).
  destruct q; try exact I; simpl in Hs; destruct (authorised bootstraps g); try discriminate;
    cbn [andb] in Hs; unfold with2 in Hs.
  3: { destruct (authorised _ g) eqn:Ha; [|done]. apply (authorised_inv _ t1 g Hv) in Ha as (v & Hrv & Ha).
       unfold may_clear in Ha. reflect_bools. exists v.
       match goal with Hx : bool_decide _ = true |- _ => apply bool_decide_eq_true in Hx as -> end.
       do 4 (split; [assumption|]). split; vm_compute; reflexivity. }
  all: destruct (kv_pair g) as [[m p]|] eqn:Hp; [|done]; destruct (kv_master g) as [mp|] eqn:Hmp; [|done];
    destruct (authorised _ g) eqn:Ha; [|done]; apply (authorised_inv _ t1 g Hv) in Ha as (v & Hrv & Ha);
    apply bool_decide_eq_true in Ha as [Hn Ha]; simpl in Hn, Ha; subst m; exists v, p, mp;
    pose proof (view_pair _ _ Hv _ _ Hp); pose proof (view_master _ _ Hv _ Hmp); eauto.
Qed.

(** C15: A generated private key goes nowhere but into the VM's own bootstrap Secret: every Secret
    the reconcile writes is that of a VM the server returned, in its namespace, owned by it, with
    the pair the master just generated under that VM's name and the master's public key; a bootstrap
    Secret is only cleared for a preseeded VM, and both key halves are. And nothing else depends on the key:
    had the master generated any other private key, the reconcile would have made the same calls, with the
    same events, annotations, requests and log of answers but for [minion.pem] of the Secrets it writes,
    returned the same, and left the same state (the API server taking the two Secrets alike). *)
Theorem secrets_confined ns name (s : VMState W C) a b :
  wp (Reconcile DefaultConnection ns name) s (fun o t s' =>
    (forall t1 t2 q r, t = t1 ++ Obs q r :: t2 -> secret_allowed t1 q)
    /\ @Reconcile W C _ _ (exchanged a b world) DefaultConnection ns name s = (o, exchange_obs a b <$> t, s')).
Proof.
  apply wp_and.
  - apply Reconcile_monitored. intros t [g' Hm] t1 t2 q r ->. by eapply secret_authorised.
  - pose proof (agrees_Reconcile world a b DefaultConnection ns name s) as Ha. unfold wp.
    by destruct (@Reconcile W C _ _ world DefaultConnection ns name s) as [[o t] s'].
Qed.

End Theorems.
