(* ===== verification/VMBehaviour.v ===== *)
(** * What the handlers of a VirtualMachine do

    Functional properties of single handlers of [VMController]: settled VMs
    are left alone, triggers of reconvergence are consumed by the one write
    that acts on them, deletion always goes on to release the VM once the key
    was tried, the choice of the SaltKeyConfig, and the cases the code leaves
    open. *)

From S2P Require Import Prelude GoStrings GoTime Matcher Api Effects RaasConn.
From S2P Require Import Server IntentHash VMController Cluster.

Local Open Scope Z_scope.

(** ** Definitions of the specification *)

(** No trigger of reconvergence is left on a VM: the retry requests of the VM and of its namespace are
    recorded as handled, and the recorded hash is that of its intent. *)
Definition consumed (cfg : option SaltKeyConfig) (vm : VM) : Prop :=
  (ann vm AnnotationRetryRequest = "" \/ ann vm AnnotationRetryHandled = ann vm AnnotationRetryRequest)
  /\ (forall c, cfg = Some c -> RetryToken (cfg_Spec c) = ""
                               \/ ann vm AnnotationBulkRetryHandled = RetryToken (cfg_Spec c))
  /\ ann vm AnnotationRolesHash = computeIntentHash (GetAnnotations vm).

(** The triggers in the annotations [a] a reconvergence acted on are recorded on the VM. *)
Definition recorded (cfg : option SaltKeyConfig) (a : gmap string string) (vm : VM) : Prop :=
  (mget a AnnotationRetryRequest = "" \/ mget a AnnotationRetryHandled = mget a AnnotationRetryRequest
   \/ ann vm AnnotationRetryHandled = mget a AnnotationRetryRequest)
  /\ (forall c, cfg = Some c ->
        RetryToken (cfg_Spec c) = "" \/ mget a AnnotationBulkRetryHandled = RetryToken (cfg_Spec c)
        \/ ann vm AnnotationBulkRetryHandled = RetryToken (cfg_Spec c))
  /\ ann vm AnnotationRolesHash = computeIntentHash a.

(** A VM with nothing to do: accepted, in a terminal status, with no trigger pending. *)
Definition settled `{K8sLib} (cfg : SaltKeyConfig) (vm : VM) : Prop :=
  ann vm AnnotationKeyStatus = keyStatusAccepted
  /\ ContainsFinalizer (vm_finalizers vm) saltFinalizer = true
  /\ (ann vm AnnotationMatchMethod = matchMethodPreseed -> ann vm AnnotationKeyCleared = annotationTrue)
  /\ retry_requested (GetAnnotations vm) = false /\ bulk_changed (Some cfg) (GetAnnotations vm) = false
  /\ (HasPrefix (ann vm AnnotationSaltStatus) failedStatusPrefix = true
        /\ (ann vm AnnotationRolesHash = "" \/ ann vm AnnotationRolesHash = computeIntentHash (GetAnnotations vm))
      \/ ann vm AnnotationSaltStatus = saltStatusReady
        /\ ann vm AnnotationRolesHash = computeIntentHash (GetAnnotations vm)
        /\ EnforcementInterval (cfg_Spec cfg) = "").

(** The config a namespace is served by: the first ready one its team made, else the first ready one
    the operator enrolled. *)
Definition is_team `{K8sLib} (cfg : SaltKeyConfig) : bool :=
  IsReady cfg && (mget (cfg_Labels cfg) LabelManagedBy <>s? ManagedByOperator).
Definition is_enrolled `{K8sLib} (cfg : SaltKeyConfig) : bool :=
  IsReady cfg && (mget (cfg_Labels cfg) LabelManagedBy =s? ManagedByOperator).

(** ** Lemmas: reading and writing triggers *)

Section Behaviour.
Context {W C : Type} `{GoUnicode} `{K8sLib} `{Env W C}.
Context (DefaultConnection : DefaultConn).
Abbreviation ctl := (M C (VMState W C)).

(** A call that reads the clock or a Secret, or sets up a logged-in client. *)
Definition untouching (o : obs C) : Prop :=
  match obs_of o with CNow | CGetSecret _ _ | CNewClient _ _ _ _ _ | CLogin _ => True | _ => False end.

(** A program that makes only such calls. *)
Definition untouched {A} (m : ctl A) : Prop := forall s, wp m s (fun _ t _ => Forall untouching t).

Lemma untouched_ret {A} (a : A) : untouched (mret a).
Proof. intros s. by apply wp_ret. Qed.
Lemma untouched_gets {A} (h : VMState W C -> A) : untouched (gets h).
Proof. intros s. by apply wp_gets. Qed.
Lemma untouched_modify h : untouched (modify h).
Proof. intros s. by apply wp_modify. Qed.
Lemma untouched_bind {A B} (m : ctl A) (f : A -> ctl B) :
  untouched m -> (forall a, untouched (f a)) -> untouched (m ≫= f).
Proof.
  intros Hm Hf s. apply wp_bind. eapply wp_mono; [apply Hm|]. intros a t s' Ht.
  eapply wp_mono; [apply Hf|]. intros b t' s2 Ht'. by apply Forall_app.
Qed.
Lemma untouched_perform (c : call C) :
  match c with CNow | CGetSecret _ _ | CNewClient _ _ _ _ _ | CLogin _ => True | _ => False end ->
  untouched (perform c).
Proof. intros Hc s. wp_call. intros r w' _. by apply Forall_singleton. Qed.

Ltac ut_tac :=
  repeat first
    [ apply untouched_ret | apply untouched_gets | apply untouched_modify
    | match goal with |- untouched (perform ?c) => exact (untouched_perform c I) end
    | apply untouched_bind; [|intros]
    | match goal with
      | |- untouched (match ?x with _ => _ end) => destruct x
      | |- untouched (let '_ := ?x in _) => destruct x
      end ].

Lemma untouched_saltClientFromConfig cfg : untouched (saltClientFromConfig DefaultConnection cfg).
Proof.
  unfold saltClientFromConfig, cache_get, cache_set, Resolve, resolveNamespaceSecret, resolveDefault,
    Load, readSecret. cbv zeta. ut_tac.
Qed.

(** The cache has an entry for the revision of [cfg] that does not expire before the times read in [t]. *)
Definition client_cached (cfg : SaltKeyConfig) (s : VMState W C) (t : list (obs C)) : Prop :=
  exists e, vs_cache s !! (cfg_Namespace cfg, cfg_Name cfg) = Some e /\ ce_configRV e = cfg_ResourceVersion cfg
    /\ forall now, Obs CNow now ∈ t -> now <= ce_expiresAt e.

(** A program that calls nothing but the clock. *)
Definition only_reads_clock (t : list (obs C)) : Prop := Forall (fun o => obs_of o = CNow) t.

Lemma only_reads_clock_sinceVSphereCreate vm s :
  wp (sinceVSphereCreate vm : ctl _) s (fun _ t s' => only_reads_clock t /\ vs_cache s' = vs_cache s).
Proof.
  unfold sinceVSphereCreate. induction (vm_conditions vm) as [|c cs IH]; simpl; [apply wp_ret; by split; [apply Forall_nil|]|].
  destruct (is_created_condition c); [|done]. unfold Since.
  repeat first [apply wp_ret | apply wp_bind | wp_call; intros ? ? _ | case_match]; split; try done;
    by repeat constructor.
Qed.

Lemma saltClientFromConfig_cached cfg s :
  wp (saltClientFromConfig DefaultConnection cfg) s (fun _ t _ => client_cached cfg s t -> only_reads_clock t).
Proof.
  apply wp_intro. intros rc t s' E (e & He & Hrv & Hlive). revert E.
  unfold saltClientFromConfig, cache_get, mbind, M_bind, gets. cbv zeta beta iota. rewrite He.
  rewrite Hrv, String.eqb_refl. cbn [negb]. unfold perform at 1.
  destruct (env CNow (world s)) as [now w'] eqn:En. simpl.
  destruct (ce_expiresAt e <? now) eqn:Ex; simpl.
  - intros E. exfalso. apply Z.ltb_lt in Ex. assert (now <= ce_expiresAt e); [|lia]. apply Hlive.
    repeat match type of E with context [let '(_, _) := ?x in _] => destruct x as [[]] end.
    simplify_eq. by left.
  - intros [= <- <- <-]. by repeat constructor.
Qed.

(** Steps of [reconcileCreate] that a settled VM passes without a write. *)
Lemma clearPreseedKey_settled vm m :
  (ann vm AnnotationMatchMethod = matchMethodPreseed -> ann vm AnnotationKeyCleared = annotationTrue) ->
  (clearPreseedKey vm m : ctl (VM * option error)) = mret (vm, None).
Proof.
  intros Hc. unfold clearPreseedKey.
  destruct (ann vm AnnotationMatchMethod =s? matchMethodPreseed) eqn:E; [|done]. reflect_bools.
  by rewrite Hc, String.eqb_refl.
Qed.

(** A program that only reads the clock. *)
Definition clocked {A} (m : ctl A) : Prop :=
  forall s, wp m s (fun _ t s' => only_reads_clock t /\ vs_cache s' = vs_cache s).

Lemma clocked_now : clocked (perform CNow).
Proof. intros s. wp_call. intros r w' _. split; [by apply Forall_singleton|done]. Qed.

(** A handler that only reads the clock and ends with an outcome of [P]. *)
Definition idle (P : outcome -> Prop) (m : ctl outcome) : Prop :=
  forall s, wp m s (fun o t _ => only_reads_clock t /\ P o).

Lemma idle_ret (P : outcome -> Prop) o : P o -> idle P (mret o).
Proof. intros HP s. apply wp_ret. split; [by apply Forall_nil|done]. Qed.

Lemma idle_step {A} (P : outcome -> Prop) (m : ctl A) f :
  clocked m -> (forall a, idle P (f a)) -> idle P (m ≫= f).
Proof.
  intros Hm Hf s. apply wp_bind. eapply wp_mono; [apply Hm|]. intros a t s' [Ht _].
  eapply wp_mono; [apply Hf|]. intros b t' s2 [Ht' HP]. split; [by apply Forall_app|done].
Qed.

Lemma idle_ret_step {A} (P : outcome -> Prop) (a : A) f : idle P (f a) -> idle P ((mret a : ctl A) ≫= f).
Proof. intros Hf s. apply wp_bind, wp_ret. apply Hf. Qed.

Lemma idle_checkReconvergence vm c cfg m rq :
  settled cfg vm -> idle (fun o => o = Done 0) (checkReconvergence vm c (Some cfg) m rq).
Proof.
  intros (_ & _ & _ & Hr & Hb & Hst). unfold checkReconvergence. cbv zeta.
  change (mget (GetAnnotations vm) AnnotationRolesHash) with (ann vm AnnotationRolesHash).
  change (mget (GetAnnotations vm) AnnotationSaltStatus) with (ann vm AnnotationSaltStatus).
  destruct (ann vm AnnotationRolesHash =s? "") eqn:Eh; reflect_bools.
  { destruct Hst as [[Hf _]|(_ & Hh & _)]; [|by destruct (computeIntentHash_nonempty (GetAnnotations vm)); rewrite <- Hh].
    rewrite Hf. cbn [negb]. unfold restartFirstChain. rewrite Hr, Hb. by apply idle_ret. }
  assert (ann vm AnnotationRolesHash = computeIntentHash (GetAnnotations vm)) as Hh.
  { destruct Hst as [[_ [?|?]]|(_ & ? & _)]; done. }
  rewrite Hh, computeIntentHash_prefix. cbn [negb]. apply idle_ret_step. cbn [orb].
  unfold checkTriggers. cbv zeta.
  change (mget (GetAnnotations vm) AnnotationRolesHash) with (ann vm AnnotationRolesHash).
  rewrite Hh, String.eqb_refl, Hr, Hb. cbn [negb andb orb]. apply idle_ret_step.
  change (mget (GetAnnotations vm) AnnotationSaltStatus) with (ann vm AnnotationSaltStatus).
  destruct Hst as [[Hf _]|(Hs & _ & He)].
  - case_match eqn:E; [by apply idle_ret|]. reflect_bools. by rewrite E in Hf.
  - rewrite Hs. cbn [negb]. rewrite String.eqb_refl. cbn [negb]. apply idle_step; [exact clocked_now|].
    intros now. unfold enforcementDue. rewrite He. simpl. by apply idle_ret.
Qed.

Lemma settled_terminal cfg vm :
  settled cfg vm ->
  ann vm AnnotationSaltStatus <> "" /\ ann vm AnnotationSaltStatus <> "Pinged"
  /\ ann vm AnnotationSaltStatus <> "PillarRefreshed" /\ ann vm AnnotationSaltStatus <> saltStatusHighstateDispatched.
Proof.
  intros (_ & _ & _ & _ & _ & [[Hf _]|[Hs _]]); [|by rewrite Hs].
  repeat split; intros E; by rewrite E in Hf.
Qed.

Lemma idle_reconcilePostAccept vm c cfg rq :
  settled cfg vm -> idle (fun o => o = Done 0) (reconcilePostAccept vm c cfg (ann vm AnnotationMinionID) rq).
Proof.
  intros Hs. unfold reconcilePostAccept. case_match; [by apply idle_ret|]. cbv zeta.
  destruct (settled_terminal _ _ Hs) as (E1 & E2 & E3 & E4). apply String.eqb_neq in E1, E2, E3, E4.
  rewrite E1, E2, E3, E4. by apply idle_checkReconvergence.
Qed.

Lemma clock_untouching t : only_reads_clock t -> Forall untouching t.
Proof. intros Ht. eapply Forall_impl; [exact Ht|]. intros o E. unfold untouching. by rewrite E. Qed.

(** The client of a settled VM is got, and the rest only reads the clock. *)
Lemma settled_reconcileAccepted vm cfg rq s :
  settled cfg vm ->
  wp (reconcileAccepted DefaultConnection vm cfg rq) s (fun o t _ =>
    Forall untouching t /\ (client_cached cfg s t -> only_reads_clock t) /\ (o = Done 0 \/ exists e, o = Fail e)).
Proof.
  intros Hs. pose proof Hs as (_ & Hf & _). unfold reconcileAccepted, addSaltFinalizer. rewrite Hf.
  apply wp_bind, wp_ret, wp_bind.
  eapply wp_mono; [apply wp_and; [apply untouched_saltClientFromConfig|apply saltClientFromConfig_cached]|].
  intros [cl|e] t s1 [Hu Hc].
  - eapply wp_mono; [by apply (idle_reconcilePostAccept vm cl cfg)|]. intros o t' s2 [Hclock Ho].
    simpl. split; [apply Forall_app; split; [done|by apply clock_untouching]|].
    split; [|by left]. intros (x & Hx & Hrv & Hlive). apply Forall_app. split; [|done]. apply Hc.
    exists x. split_and!; [done..|]. intros now Hin. apply Hlive, elem_of_app. by left.
  - apply wp_ret. simpl. rewrite app_nil_r. split_and!; eauto.
Qed.

(** C21: A settled VM is left alone: for an accepted VM that is Ready (without scheduled enforcement) or
    in a terminal failure, with no intent change and no retry requested, a reconcile makes no API write,
    no event and no Salt command, however often it runs; there is no automatic retry. All it calls is the
    clock, the Secret of the connection and the login of a new client, and while the cached client is
    current it only reads the clock. *)
Theorem settled_vm_untouched vm cfg s :
  settled cfg vm ->
  wp (reconcileCreate DefaultConnection vm cfg) s (fun o t _ =>
    Forall untouching t /\ (client_cached cfg s t -> only_reads_clock t)
    /\ (o = Done 0 \/ exists e, o = Fail e)).
Proof.
  intros Hs. pose proof Hs as (Hk & _ & Hc & _). unfold reconcileCreate. cbv zeta.
  apply wp_bind. eapply wp_mono; [apply only_reads_clock_sinceVSphereCreate|]. intros [el cr] t s1 [Ht Hcache].
  rewrite !clearPreseedKey_settled by done.
  match goal with |- wp (?m ≫= ?k) _ ?Q => enough (wp (k (vm, None)) s1 Q) as Hrest
    by (destruct (guestSignalled vm); [|destruct (_ && _)]; by apply wp_bind, wp_ret) end.
  cbv beta iota. rewrite Hk, String.eqb_refl. cbn [negb].
  eapply wp_mono; [by apply settled_reconcileAccepted|]. intros o t' s2 (Hu & Hcl & Ho). simpl.
  split; [apply Forall_app; split; [by apply clock_untouching|done]|]. split; [|done].
  intros (x & Hx & Hrv & Hlive). apply Forall_app. split; [done|]. apply Hcl. exists x. rewrite Hcache.
  split_and!; [done..|]. intros now Hin. apply Hlive, elem_of_app. by right.
Qed.

(** ** Lemmas: consuming triggers *)

Lemma owned_not_intent k : k ∈ nonIntentAnnotations -> is_intent k = false.
Proof. intros Hk. unfold is_intent. rewrite bool_decide_eq_false_2 by auto. apply andb_false_r. Qed.

(** A patch of keys outside the intent keeps the hash. *)
Lemma hash_patch a adds :
  (forall k, is_Some (adds !! k) -> k ∈ nonIntentAnnotations) ->
  computeIntentHash (maps_Copy a adds) = computeIntentHash a.
Proof.
  intros Hadds. unfold computeIntentHash. f_equal. f_equal. f_equal. f_equal.
  apply intent_text_agree. intros k Hk. rewrite maps_Copy_lookup.
  destruct (adds !! k) eqn:E; [|done]. rewrite owned_not_intent in Hk; [done|]. apply Hadds. by eexists.
Qed.

(** The write of a reconvergence: annotations [a] patched by [adds] with the retry markers. *)
Lemma markers_consume cfg a adds :
  (forall k, is_Some (adds !! k) -> k ∈ nonIntentAnnotations) ->
  adds !! AnnotationRetryRequest = None ->
  adds !! AnnotationRetryHandled = (if retry_requested a then Some (mget a AnnotationRetryRequest) else None) ->
  adds !! AnnotationBulkRetryHandled = (if bulk_changed cfg a then Some (bulk_token cfg) else None) ->
  let a' := maps_Copy a adds in
  retry_requested a' = false /\ bulk_changed cfg a' = false /\ computeIntentHash a' = computeIntentHash a.
Proof.
  intros Hk Hrq Hrh Hbh a'. split; [|split; [|by apply hash_patch]].
  - unfold retry_requested, a'. rewrite !mget_maps_Copy, Hrq, Hrh.
    unfold retry_requested. destruct (mget a AnnotationRetryRequest <>s? "") eqn:E1; [|done].
    destruct (mget a AnnotationRetryRequest <>s? mget a AnnotationRetryHandled) eqn:E2; simpl.
    + by rewrite String.eqb_refl.
    + done.
  - unfold bulk_changed, a'. rewrite !mget_maps_Copy, Hbh. unfold bulk_changed.
    destruct (bulk_token cfg <>s? "") eqn:E1; [|done].
    destruct (bulk_token cfg <>s? mget a AnnotationBulkRetryHandled) eqn:E2; simpl.
    + by rewrite String.eqb_refl.
    + done.
Qed.

Lemma add_retry_markers_lookup cfg a p k :
  add_retry_markers cfg a p !! k
  = if bulk_changed cfg a && (k =s? AnnotationBulkRetryHandled) then Some (bulk_token cfg)
    else if retry_requested a && (k =s? AnnotationRetryHandled) then Some (mget a AnnotationRetryRequest)
    else p !! k.
Proof.
  unfold add_retry_markers.
  assert (forall (q : gmap string string) k' v, <[k':=v]> q !! k = if k =s? k' then Some v else q !! k) as Hi.
  { intros q k' v. destruct (String.eqb_spec k k') as [->|]; [by rewrite lookup_insert_eq|].
    by rewrite lookup_insert_ne. }
  destruct (bulk_changed cfg a), (retry_requested a); cbn [andb]; by rewrite ?Hi.
Qed.

(** Patches that set the statuses and the roles hash, with the retry markers. *)
Definition status_keys : list string :=
  [AnnotationSaltStatus; AnnotationReady; AnnotationHighstateStatus; AnnotationHighstateJID; AnnotationRolesHash].

Lemma retry_not_requested a :
  retry_requested a = false ->
  mget a AnnotationRetryRequest = "" \/ mget a AnnotationRetryHandled = mget a AnnotationRetryRequest.
Proof. unfold retry_requested. intros [?|?]%andb_false_iff; reflect_bools; auto. Qed.

Lemma bulk_not_changed cfg a :
  bulk_changed cfg a = false -> bulk_token cfg = "" \/ mget a AnnotationBulkRetryHandled = bulk_token cfg.
Proof. unfold bulk_changed. intros [?|?]%andb_false_iff; reflect_bools; auto. Qed.

Lemma markers_consumed cfg vm adds :
  (forall k, k ∉ status_keys -> adds !! k = add_retry_markers cfg (GetAnnotations vm) ∅ !! k) ->
  adds !! AnnotationRolesHash = Some (computeIntentHash (GetAnnotations vm)) ->
  consumed cfg (set_annotations (Some (maps_Copy (GetAnnotations vm) adds)) vm).
Proof.
  intros Hadds Hh.
  assert (forall k, k ∉ status_keys -> adds !! k
    = if bulk_changed cfg (GetAnnotations vm) && (k =s? AnnotationBulkRetryHandled) then Some (bulk_token cfg)
      else if retry_requested (GetAnnotations vm) && (k =s? AnnotationRetryHandled)
           then Some (mget (GetAnnotations vm) AnnotationRetryRequest) else None) as Ha.
  { intros k Hk. rewrite Hadds, add_retry_markers_lookup, lookup_empty by done. done. }
  assert (forall k, is_Some (adds !! k) -> k ∈ nonIntentAnnotations) as Hown.
  { intros k Hs. destruct (decide (k ∈ status_keys)) as [Hk|Hk].
    - unfold status_keys in Hk. rewrite !elem_of_cons in Hk.
      repeat destruct Hk as [->|Hk]; try (vm_compute; reflexivity). by apply not_elem_of_nil in Hk.
    - rewrite Ha in Hs by done. destruct Hs as [v Hs].
      destruct (_ && (k =s? AnnotationBulkRetryHandled)) eqn:E1; reflect_bools; subst; [vm_compute; reflexivity|].
      destruct (_ && (k =s? AnnotationRetryHandled)) eqn:E2; reflect_bools; subst; [vm_compute; reflexivity|done]. }
  destruct (markers_consume cfg (GetAnnotations vm) adds) as (Hr & Hb & Hc); [done| | | |].
  - rewrite Ha by decided. by rewrite !andb_false_r.
  - rewrite Ha by decided. rewrite andb_false_r. by rewrite andb_true_r.
  - rewrite Ha by decided. rewrite andb_true_r.
    destruct (bulk_changed _ _); [done|]. by rewrite andb_false_r.
  - unfold consumed, ann. cbn [GetAnnotations set_annotations vm_annotations]. split_and!.
    + by apply retry_not_requested.
    + intros c ->. by apply (bulk_not_changed (Some c)).
    + change (mget (maps_Copy (GetAnnotations vm) adds) AnnotationRolesHash
              = computeIntentHash (maps_Copy (GetAnnotations vm) adds)).
      by rewrite mget_maps_Copy, Hh, Hc.
Qed.

(** What the write of a reconvergence does for the triggers it acted on. *)
Definition settles (cfg : option SaltKeyConfig) (a : gmap string string) (vm v : VM) : Prop :=
  recorded cfg a v /\ (a = GetAnnotations vm -> consumed cfg v).

Lemma ann_set vm m k : ann (set_annotations (Some m) vm) k = mget m k.
Proof. done. Qed.

Lemma markers_settle cfg a vm adds :
  (forall k, k ∉ status_keys -> adds !! k = add_retry_markers cfg a ∅ !! k) ->
  adds !! AnnotationRolesHash = Some (computeIntentHash a) ->
  settles cfg a vm (set_annotations (Some (maps_Copy (GetAnnotations vm) adds)) vm).
Proof.
  intros Hadds Hh. split; [|intros ->; by apply markers_consumed].
  unfold recorded. rewrite !ann_set, !mget_maps_Copy, Hh.
  rewrite !Hadds, !add_retry_markers_lookup, !lookup_empty by decided. rewrite !andb_false_r, !andb_true_r.
  split_and!; [| |done].
  - destruct (retry_requested a) eqn:E; [by auto|]. apply retry_not_requested in E. tauto.
  - intros c ->. destruct (bulk_changed (Some c) a) eqn:E; [by auto|]. apply bulk_not_changed in E. simpl in E. tauto.
Qed.

(** The writes of VMs in a trace: what each was based on and what it wrote. *)
Definition vm_patch (o : obs C) : option (VM * VM) :=
  match obs_of o with CPatchVM b v => Some (b, v) | _ => None end.
Definition vm_patches (t : list (obs C)) : list (VM * VM) := omap vm_patch t.

(** A program that writes no VM. *)
Definition unwritten {A} (m : ctl A) : Prop := forall s, wp m s (fun _ t _ => vm_patches t = []).

(** A handler that writes one VM, [vm], to a state of [P], and fails exactly when that write does. *)
Definition writes_once (vm : VM) (P : VM -> Prop) (m : ctl outcome) : Prop :=
  forall s, wp m s (fun o t _ => exists v, vm_patches t = [(vm, v)] /\ P v
    /\ forall e, o = Fail e <-> Obs (CPatchVM vm v) (Err e) ∈ t).

Lemma unwritten_ret {A} (a : A) : unwritten (mret a).
Proof. done. Qed.

Lemma vm_patches_app t t' : vm_patches (t ++ t') = vm_patches t ++ vm_patches t'.
Proof. unfold vm_patches. apply omap_app. Qed.

Lemma unwritten_bind {A B} (m : ctl A) (f : A -> ctl B) :
  unwritten m -> (forall a, unwritten (f a)) -> unwritten (m ≫= f).
Proof.
  intros Hm Hf s. apply wp_bind. eapply wp_mono; [apply Hm|]. intros a t s' Ht.
  eapply wp_mono; [apply Hf|]. intros b t' s2 Ht'. by rewrite vm_patches_app, Ht, Ht'.
Qed.

Lemma unwritten_perform (c : call C) :
  match c with CPatchVM _ _ => False | _ => True end -> unwritten (perform c).
Proof. intros Hc s. wp_call. intros r w' _. by destruct c. Qed.

Lemma unwritten_not_in t b v r : vm_patches t = [] -> Obs (CPatchVM b v) r ∉ t.
Proof.
  intros Ht Hin. assert ((b, v) ∈ vm_patches t) as Hp; [|rewrite Ht in Hp; by apply not_elem_of_nil in Hp].
  apply list_elem_of_omap. by exists (Obs (CPatchVM b v) r).
Qed.

(** The answer to a write of a VM. *)
Definition patch_answer (o : obs C) : option (res VM) :=
  match o with
  | existT c r =>
      match c as c0 return resp c0 -> option (res VM) with CPatchVM _ _ => Some | _ => fun _ => None end r
  end.

Lemma once_step {A} vm P (m : ctl A) f :
  unwritten m -> (forall a, writes_once vm P (f a)) -> writes_once vm P (m ≫= f).
Proof.
  intros Hm Hf s. apply wp_bind. eapply wp_mono; [apply Hm|]. intros a t s' Ht.
  eapply wp_mono; [apply Hf|]. intros o t' s2 (v & Hp & HP & Ho). exists v.
  rewrite vm_patches_app, Ht. split_and!; [done..|]. intros e. rewrite Ho, elem_of_app.
  pose proof (unwritten_not_in t vm v (Err e) Ht). tauto.
Qed.

(** The shape all handlers end with: the write, and an event when it succeeded. *)
Lemma once_patch vm adds (P : VM -> Prop) ty rs ms d :
  P (set_annotations (Some (maps_Copy (GetAnnotations vm) adds)) vm) ->
  writes_once vm P
    ('(v, pe) ← patchAnnotations vm adds;
     match pe with Some e => mret (Fail e) | None => Event v ty rs ms ;; mret (Done d) end : ctl outcome).
Proof.
  intros HP s. unfold patchAnnotations. cbv zeta. apply wp_bind, wp_bind. wp_call.
  intros [v|e] w' _; apply wp_ret.
  - unfold Event. apply wp_bind. wp_call. intros [] w2 _. apply wp_ret. eexists. split; [done|]. split; [exact HP|].
    intros e. split; [done|]. intros [Hin|[Hin|Hin]%elem_of_app]%elem_of_app;
      [apply elem_of_app in Hin as [Hin|Hin]| |]; try by apply not_elem_of_nil in Hin.
    + apply list_elem_of_singleton in Hin. by apply (f_equal patch_answer) in Hin.
    + apply list_elem_of_singleton in Hin. by apply (f_equal obs_of) in Hin.
  - apply wp_ret. eexists. split; [done|]. split; [exact HP|]. intros e'. split.
    + intros [= ->]. by left.
    + intros Hin. rewrite !app_nil_r in Hin. apply list_elem_of_singleton, (f_equal patch_answer) in Hin.
      by simplify_eq.
Qed.

(** A call that writes a VM or reports an event. *)
Definition writes_or_tells (o : obs C) : Prop :=
  match obs_of o with CPatchVM _ _ | CEvent _ _ _ _ => True | _ => False end.

Lemma patch_only vm adds ty rs ms d s :
  wp ('(v, pe) ← patchAnnotations vm adds;
      match pe with Some e => mret (Fail e) | None => Event v ty rs ms ;; mret (Done d) end : ctl outcome) s
     (fun _ t _ => Forall writes_or_tells t).
Proof.
  unfold patchAnnotations, Event. cbv zeta. apply wp_bind, wp_bind. wp_call. intros [v|e] w' _; apply wp_ret.
  - apply wp_bind. wp_call. intros [] w2 _. apply wp_ret. by repeat constructor.
  - apply wp_ret. by repeat constructor.
Qed.

Ltac uw_tac :=
  repeat first
    [ apply unwritten_ret
    | match goal with |- unwritten (perform ?c) => apply (unwritten_perform c); exact I end
    | apply unwritten_bind; [|intros]
    | match goal with
      | |- unwritten (match ?x with _ => _ end) => destruct x
      | |- unwritten (let '_ := ?x in _) => destruct x
      end ].

Lemma anns_notin l k : k ∉ l.*1 -> anns l !! k = None.
Proof. intros Hk. by apply not_elem_of_list_to_map_1. Qed.

Lemma once_runDay2 a vm c cfg m rq :
  writes_once vm (settles cfg a vm)
    (runDay2 vm c m (add_retry_markers cfg a
       (anns [(AnnotationRolesHash, computeIntentHash a)])) rq : ctl outcome).
Proof.
  assert (forall l, (forall k, k ∉ status_keys -> k ∉ l.*1) ->
    settles cfg a vm (set_annotations (Some (maps_Copy (GetAnnotations vm)
      (withMarkers (add_retry_markers cfg a
         (anns [(AnnotationRolesHash, computeIntentHash a)])) (anns l)))) vm)) as Hp.
  { intros l Hl. apply markers_settle.
    - intros k Hk. unfold withMarkers. rewrite maps_Copy_lookup, !add_retry_markers_lookup, lookup_empty.
      assert (k ∉ [AnnotationRolesHash]) as Hk' by (unfold status_keys in Hk; set_solver).
      rewrite (anns_notin [_]) by done. rewrite (anns_notin l) by auto. by repeat case_match.
    - unfold withMarkers. rewrite maps_Copy_lookup, add_retry_markers_lookup, !andb_false_r. done. }
  unfold runDay2, masterLastSeen, masterSilence, Since.
  apply once_step; [uw_tac|intros seen]. apply once_step; [uw_tac|intros now]. apply once_step; [uw_tac|intros r].
  destruct (step_failed r).
  - apply once_step; [unfold masterLastSeen; uw_tac|intros]. cbv zeta. apply once_patch, Hp.
    intros k Hk. unfold status_keys in Hk. set_solver.
  - apply once_step; [uw_tac|intros d].
    destruct d; apply once_patch, Hp; intros k Hk; unfold status_keys in Hk; set_solver.
Qed.

(** C22: A reconvergence consumes what triggered it, whether it succeeds or fails: on every path it
    attempts exactly one write to the VM, and that write records the retry request and the namespace
    token pending in the annotations it acted on as handled, with the hash of their intent, so the same
    trigger never starts a second run: on a VM with these annotations none is left. The reconcile fails
    exactly when this write does. A VM in a terminal failure is sent back to the start of the chain by
    that write, and nothing else is done to it. *)
Theorem reconvergence_consumes_triggers vm c cfg a minion requeueAfter s :
  wp (reconverge vm c cfg a minion requeueAfter : ctl outcome) s
     (fun o t _ => exists v,
        vm_patches t = [(vm, v)] /\ recorded cfg a v /\ (a = GetAnnotations vm -> consumed cfg v)
        /\ (forall e, o = Fail e <-> Obs (CPatchVM vm v) (Err e) ∈ t)
        /\ (HasPrefix (mget a AnnotationSaltStatus) failedStatusPrefix = true ->
              ann v AnnotationSaltStatus = "" /\ Forall writes_or_tells t)).
Proof.
  unfold reconverge. cbv zeta. destruct (HasPrefix _ _) eqn:Ef; cycle 1.
  { eapply wp_mono; [apply once_runDay2|]. intros o t s' (v & Hp & [Hr Hc] & Ho). exists v. by split_and!. }
  eapply wp_mono; [apply wp_and; [apply (once_patch vm _ (fun v => settles cfg a vm v /\ ann v AnnotationSaltStatus = ""))|]|].
  - split.
    + apply markers_settle.
      * intros k Hk. rewrite !add_retry_markers_lookup, lookup_empty, anns_notin; [done|].
        unfold status_keys in Hk. set_solver.
      * rewrite add_retry_markers_lookup, !andb_false_r. done.
    + by rewrite ann_set, mget_maps_Copy, add_retry_markers_lookup, !andb_false_r.
  - apply (patch_only vm).
  - intros o t s' [(v & Hp & [[Hr Hc] Hs] & Ho) Hall]. exists v. by split_and!.
Qed.

(** ** Choosing the config *)

Lemma pick_config_spec enrolled items :
  pick_config enrolled items
  = match List.find is_team items with
    | Some c => Some c
    | None => match enrolled with Some e => Some e | None => List.find is_enrolled items end
    end.
Proof.
  revert enrolled. induction items as [|c items IH]; intros enrolled; simpl; [by destruct enrolled|].
  unfold is_team at 1, is_enrolled at 1. destruct (IsReady c); simpl; [|by rewrite IH].
  destruct (mget (cfg_Labels c) LabelManagedBy =s? ManagedByOperator) eqn:E; simpl; [|done].
  rewrite IH. by destruct (List.find is_team items), enrolled.
Qed.

(** C23: A namespace is served by a ready SaltKeyConfig or by none: the first ready one its team made
    if there is one, otherwise the first ready one the operator enrolled; a config that is not
    ready is never used. *)
Theorem config_choice ns s :
  wp (findSaltKeyConfig ns : ctl _) s (fun r t _ =>
    exists items, t = [Obs (CListConfigs (Some ns)) items] /\
    match items with
    | Err e => r = Err e
    | Ok l => exists choice, r = Ok choice /\
        match choice with
        | Some cfg => exists l1 l2, l = l1 ++ cfg :: l2 /\
            (is_team cfg = true /\ Forall (fun c => is_team c = false) l1
             \/ is_enrolled cfg = true /\ Forall (fun c => is_team c = false) l
                /\ Forall (fun c => is_enrolled c = false) l1)
        | None => Forall (fun c => IsReady c = false) l
        end
    end).
Proof.
  unfold findSaltKeyConfig. apply wp_bind. wp_call. intros r w' E. destruct r as [l|e]; apply wp_ret.
  - exists (Ok l). split; [done|]. eexists. split; [done|]. rewrite pick_config_spec.
    destruct (List.find is_team l) as [cfg|] eqn:Et.
    { apply find_first in Et as (l1 & l2 & -> & ? & ?). exists l1, l2. auto. }
    apply find_none_Forall in Et. destruct (List.find is_enrolled l) as [cfg|] eqn:Ee.
    { apply find_first in Ee as (l1 & l2 & -> & ? & ?). exists l1, l2. auto. }
    apply find_none_Forall in Ee. rewrite Forall_forall in Et, Ee. apply Forall_forall. intros c Hc.
    specialize (Et c Hc). specialize (Ee c Hc). unfold is_team, is_enrolled in Et, Ee.
    destruct (IsReady c); [|done]. simpl in *. by rewrite Ee in Et.
  - exists (Err e). by split.
Qed.

(** ** Deletion *)

(** The object a read or a write of the API answers is the one that was named. *)
Class ApiNames : Prop := {
  get_named ns n w v w' : env (CGetVM ns n) w = (Ok v, w') -> vm_key v = (ns, n);
  patch_named b m w v w' : env (CPatchVM b m) w = (Ok v, w') -> vm_key v = vm_key b;
}.

(** The result of a call that may find its object gone. *)
Definition gone_or_failed (e : error) : outcome := if IsNotFound e then Done 0 else Fail e.

(** The calls that release the VM [k]: it is read again and loses the operator's finalizer, and nothing
    else changes. The reconcile fails when one of the two calls does, unless the VM is gone. *)
Definition releases (k : string * string) (o : outcome) (t : list (obs C)) : Prop :=
  exists t0 ans t4, t = t0 ++ Obs (CGetVM k.1 k.2) ans :: t4 /\
    match ans with
    | Ok latest =>
        vm_key latest = k /\
        if ContainsFinalizer (vm_finalizers latest) saltFinalizer
        then exists r, t4 = [Obs (CPatchVM latest
               (set_finalizers (RemoveFinalizer (vm_finalizers latest) saltFinalizer) latest)) r]
             /\ o = match r with Ok _ => Done 0 | Err e => gone_or_failed e end
        else t4 = [] /\ o = Done 0
    | Err e => t4 = [] /\ o = gone_or_failed e
    end.

Lemma releases_app k o t t' : releases k o t' -> releases k o (t ++ t').
Proof.
  intros (t0 & ans & t4 & -> & Ha). exists (t ++ t0), ans, t4. by rewrite <- app_assoc.
Qed.

Lemma IgnoreNotFound_gone e : returnErr (IgnoreNotFound (Some e)) = gone_or_failed e.
Proof. unfold gone_or_failed. simpl. by destruct (IsNotFound e). Qed.

Lemma removeSaltFinalizer_releases `{!ApiNames} vm s :
  wp (removeSaltFinalizer vm : ctl outcome) s (fun o t _ => releases (vm_key vm) o t).
Proof.
  unfold removeSaltFinalizer. apply wp_bind. wp_call. intros r w' E.
  destruct r as [latest|e]; cycle 1.
  { apply wp_ret. exists [], (Err e), []. rewrite IgnoreNotFound_gone. by split_and!. }
  apply get_named in E. destruct (ContainsFinalizer _ _) eqn:Ec; cycle 1.
  { apply wp_ret. exists [], (Ok latest), []. by rewrite Ec. }
  apply wp_bind. wp_call. intros r w2 E2.
  destruct r as [v|e]; apply wp_ret; exists [], (Ok latest); eexists; (split; [reflexivity|]); rewrite Ec;
    (split; [done|]); eexists; (split; [reflexivity|]); [done|by rewrite IgnoreNotFound_gone].
Qed.

(** A patch of annotations hands on the same object. *)
Lemma patchAnnotations_named `{!ApiNames} vm adds s :
  wp (patchAnnotations vm adds : ctl _) s (fun r _ _ => vm_key r.1 = vm_key vm).
Proof.
  unfold patchAnnotations. apply wp_bind. wp_call. intros [v|e] w' E; apply wp_ret; [|done].
  by apply patch_named in E.
Qed.

(** C20: Once the key of a VM under deletion was tried to be deleted, or is recorded as deleted, the VM is
    released, whatever RaaS answered and whether or not the outcome could be recorded: the reconcile
    goes on to read this VM again and to remove the operator's finalizer, and nothing else, from what
    it read. It succeeds when that is done or the VM is gone, and is retried otherwise. *)
Theorem deletion_releases `{!ApiNames} vm cfg s :
  wp (reconcileDelete DefaultConnection vm cfg) s (fun o t _ =>
    (exists c minion r, Obs (CDeleteKey c minion) r ∈ t)
    \/ ann vm AnnotationMinionID <> "" /\ ann vm AnnotationKeyStatus = keyStatusDeleted ->
    releases (vm_key vm) o t).
Proof.
  unfold reconcileDelete. cbv zeta. case_match; reflect_bools.
  { apply wp_ret. intros [(? & ? & ? & Hin)|[Hm _]]; [by apply not_elem_of_nil in Hin|done]. }
  case_match; reflect_bools. { eapply wp_mono; [apply removeSaltFinalizer_releases|]. auto. }
  apply wp_bind. eapply wp_mono; [apply untouched_saltClientFromConfig|]. intros [cl|e] t s' Ht; cycle 1.
  { apply wp_ret. rewrite app_nil_r. intros [(c & m & r & Hin)|[_ Hd]]; [|done].
    rewrite Forall_forall in Ht. by destruct (Ht _ Hin). }
  assert (forall (t0 : list (obs C)) st ty rs ms s1, wp ('(v, _) ← patchAnnotations vm (anns [(AnnotationKeyStatus, st)]);
            Event v ty rs ms ;; removeSaltFinalizer v : ctl outcome) s1
            (fun o t1 _ => releases (vm_key vm) o (t0 ++ t1))) as Hend.
  { intros t0 st ty rs ms s1. apply wp_bind. eapply wp_mono; [apply patchAnnotations_named|].
    intros [v pe] t1 s2 Hv. simpl in Hv. apply wp_bind.
    apply wp_intro. intros u t2 s3 _. rewrite <- Hv. eapply wp_mono; [apply removeSaltFinalizer_releases|].
    intros o t3 s4 Hr. by repeat apply releases_app. }
  apply wp_bind. wp_call. intros r w' E.
  destruct r as [e|]; cbv beta iota;
    (eapply wp_mono; [apply (Hend [])|]); intros o t1 s1 Hr _; do 2 apply releases_app; exact Hr.
Qed.

End Behaviour.

(** ** Deletions that are left blocked *)

Section Blocked.
#[local] Existing Instances ascii_only reference_lib server.

Definition dying (vm : VM) : VM :=
  {| vm_name := vm_name vm; vm_namespace := vm_namespace vm; vm_uid := vm_uid vm;
     vm_apiVersion := vm_apiVersion vm; vm_kind := vm_kind vm; vm_labels := vm_labels vm;
     vm_annotations := vm_annotations vm; vm_finalizers := [saltFinalizer];
     vm_deletionTimestamp := Some "2026-01-01T00:00:00Z";
     vm_resourceVersion := vm_resourceVersion vm; vm_managedFields := vm_managedFields vm;
     vm_guestInfo := vm_guestInfo vm; vm_conditions := vm_conditions vm; vm_phase := vm_phase vm;
     vm_powerState := vm_powerState vm; vm_primaryIP4 := vm_primaryIP4 vm; vm_rest := vm_rest vm |}.

Definition raas_down : Answers :=
  {| an_login := Some (EApi OtherReason "connection refused"); an_pending := an_pending all_well;
     an_accepted := an_accepted all_well; an_accept := None; an_delete := None; an_ping := Ok true;
     an_refresh := Ok true; an_highstate := an_highstate all_well; an_poll := an_poll all_well;
     an_seen := an_seen all_well; an_states := Ok []; an_pair := Ok None; an_masterPub := Ok "" |}.

(** A reconcile of the demo VM under deletion that ends without a requeue and writes nothing. *)
Definition left_blocked (a : list (string * string)) (an : Answers) : Prop :=
  let s := {| vs_world := demo_world (demo_config_with demo_spec) [dying (demo_vm a)] an; vs_cache := ∅ |}
           : VMState World Handle in
  let '(o, t, s') := Reconcile {| def_Namespace := ""; def_SecretName := "" |} "team" "vm-a" s in
  o = Done 0 /\ writes t = [] /\ vm_finalizers <$> w_vms (vs_world s') = [[saltFinalizer]].

(** A VM under deletion keeps the operator's finalizer, with no error and no requeue, when RaaS
    cannot be logged in to, when the VM is no longer managed, and when the finalizer was added
    but the minion ID was not recorded. *)
Theorem deletion_left_blocked :
  left_blocked [(AnnotationManaged, "true"); (AnnotationKeyStatus, "Accepted"); (AnnotationMinionID, "vm-a")] raas_down
  /\ left_blocked [(AnnotationKeyStatus, "Accepted"); (AnnotationMinionID, "vm-a")] all_well
  /\ left_blocked [(AnnotationManaged, "true")] all_well.
Proof. vm_compute. repeat split. Qed.

End Blocked.

(** ** Witnesses *)

Section Witnesses.
#[local] Existing Instances ascii_only reference_lib server.

(** An accepted VM whose highstate failed, its hash that of its intent. *)
Definition failed_vm : VM :=
  let a := [(AnnotationManaged, "true"); (AnnotationKeyStatus, "Accepted"); (AnnotationMinionID, "vm-a");
            (AnnotationSaltStatus, "Failed/Highstate")] in
  set_finalizers [saltFinalizer]
    (demo_vm ((AnnotationRolesHash, computeIntentHash (list_to_map a)) :: a)).

Lemma settled_vm_untouched_witness :
  settled (demo_config_with demo_spec) failed_vm /\
  forall s : VMState World Handle,
    wp (reconcileCreate {| def_Namespace := ""; def_SecretName := "" |} failed_vm (demo_config_with demo_spec)) s
       (fun o t _ => Forall untouching t /\ (client_cached (demo_config_with demo_spec) s t -> only_reads_clock t)
                     /\ (o = Done 0 \/ exists e, o = Fail e)).
Proof.
  assert (settled (demo_config_with demo_spec) failed_vm) as Hs.
  { split; [by vm_compute|]. split; [by vm_compute|]. split; [by vm_compute|].
    split; [by vm_compute|]. split; [by vm_compute|]. left. split; [by vm_compute|]. right.
    vm_compute. reflexivity. }
  split; [exact Hs|]. intros s. exact (settled_vm_untouched _ _ _ s Hs).
Defined.

#[local] Instance server_names : ApiNames (W := World) (C := Handle).
Proof.
  split.
  - intros ns n w v w' E. change (serve (CGetVM ns n) w = (Ok v, w')) in E. simpl in E.
    destruct (find_vm (ns, n) (w_vms w)) as [v'|] eqn:Ef; simplify_eq. exact (find_vm_key _ _ _ Ef).
  - intros b m w v w' E. change (serve (CPatchVM b m) w = (Ok v, w')) in E. simpl in E.
    destruct (find_vm (vm_key b) (w_vms w)) as [cur|] eqn:Ef; simplify_eq. exact (find_vm_key _ _ _ Ef).
Qed.

(** The release of the demo VM, whose last finalizer goes. *)
Lemma deletion_releases_witness :
  let vm := dying (demo_vm [(AnnotationManaged, "true"); (AnnotationKeyStatus, "Accepted"); (AnnotationMinionID, "vm-a")]) in
  let s : VMState World Handle :=
    {| vs_world := demo_world (demo_config_with demo_spec) [vm] all_well; vs_cache := ∅ |} in
  wp (reconcileDelete {| def_Namespace := ""; def_SecretName := "" |} vm (demo_config_with demo_spec)) s
     (fun o t s' => releases ("team", "vm-a") o t /\ o = Done 0 /\ w_vms (vs_world s') = []).
Proof.
  intros vm s. eapply wp_mono.
  - apply wp_and; [apply wp_intro; intros o t s' E; exact E|].
    apply (deletion_releases {| def_Namespace := ""; def_SecretName := "" |} vm (demo_config_with demo_spec)).
  - intros o t s' [E Hr]. split; [|].
    + apply Hr. left. exists ("https://raas.example", "u"), "vm-a", None.
      apply (list_elem_of_lookup_2 _ 4%nat). apply (f_equal (fun p => p.1.2 !! 4%nat)) in E.
      cbn [fst snd] in E. rewrite <- E. vm_compute. reflexivity.
    + split; [apply (f_equal (fun p => p.1.1)) in E|apply (f_equal (fun p => w_vms (vs_world p.2))) in E];
        vm_compute in E; done.
Defined.

End Witnesses.
