(* ===== verification/VMLiveness.v ===== *)
(** * The bootstrap chain comes to its end

    Liveness of the VM controller: when the API server, RaaS and the minion
    answer, reconciles of a VM whose key is accepted bring it to Ready, one
    phase of the chain per reconcile. *)

From S2P Require Import Prelude GoStrings GoTime Matcher Api Effects RaasConn.
From S2P Require Import Server IntentHash VMController Cluster.

Local Open Scope Z_scope.

(** ** A cooperating environment *)

(** In a good world the API server and the connection to RaaS serve the operator and nothing else
    changes the VM: reads return the stored object, patches apply to it, and the namespace has the
    ready config [cfg] with a usable connection and a login. *)
Class Serving {W C} `{GoUnicode} `{K8sLib} `{Env W C} (DefaultConnection : DefaultConn)
    (k : string * string) (stored : W -> option VM) (cfg : SaltKeyConfig) (good : W -> Prop) : Prop := {
  coop_good (c : call C) w r w' : good w -> env c w = (r, w') -> good w';
  coop_stored (c : call C) w r w' : good w -> env c w = (r, w') ->
    match c with CPatchVM _ _ => False | _ => True end -> stored w' = stored w;
  coop_get w r w' v : good w -> env (CGetVM k.1 k.2) w = (r, w') -> stored w = Some v -> r = Ok v;
  coop_patch b m w r w' cur : good w -> stored w = Some cur -> vm_key b = k ->
    env (CPatchVM b m) w = (r, w') -> exists v, r = Ok v /\ patched b m cur v /\ stored w' = Some v;
  coop_config w r w' : good w -> env (CListConfigs (Some k.1)) w = (r, w') ->
    exists l, r = Ok l /\ pick_config None l = Some cfg;
  coop_secret w r w' : good w ->
    env (CGetSecret (connection_secret cfg DefaultConnection).1 (connection_secret cfg DefaultConnection).2) w = (r, w') ->
    exists sec conn, r = Ok sec /\ connects cfg DefaultConnection (sec_Data sec) conn /\ complete_conn conn;
  coop_login c w r w' : good w -> env (CLogin c) w = (r, w') -> r = None;
  coop_clear ns n d w r w' : good w -> env (CPatchSecretData ns n d) w = (r, w') -> IgnoreNotFound r = None;
}.

(** The master lists [pending] and accepts keys, until [latest], in a year that RFC 3339 can write. *)
Class Accepting {W C} `{GoUnicode} `{K8sLib} `{Env W C} (DefaultConnection : DefaultConn)
    (k : string * string) (stored : W -> option VM) (cfg : SaltKeyConfig) (pending : list string) (latest : Z)
    (good : W -> Prop) : Prop := {
  acc_serving :: Serving DefaultConnection k stored cfg good;
  acc_pending c w r w' : good w -> env (CListPendingKeys c) w = (r, w') -> r = Ok pending;
  acc_accept c m w r w' : good w -> env (CAcceptKey c m) w = (r, w') -> r = None;
  acc_clock w r w' : good w -> env CNow w = (r, w') -> rfc3339_year r = true /\ r <= latest;
}.

(** The clock is past the post-accept delay of an acceptance at [acceptedAt], and the minion answers,
    refreshes its pillar and finishes its highstate with success. *)
Class Cooperative {W C} `{GoUnicode} `{K8sLib} `{Env W C} (DefaultConnection : DefaultConn)
    (k : string * string) (stored : W -> option VM) (cfg : SaltKeyConfig) (acceptedAt : Z)
    (good : W -> Prop) : Prop := {
  coop_serving :: Serving DefaultConnection k stored cfg good;
  coop_clock w r w' : good w -> env CNow w = (r, w') -> acceptedAt + postAcceptDelay <= r;
  coop_ping c m w r w' : good w -> env (CTestPing c m) w = (r, w') -> r = Ok true;
  coop_refresh c m w r w' : good w -> env (CRefreshPillar c m) w = (r, w') -> r = Ok true;
  coop_highstate c m w r w' : good w -> env (CDispatchHighstate c m) w = (r, w') -> exists j, r = Ok j /\ j <> "";
  coop_poll c m j w r w' : good w -> env (CPollJID c m j) w = (r, w') ->
    exists result, r = Ok (Some result) /\ HighstateOK result = true;
}.

(** ** Phases *)

(** A VM in the chain: accepted at [acceptedAt], in phase [p]. *)
Record in_phase `{K8sLib} (cfg : SaltKeyConfig) (acceptedAt : Z) (p : string) (vm : VM) : Prop := {
  ph_managed : ann vm AnnotationManaged = annotationTrue;
  ph_live : being_deleted vm = false;
  ph_selected : matchesVMSelector cfg vm = true;
  ph_accepted : ann vm AnnotationKeyStatus = keyStatusAccepted;
  ph_minion : ann vm AnnotationMinionID <> "";
  ph_time : ParseRFC3339 (ann vm AnnotationAcceptedAt) = Some acceptedAt;
  ph_status : ann vm AnnotationSaltStatus = p;
  ph_job : p = saltStatusHighstateDispatched -> ann vm AnnotationHighstateJID <> "";
}.

(** The phase a successful step leads to. *)
Definition next_phase (p : string) : string :=
  if p =s? "" then "Pinged"
  else if p =s? "Pinged" then "PillarRefreshed"
  else if p =s? "PillarRefreshed" then saltStatusHighstateDispatched
  else saltStatusReady.

Definition running_phases : list string := [""; "Pinged"; "PillarRefreshed"; saltStatusHighstateDispatched].

(** ** The operator served *)

Section Served.
Context {W C : Type} `{GoUnicode} `{K8sLib} `{Env W C}.
Context (DefaultConnection : DefaultConn) (k : string * string) (stored : W -> option VM).
Context (cfg : SaltKeyConfig) (good : W -> Prop).
Context `{!Serving DefaultConnection k stored cfg good}.

Abbreviation ctl := (M C (VMState W C)).

(** [n] reconciles of the VM. *)
Fixpoint reconciles (n : nat) (s : VMState W C) : VMState W C :=
  match n with
  | O => s
  | S n' => let '(_, _, s') := Reconcile DefaultConnection k.1 k.2 s in reconciles n' s'
  end.

(** The world is good and the VM is stored as [vm]. *)
Definition holds (vm : VM) (s : VMState W C) : Prop :=
  good (vs_world s) /\ stored (vs_world s) = Some vm /\ vm_key vm = k.

(** ** Lemmas *)

(** A program that keeps the world good and the VM as it is. *)
Definition keeps_vm {A} (m : ctl A) : Prop :=
  forall vm s, holds vm s -> wp m s (fun _ _ s' => holds vm s').

Lemma keeps_vm_ret {A} (a : A) : keeps_vm (mret a).
Proof. by intros vm s Hs. Qed.
Lemma keeps_vm_gets {A} (h : VMState W C -> A) : keeps_vm (gets h).
Proof. by intros vm s Hs. Qed.
Lemma keeps_vm_cache f : keeps_vm (modify (set_cache f)).
Proof. by intros vm s Hs. Qed.
Lemma keeps_vm_bind {A B} (m : ctl A) (f : A -> ctl B) :
  keeps_vm m -> (forall a, keeps_vm (f a)) -> keeps_vm (m ≫= f).
Proof.
  intros Hm Hf vm s Hs. apply wp_bind. eapply wp_mono; [exact (Hm vm s Hs)|]. intros a t s' Hs'.
  exact (Hf a vm s' Hs').
Qed.

Lemma holds_step (c : call C) vm s r w' :
  holds vm s -> env c (vs_world s) = (r, w') -> match c with CPatchVM _ _ => False | _ => True end ->
  holds vm (set_world w' s).
Proof.
  intros (Hg & Hst & Hk) E Hc. split; [|split]; [by eapply coop_good| |done].
  simpl. by rewrite (coop_stored c _ _ _ Hg E Hc).
Qed.

Lemma keeps_vm_perform (c : call C) :
  match c with CPatchVM _ _ => False | _ => True end -> keeps_vm (perform c).
Proof. intros Hc vm s Hs. wp_call. intros r w' E. by eapply holds_step. Qed.

Ltac kv_tac :=
  repeat first
    [ apply keeps_vm_ret | apply keeps_vm_gets | apply keeps_vm_cache
    | match goal with |- keeps_vm (perform ?c) => exact (keeps_vm_perform c I) end
    | apply keeps_vm_bind; [|intros]
    | match goal with
      | |- keeps_vm (match ?x with _ => _ end) => destruct x
      | |- keeps_vm (let '_ := ?x in _) => destruct x
      end ].

Lemma keeps_vm_sinceVSphereCreate vm : keeps_vm (sinceVSphereCreate vm).
Proof.
  unfold sinceVSphereCreate. induction (vm_conditions vm) as [|c cs IH]; simpl; [kv_tac|].
  destruct (is_created_condition c); [|done]. unfold Since. kv_tac.
Qed.

(** A call with a known answer. *)
Lemma wp_holds (c : call C) vm s (Q : resp c -> list (obs C) -> VMState W C -> Prop) :
  holds vm s -> match c with CPatchVM _ _ => False | _ => True end ->
  (forall r w', env c (vs_world s) = (r, w') -> good (vs_world s) -> holds vm (set_world w' s) ->
     Q r [Obs c r] (set_world w' s)) ->
  wp (perform c) s Q.
Proof.
  intros Hs Hc HQ. wp_call. intros r w' E. apply HQ; [done|apply Hs|by eapply holds_step].
Qed.

Ltac hcall Hs := match goal with |- wp (perform ?c) ?s ?Q => refine (wp_holds c _ s Q Hs I _) end.

(** Patching the stored VM. *)
Lemma wp_patch_holds vm adds s :
  holds vm s ->
  wp (patchAnnotations vm adds) s (fun a _ s' =>
    exists v, a = (v, None) /\ holds v s' /\ GetAnnotations v = maps_Copy (GetAnnotations vm) adds
      /\ vm_labels v = vm_labels vm /\ being_deleted v = being_deleted vm).
Proof.
  intros (Hg & Hst & Hk). unfold patchAnnotations. cbv zeta. apply wp_bind. wp_call. intros r w' E.
  destruct (coop_patch _ _ _ _ _ _ Hg Hst Hk E) as (v & -> & Hp & Hst'). apply wp_ret.
  exists v. split; [done|]. destruct Hp as (rv & mf & ->).
  assert (GetAnnotations (merge_vm vm (set_annotations (Some (maps_Copy (GetAnnotations vm) adds)) vm) vm)
          = maps_Copy (GetAnnotations vm) adds) as Ha.
  { apply map_eq. intros x. rewrite GetAnnotations_merge_vm. unfold merge_key.
    change (GetAnnotations (set_annotations (Some ?a) vm)) with a. by case_decide. }
  split; [split; [by eapply coop_good|by split]|]. by repeat split.
Qed.

Lemma complete_keys conn :
  complete_conn conn ->
  (conn_URL conn =s? "") = false /\ (conn_MasterID conn =s? "") = false
  /\ (conn_Username conn =s? "") = false /\ (conn_Password conn =s? "") = false.
Proof. unfold complete_conn. by rewrite !String.eqb_neq. Qed.

(** The connection resolves. *)
Lemma wp_Resolve_holds vm s :
  holds vm s -> wp (Resolve cfg DefaultConnection) s (fun r _ s' => (exists conn, r = Ok conn) /\ holds vm s').
Proof.
  intros Hs. unfold Resolve. pose proof (coop_secret (DefaultConnection := DefaultConnection)) as Hsec.
  unfold connection_secret in Hsec.
  destruct (CredentialsSecret (cfg_Spec cfg) =s? "") eqn:Ec; cbn [negb fst snd] in *; reflect_bools.
  - unfold resolveDefault, Load, readSecret.
    destruct (Configured DefaultConnection) eqn:Ed; cbn [negb].
    + apply wp_bind, wp_bind, wp_bind. hcall Hs. intros r w' E Hg Hs'.
      destruct (Hsec _ _ _ Hg E) as (sec & conn & -> & Hc & Hcc). apply wp_ret.
      inversion Hc as [|? _ _ E1 E2 E3 E4 E5 E6 E7 E8 _]; subst; [done|].
      apply complete_keys in Hcc as (Hu & Hm & Hn & Hp). rewrite E1 in *. rewrite E2 in *. rewrite E3 in *. rewrite E4 in *.
      cbn [existsb]. rewrite Hu, Hm, Hn, Hp. cbn [orb]. apply wp_ret. cbv zeta.
      cbn [conn_URL conn_MasterID conn_SkipTLSVerify].
      match goal with |- wp (if ?b then _ else _) _ _ => destruct b eqn:B1 end;
        [exfalso; apply andb_true_iff in B1 as [? ?]; reflect_bools; by destruct E6|].
      match goal with |- wp (if ?b then _ else _) _ _ => destruct b eqn:B2 end;
        [exfalso; apply andb_true_iff in B2 as [? ?]; reflect_bools; by destruct E7|].
      match goal with |- wp (if ?b then _ else _) _ _ => destruct b eqn:B3 end.
      * exfalso. apply andb_true_iff in B3 as [B3 B4]. specialize (E8 B3). rewrite E5 in E8. by rewrite E8 in B4.
      * apply wp_ret. split; [by eexists|done].
    + exfalso. destruct (env (CGetSecret (def_Namespace DefaultConnection) (def_SecretName DefaultConnection))
                              (vs_world s)) as [r w'] eqn:E.
      destruct (Hsec _ _ _ (proj1 Hs) E) as (sec & conn & _ & Hc & _). inversion Hc; congruence.
  - unfold resolveNamespaceSecret, readSecret. cbv zeta.
    destruct ((RaasURL _ =s? "") || _) eqn:Ei.
    + exfalso. destruct (env (CGetSecret (cfg_Namespace cfg) (CredentialsSecret (cfg_Spec cfg))) (vs_world s))
        as [r w'] eqn:E.
      destruct (Hsec _ _ _ (proj1 Hs) E) as (sec & conn & _ & Hc & Hcc).
      inversion Hc as [? _ E1 E2 _ _ _ _|]; subst; [|done]. apply complete_keys in Hcc as (Hu & Hm & _).
      rewrite E1 in Hu. rewrite E2 in Hm. by rewrite Hu, Hm in Ei.
    + apply wp_bind, wp_bind. hcall Hs. intros r w' E Hg Hs'.
      destruct (Hsec _ _ _ Hg E) as (sec & conn & -> & Hc & Hcc). apply wp_ret.
      inversion Hc as [? _ _ _ _ E3 E4 _|]; subst; [|done]. apply complete_keys in Hcc as (_ & _ & Hn & Hp).
      rewrite E3 in Hn. rewrite E4 in Hp. rewrite Hn, Hp. apply wp_ret. split; [by eexists|done].
Qed.

Lemma wp_client_holds vm s :
  holds vm s ->
  wp (saltClientFromConfig DefaultConnection cfg) s (fun r _ s' => (exists c, r = Ok c) /\ holds vm s').
Proof.
  intros Hs. unfold saltClientFromConfig. cbv zeta. apply wp_bind.
  eapply wp_mono. { refine ((_ : keeps_vm (cache_get _ _)) vm s Hs). unfold cache_get. kv_tac. }
  intros hit t s1 Hs1. destruct hit as [c|]; [apply wp_ret; by eauto|]. apply wp_bind.
  eapply wp_mono; [by apply wp_Resolve_holds|]. intros r t2 s2 [[conn ->] Hs2]. apply wp_bind.
  hcall Hs2. intros c w' E Hg Hs3. apply wp_bind.
  hcall Hs3. intros le w2 E2 Hg2 Hs4. rewrite (coop_login _ _ _ _ Hg2 E2).
  apply wp_bind. eapply wp_mono.
  { refine ((_ : keeps_vm (cache_set _ _ _)) vm _ Hs4). unfold cache_set. kv_tac. }
  intros [] t5 s5 Hs5. apply wp_ret. eauto.
Qed.

(** The finalizer is on, and nothing else changed. *)
Lemma wp_finalizer_holds vm s :
  holds vm s ->
  wp (addSaltFinalizer vm) s (fun a _ s' =>
    exists v, a = (v, None) /\ holds v s' /\ GetAnnotations v = GetAnnotations vm
      /\ vm_labels v = vm_labels vm /\ being_deleted v = being_deleted vm
      /\ (ContainsFinalizer (vm_finalizers v) saltFinalizer = true
          \/ vm_finalizers v = AddFinalizer (vm_finalizers vm) saltFinalizer)).
Proof.
  intros Hs. unfold addSaltFinalizer. destruct (ContainsFinalizer _ _) eqn:Ef; [apply wp_ret; exists vm; auto 7|].
  cbv zeta. apply wp_bind. wp_call. intros r w' E. pose proof Hs as (Hg & Hst & Hk).
  destruct (coop_patch _ _ _ _ _ _ Hg Hst Hk E) as (v & -> & Hpt & Hst'). apply wp_ret.
  set (m := set_finalizers (AddFinalizer (vm_finalizers vm) saltFinalizer) vm) in *.
  destruct Hpt as (rv & mf & ->). eexists. split; [done|]. split; [split; [by eapply coop_good|by split]|].
  split; [|split; [done|split; [done|]]].
  - change (GetAnnotations (merge_vm vm m vm) = GetAnnotations vm).
    apply map_eq. intros x. rewrite GetAnnotations_merge_vm. unfold merge_key. by case_decide.
  - right. simpl. case_decide as Ed; [|done]. exact Ed.
Qed.

End Served.

(** Cases of a program that keeps the VM, and calls with a known answer. *)
Ltac kv_tac :=
  repeat first
    [ apply keeps_vm_ret | apply keeps_vm_gets | apply keeps_vm_cache
    | match goal with |- keeps_vm _ _ _ (perform ?c) => exact (keeps_vm_perform _ _ _ _ _ c I) end
    | apply keeps_vm_bind; [|intros]
    | match goal with
      | |- keeps_vm _ _ _ (match ?x with _ => _ end) => destruct x
      | |- keeps_vm _ _ _ (let '_ := ?x in _) => destruct x
      end ].

Ltac hcall Hs := match goal with |- wp (perform ?c) ?s ?Q => eapply (wp_holds _ _ _ _ _ c _ s Q Hs I) end.

(** ** The chain *)

Section Liveness.
Context {W C : Type} `{GoUnicode} `{K8sLib} `{Env W C}.
Context (DefaultConnection : DefaultConn) (k : string * string) (stored : W -> option VM).
Context (cfg : SaltKeyConfig) (acceptedAt : Z) (good : W -> Prop).
Context `{!Cooperative DefaultConnection k stored cfg acceptedAt good}.

Abbreviation ctl := (M C (VMState W C)).
Abbreviation holds := (holds k stored good).
Abbreviation reconciles := (reconciles DefaultConnection k).

(** The stored VM is in phase [p]. *)
Definition at_phase (p : string) (s : VMState W C) : Prop :=
  exists vm, holds vm s /\ in_phase cfg acceptedAt p vm.

(** What a patch of the chain may set: not the annotations the chain starts from. *)
Definition chain_patch (l : list (string * string)) : bool :=
  forallb (fun x => match alist_get x l with None => true | Some _ => false end)
    [AnnotationManaged; AnnotationKeyStatus; AnnotationMinionID; AnnotationAcceptedAt].

Lemma in_phase_patch p p' vm v l :
  in_phase cfg acceptedAt p vm -> chain_patch l = true ->
  GetAnnotations v = maps_Copy (GetAnnotations vm) (anns l) -> vm_labels v = vm_labels vm ->
  being_deleted v = being_deleted vm ->
  alist_get AnnotationSaltStatus l = Some p' \/ (alist_get AnnotationSaltStatus l = None /\ p' = p) ->
  (p' = saltStatusHighstateDispatched ->
     (exists j, alist_get AnnotationHighstateJID l = Some j /\ j <> "")
     \/ (alist_get AnnotationHighstateJID l = None /\ p = saltStatusHighstateDispatched)) ->
  in_phase cfg acceptedAt p' v.
Proof.
  intros [] Hl Ha Hlab Hd Hs Hj.
  assert (forall x, ann v x = match alist_get x l with Some y => y | None => ann vm x end) as Hann.
  { intros x. unfold ann. by rewrite Ha, mget_maps_Copy, anns_lookup. }
  unfold chain_patch in Hl. cbn [forallb] in Hl. rewrite !andb_true_iff in Hl.
  destruct Hl as (H2 & H3 & H4 & H5 & _). constructor.
  - rewrite Hann. by destruct (alist_get AnnotationManaged l).
  - congruence.
  - unfold matchesVMSelector in *. by rewrite Hlab.
  - rewrite Hann. by destruct (alist_get AnnotationKeyStatus l).
  - rewrite Hann. by destruct (alist_get AnnotationMinionID l).
  - rewrite Hann. by destruct (alist_get AnnotationAcceptedAt l).
  - rewrite Hann. destruct Hs as [->|[-> ->]]; done.
  - intros E. destruct (Hj E) as [(j & Hjl & Hne)|[Hjl Ep]]; rewrite Hann, Hjl; auto.
Qed.

(** A patch of the chain, then the rest. *)
Lemma wp_chain_patch p p' vm l s (f : VM -> option error -> ctl outcome) Q :
  holds vm s -> in_phase cfg acceptedAt p vm -> chain_patch l = true ->
  alist_get AnnotationSaltStatus l = Some p' \/ (alist_get AnnotationSaltStatus l = None /\ p' = p) ->
  (p' = saltStatusHighstateDispatched ->
     (exists j, alist_get AnnotationHighstateJID l = Some j /\ j <> "")
     \/ (alist_get AnnotationHighstateJID l = None /\ p = saltStatusHighstateDispatched)) ->
  (forall v s', holds v s' -> in_phase cfg acceptedAt p' v -> wp (f v None) s' (fun o _ s2 => Q o s2)) ->
  wp ('(v, pe) ← patchAnnotations vm (anns l); f v pe) s (fun o _ s' => Q o s').
Proof.
  intros Hs Hp Hl Hst Hj Hf. apply wp_bind. eapply wp_mono; [by apply (wp_patch_holds DefaultConnection k stored cfg good)|].
  intros a t s' (v & -> & Hv & Ha & Hlab & Hd). eapply wp_mono.
  - apply (Hf v s' Hv). eapply in_phase_patch; eauto.
  - auto.
Qed.

(** The end of a successful step. *)
Lemma wp_event_done p v s t r m rq :
  holds v s -> in_phase cfg acceptedAt p v ->
  wp (Event v t r m ;; mret (Done rq) : ctl outcome) s (fun o _ s' => o = Done rq /\ at_phase p s').
Proof.
  intros Hs Hp. apply wp_bind. unfold Event. hcall Hs. intros [] w' E Hg Hs'. apply wp_ret.
  split; [done|]. by exists v.
Qed.

Ltac chain_step p p' Hs Hp :=
  match goal with |- wp (patchAnnotations ?vm (anns ?l) ≫= _) ?s _ =>
    refine (wp_chain_patch p p' vm l s _ _ Hs Hp eq_refl (or_introl eq_refl) _ _);
      [try done | intros; by apply wp_event_done] end.

Lemma keeps_vm_masterLastSeen c : keeps_vm k stored good (masterLastSeen c).
Proof. unfold masterLastSeen. kv_tac. Qed.

(** Clearing the preseeded key on the way to the first ping. *)
Lemma wp_clear_holds vm m s (f : VM -> option error -> ctl outcome) p Q :
  holds vm s -> in_phase cfg acceptedAt p vm ->
  (forall v s', holds v s' -> in_phase cfg acceptedAt p v -> wp (f v None) s' (fun o _ s2 => Q o s2)) ->
  wp ('(v, ce) ← clearPreseedKey vm m; f v ce) s (fun o _ s' => Q o s').
Proof.
  intros Hs Hp Hf. apply wp_bind. unfold clearPreseedKey.
  destruct (_ || _); [apply wp_ret; by apply Hf|]. unfold clearBootstrapKey. cbv zeta.
  apply wp_bind, wp_bind. hcall Hs. intros r w' E Hg Hs'. rewrite (coop_clear _ _ _ _ _ _ Hg E).
  apply wp_ret, wp_bind. eapply wp_mono; [by apply (wp_patch_holds DefaultConnection k stored cfg good)|].
  intros a t s2 (v & -> & Hv & Ha & Hlab & Hd). apply wp_bind. unfold Event. hcall Hv.
  intros [] w2 E2 Hg2 Hv2. apply wp_ret. eapply wp_mono; [apply (Hf v _ Hv2)|auto].
  refine (in_phase_patch p p vm v [(AnnotationKeyCleared, annotationTrue)] Hp eq_refl Ha Hlab Hd
            (or_intror (conj eq_refl eq_refl)) _). intros ->. by right.
Qed.

Lemma runPing_progress vm c rq s :
  holds vm s -> in_phase cfg acceptedAt "" vm ->
  wp (runPing vm c (ann vm AnnotationMinionID) rq) s (fun o _ s' => o = Done rq /\ at_phase "Pinged" s').
Proof.
  intros Hs Hp. unfold runPing. apply wp_bind.
  eapply wp_mono; [exact (keeps_vm_masterLastSeen c vm s Hs)|]. intros seen t s1 Hs1.
  apply wp_bind. hcall Hs1. intros now w' E Hg Hs2. apply wp_bind. hcall Hs2. intros r w2 E2 Hg2 Hs3.
  rewrite (coop_ping _ _ _ _ _ Hg2 E2). cbn [step_failed negb].
  eapply wp_clear_holds; [done|done|]. intros v s4 Hv Hpv. chain_step "" "Pinged" Hv Hpv.
Qed.

Lemma runRefreshPillar_progress vm c rq s :
  holds vm s -> in_phase cfg acceptedAt "Pinged" vm ->
  wp (runRefreshPillar vm c (ann vm AnnotationMinionID) rq) s
     (fun o _ s' => o = Done rq /\ at_phase "PillarRefreshed" s').
Proof.
  intros Hs Hp. unfold runRefreshPillar. apply wp_bind.
  eapply wp_mono; [exact (keeps_vm_masterLastSeen c vm s Hs)|]. intros seen t s1 Hs1.
  apply wp_bind. hcall Hs1. intros now w' E Hg Hs2. apply wp_bind. hcall Hs2. intros r w2 E2 Hg2 Hs3.
  rewrite (coop_refresh _ _ _ _ _ Hg2 E2). cbn [step_failed negb].
  chain_step "Pinged" "PillarRefreshed" Hs3 Hp.
Qed.

Lemma runDispatchHighstate_progress vm c rq s :
  holds vm s -> in_phase cfg acceptedAt "PillarRefreshed" vm ->
  wp (runDispatchHighstate vm c (ann vm AnnotationMinionID) rq) s
     (fun o _ s' => o = Done rq /\ at_phase saltStatusHighstateDispatched s').
Proof.
  intros Hs Hp. unfold runDispatchHighstate. apply wp_bind. hcall Hs. intros r w' E Hg Hs1.
  destruct (coop_highstate _ _ _ _ _ Hg E) as (j & -> & Hj). cbv zeta.
  chain_step "PillarRefreshed" saltStatusHighstateDispatched Hs1 Hp. intros _. left. exists j. by split.
Qed.

Lemma runPollHighstate_progress vm c rq s :
  holds vm s -> in_phase cfg acceptedAt saltStatusHighstateDispatched vm ->
  wp (runPollHighstate vm c (ann vm AnnotationMinionID) (ann vm AnnotationHighstateJID) rq) s
     (fun o _ s' => o = Done rq /\ at_phase saltStatusReady s').
Proof.
  intros Hs Hp. unfold runPollHighstate. pose proof (ph_job _ _ _ _ Hp eq_refl) as Hj.
  apply String.eqb_neq in Hj. rewrite Hj. apply wp_bind. hcall Hs. intros r w' E Hg Hs1.
  destruct (coop_poll _ _ _ _ _ _ Hg E) as (result & -> & Hok). apply wp_bind. hcall Hs1.
  intros now w2 E2 Hg2 Hs2. cbv zeta. rewrite Hok.
  chain_step saltStatusHighstateDispatched saltStatusReady Hs2 Hp.
Qed.

(** ** Lemmas: a whole reconcile *)

(** The post-accept delay is over. *)
Lemma delay_over now : acceptedAt + postAcceptDelay <= now -> wrap64 (postAcceptDelay - Sub now acceptedAt) <= 0.
Proof.
  intros Hn. assert (postAcceptDelay = 30000000000) as E by reflexivity. rewrite E in *.
  rewrite wrap64_id; unfold Sub, int64_min, int64_max; lia.
Qed.

Lemma chain_progress p vm c rq s :
  p ∈ running_phases -> holds vm s -> in_phase cfg acceptedAt p vm ->
  wp (reconcilePostAccept vm c cfg (ann vm AnnotationMinionID) rq) s
     (fun o _ s' => o = Done rq /\ at_phase (next_phase p) s').
Proof.
  intros Hin Hs Hp. unfold reconcilePostAccept. pose proof (ph_minion _ _ _ _ Hp) as Hm.
  apply String.eqb_neq in Hm. rewrite Hm. cbv zeta. rewrite (ph_status _ _ _ _ Hp).
  unfold running_phases in Hin. rewrite !elem_of_cons in Hin.
  destruct Hin as [->|[->|[->|[->|Hin]]]]; [..|by apply not_elem_of_nil in Hin]; closed_eqb; cbv iota.
  - rewrite (ph_time _ _ _ _ Hp). apply wp_bind. unfold Since. apply wp_bind, wp_bind. hcall Hs.
    intros now w' E Hg Hs1. apply wp_ret, wp_ret. pose proof (coop_clock _ _ _ Hg E) as Hn.
    apply delay_over in Hn. apply Z.ltb_ge in Hn. rewrite Hn. by apply runPing_progress.
  - by apply runRefreshPillar_progress.
  - by apply runDispatchHighstate_progress.
  - by apply runPollHighstate_progress.
Qed.

(** Adding the finalizer keeps the phase. *)
Lemma wp_finalizer_phase p vm s (f : VM -> option error -> ctl outcome) Q :
  holds vm s -> in_phase cfg acceptedAt p vm ->
  (forall v s', holds v s' -> in_phase cfg acceptedAt p v -> wp (f v None) s' (fun o _ s2 => Q o s2)) ->
  wp ('(v, fe) ← addSaltFinalizer vm; f v fe) s (fun o _ s' => Q o s').
Proof.
  intros Hs Hp Hf. apply wp_bind.
  eapply wp_mono; [by apply (wp_finalizer_holds DefaultConnection k stored cfg good)|].
  intros a t s' (v & -> & Hv & Ha & Hlab & Hd & _). eapply wp_mono; [apply Hf; [exact Hv|]|auto].
  destruct Hp. constructor; unfold ann, matchesVMSelector in *; rewrite ?Ha, ?Hlab, ?Hd; done.
Qed.

Lemma reconcileCreate_progress p vm s :
  p ∈ running_phases -> holds vm s -> in_phase cfg acceptedAt p vm ->
  wp (reconcileCreate DefaultConnection vm cfg) s
     (fun o _ s' => (exists rq, o = Done rq) /\ at_phase (next_phase p) s').
Proof.
  intros Hin Hs Hp. unfold reconcileCreate. cbv zeta. apply wp_bind.
  eapply wp_mono; [exact (keeps_vm_sinceVSphereCreate DefaultConnection k stored cfg good vm vm s Hs)|]. intros [el cr] t s1 Hs1.
  assert (forall v s' tO x y, holds v s' -> in_phase cfg acceptedAt p v ->
    wp (if ann v AnnotationKeyStatus <>s? keyStatusAccepted
        then reconcileKey DefaultConnection v cfg tO x y
        else reconcileAccepted DefaultConnection v cfg y) s'
       (fun o _ s2 => (exists rq, o = Done rq) /\ at_phase (next_phase p) s2)) as Hrest.
  { intros v s' tO x y Hv Hpv. rewrite (ph_accepted _ _ _ _ Hpv), String.eqb_refl. cbn [negb].
    unfold reconcileAccepted.
    refine (wp_finalizer_phase p v s' _ (fun o s2 => (exists rq, o = Done rq) /\ at_phase (next_phase p) s2) Hv Hpv _).
    intros v2 s2 Hv2 Hp2. apply wp_bind. eapply wp_mono; [by apply (wp_client_holds DefaultConnection k stored cfg good)|].
    intros r t3 s3 [[c ->] Hs3]. eapply wp_mono; [by apply chain_progress|]. intros o t4 s4 [-> Hph]. eauto. }
  destruct (guestSignalled vm); [|destruct (_ && _)].
  - refine (wp_clear_holds vm _ s1 _ p (fun o s2 => (exists rq, o = Done rq) /\ at_phase (next_phase p) s2) Hs1 Hp _).
    intros. by apply Hrest.
  - refine (wp_clear_holds vm _ s1 _ p (fun o s2 => (exists rq, o = Done rq) /\ at_phase (next_phase p) s2) Hs1 Hp _).
    intros. by apply Hrest.
  - apply wp_bind, wp_ret. eapply wp_mono; [by apply Hrest|]. auto.
Qed.

Lemma Reconcile_progress p s :
  p ∈ running_phases -> at_phase p s ->
  wp (Reconcile DefaultConnection k.1 k.2) s
     (fun o _ s' => (exists rq, o = Done rq) /\ at_phase (next_phase p) s').
Proof.
  intros Hin (vm & Hs & Hp). unfold Reconcile. apply wp_bind. hcall Hs. intros r w' E Hg Hs1.
  rewrite (coop_get _ _ _ _ Hg E (proj1 (proj2 Hs))). rewrite (ph_managed _ _ _ _ Hp), String.eqb_refl. cbn [negb].
  apply wp_bind. unfold findSaltKeyConfig. apply wp_bind. hcall Hs1. intros r2 w2 E2 Hg2 Hs2.
  destruct (coop_config _ _ _ Hg2 E2) as (l & -> & Hpick). apply wp_ret. rewrite Hpick.
  rewrite (ph_live _ _ _ _ Hp), (ph_selected _ _ _ _ Hp). cbn [negb].
  eapply wp_mono; [by apply reconcileCreate_progress|]. auto.
Qed.

Lemma reconciles_step p s :
  p ∈ running_phases -> at_phase p s ->
  forall n, reconciles (S n) s = reconciles n (snd (Reconcile DefaultConnection k.1 k.2 s))
  /\ at_phase (next_phase p) (snd (Reconcile DefaultConnection k.1 k.2 s)).
Proof.
  intros Hin Hp n. pose proof (Reconcile_progress p s Hin Hp) as Hw. simpl. unfold wp in Hw.
  destruct (Reconcile DefaultConnection k.1 k.2 s) as [[o t] s']. by destruct Hw.
Qed.

Lemma reconciles_to_ready n p :
  p ∈ running_phases ->
  (forall s, at_phase (next_phase p) s -> at_phase saltStatusReady (reconciles n s)) ->
  forall s, at_phase p s -> at_phase saltStatusReady (reconciles (S n) s).
Proof.
  intros Hin Hn s Hp. destruct (reconciles_step p s Hin Hp n) as [-> Hnext]. by apply Hn.
Qed.

Lemma reaches_ready p s :
  p ∈ running_phases -> at_phase p s -> exists n, (n <= 4)%nat /\ at_phase saltStatusReady (reconciles n s).
Proof.
  intros Hin Hp.
  pose proof (reconciles_to_ready 0 saltStatusHighstateDispatched ltac:(decided) (fun s' Hs' => Hs')) as H1'.
  pose proof (reconciles_to_ready 1 "PillarRefreshed" ltac:(decided) H1') as H2'.
  pose proof (reconciles_to_ready 2 "Pinged" ltac:(decided) H2') as H3'.
  pose proof (reconciles_to_ready 3 "" ltac:(decided) H3') as H4'.
  unfold running_phases in Hin. rewrite !elem_of_cons in Hin.
  destruct Hin as [->|[->|[->|[->|Hin]]]]; [..|by apply not_elem_of_nil in Hin].
  - exists 4%nat. split; [lia|auto].
  - exists 3%nat. split; [lia|auto].
  - exists 2%nat. split; [lia|auto].
  - exists 1%nat. split; [lia|auto].
Qed.

(** C4: When the API server, RaaS and the minion answer, a VM with an accepted key becomes Ready: each
    reconcile takes it to the next phase of the chain and asks to be run again, and four of them
    at most bring it from any phase of the chain to Ready. *)
Theorem accepted_vm_becomes_ready p s :
  p ∈ running_phases -> at_phase p s ->
  wp (Reconcile DefaultConnection k.1 k.2) s
     (fun o _ s' => (exists rq, o = Done rq) /\ at_phase (next_phase p) s')
  /\ exists n, (n <= 4)%nat /\ at_phase saltStatusReady (reconciles n s).
Proof. intros Hin Hp. split; [by apply Reconcile_progress|by apply (reaches_ready p)]. Qed.

End Liveness.

(** ** Witness: the concrete server, with everything but the VM frozen *)

Section Witness.
#[local] Existing Instances ascii_only reference_lib.

(** The server, where nothing changes but the VMs the operator writes. *)
Definition frozen : Env World Handle := fun c w => let '(r, w') := serve c w in (r, set_vms (w_vms w') w).
#[local] Existing Instance frozen.

Definition no_connection : DefaultConn := {| def_Namespace := ""; def_SecretName := "" |}.
Definition demo_key : string * string := ("team", "vm-a").
Definition demo_cfg : SaltKeyConfig := demo_config_with demo_spec.

(** The demo world at a time [clock] admits, with the VM live. *)
Definition demo_good (clock : Z -> Prop) (w : World) : Prop :=
  w_answers w = all_well /\ w_configs w = [demo_cfg] /\ w_secrets w = [demo_secret] /\ clock (w_now w)
  /\ forall v, stored_at demo_key w = Some v -> vm_deletionTimestamp v = None.

Lemma frozen_vms (c : call Handle) w r w' :
  env c w = (r, w') -> match c with CPatchVM _ _ => False | _ => True end -> w_vms w' = w_vms w.
Proof.
  unfold env, frozen. intros E Hc.
  destruct c; try done; simpl in E; unfold patch_config in E; repeat case_match; simplify_eq/=; done.
Qed.

Lemma frozen_patch b m w r w' :
  env (CPatchVM b m) w = (r, w') ->
  match find_vm (vm_key b) (w_vms w) with
  | None => w_vms w' = w_vms w
  | Some cur => r = Ok (merge_vm b m cur) /\ w_vms w' = put_vm (vm_key b) (merge_vm b m cur) (w_vms w)
  end.
Proof. unfold env, frozen. simpl. intros E. repeat case_match; simplify_eq/=; done. Qed.

Lemma frozen_rest (c : call Handle) w r w' :
  env c w = (r, w') ->
  w_answers w' = w_answers w /\ w_configs w' = w_configs w /\ w_secrets w' = w_secrets w /\ w_now w' = w_now w.
Proof.
  unfold env, frozen. intros E.
  destruct c; simpl in E; unfold patch_config in E; repeat case_match; simplify_eq/=; done.
Qed.

Lemma put_vm_live k v l :
  vm_key v = k -> is_Some (find_vm k l) -> vm_deletionTimestamp v = None -> find_vm k (put_vm k v l) = Some v.
Proof.
  intros Hk Hs Hd. destruct (find_put_vm k v l Hk Hs) as [Hn|]; [|done].
  exfalso. unfold put_vm in Hn. assert (finalized v = false) as Hf by (unfold finalized; by rewrite Hd).
  rewrite Hf in Hn. clear Hf. unfold find_vm in *. induction l as [|x l IH]; simpl in *; [by destruct Hs|].
  case_decide as E; simpl in Hn.
  - by rewrite bool_decide_eq_true_2 in Hn.
  - rewrite (bool_decide_eq_false_2 _ E) in Hn, Hs. auto.
Qed.

Lemma frozen_answer (c : call Handle) w r w' : env c w = (r, w') -> r = fst (serve c w).
Proof. intros E. unfold env, frozen in E. by destruct (serve c w); simplify_eq. Qed.

Lemma demo_serving clock : Serving no_connection demo_key (stored_at demo_key) demo_cfg (demo_good clock).
Proof.
  assert (forall (c : call Handle) w r w', demo_good clock w -> env c w = (r, w') -> demo_good clock w') as Hgood.
  { intros c w r w' (Ha & Hc & Hs & Hn & Hv) E. destruct (frozen_rest _ _ _ _ E) as (E1 & E2 & E3 & E4).
    unfold demo_good. rewrite E1, E2, E3, E4. repeat split; try done. unfold stored_at in *.
    assert (match c with CPatchVM _ _ => False | _ => True end ->
            forall v, find_vm demo_key (w_vms w') = Some v -> vm_deletionTimestamp v = None) as Ho.
    { intros Hcc. rewrite (frozen_vms _ _ _ _ E Hcc). exact Hv. }
    destruct c; try (by apply Ho). clear Ho. apply frozen_patch in E.
    destruct (find_vm (vm_key base) (w_vms w)) as [cur|] eqn:Ef; [|by rewrite E].
    destruct E as [_ ->]. pose proof (find_vm_key _ _ _ Ef) as Hk.
    destruct (decide (demo_key = vm_key base)) as [Ek|Hne].
    - rewrite <- Ek in *. rewrite (put_vm_live demo_key (merge_vm base modified cur)); [|exact Hk|by eexists|exact (Hv cur Ef)].
      intros v [= <-]. exact (Hv cur Ef).
    - rewrite find_put_vm_other by done. exact Hv. }
  constructor; [exact Hgood|..].
  - intros c w r w' _ E Hc. unfold stored_at. by rewrite (frozen_vms _ _ _ _ E Hc).
  - intros w r w' v _ ->%frozen_answer Hv. unfold stored_at in Hv. cbn [serve fst].
    change (demo_key.1, demo_key.2) with demo_key. by rewrite Hv.
  - intros b m w r w' cur (_ & _ & _ & _ & Hv) Hcur Hb E. apply frozen_patch in E. unfold stored_at in *.
    rewrite Hb, Hcur in E. destruct E as [-> ->]. exists (merge_vm b m cur). split; [done|].
    split; [by exists (vm_resourceVersion cur), (vm_managedFields cur)|].
    apply put_vm_live; [|by eexists|exact (Hv cur Hcur)]. exact (find_vm_key _ _ _ Hcur).
  - intros w r w' (_ & Hc & _) ->%frozen_answer. simpl. rewrite Hc. by exists [demo_cfg].
  - intros w r w' (_ & _ & Hs & _) ->%frozen_answer. simpl. rewrite Hs.
    exists demo_secret. eexists {| conn_URL := _; conn_MasterID := _; conn_Username := _; conn_Password := _;
                                   conn_SkipTLSVerify := _; conn_Source := _ |}.
    split; [by vm_compute|]. split; [apply connects_own; [by vm_compute|reflexivity..]|].
    unfold complete_conn. simpl. split; [done|]. split; [done|]. by vm_compute.
  - intros c w r w' (Ha & _) ->%frozen_answer. simpl. by rewrite Ha.
  - intros ns n d w r w' _ ->%frozen_answer. simpl. by case_match.
Qed.

Lemma demo_cooperative latest acceptedAt : acceptedAt <= latest ->
  Cooperative no_connection demo_key (stored_at demo_key) demo_cfg acceptedAt
    (demo_good (fun now => latest + postAcceptDelay <= now)).
Proof.
  intros Hl. constructor; [apply demo_serving|..].
  - intros w r w' (_ & _ & _ & Hn & _) ->%frozen_answer. simpl in *. lia.
  - intros c m w r w' (Ha & _) ->%frozen_answer. simpl. by rewrite Ha.
  - intros c m w r w' (Ha & _) ->%frozen_answer. simpl. by rewrite Ha.
  - intros c m w r w' (Ha & _) ->%frozen_answer. simpl. rewrite Ha. simpl. by eexists.
  - intros c m j w r w' (Ha & _) ->%frozen_answer. simpl. rewrite Ha. simpl. by eexists.
Qed.
(** The demo VM, accepted a minute ago. *)
Definition accepted_vm : VM :=
  demo_vm [(AnnotationManaged, "true"); (AnnotationKeyStatus, "Accepted"); (AnnotationMinionID, "vm-a");
           (AnnotationAcceptedAt, "2026-01-01T00:00:00Z")].

Definition accepted_state : VMState World Handle :=
  {| vs_world := set_now (demo_now + Minute) (demo_world demo_cfg [accepted_vm] all_well); vs_cache := ∅ |}.

(** C4 at the accepted demo VM. *)
Lemma accepted_vm_becomes_ready_witness :
  exists n, (n <= 4)%nat
    /\ at_phase demo_key (stored_at demo_key) demo_cfg demo_now (demo_good (fun now => demo_now + postAcceptDelay <= now))
         saltStatusReady (reconciles no_connection demo_key n accepted_state).
Proof.
  pose proof (demo_cooperative demo_now demo_now (Z.le_refl _)) as Hcoop.
  refine (proj2 (accepted_vm_becomes_ready no_connection demo_key (stored_at demo_key) demo_cfg demo_now
            (demo_good (fun now => demo_now + postAcceptDelay <= now)) "" accepted_state _ _)); [decided|].
  exists accepted_vm. split.
  - split; [|by split]. repeat split; [vm_compute; discriminate|]. intros v [= <-]. reflexivity.
  - constructor; try (vm_compute; reflexivity); by vm_compute.
Defined.

End Witness.
