(* ===== verification/VMArrival.v ===== *)
(** * From a pending key to Ready

    Liveness from the arrival of a VM on: when its key is pending and the
    master accepts it, one reconcile accepts the key, and the reconciles of
    [VMLiveness] after the post-accept delay take the VM to Ready. *)

From S2P Require Import Prelude GoStrings GoTime Matcher Api Effects RaasConn.
From S2P Require Import Server IntentHash VMController Cluster VMBehaviour VMLiveness.

Local Open Scope Z_scope.

(** A running VM that waits for its key: not accepted yet, and not given up with a preseeded key. *)
Record awaits_key `{K8sLib} (cfg : SaltKeyConfig) (vm : VM) : Prop := {
  aw_managed : ann vm AnnotationManaged = annotationTrue;
  aw_live : being_deleted vm = false;
  aw_selected : matchesVMSelector cfg vm = true;
  aw_status : ann vm AnnotationKeyStatus = "" \/ ann vm AnnotationKeyStatus = keyStatusFailed;
  aw_method : ann vm AnnotationMatchMethod <> matchMethodPreseed;
  aw_chain : ann vm AnnotationSaltStatus = "";
  aw_running : (vm_phase vm =s? "Running") || (vm_powerState vm =s? "PoweredOn") = true;
  aw_ip : vm_primaryIP4 vm <> "";
}.

Section Arrival.
Context {W C : Type} `{GoUnicode} `{K8sLib} `{!K8sLibLaws} `{Env W C}.
Context (DefaultConnection : DefaultConn) (k : string * string) (stored : W -> option VM).
Context (cfg : SaltKeyConfig) (pending : list string) (latest : Z) (good : W -> Prop).
Context `{!Accepting DefaultConnection k stored cfg pending latest good}.
Hypothesis discovery : KeyAcceptance (cfg_Spec cfg) <> KeyAcceptancePreseed.

Abbreviation ctl := (M C (VMState W C)).
Abbreviation holds := (holds k stored good).

(** ** One reconcile accepts the key *)

(** The VM after the acceptance of the pending key that matches [vm]. *)
Definition key_accepted (vm : VM) (s : VMState W C) : Prop :=
  exists v acceptedAt, holds v s /\ in_phase cfg acceptedAt "" v /\ acceptedAt <= latest
    /\ ann v AnnotationMinionID = MinionID (FindMinionID (vm_name vm) (vm_primaryIP4 vm) pending)
    /\ saltFinalizer ∈ vm_finalizers v.

Lemma wp_event_accepted vm v s t r m rq :
  holds v s -> key_accepted vm s -> wp (Event v t r m ;; mret (Done rq) : ctl outcome) s
    (fun o _ s' => o = Done rq /\ key_accepted vm s').
Proof.
  intros Hs (v' & at_ & Hv' & ?). apply wp_bind. unfold Event. hcall Hv'. intros [] w' E Hg Hs'. apply wp_ret.
  split; [done|]. by exists v', at_.
Qed.

Lemma has_finalizer vm v :
  ContainsFinalizer (vm_finalizers v) saltFinalizer = true
  \/ vm_finalizers v = AddFinalizer (vm_finalizers vm) saltFinalizer -> saltFinalizer ∈ vm_finalizers v.
Proof. intros [Hc| ->]; [by apply contains_finalizer|]. apply add_finalizer. by right. Qed.

Lemma runAcceptKey_accepts vm c ip timeout rq s :
  holds vm s -> awaits_key cfg vm -> ip = vm_primaryIP4 vm -> vm_name vm <> "" ->
  Method (FindMinionID (vm_name vm) ip pending) <> MatchNone ->
  wp (runAcceptKey vm c ip timeout rq) s (fun o _ s' => o = Done rq /\ key_accepted vm s').
Proof.
  intros Hs Ha -> Hname Hmatch. unfold runAcceptKey. apply wp_bind. hcall Hs. intros r w1 E1 Hg1 Hs1.
  rewrite (acc_pending _ _ _ _ Hg1 E1). cbv zeta. rewrite bool_decide_eq_false_2 by done. cbn [negb].
  apply wp_bind. hcall Hs1. intros ae w2 E2 Hg2 Hs2. rewrite (acc_accept _ _ _ _ _ Hg2 E2).
  apply wp_bind. hcall Hs2. intros now w3 E3 Hg3 Hs3. destruct (acc_clock _ _ _ Hg3 E3) as [Hy Hl].
  apply wp_bind. eapply wp_mono; [by apply (wp_patch_holds DefaultConnection k stored cfg good)|].
  intros a t s4 (v & -> & Hv & Hav & Hlab & Hdel).
  apply wp_bind. eapply wp_mono; [by apply (wp_finalizer_holds DefaultConnection k stored cfg good)|].
  intros a t' s5 (v2 & -> & Hv2 & Hav2 & Hlab2 & Hdel2 & Hfin).
  eapply wp_mono; [apply (wp_event_accepted vm v2 s5); [exact Hv2|]|auto].
  assert (forall x, ann v2 x = match alist_get x
      [(AnnotationKeyStatus, keyStatusAccepted);
       (AnnotationMinionID, MinionID (FindMinionID (vm_name vm) (vm_primaryIP4 vm) pending));
       (AnnotationMatchMethod, method_string (Method (FindMinionID (vm_name vm) (vm_primaryIP4 vm) pending)));
       (AnnotationAcceptedAt, FormatRFC3339 now)] with Some y => y | None => ann vm x end) as Hann.
  { intros x. unfold ann. by rewrite Hav2, Hav, mget_maps_Copy, anns_lookup. }
  apply FindMinionID_matches in Hmatch as [_ Hkm]. destruct Ha.
  exists v2, (now - now `mod` Second). split; [exact Hv2|]. split; [|split; [|split]].
  - constructor; [..|done]; rewrite ?Hann; try done; try congruence.
    + unfold matchesVMSelector in *. by rewrite Hlab2, Hlab.
    + by eapply key_matches_nonempty.
    + by apply ParseRFC3339_Format.
  - assert (0 < Second) by done. pose proof (Z.mod_pos_bound now Second). lia.
  - by rewrite Hann.
  - by eapply has_finalizer.
Qed.

Lemma reconcileKey_accepts vm timedOut timeout rq s :
  holds vm s -> awaits_key cfg vm -> vm_name vm <> "" ->
  Method (FindMinionID (vm_name vm) (vm_primaryIP4 vm) pending) <> MatchNone ->
  wp (reconcileKey DefaultConnection vm cfg timedOut timeout rq) s (fun o _ s' => o = Done rq /\ key_accepted vm s').
Proof.
  intros Hs Ha Hname Hmatch. unfold reconcileKey. pose proof Ha as [Hm Hl Hsel Hst Hme Hch Hrun Hip].
  apply String.eqb_neq in Hme, Hip. rewrite Hme, andb_false_r, Hrun, Hip. cbn [negb orb].
  apply String.eqb_neq in discovery as Hd. rewrite Hd. cbn [andb].
  replace (ann vm AnnotationKeyStatus =s? keyStatusPreseeded) with false by (by destruct Hst as [-> | ->]).
  cbn [andb]. apply wp_bind. eapply wp_mono; [by apply (wp_client_holds DefaultConnection k stored cfg good)|].
  intros r t s1 [[c ->] Hs1]. eapply wp_mono; [by apply runAcceptKey_accepts|]. auto.
Qed.

Lemma Reconcile_accepts vm s :
  holds vm s -> awaits_key cfg vm -> vm_name vm <> "" ->
  Method (FindMinionID (vm_name vm) (vm_primaryIP4 vm) pending) <> MatchNone ->
  wp (Reconcile DefaultConnection k.1 k.2) s (fun o _ s' => (exists rq, o = Done rq) /\ key_accepted vm s').
Proof.
  intros Hs Ha Hname Hmatch. unfold Reconcile. apply wp_bind. hcall Hs. intros r w' E Hg Hs1.
  rewrite (coop_get _ _ _ _ Hg E (proj1 (proj2 Hs))). pose proof Ha as [Hm Hl Hsel Hst Hme Hch Hrun Hip].
  rewrite Hm, String.eqb_refl. cbn [negb].
  apply wp_bind. unfold findSaltKeyConfig. apply wp_bind. hcall Hs1. intros r2 w2 E2 Hg2 Hs2.
  destruct (coop_config _ _ _ Hg2 E2) as (l & -> & Hpick). apply wp_ret. rewrite Hpick, Hl, Hsel. cbn [negb].
  unfold reconcileCreate. cbv zeta. apply wp_bind.
  eapply wp_mono; [exact (keeps_vm_sinceVSphereCreate DefaultConnection k stored cfg good vm vm _ Hs2)|].
  intros [el cr] t s3 Hs3. rewrite !clearPreseedKey_settled by done.
  apply wp_bind. refine (wp_mono _ _ (fun a _ s' => a = (vm, None) /\ holds vm s') _ _ _).
  { destruct (guestSignalled vm); [|destruct (_ && _)]; by apply wp_ret. }
  intros a t3 s4 [-> Hs4]. replace (ann vm AnnotationKeyStatus =s? keyStatusAccepted) with false by (by destruct Hst as [-> | ->]).
  cbn [negb]. eapply wp_mono; [by apply reconcileKey_accepts|]. intros o t4 s5 [-> Hacc]. eauto.
Qed.

(** ** And then it becomes Ready *)

(* A world after the post-accept delay, where the minion answers. *)
Context (later : W -> Prop).
Context (answering : forall acceptedAt, acceptedAt <= latest ->
           Cooperative DefaultConnection k stored cfg acceptedAt later).

(** C5: From arrival to Ready. When the API server, RaaS and the minion answer, a running VM whose key is
    pending has it accepted by one reconcile, with the cleanup finalizer on; and once the
    post-accept delay is over, at most four more reconciles take it to Ready. *)
Theorem pending_vm_becomes_ready vm s :
  holds vm s -> awaits_key cfg vm -> vm_name vm <> "" ->
  Method (FindMinionID (vm_name vm) (vm_primaryIP4 vm) pending) <> MatchNone ->
  wp (Reconcile DefaultConnection k.1 k.2) s (fun o _ s1 =>
    (exists rq, o = Done rq) /\ key_accepted vm s1
    /\ exists acceptedAt, acceptedAt <= latest
       /\ forall w', stored w' = stored (vs_world s1) -> later w' ->
            exists n, (n <= 4)%nat
              /\ at_phase k stored cfg acceptedAt later saltStatusReady
                   (reconciles DefaultConnection k n (set_world w' s1))).
Proof.
  intros Hs Ha Hname Hmatch. eapply wp_mono; [by apply Reconcile_accepts|].
  intros o t s1 [Ho Hacc]. split; [done|]. split; [done|].
  destruct Hacc as (v & acceptedAt & (_ & Hst & Hk) & Hp & Hl & _). exists acceptedAt. split; [done|].
  intros w' Hw Hlater. pose proof (answering acceptedAt Hl) as Hcoop.
  apply (reaches_ready DefaultConnection k stored cfg acceptedAt later ""); [decided|].
  exists v. split; [|exact Hp]. split; [exact Hlater|]. split; [|exact Hk]. simpl. by rewrite Hw.
Qed.

End Arrival.

(** ** Witness: the demo VM from its creation *)

Section Witness.
#[local] Existing Instances ascii_only reference_lib reference_laws frozen.

Definition in_time (now : Z) : Prop := rfc3339_year now = true /\ now <= demo_now.

Lemma demo_accepting :
  Accepting no_connection demo_key (stored_at demo_key) demo_cfg ["vm-a"] demo_now (demo_good in_time).
Proof.
  constructor; [apply demo_serving|..].
  - intros c w r w' (Ha & _) ->%frozen_answer. simpl. by rewrite Ha.
  - intros c m w r w' (Ha & _) ->%frozen_answer. simpl. by rewrite Ha.
  - intros w r w' (_ & _ & _ & Hn & _) ->%frozen_answer. exact Hn.
Qed.

Definition new_vm : VM := demo_vm [(AnnotationManaged, "true")].

Definition new_state : VMState World Handle :=
  {| vs_world := demo_world demo_cfg [new_vm] all_well; vs_cache := ∅ |}.

(** A minute after the first reconcile. *)
Definition accepted_later : VMState World Handle :=
  let s1 := (Reconcile no_connection "team" "vm-a" new_state).2 in
  set_world (set_now (demo_now + Minute) (vs_world s1)) s1.

(** C5 at a VM that was just created. *)
Lemma pending_vm_becomes_ready_witness :
  exists acceptedAt n, (n <= 4)%nat
    /\ at_phase demo_key (stored_at demo_key) demo_cfg acceptedAt
         (demo_good (fun now => demo_now + postAcceptDelay <= now)) saltStatusReady
         (reconciles no_connection demo_key n accepted_later).
Proof.
  pose proof demo_accepting as Hacc.
  assert (wp (Reconcile no_connection "team" "vm-a") new_state (fun o _ s1 =>
    (exists rq, o = Done rq) /\ key_accepted demo_key (stored_at demo_key) demo_cfg ["vm-a"] demo_now (demo_good in_time) new_vm s1
    /\ exists acceptedAt, acceptedAt <= demo_now
       /\ forall w', stored_at demo_key w' = stored_at demo_key (vs_world s1) ->
            demo_good (fun now => demo_now + postAcceptDelay <= now) w' ->
            exists n, (n <= 4)%nat
              /\ at_phase demo_key (stored_at demo_key) demo_cfg acceptedAt
                   (demo_good (fun now => demo_now + postAcceptDelay <= now)) saltStatusReady
                   (reconciles no_connection demo_key n (set_world w' s1)))) as Hw.
  { refine (pending_vm_becomes_ready no_connection demo_key (stored_at demo_key) demo_cfg ["vm-a"] demo_now
              (demo_good in_time) _ (demo_good (fun now => demo_now + postAcceptDelay <= now))
              (fun t Ht => demo_cooperative demo_now t Ht) new_vm new_state _ _ _ _).
    - vm_compute. discriminate.
    - split; [|by split]. repeat split; try (vm_compute; reflexivity); [vm_compute; discriminate|].
      intros v [= <-]. reflexivity.
    - constructor; try (vm_compute; reflexivity); [by left|..]; vm_compute; discriminate.
    - discriminate.
    - vm_compute. discriminate. }
  apply wp_result in Hw as (_ & _ & acceptedAt & _ & Hr). exists acceptedAt. apply Hr.
  - vm_compute. reflexivity.
  - repeat split; try (vm_compute; reflexivity); [vm_compute; discriminate|].
    intros v Hv. vm_compute in Hv. injection Hv as <-. reflexivity.
Defined.

End Witness.
