(* ===== verification/VMCache.v ===== *)
(** * The cache of logged-in Salt clients

    The clients a reconcile uses: every Salt call goes through a client that
    logged in, in this reconcile or when the cache entry was made, and a
    cached client is only used for the revision of the SaltKeyConfig it was
    made for and within its time to live. *)

From S2P Require Import Prelude GoStrings GoTime Matcher Api Effects RaasConn.
From S2P Require Import Server IntentHash VMController.

Local Open Scope Z_scope.

(** ** The login monitor *)

(** The client a Salt call goes through. *)
Definition client_of {C} (c : call C) : option C :=
  match c with
  | CListPendingKeys c | CListAcceptedKeys c | CAcceptKey c _ | CDeleteKey c _ | CTestPing c _
  | CRefreshPillar c _ | CDispatchHighstate c _ | CPollJID c _ _ | CMasterLastSeen c | CKeyStates c _
  | CGenAcceptKey c _ _ | CMasterPublicKey c => Some c
  | _ => None
  end.

(** The client a successful login makes usable. *)
Definition logged_by {C} (o : obs C) : option C :=
  match o with
  | existT c r =>
      match c as c0 return resp c0 -> option C with
      | CLogin c => fun r => match r with None => Some c | Some _ => None end
      | _ => fun _ => None
      end r
  end.

Definition cache_clients {W C} (s : VMState W C) : list C :=
  (fun p => ce_client (snd p)) <$> map_to_list (vs_cache s).

Section Monitor.
Context {C : Type} `{EqDecision C}.

Definition login_step (l : list C) (o : obs C) : option (list C) :=
  match client_of (obs_of o) with
  | Some c => if decide (c ∈ l) then Some l else None
  | None => match logged_by o with Some c => Some (c :: l) | None => Some l end
  end.

Lemma monitor_logged l (t : list (obs C)) l' c :
  monitor login_step l t = Some l' -> c ∈ l' -> c ∈ l \/ Obs (CLogin c) None ∈ t.
Proof.
  revert l. induction t as [|o t IH]; intros l Hm Hc; simpl in Hm; [simplify_eq; by left|].
  destruct (login_step l o) as [l1|] eqn:E; [|done].
  destruct (IH l1 Hm Hc) as [Hc1|Hc1]; [|right; by apply elem_of_cons; right].
  unfold login_step in E. destruct (client_of (obs_of o)); [case_decide; simplify_eq; by left|].
  destruct (logged_by o) as [c'|] eqn:El; simplify_eq; [|by left].
  apply elem_of_cons in Hc1 as [->|Hc1]; [|by left]. right. apply elem_of_cons. left.
  destruct o as [cl r]. destruct cl; simpl in El; try done. by destruct r; simplify_eq.
Qed.

Lemma monitor_client l (t1 t2 : list (obs C)) o l' c :
  monitor login_step l (t1 ++ o :: t2) = Some l' -> client_of (obs_of o) = Some c ->
  c ∈ l \/ Obs (CLogin c) None ∈ t1.
Proof.
  rewrite monitor_app. destruct (monitor login_step l t1) as [l1|] eqn:E; [|done].
  simpl. intros Hm Hc. unfold login_step in Hm. rewrite Hc in Hm. case_decide; [|done].
  by eapply monitor_logged.
Qed.

End Monitor.

(** ** Lemmas *)

Section Proofs.
Context {W C : Type} `{GoUnicode} `{K8sLib} `{Env W C} `{EqDecision C}.
Context (DefaultConnection : DefaultConn).
Abbreviation ctl := (M C (VMState W C)).
Implicit Types (s : VMState W C) (l : list C).

Definition cache_ok l s : Prop := map_Forall (fun _ e => ce_client e ∈ l) (vs_cache s).

(** A program that uses the clients [cs] and keeps the cache sound. *)
Definition uses {A} (cs : list C) (m : ctl A) : Prop :=
  forall l s, cs ⊆ l -> cache_ok l s ->
    mwp login_step l m s (fun _ l' s' => l ⊆ l' /\ cache_ok l' s').

Lemma uses_ret {A} cs (a : A) : uses cs (mret a).
Proof. intros l s Hc Hs. by apply mwp_ret. Qed.
Lemma uses_gets {A} cs (h : VMState W C -> A) : uses cs (gets h).
Proof. intros l s Hc Hs. by apply mwp_gets. Qed.

Lemma uses_bind {A B} cs (m : ctl A) (f : A -> ctl B) :
  uses cs m -> (forall a, uses cs (f a)) -> uses cs (m ≫= f).
Proof.
  intros Hm Hf l s Hc Hs. apply mwp_bind. eapply mwp_mono; [by apply Hm|].
  intros a l1 s1 [Hl Hs1]. eapply mwp_mono; [apply Hf; [by etrans|done]|].
  intros b l2 s2 [Hl2 Hs2]. split; [by etrans|done].
Qed.

Lemma uses_perform cs (c : call C) :
  match client_of c with Some cl => cl ∈ cs | None => True end -> uses cs (perform c).
Proof.
  intros Hc l s Hl Hs. mwp_call. intros r w' E. unfold login_step. change (obs_of (Obs c r)) with c.
  destruct (client_of c) as [cl|].
  - exists l. rewrite decide_True by set_solver. by repeat split.
  - destruct (logged_by (Obs c r)) as [cl|]; eexists; (split; [reflexivity|]); [|by repeat split].
    split; [set_solver|]. intros k e He. simpl. apply elem_of_cons. right. by apply (Hs k).
Qed.

Ltac in_list := solve [exact I | assumption | simpl; repeat first [apply list_elem_of_here | apply list_elem_of_further] ].

Ltac uses_step :=
  match goal with
    | |- uses _ (mret _) => apply uses_ret
    | |- uses _ (gets _) => apply uses_gets
    | |- uses ?cs (perform ?c) => apply (uses_perform cs c); in_list
    | |- uses _ (_ ≫= _) => apply uses_bind; [|intros]
    | |- uses _ (match ?x with _ => _ end) => destruct x
    | |- uses _ (let '_ := ?x in _) => destruct x
    end.
Ltac uses_tac := repeat uses_step.

(** Getting a client: the one returned is usable from then on. *)
Lemma mwp_saltClient {A} cs cfg (f : res C -> ctl A) :
  (forall c, uses (c :: cs) (f (Ok c))) -> (forall e, uses cs (f (Err e))) ->
  uses cs (saltClientFromConfig DefaultConnection cfg ≫= f).
Proof.
  intros Hok Herr l s Hl Hs. apply mwp_bind. unfold saltClientFromConfig. cbv zeta. apply mwp_bind.
  assert (forall c l' s', l ⊆ l' -> c ∈ l' -> cache_ok l' s' ->
            mwp login_step l' (f (Ok c)) s' (fun _ l2 s2 => l ⊆ l2 /\ cache_ok l2 s2)) as Hend.
  { intros c l' s' Hll Hc Hs'. eapply mwp_mono; [apply Hok; [set_solver|done]|].
    intros a l2 s2 [Hl2 Hs2]. split; [by etrans|done]. }
  assert (forall e l' s', l ⊆ l' -> cache_ok l' s' ->
            mwp login_step l' (f (Err e)) s' (fun _ l2 s2 => l ⊆ l2 /\ cache_ok l2 s2)) as Hend2.
  { intros e l' s' Hll Hs'. eapply mwp_mono; [apply Herr; [set_solver|done]|].
    intros a l2 s2 [Hl2 Hs2]. split; [by etrans|done]. }
  (* a hit in the cache is a client that logged in *)
  eapply mwp_mono with (Q := fun hit l' s' => l ⊆ l' /\ cache_ok l' s' /\ forall c, hit = Some c -> c ∈ l').
  { unfold cache_get. apply mwp_bind, mwp_gets.
    destruct (vs_cache s !! _) as [e|] eqn:Ee; [|by apply mwp_ret].
    apply mwp_bind. eapply mwp_mono with (Q := fun _ l' s' => l' = l /\ cache_ok l s').
    { case_match; [by apply mwp_ret|]. apply mwp_bind. mwp_call. intros now w' E. exists l. split; [done|].
      by apply mwp_ret. }
    intros stale l' s' [-> Hs']. destruct stale.
    - apply mwp_bind, mwp_modify, mwp_ret. split; [done|]. split; [|done].
      intros k' e' He'. simpl in He'. apply lookup_delete_Some in He' as [_ He']. by apply (Hs' k').
    - apply mwp_ret. split; [done|]. split; [done|]. intros c [= <-]. by apply (Hs _ _ Ee). }
  intros hit l1 s1 (Hl1 & Hs1 & Hhit). destruct hit as [c|]; [apply mwp_ret; eauto|].
  apply mwp_bind. eapply mwp_mono.
  { refine ((_ : uses l1 (Resolve cfg DefaultConnection)) l1 s1 (reflexivity l1) Hs1).
    unfold Resolve, resolveNamespaceSecret, resolveDefault, Load, readSecret. cbv zeta. uses_tac. }
  intros rc l2 s2 [Hl2 Hs2]. destruct rc as [conn|e]; [|apply mwp_ret, Hend2; [by etrans|done]].
  apply mwp_bind. mwp_call. intros c w' E. exists l2. split; [done|]. apply mwp_bind. mwp_call.
  intros le w2 E2. destruct le as [e|].
  { exists l2. split; [done|]. apply mwp_ret, Hend2; [by etrans|done]. }
  exists (c :: l2). split; [done|]. unfold cache_set. apply mwp_bind, mwp_bind. mwp_call.
  intros now w3 E3. exists (c :: l2). split; [done|]. apply mwp_modify, mwp_ret, Hend; [set_solver..|].
  intros k e He. simpl in He. apply lookup_insert_Some in He as [[_ <-]|[_ He]]; simpl; [set_solver|].
  apply elem_of_cons. right. by apply (Hs2 k).
Qed.

Section Handlers.
Context (cs : list C) (c : C).
Hypothesis Hc : c ∈ cs.

Lemma uses_patchAnnotations vm adds : uses cs (patchAnnotations vm adds).
Proof. unfold patchAnnotations. cbv zeta. uses_tac. Qed.
Lemma uses_addSaltFinalizer vm : uses cs (addSaltFinalizer vm).
Proof. unfold addSaltFinalizer. cbv zeta. uses_tac. Qed.
Lemma uses_Event vm t r m : uses cs (Event vm t r m).
Proof. unfold Event. uses_tac. Qed.
Lemma uses_clearPreseedKey vm m : uses cs (clearPreseedKey vm m).
Proof.
  unfold clearPreseedKey, clearBootstrapKey. cbv zeta.
  repeat first [apply uses_patchAnnotations | apply uses_Event | uses_step].
Qed.
Lemma uses_sinceVSphereCreate vm : uses cs (sinceVSphereCreate vm).
Proof.
  unfold sinceVSphereCreate. induction (vm_conditions vm) as [|x xs IH]; simpl; [uses_tac|].
  destruct (is_created_condition x); [|done]. unfold Since. uses_tac.
Qed.

Ltac uses_solve1 :=
  match goal with
  | |- uses _ (patchAnnotations _ _) => apply uses_patchAnnotations
  | |- uses _ (addSaltFinalizer _) => apply uses_addSaltFinalizer
  | |- uses _ (Event _ _ _ _) => apply uses_Event
  | |- uses _ (clearPreseedKey _ _) => apply uses_clearPreseedKey
  | |- uses _ (sinceVSphereCreate _) => apply uses_sinceVSphereCreate
  | _ => uses_step
  end.
Ltac uses_solve := repeat uses_solve1.

Lemma uses_removeSaltFinalizer vm : uses cs (removeSaltFinalizer vm).
Proof. unfold removeSaltFinalizer. uses_solve. Qed.
Lemma uses_runPing vm m rq : uses cs (runPing vm c m rq).
Proof. unfold runPing, masterSilence, masterLastSeen, in_retry_window, Since. cbv zeta. uses_solve. Qed.
Lemma uses_runRefreshPillar vm m rq : uses cs (runRefreshPillar vm c m rq).
Proof. unfold runRefreshPillar, masterSilence, masterLastSeen, in_retry_window, Since. cbv zeta. uses_solve. Qed.
Lemma uses_runDispatchHighstate vm m rq : uses cs (runDispatchHighstate vm c m rq).
Proof. unfold runDispatchHighstate. cbv zeta. uses_solve. Qed.
Lemma uses_runPollHighstate vm m j rq : uses cs (runPollHighstate vm c m j rq).
Proof. unfold runPollHighstate. cbv zeta. uses_solve. Qed.
Lemma uses_runDay2 vm m mk rq : uses cs (runDay2 vm c m mk rq).
Proof. unfold runDay2, masterSilence, masterLastSeen, Since. cbv zeta. uses_solve. Qed.
Lemma uses_reconverge vm cfg a m rq : uses cs (reconverge vm c cfg a m rq).
Proof. unfold reconverge. cbv zeta. repeat first [apply uses_runDay2 | uses_solve1]. Qed.
Lemma uses_checkReconvergence vm cfg m rq : uses cs (checkReconvergence vm c cfg m rq).
Proof.
  unfold checkReconvergence, restartFirstChain, adoptLegacyIntentHash, checkTriggers. cbv zeta.
  repeat first [match goal with |- uses _ (reconverge _ _ _ _ _ _) => apply uses_reconverge end | uses_solve1].
Qed.
Lemma uses_reconcilePostAccept vm cfg m rq : uses cs (reconcilePostAccept vm c cfg m rq).
Proof.
  unfold reconcilePostAccept, Since. cbv zeta.
  repeat match goal with
    | |- uses _ (runPing _ _ _ _) => apply uses_runPing
    | |- uses _ (runRefreshPillar _ _ _ _) => apply uses_runRefreshPillar
    | |- uses _ (runDispatchHighstate _ _ _ _) => apply uses_runDispatchHighstate
    | |- uses _ (runPollHighstate _ _ _ _ _) => apply uses_runPollHighstate
    | |- uses _ (checkReconvergence _ _ _ _ _) => apply uses_checkReconvergence
    | _ => uses_solve1
    end.
Qed.
Lemma uses_runPreseedKey vm rq : uses cs (runPreseedKey vm c rq).
Proof. unfold runPreseedKey, minionIDOwner, finishPreseed, writeBootstrapSecret. cbv zeta. uses_solve. Qed.
Lemma uses_runAcceptKey vm ip at' rq : uses cs (runAcceptKey vm c ip at' rq).
Proof. unfold runAcceptKey. cbv zeta. uses_solve. Qed.

End Handlers.

Lemma uses_reconcileKey cs vm cfg b at' rq : uses cs (reconcileKey DefaultConnection vm cfg b at' rq).
Proof.
  unfold reconcileKey, markPreseedAccepted. cbv zeta.
  repeat first [ apply mwp_saltClient; intros | apply uses_runPreseedKey; in_list | apply uses_runAcceptKey; in_list
               | apply uses_patchAnnotations | apply uses_Event | uses_step ].
Qed.

Lemma uses_reconcileAccepted cs vm cfg rq : uses cs (reconcileAccepted DefaultConnection vm cfg rq).
Proof.
  unfold reconcileAccepted.
  repeat first [ apply mwp_saltClient; intros | apply uses_reconcilePostAccept; in_list
               | apply uses_addSaltFinalizer | uses_step ].
Qed.

Lemma uses_Reconcile cs ns name : uses cs (Reconcile DefaultConnection ns name).
Proof.
  unfold Reconcile, reconcileCreate, reconcileDelete, findSaltKeyConfig. cbv zeta.
  repeat first [ apply mwp_saltClient; intros | apply uses_reconcileKey | apply uses_reconcileAccepted
               | apply uses_removeSaltFinalizer | apply uses_clearPreseedKey | apply uses_sinceVSphereCreate
               | apply uses_patchAnnotations | apply uses_Event | uses_step ].
Qed.

Lemma cache_clients_ok s : cache_ok (cache_clients s) s.
Proof.
  intros k e He. unfold cache_clients. apply list_elem_of_fmap. exists (k, e). split; [done|].
  by apply elem_of_map_to_list.
Qed.

Lemma cache_clients_elem s c : c ∈ cache_clients s -> exists k e, vs_cache s !! k = Some e /\ c = ce_client e.
Proof.
  unfold cache_clients. rewrite list_elem_of_fmap. intros ([k e] & -> & Hin%elem_of_map_to_list). eauto.
Qed.

(** A program that leaves the cache alone. *)
Definition cache_same {A} (m : ctl A) : Prop := forall s, wp m s (fun _ _ s' => vs_cache s' = vs_cache s).

Lemma cache_same_bind {A B} (m : ctl A) (f : A -> ctl B) :
  cache_same m -> (forall a, cache_same (f a)) -> cache_same (m ≫= f).
Proof.
  intros Hm Hf s. apply wp_bind. eapply wp_mono; [apply Hm|]. intros a t s1 E1.
  eapply wp_mono; [apply Hf|]. intros b t' s2 E2. simpl. congruence.
Qed.

Lemma cache_same_perform (c : call C) : cache_same (perform c).
Proof. intros s. wp_call. by intros r w' E. Qed.

Lemma cache_same_Resolve cfg : cache_same (Resolve cfg DefaultConnection).
Proof.
  unfold Resolve, resolveNamespaceSecret, resolveDefault, Load, readSecret. cbv zeta.
  repeat match goal with
    | |- cache_same (mret _) => intros s; by apply wp_ret
    | |- cache_same (perform ?c) => exact (cache_same_perform c)
    | |- cache_same (_ ≫= _) => apply cache_same_bind; [|intros]
    | |- cache_same (match ?x with _ => _ end) => destruct x
    end.
Qed.

(** A lookup in the cache: a hit is current; a miss may drop the entry of the key. *)
Lemma wp_cache_get key rv s :
  wp (cache_get key rv : ctl _) s (fun hit t s' =>
    (forall c, Obs (CLogin c) None ∉ t) /\
    match hit with
    | Some c => exists e now, vs_cache s !! key = Some e /\ c = ce_client e /\ ce_configRV e = rv
                  /\ t = [Obs CNow now] /\ now <= ce_expiresAt e /\ vs_cache s' = vs_cache s
    | None => vs_cache s' = delete key (vs_cache s)
    end).
Proof.
  unfold cache_get. apply wp_bind, wp_gets. destruct (vs_cache s !! key) as [e|] eqn:Ee; cycle 1.
  { apply wp_ret. split; [intros c; apply not_elem_of_nil|]. by rewrite delete_id. }
  apply wp_bind. destruct (ce_configRV e <>s? rv) eqn:Er; reflect_bools.
  { apply wp_ret, wp_bind, wp_modify, wp_ret. split; [intros c; apply not_elem_of_nil|done]. }
  apply wp_bind. wp_call. intros now w' E. apply wp_ret.
  destruct (ce_expiresAt e <? now) eqn:Ex; reflect_bools.
  - apply wp_bind, wp_modify, wp_ret. split; [|done].
    intros c Hin. by apply list_elem_of_singleton, (f_equal obs_of) in Hin.
  - apply wp_ret. split; [intros c Hin; by apply list_elem_of_singleton, (f_equal obs_of) in Hin|].
    exists e, now. by repeat split.
Qed.

(** ** Theorems *)

(** C18: Every Salt call of a reconcile goes through a client that logged in: one in the cache when the
    reconcile began, or one whose login succeeded earlier in it; and the reconcile leaves only such
    clients in the cache. *)
Theorem salt_calls_logged_in ns name s :
  wp (Reconcile DefaultConnection ns name) s (fun _ t s' =>
    (forall t1 t2 o cl, t = t1 ++ o :: t2 -> client_of (obs_of o) = Some cl ->
       cl ∈ cache_clients s \/ Obs (CLogin cl) None ∈ t1)
    /\ (forall cl, cl ∈ cache_clients s' -> cl ∈ cache_clients s \/ Obs (CLogin cl) None ∈ t)).
Proof.
  eapply wp_mono.
  { apply (uses_Reconcile [] ns name (cache_clients s) s); [apply list_subseteq_nil|apply cache_clients_ok]. }
  intros o t s' (l' & Hm & _ & Hs'). split.
  - intros t1 t2 x cl -> Hcl. by eapply monitor_client.
  - intros cl (k & e & He & ->)%cache_clients_elem. eapply monitor_logged; [exact Hm|]. by apply (Hs' k).
Qed.

(** C19: A cached client is used only for the very revision of the SaltKeyConfig it was made for and
    before it expires, and without any further call; otherwise a new client is made from the
    connection the config resolves to, is logged in, and is cached for the current revision for
    twenty minutes. When no client is made, none has logged in and the cache has no entry for the config. *)
Theorem cached_client_current cfg s :
  wp (saltClientFromConfig DefaultConnection cfg) s (fun r t s' =>
    let key := (cfg_Namespace cfg, cfg_Name cfg) in
    match r with
    | Ok c =>
        (exists e now, vs_cache s !! key = Some e /\ c = ce_client e /\ ce_configRV e = cfg_ResourceVersion cfg
           /\ t = [Obs CNow now] /\ now <= ce_expiresAt e /\ vs_cache s' = vs_cache s)
        \/ (exists conn now, Obs (CNewClient (conn_URL conn) (conn_Username conn) (conn_Password conn)
                                    (conn_MasterID conn) (conn_SkipTLSVerify conn)) c ∈ t
              /\ Obs (CLogin c) None ∈ t /\ Obs CNow now ∈ t
              /\ vs_cache s' = <[key := {| ce_client := c; ce_configRV := cfg_ResourceVersion cfg;
                                          ce_expiresAt := now + saltClientCacheTTL |}]> (vs_cache s))
    | Err _ => (forall c, Obs (CLogin c) None ∉ t) /\ vs_cache s' = delete key (vs_cache s)
    end).
Proof.
  unfold saltClientFromConfig. cbv zeta. apply wp_bind. eapply wp_mono; [apply wp_cache_get|].
  intros hit t s1 [Hno Hhit]. destruct hit as [c|].
  { apply wp_ret. rewrite app_nil_r. by left. }
  apply wp_bind. eapply wp_mono; [apply wp_and; [apply wp_Resolve|apply cache_same_Resolve]|].
  intros rc t2 s2 [Hres Hs2]. rewrite Hhit in Hs2.
  assert (forall c, Obs (CLogin c) None ∉ t2) as Hno2.
  { intros c Hin. destruct Hres as [_ [->|[r' ->]]]; [by apply not_elem_of_nil in Hin|].
    by apply list_elem_of_singleton, (f_equal obs_of) in Hin. }
  destruct rc as [conn|e]; cycle 1.
  { apply wp_ret. rewrite app_nil_r. split; [|done]. intros c [Hin|Hin]%elem_of_app; [by eapply Hno|by eapply Hno2]. }
  apply wp_bind. wp_call. intros c w' E. apply wp_bind. wp_call. intros le w2 E2. destruct le as [e|].
  - apply wp_ret. split; [|done]. intros c' Hin. rewrite !elem_of_app in Hin.
    destruct Hin as [Hin|[Hin|[Hin|[Hin|Hin]]]]; [by eapply Hno|by eapply Hno2| | |by apply not_elem_of_nil in Hin].
    + by apply list_elem_of_singleton, (f_equal obs_of) in Hin.
    + apply list_elem_of_singleton in Hin. by apply (f_equal logged_by) in Hin.
  - unfold cache_set. apply wp_bind, wp_bind. wp_call. intros now w3 E3. apply wp_modify, wp_ret. right.
    exists conn, now. rewrite !elem_of_app, !list_elem_of_singleton. split; [by auto|]. split; [by auto 6|].
    split; [by auto 8|]. simpl. rewrite Hs2. by rewrite insert_delete_eq.
Qed.

End Proofs.
