(* ===== verification/VMInvariant.v ===== *)
(** * Every state the operator can bring a VM into

    The invariant of a VM's operator-written annotations, and the rule that
    a highstate is only dispatched on a fresh pillar, over every history of
    reconciles, tenant changes, API failures and operator restarts.  The
    proofs follow the handlers of [VMController] in the logic of [Cluster]. *)

From S2P Require Import Prelude GoStrings GoTime Sha256 Matcher Api Effects RaasConn.
From S2P Require Import Server IntentHash VMController Cluster.

Local Open Scope Z_scope.

(** ** The invariant *)

Definition one_of (x : string) (l : list string) : bool := existsb (String.eqb x) l.

Definition key_statuses : list string :=
  [""; keyStatusPreseeded; keyStatusAccepted; keyStatusFailed; keyStatusDeleted; "DeleteFailed"].

(** The phase table of the bootstrap chain. *)
Definition salt_statuses : list string :=
  [""; "Pinged"; "PillarRefreshed"; saltStatusHighstateDispatched; saltStatusReady;
   "Failed/Ping"; "Failed/PillarRefresh"; "Failed/HighstateDispatch"; "Failed/Highstate"].

(** The annotations the invariant speaks of. *)
Record Fields := {
  f_ks : string;       (* key-status *)
  f_mid : string;      (* minion-id *)
  f_mm : string;       (* match-method *)
  f_ss : string;       (* salt-status *)
  f_ready : string;
  f_jid : string;      (* highstate-jid *)
  f_hs : string;       (* highstate-status *)
  f_hash : string;     (* roles-hash *)
  f_cleared : string;  (* key-cleared *)
  f_count : string;    (* highstate-failed-count *)
}.

Definition fields (a : gmap string string) : Fields :=
  {| f_ks := mget a AnnotationKeyStatus; f_mid := mget a AnnotationMinionID;
     f_mm := mget a AnnotationMatchMethod; f_ss := mget a AnnotationSaltStatus;
     f_ready := mget a AnnotationReady; f_jid := mget a AnnotationHighstateJID;
     f_hs := mget a AnnotationHighstateStatus; f_hash := mget a AnnotationRolesHash;
     f_cleared := mget a AnnotationKeyCleared; f_count := mget a AnnotationHighstateFailedCount |}.

Record FInv (deleted : bool) (f : Fields) : Prop := {
  inv_key_status : one_of (f_ks f) key_statuses = true;
  inv_salt_status : one_of (f_ss f) salt_statuses = true;
  (* the bootstrap chain runs on an accepted key only *)
  inv_chain_accepted : f_ss f <> "" ->
    one_of (f_ks f) [keyStatusAccepted; keyStatusDeleted; "DeleteFailed"] = true;
  inv_minion : one_of (f_ks f) [keyStatusPreseeded; keyStatusAccepted; keyStatusDeleted; "DeleteFailed"] = true ->
    f_mid f <> "";
  (* the key is deleted only with the VM *)
  inv_deleted : one_of (f_ks f) [keyStatusDeleted; "DeleteFailed"] = true -> deleted = true;
  inv_preseeded : f_ks f = keyStatusPreseeded -> f_mm f = matchMethodPreseed;
  inv_preseed_status : f_mm f = matchMethodPreseed -> f_ks f <> "";
  inv_minion_status : f_mid f <> "" -> f_ks f <> "";
  (* a preseeded private key does not outlive the first ping *)
  inv_cleared : f_mm f = matchMethodPreseed -> f_ss f <> "" -> f_cleared f = annotationTrue;
  inv_cleared_preseed : f_cleared f = annotationTrue -> f_mm f = matchMethodPreseed;
  inv_ready : f_ready f = annotationTrue <-> f_ss f = saltStatusReady;
  inv_hash : f_hash f <> "" -> HasPrefix (f_hash f) intentHashVersion = true;
  inv_dispatched : one_of (f_ss f) [saltStatusHighstateDispatched; saltStatusReady; "Failed/Highstate"] = true ->
    f_hash f <> "" /\ f_jid f <> "";
  inv_in_progress : f_ss f = saltStatusHighstateDispatched -> f_hs f = "InProgress";
  inv_success : f_ss f = saltStatusReady -> f_hs f = "Success" /\ f_count f = "0";
}.

Definition fields_of (vm : VM) : Fields := fields (GetAnnotations vm).

(** The invariant of a VM, with the ghost state: past a refresh, the pillar of its minion is fresh. *)
Definition Good (f : option string) (deleted : bool) (fs : Fields) : Prop :=
  FInv deleted fs /\ (f_ss fs = "PillarRefreshed" -> f = Some (f_mid fs)).

Definition VInv (f : option string) (vm : VM) : Prop := Good f (being_deleted vm) (fields_of vm).

(** A call that makes a refreshed pillar stale: the ping that starts a chain, a failed refresh or
    a refresh of another minion, a finished highstate. *)
Definition ends_freshness {C} (m : string) (o : obs C) : bool :=
  match o with
  | existT c r =>
      match c as c0 return resp c0 -> bool with
      | CTestPing _ _ => fun _ => true
      | CRefreshPillar _ m' => fun r => match r with Ok true => m' <>s? m | _ => true end
      | CPollJID _ _ _ => fun r => match r with Ok (Some _) => true | _ => false end
      | _ => fun _ => false
      end r
  end.

(** The calls [t] end with minion [m]'s pillar refreshed and nothing since that makes it stale. *)
Definition pillar_fresh {C} (m : string) (t : list (obs C)) : Prop :=
  exists c t1 t2, t = t1 ++ Obs (CRefreshPillar c m) (Ok true) :: t2
    /\ Forall (fun o => ends_freshness m o = false) t2.

(** The fields after a patch that sets [adds]. *)
Definition upd (f : Fields) (adds : gmap string string) : Fields :=
  {| f_ks := default (f_ks f) (adds !! AnnotationKeyStatus);
     f_mid := default (f_mid f) (adds !! AnnotationMinionID);
     f_mm := default (f_mm f) (adds !! AnnotationMatchMethod);
     f_ss := default (f_ss f) (adds !! AnnotationSaltStatus);
     f_ready := default (f_ready f) (adds !! AnnotationReady);
     f_jid := default (f_jid f) (adds !! AnnotationHighstateJID);
     f_hs := default (f_hs f) (adds !! AnnotationHighstateStatus);
     f_hash := default (f_hash f) (adds !! AnnotationRolesHash);
     f_cleared := default (f_cleared f) (adds !! AnnotationKeyCleared);
     f_count := default (f_count f) (adds !! AnnotationHighstateFailedCount) |}.

(** Both statuses move along the phase table. *)
Definition edges_ok (f f' : Fields) : bool :=
  edge key_edges (f_ks f) (f_ks f') && edge chain_edges (f_ss f) (f_ss f').

(** ** Histories *)

Section History.
Context {W C : Type} `{GoUnicode} `{K8sLib} `{Env W C}.
Context (DefaultConnection : DefaultConn) (k : string * string) (stored : W -> option VM).

(** What happens to the stored VM between reconciles: interference, or creation without
    any of the operator's annotations. *)
Inductive outside : option VM -> option VM -> Prop :=
| out_interferes x y : interferes x y -> outside x y
| out_created v : owned v = ∅ -> outside None (Some v).

(** The states a VM's reconciles can reach, with the calls made so far.  Reconciles of other VMs
    and restarts of the operator change the client cache. *)
Inductive history : VMState W C -> list (obs C) -> Prop :=
| hist_start s : stored (vs_world s) = None -> vs_cache s = ∅ -> history s []
| hist_reconcile s t a t' s' :
    history s t -> Reconcile DefaultConnection k.1 k.2 s = (a, t', s') -> history s' (t ++ t')
| hist_outside s t w' :
    history s t -> outside (stored (vs_world s)) (stored w') -> history (set_world w' s) t
| hist_cache s t c : history s t -> history (set_cache (fun _ => c) s) t.

End History.

(** ** A run on the concrete server *)

Section Demo.
#[local] Existing Instances ascii_only reference_lib server.

Definition no_default : DefaultConn := {| def_Namespace := ""; def_SecretName := "" |}.

Definition tick (s : VMState World Handle) : VMState World Handle :=
  set_world (set_now (w_now (vs_world s) + 60 * Second) (vs_world s)) s.

(** [n] reconciles of the demo VM, a minute apart. *)
Fixpoint demo_run (n : nat) (s : VMState World Handle) (t : list (obs Handle))
  : VMState World Handle * list (obs Handle) :=
  match n with
  | O => (s, t)
  | S n' =>
      let '(_, t', s1) := Reconcile no_default "team" "vm-a" s in demo_run n' (tick s1) (t ++ t')
  end.

Definition demo_state (vms : list VM) : VMState World Handle :=
  {| vs_world := demo_world (demo_config_with demo_spec) vms all_well; vs_cache := ∅ |}.

(** A managed VM taken through [n] reconciles from its creation. *)
Definition demo (n : nat) : VMState World Handle * list (obs Handle) :=
  demo_run n (demo_state [demo_vm [(AnnotationManaged, "true")]]) [].

End Demo.

(** ** Lemmas: fields *)

Lemma fields_patch a adds : fields (maps_Copy a adds) = upd (fields a) adds.
Proof. unfold fields, upd. simpl. by rewrite !mget_maps_Copy. Qed.

(** Patch after patch; the retry markers are no fields of the invariant. *)
Lemma upd_withMarkers f ms p : upd f (withMarkers ms p) = upd (upd f p) ms.
Proof.
  assert (forall x k, default x (maps_Copy p ms !! k) = default (default x (p !! k)) (ms !! k)) as Hd.
  { intros x k. rewrite maps_Copy_lookup. by destruct (ms !! k). }
  unfold upd, withMarkers. simpl. by rewrite !Hd.
Qed.

Lemma upd_retry_markers f cfg a p : upd f (add_retry_markers cfg a p) = upd f p.
Proof.
  unfold add_retry_markers. destruct (retry_requested a), (bulk_changed cfg a);
    unfold upd; by rewrite ?lookup_insert_ne by (intros [=]).
Qed.

Lemma fields_of_owned v v' : owned v = owned v' -> fields_of v = fields_of v'.
Proof.
  intros He. unfold fields_of, fields, mget. rewrite owned_eq in He.
  rewrite !He by (vm_compute; reflexivity) . done.
Qed.

Lemma FInv_deleted d d' f : FInv d f -> (d = true -> d' = true) -> FInv d' f.
Proof. intros [] Hd. constructor; auto. Qed.

Lemma VInv_same_owned f v v' : same_owned v v' -> VInv f v -> VInv f v'.
Proof.
  intros (Ho & _ & _ & _ & Hd) [HI HF]. unfold VInv, Good.
  rewrite (fields_of_owned v' v) by done. split; [|done]. eapply FInv_deleted; eauto.
Qed.

Lemma VInv_fields f v v' :
  fields_of v' = fields_of v -> (being_deleted v = true -> being_deleted v' = true) ->
  VInv f v -> VInv f v'.
Proof. intros Hf Hd [HI HF]. unfold VInv, Good. rewrite Hf. split; [|done]. eapply FInv_deleted; eauto. Qed.

(** ** Lemmas: the logic on one VM *)

Section Proofs.
Context {W C : Type} `{GoUnicode} `{K8sLib} `{Env W C}.
Context (DefaultConnection : DefaultConn) (k : string * string) (stored : W -> option VM).
Context `{!ClusterLaws k stored} `{!SaltPromises W C}.
Hypothesis name_nonempty : k.2 <> "".

Abbreviation ctl := (M C (VMState W C)).
Implicit Types (s : VMState W C) (vm : VM) (f : option string).

(** The VM object in hand has the stored object's operator annotations. *)
Definition Tracks s vm : Prop :=
  vm_key vm = k /\ forall cur, stored (vs_world s) = Some cur -> same_owned vm cur.

(** The stored object satisfies the invariant. *)
Definition SInv f s : Prop := forall cur, stored (vs_world s) = Some cur -> VInv f cur.

(** A program that leaves the VM and the ghost state alone. *)
Definition quiet {A} (m : ctl A) : Prop :=
  forall f s vm, Tracks s vm -> gwp f m s (fun _ f' s' => f' = f /\ Tracks s' vm).

Lemma Tracks_SInv f s vm : Tracks s vm -> VInv f vm -> SInv f s.
Proof. intros [_ Ht] Hv cur Hc. eapply VInv_same_owned; eauto. Qed.

Lemma Tracks_interferes s vm w' :
  Tracks s vm -> interferes (stored (vs_world s)) (stored w') -> Tracks (set_world w' s) vm.
Proof.
  intros [Hk Ht] Hi. split; [done|]. simpl. intros cur Hc. rewrite Hc in Hi.
  inversion Hi as [|v v' Hs]; subst. etrans; [|exact Hs]. by apply Ht.
Qed.

Lemma step_interferes (c : call C) w r w' :
  env c w = (r, w') ->
  (forall b m, c <> CPatchVM b m) -> interferes (stored w) (stored w').
Proof.
  intros E Hc. pose proof (cluster_step _ _ _ _ E) as Hs.
  destruct c; simpl in Hs; try done; [|by destruct (Hc base modified)].
  case_decide; [|done]. destruct r; [|done]. destruct Hs. by eapply interferes_trans.
Qed.

Lemma neutral_fresh f (c : call C) r : neutral c = true -> fresh_step f (Obs c r) = Some f.
Proof. by destruct c. Qed.

Lemma quiet_perform (c : call C) : neutral c = true -> quiet (perform c).
Proof.
  intros Hn f s vm Ht. apply mwp_perform. intros r w' E. exists f.
  split; [by apply neutral_fresh|]. split; [done|].
  eapply Tracks_interferes; [done|]. eapply step_interferes; [exact E|].
  intros b m ->. done.
Qed.

Lemma quiet_ret {A} (a : A) : quiet (mret a).
Proof. intros f s vm Ht. by apply mwp_ret. Qed.

Lemma quiet_bind {A B} (m : ctl A) (g : A -> ctl B) :
  quiet m -> (forall a, quiet (g a)) -> quiet (m ≫= g).
Proof.
  intros Hm Hg f s vm Ht. apply mwp_bind. eapply mwp_mono; [by apply Hm|].
  intros a f' s' [-> Ht']. by apply Hg.
Qed.

Lemma quiet_gets {A} (g : VMState W C -> A) : quiet (gets g).
Proof. intros f s vm Ht. by apply mwp_gets. Qed.

Lemma quiet_cache g : quiet (modify (set_cache g)).
Proof. intros f s vm Ht. by apply mwp_modify. Qed.

(** Running a quiet program keeps the VM in hand current. *)
Lemma gwp_quiet {A} f (m : ctl A) s vm Q :
  quiet m -> Tracks s vm -> (forall a s', Tracks s' vm -> Q a f s') -> gwp f m s Q.
Proof.
  intros Hm Ht HQ. eapply mwp_mono; [by apply Hm|]. intros a f' s' [-> Ht']. auto.
Qed.

(** The calls that matter for pillar freshness. *)
Lemma gwp_ping f s vm c m Q :
  Tracks s vm -> (forall r s', Tracks s' vm -> Q r None s') -> gwp f (perform (CTestPing c m)) s Q.
Proof.
  intros Ht HQ. apply mwp_perform. intros r w' E. exists None. split; [done|].
  apply HQ. eapply Tracks_interferes; [done|]. by eapply step_interferes.
Qed.

Lemma gwp_refresh f s vm c m Q :
  Tracks s vm ->
  (forall r s', Tracks s' vm ->
     Q r (if step_failed r then None else Some m) s') ->
  gwp f (perform (CRefreshPillar c m)) s Q.
Proof.
  intros Ht HQ. apply mwp_perform. intros r w' E.
  exists (if step_failed r then None else Some m). split; [by destruct r as [[]|]|].
  apply HQ. eapply Tracks_interferes; [done|]. by eapply step_interferes.
Qed.

Lemma gwp_dispatch f s vm c m Q :
  Tracks s vm -> f = Some m ->
  (forall r s', Tracks s' vm -> (forall j, r = Ok j -> j <> "") -> Q r f s') ->
  gwp f (perform (CDispatchHighstate c m)) s Q.
Proof.
  intros Ht -> HQ. apply mwp_perform. intros r w' E. exists (Some m).
  split; [simpl; by rewrite decide_True|].
  apply HQ; [|intros j ->; by eapply highstate_jid].
  eapply Tracks_interferes; [done|]. by eapply step_interferes.
Qed.

Lemma gwp_poll f s vm c m j Q :
  Tracks s vm ->
  (forall r s', Tracks s' vm -> Q r (match r with Ok (Some _) => None | _ => f end) s') ->
  gwp f (perform (CPollJID c m j)) s Q.
Proof.
  intros Ht HQ. apply mwp_perform. intros r w' E.
  eexists. split; [|apply HQ; eapply Tracks_interferes; [done|]; by eapply step_interferes].
  by destruct r as [[]|].
Qed.

(** A patch that keeps the invariant, whether or not the server reports it applied. *)
Lemma gwp_patchVM f s vm vm1 Q :
  Tracks s vm -> VInv f vm -> VInv f vm1 -> edges_ok (fields_of vm) (fields_of vm1) = true ->
  (being_deleted vm = true -> being_deleted vm1 = true) ->
  (being_deleted vm1 = true -> being_deleted vm = true) ->
  (forall e s', SInv f s' -> Q (Err e) f s') ->
  (forall v s', Tracks s' v -> VInv f v -> fields_of v = fields_of vm1 ->
     vm_uid v = vm_uid vm -> vm_name v = vm_name vm ->
     (being_deleted vm1 = true -> being_deleted v = true) -> Q (Ok v) f s') ->
  gwp f (perform (CPatchVM vm vm1)) s Q.
Proof.
  intros [Hk Ht] Hv Hv1 He Hd1 Hd2 HErr HOk. apply mwp_perform. intros r w' E. exists f.
  split; [simpl; change (patch_ok vm vm1) with (edges_ok (fields_of vm) (fields_of vm1)); by rewrite He|]. pose proof (cluster_step _ _ _ _ E) as Hs. simpl in Hs.
  rewrite decide_True in Hs by done.
  assert (forall cur v, interferes (stored (vs_world s)) (Some cur) -> patched vm vm1 cur v ->
            VInv f v /\ fields_of v = fields_of vm1 /\ vm_key v = k /\ vm_uid v = vm_uid vm
            /\ vm_name v = vm_name vm
            /\ (being_deleted vm1 = true -> being_deleted v = true)) as Hp.
  { intros cur v Hi Hp. inversion Hi as [|v0 ? Hso E0]; subst.
    assert (same_owned vm cur) as Hc by (etrans; [apply Ht; by rewrite <- E0|done]).
    destruct (patched_same_owned _ _ _ _ Hc Hp) as (Ho & Hn & Hns & Hu & Hd).
    assert (fields_of v = fields_of vm1) as Hf by (symmetry; by apply fields_of_owned).
    split; [eapply VInv_fields; eauto|]. split; [done|].
    split; [rewrite <- Hk; unfold vm_key; congruence|]. auto. }
  assert (forall v, VInv f v -> vm_key v = k -> interferes (Some v) (stored w') ->
            Tracks (set_world w' s) v) as Hnew.
  { intros v Hv' Hkv Hi. split; [done|]. simpl. intros cur Hc. rewrite Hc in Hi. by inversion Hi. }
  destruct r as [v|e].
  - destruct Hs as (cur & Hi & Hpv & Hi'). destruct (Hp cur v Hi Hpv) as (? & ? & ? & ? & ? & ?).
    apply HOk; auto.
  - apply HErr. destruct Hs as [Hi|(cur & v & Hi & Hpv & Hi')].
    + eapply Tracks_SInv; [eapply Tracks_interferes; [by split|done]|done].
    + destruct (Hp cur v Hi Hpv) as (? & ? & ? & ? & ? & ?). eapply Tracks_SInv; [by apply Hnew|done].
Qed.

Lemma edges_ok_refl fs : edges_ok fs fs = true.
Proof. unfold edges_ok, edge. by rewrite !String.eqb_refl. Qed.

Lemma gwp_patchAnnotations f s vm adds Q :
  Tracks s vm -> VInv f vm ->
  Good f (being_deleted vm) (upd (fields_of vm) adds) ->
  edges_ok (fields_of vm) (upd (fields_of vm) adds) = true ->
  (forall v e s', vm_key v = k -> SInv f s' -> Q (v, Some e) f s') ->
  (forall v s', Tracks s' v -> VInv f v -> fields_of v = upd (fields_of vm) adds ->
     (being_deleted vm = true -> being_deleted v = true) -> vm_name v = vm_name vm ->
     Q (v, None) f s') ->
  gwp f (patchAnnotations vm adds) s Q.
Proof.
  intros Ht Hv Hv1 He HErr HOk. unfold patchAnnotations. cbv zeta. apply mwp_bind.
  assert (fields_of (set_annotations (Some (maps_Copy (GetAnnotations vm) adds)) vm)
          = upd (fields_of vm) adds) as Hu by apply fields_patch.
  assert (VInv f (set_annotations (Some (maps_Copy (GetAnnotations vm) adds)) vm)) as Hv2
    by (unfold VInv; by rewrite Hu).
  rewrite <- Hu in HOk, He.
  eapply gwp_patchVM; [exact Ht|exact Hv|exact Hv2|exact He|done|done|..].
  - intros e s' Hs. apply mwp_ret. by apply HErr; [apply Ht|].
  - intros v s' Ht' Hv' Hf _ Hn Hd. apply mwp_ret. by apply HOk.
Qed.

Lemma gwp_addSaltFinalizer f s vm Q :
  Tracks s vm -> VInv f vm ->
  (forall v e s', SInv f s' -> Q (v, Some e) f s') ->
  (forall v s', Tracks s' v -> VInv f v -> fields_of v = fields_of vm ->
     (being_deleted vm = true -> being_deleted v = true) -> vm_name v = vm_name vm ->
     Q (v, None) f s') ->
  gwp f (addSaltFinalizer vm) s Q.
Proof.
  intros Ht Hv HErr HOk. unfold addSaltFinalizer.
  destruct (ContainsFinalizer _ _); [apply mwp_ret; by apply HOk|]. cbv zeta. apply mwp_bind.
  eapply gwp_patchVM; [exact Ht|exact Hv|exact Hv|apply edges_ok_refl|done|done|..].
  - intros e s' Hs. apply mwp_ret. by apply HErr.
  - intros v s' Ht' Hv' Hf _ Hn Hd. apply mwp_ret. by apply HOk.
Qed.

(** ** Lemmas: quiet programs *)

Ltac quiet_tac :=
  repeat first
    [ apply quiet_ret | apply quiet_gets | apply quiet_cache
    | match goal with |- quiet (perform ?c) => exact (quiet_perform c eq_refl) end
    | apply quiet_bind; [|intros]
    | match goal with
      | |- quiet (match ?x with _ => _ end) => destruct x
      | |- quiet (let '_ := ?x in _) => destruct x
      end ].

Lemma quiet_Event vm t r m : quiet (Event vm t r m).
Proof. unfold Event. quiet_tac. Qed.

Lemma quiet_Since t : quiet (Since t).
Proof. unfold Since. quiet_tac. Qed.

Lemma quiet_Resolve cfg : quiet (Resolve cfg DefaultConnection).
Proof.
  unfold Resolve, resolveNamespaceSecret, resolveDefault, Load, readSecret. quiet_tac.
Qed.

Lemma quiet_saltClientFromConfig cfg : quiet (saltClientFromConfig DefaultConnection cfg).
Proof.
  unfold saltClientFromConfig, cache_get, cache_set. cbv zeta.
  repeat first [apply quiet_Resolve | progress quiet_tac].
Qed.

Lemma quiet_clearBootstrapKey vm : quiet (clearBootstrapKey vm).
Proof. unfold clearBootstrapKey. cbv zeta. quiet_tac. Qed.

Lemma quiet_sinceVSphereCreate vm : quiet (sinceVSphereCreate vm).
Proof.
  unfold sinceVSphereCreate. induction (vm_conditions vm) as [|c cs IH]; simpl; [quiet_tac|].
  destruct (is_created_condition c); [|done]. unfold Since. quiet_tac.
Qed.

Lemma quiet_minionIDOwner vm m : quiet (minionIDOwner vm m).
Proof. unfold minionIDOwner. quiet_tac. Qed.

Lemma quiet_writeBootstrapSecret vm m p mp : quiet (writeBootstrapSecret vm m p mp).
Proof. unfold writeBootstrapSecret. cbv zeta. quiet_tac. Qed.

Lemma quiet_masterLastSeen c : quiet (masterLastSeen c).
Proof. unfold masterLastSeen. quiet_tac. Qed.

Lemma quiet_masterSilence c b t : quiet (masterSilence c b t).
Proof. unfold masterSilence, masterLastSeen, Since. quiet_tac. Qed.

Lemma quiet_in_retry_window vm : quiet (in_retry_window vm).
Proof. unfold in_retry_window, Since. quiet_tac. Qed.

Lemma quiet_findSaltKeyConfig ns : quiet (findSaltKeyConfig ns).
Proof. unfold findSaltKeyConfig. quiet_tac. Qed.

(** ** Lemmas: the handlers *)

(** Every handler ends with the stored VM in the invariant. *)
Definition keeps f (m : ctl outcome) s : Prop := gwp f m s (fun _ f' s' => SInv f' s').

Lemma keeps_quiet f (m : ctl outcome) s vm : quiet m -> Tracks s vm -> VInv f vm -> keeps f m s.
Proof.
  intros Hm Ht Hv. eapply gwp_quiet; [done|exact Ht|]. intros a s' Ht'. by eapply Tracks_SInv.
Qed.

Lemma keeps_ret f o s vm : Tracks s vm -> VInv f vm -> keeps f (mret o) s.
Proof. intros. eapply keeps_quiet; [apply quiet_ret|done..]. Qed.

(** A quiet step, then the rest. *)
Lemma keeps_step {A} f (m : ctl A) (g : A -> ctl outcome) s vm :
  quiet m -> Tracks s vm -> (forall a s', Tracks s' vm -> keeps f (g a) s') -> keeps f (m ≫= g) s.
Proof. intros Hm Ht Hg. apply mwp_bind. by eapply gwp_quiet. Qed.

(** A patch, then the rest: on an error the handler returns it. *)
Lemma keeps_patch f s vm adds (g : VM -> option error -> ctl outcome) :
  Tracks s vm -> VInv f vm ->
  Good f (being_deleted vm) (upd (fields_of vm) adds) ->
  edges_ok (fields_of vm) (upd (fields_of vm) adds) = true ->
  (forall v e, g v (Some e) = mret (Fail e)) ->
  (forall v s', Tracks s' v -> VInv f v -> fields_of v = upd (fields_of vm) adds ->
     (being_deleted vm = true -> being_deleted v = true) -> vm_name v = vm_name vm ->
     keeps f (g v None) s') ->
  keeps f ('(v, pe) ← patchAnnotations vm adds; g v pe) s.
Proof.
  intros Ht Hv Hv1 Hed He Hg. apply mwp_bind.
  eapply gwp_patchAnnotations; [exact Ht|exact Hv|exact Hv1|exact Hed|..].
  - intros v e s' _ Hs. rewrite He. by apply mwp_ret.
  - intros v s' **. by apply Hg.
Qed.

Lemma quiet_event_done vm t r m (o : outcome) : quiet (A := outcome) (Event vm t r m ;; mret o).
Proof. unfold Event. quiet_tac. Qed.

(** A patch that ends the handler. *)
Lemma keeps_last f s vm adds (g : VM -> option error -> ctl outcome) :
  Tracks s vm -> VInv f vm ->
  Good f (being_deleted vm) (upd (fields_of vm) adds) ->
  edges_ok (fields_of vm) (upd (fields_of vm) adds) = true ->
  (forall v e, g v (Some e) = mret (Fail e)) -> (forall v, quiet (g v None)) ->
  keeps f ('(v, pe) ← patchAnnotations vm adds; g v pe) s.
Proof.
  intros Ht Hv Hg Hed He Hq. apply keeps_patch; auto. intros v s' Ht' Hv' _ _ _. by eapply keeps_quiet.
Qed.

(** The ghost state matters to a VM whose pillar was just refreshed only. *)
Lemma VInv_ghost f f' vm : VInv f vm -> f_ss (fields_of vm) <> "PillarRefreshed" -> VInv f' vm.
Proof. intros [HI _] Hs. by split. Qed.

(** The invariant after a literal patch, from the invariant before. *)
Ltac good :=
  rewrite ?upd_withMarkers, ?upd_retry_markers;
  unfold upd; rewrite ?anns_lookup; cbn [alist_get]; closed_eqb; cbn [default from_option]; unfold id;
  match goal with H : VInv _ _ |- _ => destruct H as [[] ?] end;
  split; [constructor|];
  cbn [f_ks f_mid f_mm f_ss f_ready f_jid f_hs f_hash f_cleared f_count];
  repeat match goal with
    | H : f_ks _ = _ |- _ => rewrite H in *
    | H : f_ss _ = _ |- _ => rewrite H in *
    end;
  try solve [ done | assumption | intros; discriminate | auto with go
            | split; auto with go
            | split; intros; discriminate | split; auto; discriminate | intuition congruence
            | match goal with H : _ = annotationTrue <-> _ |- _ => rewrite H end; split; discriminate ].

(** A literal patch moves the statuses along the phase table. *)
Ltac edges :=
  rewrite ?upd_withMarkers, ?upd_retry_markers;
  unfold edges_ok, upd; rewrite ?anns_lookup; cbn [alist_get]; closed_eqb; cbn [default from_option]; unfold id;
  cbn [f_ks f_ss];
  repeat match goal with
    | H : f_ks _ = _ |- _ => rewrite H
    | H : f_ss _ = _ |- _ => rewrite H
    | H : edge _ _ _ = true |- _ => rewrite H
    end;
  unfold edge; rewrite ?String.eqb_refl; reflexivity.

Ltac quiet_solve :=
  repeat first [ apply quiet_masterLastSeen | apply quiet_masterSilence | apply quiet_in_retry_window
               | apply quiet_Since | apply quiet_Event | apply quiet_saltClientFromConfig
               | apply quiet_clearBootstrapKey | apply quiet_sinceVSphereCreate
               | apply quiet_minionIDOwner | apply quiet_writeBootstrapSecret
               | apply quiet_findSaltKeyConfig | progress quiet_tac ].

(** Run a quiet step; end with a quiet program. *)
Ltac qstep := eapply keeps_step; [solve [quiet_solve] | eassumption | intros ???].
Ltac qend := eapply keeps_quiet; [solve [quiet_solve] | eassumption | eassumption].
Ltac plast := apply keeps_last; [eassumption | eassumption | good | edges | done | intros; quiet_solve].

Lemma keeps_runRefreshPillar f s vm c rq :
  Tracks s vm -> VInv f vm -> f_ks (fields_of vm) = keyStatusAccepted -> f_ss (fields_of vm) = "Pinged" ->
  keeps f (runRefreshPillar vm c (ann vm AnnotationMinionID) rq) s.
Proof.
  intros Ht Hv Hks Hss. unfold runRefreshPillar. qstep. qstep.
  apply mwp_bind. eapply gwp_refresh; [eassumption|]. intros r s3 Ht3.
  assert (forall f', VInv f' vm) as Hv' by (intros; eapply VInv_ghost; [done|by rewrite Hss]).
  specialize (Hv' (if step_failed r then None else Some (ann vm AnnotationMinionID))).
  destruct (step_failed r).
  - qstep. cbv zeta. qstep. case_match; [qend|plast].
  - plast.
Qed.

Lemma keeps_runDispatchHighstate f s vm c rq :
  Tracks s vm -> VInv f vm -> f_ks (fields_of vm) = keyStatusAccepted ->
  f_ss (fields_of vm) = "PillarRefreshed" ->
  keeps f (runDispatchHighstate vm c (ann vm AnnotationMinionID) rq) s.
Proof.
  intros Ht Hv Hks Hss. unfold runDispatchHighstate. apply mwp_bind.
  eapply gwp_dispatch; [eassumption|by apply Hv|]. intros [jid|e] s1 Ht1 Hj; [|plast].
  specialize (Hj jid eq_refl). cbv zeta. plast.
Qed.

Lemma keeps_runPollHighstate f s vm c m j rq :
  Tracks s vm -> VInv f vm -> f_ks (fields_of vm) = keyStatusAccepted ->
  f_ss (fields_of vm) = saltStatusHighstateDispatched ->
  keeps f (runPollHighstate vm c m j rq) s.
Proof.
  intros Ht Hv Hks Hss. unfold runPollHighstate. case_match; [qend|]. apply mwp_bind.
  assert (forall f', VInv f' vm) as Hv' by (intros; eapply VInv_ghost; [done|by rewrite Hss]).
  eapply gwp_poll; [eassumption|]. intros r s1 Ht1. specialize (Hv' None).
  destruct r as [[result|]|]; [|qend..]. qstep. cbv zeta. case_match; plast.
Qed.

Lemma keeps_runDay2 f s vm c cfg a rq :
  Tracks s vm -> VInv f vm -> f_ks (fields_of vm) = keyStatusAccepted ->
  f_ss (fields_of vm) = saltStatusReady ->
  keeps f (runDay2 vm c (f_mid (fields_of vm))
             (add_retry_markers cfg a (anns [(AnnotationRolesHash, computeIntentHash a)])) rq) s.
Proof.
  intros Ht Hv Hks Hss. unfold runDay2. qstep. qstep.
  apply mwp_bind. eapply gwp_refresh; [eassumption|]. intros r s3 Ht3.
  assert (forall f', VInv f' vm) as Hv' by (intros; eapply VInv_ghost; [done|by rewrite Hss]).
  specialize (Hv' (if step_failed r then None else Some (f_mid (fields_of vm)))).
  destruct (step_failed r).
  - qstep. cbv zeta. plast.
  - apply mwp_bind. eapply gwp_dispatch; [eassumption|done|].
    intros [jid|e] s4 Ht4 Hj; [|plast]. specialize (Hj jid eq_refl). plast.
Qed.

Definition failed_ss fs : bool := HasPrefix (f_ss fs) failedStatusPrefix.

(** A terminal status: what [checkReconvergence] is called on. *)
Lemma failed_not_refreshed fs : failed_ss fs = true -> f_ss fs <> "PillarRefreshed".
Proof. unfold failed_ss. intros Hf Hs. by rewrite Hs in Hf. Qed.

Lemma restart_edge f vm :
  VInv f vm -> failed_ss (fields_of vm) = true -> edge chain_edges (f_ss (fields_of vm)) "" = true.
Proof.
  intros [HI _] Hf. pose proof (inv_salt_status _ _ HI) as Hs.
  unfold one_of in Hs. apply existsb_exists in Hs as (x & Hin & Hx).
  apply String.eqb_eq in Hx. unfold failed_ss in Hf. rewrite Hx in *.
  repeat (destruct Hin as [<-|Hin]; [done|]). done.
Qed.

Lemma keeps_restartFirstChain f s vm cfg m rq :
  Tracks s vm -> VInv f vm -> failed_ss (fields_of vm) = true ->
  keeps f (restartFirstChain vm cfg m rq) s.
Proof.
  intros Ht Hv Hf. pose proof (restart_edge _ _ Hv Hf).
  unfold restartFirstChain. cbv zeta. case_match; [qend|plast].
Qed.

(** [a] are the annotations read at the start of the handler: a bulk retry mark may have been
    written since. *)
Lemma keeps_reconverge f s vm c cfg a rq :
  Tracks s vm -> VInv f vm -> fields a = fields_of vm -> f_ks (fields_of vm) = keyStatusAccepted ->
  f_ss (fields_of vm) = saltStatusReady \/ failed_ss (fields_of vm) = true ->
  keeps f (reconverge vm c cfg a (f_mid (fields_of vm)) rq) s.
Proof.
  intros Ht Hv Ha Hks Hss. unfold reconverge.
  change (HasPrefix _ _) with (failed_ss (fields a)). rewrite Ha.
  cbv zeta. destruct (failed_ss (fields_of vm)) eqn:Hf.
  - pose proof (restart_edge _ _ Hv Hf). plast.
  - destruct Hss as [Hss|]; [|done]. by apply keeps_runDay2.
Qed.

Lemma upd_bulk fs v : upd fs (anns [(AnnotationBulkRetryHandled, v)]) = fs.
Proof. unfold upd. rewrite !anns_lookup. by destruct fs. Qed.

Lemma keeps_checkTriggers f s vm c cfg rq :
  Tracks s vm -> VInv f vm -> f_ks (fields_of vm) = keyStatusAccepted ->
  f_ss (fields_of vm) = saltStatusReady \/ failed_ss (fields_of vm) = true ->
  keeps f (checkTriggers vm c cfg (GetAnnotations vm) (f_mid (fields_of vm)) rq) s.
Proof.
  intros Ht Hv Hks Hss. unfold checkTriggers. cbv zeta.
  case_match; [|by apply keeps_reconverge].
  assert (forall v s', Tracks s' v -> VInv f v -> fields_of v = fields_of vm ->
    keeps f (if mget (GetAnnotations vm) AnnotationSaltStatus <>s? saltStatusReady then mret (Done 0)
             else now ← perform CNow;
                  let '(due, wait) := enforcementDue cfg (vm_uid v)
                        (mget (GetAnnotations vm) AnnotationHighstateTime) now in
                  if negb due then mret (Done wait)
                  else reconverge v c cfg (GetAnnotations vm) (f_mid (fields_of vm)) rq) s') as Hrest.
  { intros v s' Ht' Hv' Hf. case_match; [qend|]. qstep. case_match. case_match; [qend|].
    rewrite <- Hf in *. by apply keeps_reconverge. }
  destruct (bulk_changed cfg (GetAnnotations vm)).
  - apply keeps_patch; [done|done|by rewrite upd_bulk|rewrite upd_bulk; apply edges_ok_refl|done|].
    intros v s' Ht' Hv' Hf _ _. rewrite upd_bulk in Hf. by apply Hrest.
  - apply mwp_bind, mwp_ret. by apply Hrest.
Qed.

Lemma keeps_checkReconvergence f s vm c cfg rq :
  Tracks s vm -> VInv f vm -> f_ks (fields_of vm) = keyStatusAccepted ->
  f_ss (fields_of vm) = saltStatusReady \/ failed_ss (fields_of vm) = true ->
  keeps f (checkReconvergence vm c cfg (f_mid (fields_of vm)) rq) s.
Proof.
  intros Ht Hv Hks Hss. unfold checkReconvergence. cbv zeta.
  change (mget _ AnnotationRolesHash) with (f_hash (fields_of vm)).
  change (HasPrefix (mget _ _) _) with (failed_ss (fields_of vm)).
  destruct (f_hash (fields_of vm) =s? "") eqn:Hh; reflect_bools.
  - destruct (failed_ss (fields_of vm)) eqn:Hf; [by apply keeps_restartFirstChain|qend].
  - rewrite (inv_hash _ _ (proj1 Hv) Hh). apply mwp_bind, mwp_ret. by apply keeps_checkTriggers.
Qed.

(** Reading the chain's position: the statuses other than the four running ones are terminal. *)
Lemma terminal_status f vm :
  VInv f vm -> f_ss (fields_of vm) <> "" -> f_ss (fields_of vm) <> "Pinged" ->
  f_ss (fields_of vm) <> "PillarRefreshed" -> f_ss (fields_of vm) <> saltStatusHighstateDispatched ->
  f_ss (fields_of vm) = saltStatusReady \/ failed_ss (fields_of vm) = true.
Proof.
  intros [HI _] ????. pose proof (inv_salt_status _ _ HI) as Hs.
  unfold one_of, salt_statuses in Hs. apply existsb_exists in Hs as (x & Hin & Hx).
  apply String.eqb_eq in Hx. unfold failed_ss. rewrite Hx in *.
  repeat (destruct Hin as [<-|Hin]; [auto; done|]). done.
Qed.

(** What [clearPreseedKey] leaves: a preseeded VM has its key-cleared mark, the rest is as before. *)
Definition cleared_from (fs fs' : Fields) : Prop :=
  f_ks fs' = f_ks fs /\ f_ss fs' = f_ss fs /\ f_mm fs' = f_mm fs /\ f_mid fs' = f_mid fs
  /\ (f_mm fs = matchMethodPreseed -> f_cleared fs' = annotationTrue).

Lemma gwp_clearPreseedKey f s vm m Q :
  Tracks s vm -> VInv f vm ->
  (forall v e s', SInv f s' -> Q (v, Some e) f s') ->
  (forall v s', Tracks s' v -> VInv f v -> cleared_from (fields_of vm) (fields_of v) ->
     Q (v, None) f s') ->
  gwp f (clearPreseedKey vm m) s Q.
Proof.
  intros Ht Hv HErr HOk. unfold clearPreseedKey.
  change (ann vm AnnotationMatchMethod) with (f_mm (fields_of vm)).
  change (ann vm AnnotationKeyCleared) with (f_cleared (fields_of vm)).
  destruct (f_mm (fields_of vm) =s? matchMethodPreseed) eqn:Hm; reflect_bools; cycle 1.
  { by apply mwp_ret, HOk. }
  destruct (f_cleared (fields_of vm) =s? annotationTrue) eqn:Hc; reflect_bools.
  { by apply mwp_ret, HOk. }
  apply mwp_bind. eapply gwp_quiet; [apply quiet_clearBootstrapKey|done|]. intros [e|] s1 Ht1.
  { apply mwp_ret, HErr. by eapply Tracks_SInv. }
  apply mwp_bind. eapply gwp_patchAnnotations; [done|done|good|edges|..].
  - intros v e s2 _ Hs2. by apply mwp_ret, HErr.
  - intros v s2 Ht2 Hv2 Hf Hd Hn. apply mwp_bind.
    eapply gwp_quiet; [apply quiet_Event|done|]. intros _ s3 Ht3. apply mwp_ret, HOk; [done..|].
    rewrite Hf. unfold cleared_from, upd. by rewrite !anns_lookup.
Qed.

(** Clearing, then the rest. *)
Lemma keeps_clear f s vm m (g : VM -> option error -> ctl outcome) :
  Tracks s vm -> VInv f vm -> (forall v e, g v (Some e) = mret (Fail e)) ->
  (forall v s', Tracks s' v -> VInv f v -> cleared_from (fields_of vm) (fields_of v) ->
     keeps f (g v None) s') ->
  keeps f ('(v, ce) ← clearPreseedKey vm m; g v ce) s.
Proof.
  intros Ht Hv He Hg. apply mwp_bind. eapply gwp_clearPreseedKey; [done|done|..].
  - intros v e s' Hs. rewrite He. by apply mwp_ret.
  - intros v s' **. by apply Hg.
Qed.

Lemma keeps_runPing f s vm c rq :
  Tracks s vm -> VInv f vm -> f_ks (fields_of vm) = keyStatusAccepted -> f_ss (fields_of vm) = "" ->
  keeps f (runPing vm c (ann vm AnnotationMinionID) rq) s.
Proof.
  intros Ht Hv Hks Hss. unfold runPing. qstep. qstep.
  apply mwp_bind. eapply gwp_ping; [eassumption|]. intros r s3 Ht3.
  assert (VInv None vm) as Hv' by (eapply VInv_ghost; [done|by rewrite Hss]). clear Hv.
  destruct (step_failed r).
  - qstep. cbv zeta. qstep. case_match; [qend|]. apply keeps_clear; [done..|].
    intros v s6 Ht6 Hv6 (Hk6 & Hs6 & Hm6 & _ & Hc6). rewrite Hks in Hk6. rewrite Hss in Hs6.
    rewrite <- Hm6 in Hc6. clear Hv'. plast.
  - apply keeps_clear; [done..|].
    intros v s6 Ht6 Hv6 (Hk6 & Hs6 & Hm6 & _ & Hc6). rewrite Hks in Hk6. rewrite Hss in Hs6.
    rewrite <- Hm6 in Hc6. clear Hv'. plast.
Qed.

Lemma keeps_reconcilePostAccept f s vm c cfg rq :
  Tracks s vm -> VInv f vm -> f_ks (fields_of vm) = keyStatusAccepted ->
  keeps f (reconcilePostAccept vm c cfg (ann vm AnnotationMinionID) rq) s.
Proof.
  intros Ht Hv Hks. unfold reconcilePostAccept. case_match; [qend|]. cbv zeta.
  change (ann vm AnnotationSaltStatus) with (f_ss (fields_of vm)).
  destruct (f_ss (fields_of vm) =s? "") eqn:E1; reflect_bools.
  { qstep. case_match; [qend|]. by apply keeps_runPing. }
  destruct (f_ss (fields_of vm) =s? "Pinged") eqn:E2; reflect_bools; [by apply keeps_runRefreshPillar|].
  destruct (f_ss (fields_of vm) =s? "PillarRefreshed") eqn:E3; reflect_bools;
    [by apply keeps_runDispatchHighstate|].
  destruct (f_ss (fields_of vm) =s? saltStatusHighstateDispatched) eqn:E4; reflect_bools;
    [by apply keeps_runPollHighstate|].
  apply keeps_checkReconvergence; [done..|]. by eapply terminal_status.
Qed.

(** The key of a VM in the key phases is not deleted: that starts with the VM's own deletion. *)
Definition live_key (fs : Fields) : bool := negb (one_of (f_ks fs) [keyStatusDeleted; "DeleteFailed"]).

Lemma not_deleted_live f vm : VInv f vm -> being_deleted vm = false -> live_key (fields_of vm) = true.
Proof.
  intros [HI _] Hd. unfold live_key. destruct (one_of _ _) eqn:E; [|done].
  apply (inv_deleted _ _ HI) in E. congruence.
Qed.

Lemma unaccepted_no_chain f vm :
  VInv f vm -> live_key (fields_of vm) = true -> f_ks (fields_of vm) <> keyStatusAccepted ->
  f_ss (fields_of vm) = "".
Proof.
  intros [HI _] Hl Hk. destruct (decide (f_ss (fields_of vm) = "")) as [|Hs]; [done|].
  apply (inv_chain_accepted _ _ HI) in Hs. unfold live_key in Hl. simpl in *.
  apply String.eqb_neq in Hk. rewrite Hk in Hs. simpl in Hs. by rewrite Hs in Hl.
Qed.

Lemma Tracks_name s vm : Tracks s vm -> vm_name vm <> "".
Proof. intros [<- _]. exact name_nonempty. Qed.

Lemma keeps_markPreseedAccepted f s vm rq :
  Tracks s vm -> VInv f vm -> f_ks (fields_of vm) = keyStatusPreseeded ->
  keeps f (markPreseedAccepted vm rq) s.
Proof.
  intros Ht Hv Hks. unfold markPreseedAccepted. cbv zeta. qstep. plast.
Qed.

(** A key the operator still looks for. *)
Lemma open_key_edges (x : string) :
  x = "" \/ x = keyStatusFailed ->
  edge key_edges x keyStatusPreseeded = true /\ edge key_edges x keyStatusAccepted = true
  /\ edge key_edges x keyStatusFailed = true.
Proof. by intros [-> | ->]. Qed.

(** A key that can be deleted. *)
Lemma delete_key_edges f vm :
  VInv f vm -> f_mid (fields_of vm) <> "" -> f_ks (fields_of vm) <> keyStatusDeleted ->
  edge key_edges (f_ks (fields_of vm)) keyStatusDeleted = true
  /\ edge key_edges (f_ks (fields_of vm)) "DeleteFailed" = true.
Proof.
  intros [HI _] Hm Hd. pose proof (inv_minion_status _ _ HI Hm). pose proof (inv_key_status _ _ HI) as Hk.
  unfold one_of in Hk. apply existsb_exists in Hk as (x & Hin & Hx). apply String.eqb_eq in Hx.
  rewrite Hx in *. repeat (destruct Hin as [<-|Hin]; [done|]). done.
Qed.

Lemma keeps_finishPreseed f s vm c p rq :
  Tracks s vm -> VInv f vm -> f_ss (fields_of vm) = "" ->
  edge key_edges (f_ks (fields_of vm)) keyStatusPreseeded = true ->
  keeps f (finishPreseed vm c (vm_name vm) p rq) s.
Proof.
  intros Ht Hv Hss He. unfold finishPreseed. pose proof (Tracks_name _ _ Ht) as Hn.
  qstep. case_match; [|qend]. qstep. case_match; [qend|].
  apply mwp_bind. eapply gwp_addSaltFinalizer; [eassumption|done|..].
  - intros v e s4 Hs4. by apply mwp_ret.
  - intros v s4 Ht4 Hv4 Hf4 _ Hn4. rewrite <- Hf4 in Hss, He. clear Hv Hf4. plast.
Qed.

Lemma keeps_runPreseedKey f s vm c rq :
  Tracks s vm -> VInv f vm -> f_ss (fields_of vm) = "" ->
  f_ks (fields_of vm) = "" \/ f_ks (fields_of vm) = keyStatusFailed ->
  keeps f (runPreseedKey vm c rq) s.
Proof.
  intros Ht Hv Hss (Hp & _ & Hfl)%open_key_edges. unfold runPreseedKey. cbv zeta. qstep.
  case_match; [|qend]. case_match; [case_match; [qend|plast]|].
  qstep. case_match; [|qend]. qstep. qstep. case_match; [|qend]. case_match; [|qend].
  by apply keeps_finishPreseed.
Qed.

Lemma method_not_preseed m : method_string m <> matchMethodPreseed.
Proof. by destruct m. Qed.

Lemma keeps_runAcceptKey f s vm c ip at' rq :
  Tracks s vm -> VInv f vm -> f_ss (fields_of vm) = "" -> f_mm (fields_of vm) <> matchMethodPreseed ->
  f_ks (fields_of vm) = "" \/ f_ks (fields_of vm) = keyStatusFailed ->
  keeps f (runAcceptKey vm c ip at' rq) s.
Proof.
  intros Ht Hv Hss Hmm (_ & Ha & Hfl)%open_key_edges. unfold runAcceptKey. qstep. case_match; [|qend]. cbv zeta.
  case_bool_decide as Hm; cbn [negb].
  { qstep. case_match. case_match; [qend|]. case_match; [qend|plast]. }
  assert (MinionID (FindMinionID (vm_name vm) ip a0) <> "") as Hid.
  { eapply key_matches_nonempty; [by eapply Tracks_name|by apply FindMinionID_matches]. }
  qstep. case_match; [qend|]. qstep.
  pose proof (method_not_preseed (Method (FindMinionID (vm_name vm) ip a0))) as Hmp.
  apply keeps_patch; [eassumption|done|good|edges|done|].
  intros v s4 Ht4 Hv4 _ _ _. apply mwp_bind. eapply gwp_addSaltFinalizer; [eassumption|done|..].
  - intros v5 e s5 Hs5. by apply mwp_ret.
  - intros v5 s5 Ht5 Hv5 _ _ _. qend.
Qed.

Lemma keeps_reconcileKey f s vm cfg b at' rq :
  Tracks s vm -> VInv f vm -> live_key (fields_of vm) = true ->
  f_ks (fields_of vm) <> keyStatusAccepted ->
  keeps f (reconcileKey DefaultConnection vm cfg b at' rq) s.
Proof.
  intros Ht Hv Hl Hks. pose proof (unaccepted_no_chain _ _ Hv Hl Hks) as Hss.
  unfold reconcileKey. cbv zeta.
  change (ann vm AnnotationKeyStatus) with (f_ks (fields_of vm)).
  change (ann vm AnnotationMatchMethod) with (f_mm (fields_of vm)).
  assert (f_ks (fields_of vm) <> keyStatusPreseeded ->
          f_ks (fields_of vm) = "" \/ f_ks (fields_of vm) = keyStatusFailed) as Hopen.
  { intros Hp. pose proof (inv_key_status _ _ (proj1 Hv)) as Hk.
    unfold one_of in Hk. apply existsb_exists in Hk as (x & Hin & Hx). apply String.eqb_eq in Hx.
    unfold live_key in Hl. rewrite Hx in *. repeat (destruct Hin as [<-|Hin]; [auto; done|]). done. }
  destruct ((_ =s? keyStatusFailed) && _) eqn:Ef; [qend|].
  destruct ((KeyAcceptance _ =s? _) && _) eqn:Ea.
  { reflect_bools. qstep. case_match; [|qend]. apply keeps_runPreseedKey; auto. }
  case_match eqn:Et; [reflect_bools; plast|]. case_match; [qend|]. case_match eqn:Ep; reflect_bools.
  { by apply keeps_markPreseedAccepted. }
  qstep. case_match; [|qend]. apply keeps_runAcceptKey; auto.
  intros Hm. rewrite Hm, andb_true_r in Ef. reflect_bools.
  pose proof (inv_preseed_status _ _ (proj1 Hv) Hm). by destruct (Hopen Ep).
Qed.

Lemma keeps_reconcileAccepted f s vm cfg rq :
  Tracks s vm -> VInv f vm -> f_ks (fields_of vm) = keyStatusAccepted ->
  keeps f (reconcileAccepted DefaultConnection vm cfg rq) s.
Proof.
  intros Ht Hv Hks. unfold reconcileAccepted. apply mwp_bind.
  eapply gwp_addSaltFinalizer; [eassumption|done|..].
  - intros v e s1 Hs1. by apply mwp_ret.
  - intros v s1 Ht1 Hv1 Hf1 _ _. rewrite <- Hf1 in Hks. qstep. case_match; [|qend].
    by apply keeps_reconcilePostAccept.
Qed.

Lemma keeps_reconcileCreate f s vm cfg :
  Tracks s vm -> VInv f vm -> being_deleted vm = false ->
  keeps f (reconcileCreate DefaultConnection vm cfg) s.
Proof.
  intros Ht Hv Hd. pose proof (not_deleted_live _ _ Hv Hd) as Hl. unfold reconcileCreate. cbv zeta.
  qstep. case_match.
  assert (forall v s' b x y, Tracks s' v -> VInv f v -> live_key (fields_of v) = true ->
    keeps f (if ann v AnnotationKeyStatus <>s? keyStatusAccepted
             then reconcileKey DefaultConnection v cfg b x y
             else reconcileAccepted DefaultConnection v cfg y) s') as Hrest.
  { intros v s2 b' x y Ht2 Hv2 Hl2. case_match; reflect_bools.
    - by apply keeps_reconcileKey.
    - by apply keeps_reconcileAccepted. }
  assert (forall fs fs', cleared_from fs fs' -> live_key fs = true -> live_key fs' = true) as Hcl.
  { intros fs fs' (Hk & _) Hlk. unfold live_key in *. by rewrite Hk. }
  case_match; [apply keeps_clear; eauto|]. case_match; [apply keeps_clear; eauto|].
  apply mwp_bind, mwp_ret. by apply Hrest.
Qed.

(** Reading the VM gives an object that tracks the stored one. *)
Lemma gwp_GetVM f s Q :
  SInv f s ->
  (forall e s', SInv f s' -> Q (Err e) f s') ->
  (forall v s', Tracks s' v -> VInv f v -> Q (Ok v) f s') ->
  gwp f (perform (CGetVM k.1 k.2)) s Q.
Proof.
  intros Hs HErr HOk. apply mwp_perform. intros r w' E. exists f. split; [done|].
  pose proof (cluster_step _ _ _ _ E) as Hst. simpl in Hst.
  rewrite decide_True in Hst by (by destruct k). destruct r as [v|e].
  - destruct Hst as [Hi Hi']. inversion Hi as [|v0 ? Hso E0]; subst.
    symmetry in E0. pose proof (cluster_key _ _ E0) as Hk.
    assert (vm_key v = k) as Hkv.
    { rewrite <- Hk. destruct Hso as (_ & Hn & Hns & _). unfold vm_key. congruence. }
    apply HOk; [|eapply VInv_same_owned; [done|by apply Hs]].
    split; [done|]. simpl. intros cur Hc. rewrite Hc in Hi'. by inversion Hi'.
  - apply HErr. intros cur Hc. simpl in Hc. rewrite Hc in Hst. inversion Hst as [|v0 ? Hso E0]; subst.
    eapply VInv_same_owned; [done|]. by apply Hs.
Qed.

Lemma keeps_removeSaltFinalizer f s vm :
  SInv f s -> vm_key vm = k -> keeps f (removeSaltFinalizer vm) s.
Proof.
  intros Hs Hk. unfold removeSaltFinalizer. apply mwp_bind.
  replace (vm_namespace vm) with k.1 by (by rewrite <- Hk).
  replace (vm_name vm) with k.2 by (by rewrite <- Hk).
  apply gwp_GetVM; [done|..].
  - intros e s' Hs'. by apply mwp_ret.
  - intros v s' Ht' Hv'. case_match; [|qend]. apply mwp_bind.
    eapply gwp_patchVM; [done|exact Hv'|exact Hv'|apply edges_ok_refl|done|done|..].
    + intros e s2 Hs2. by apply mwp_ret.
    + intros v2 s2 Ht2 Hv2 _ _ _ _. qend.
Qed.

Lemma gwp_Event_SInv f s vm t r m Q :
  SInv f s -> (forall s', SInv f s' -> Q tt f s') -> gwp f (Event vm t r m) s Q.
Proof.
  intros Hs HQ. unfold Event. refine (mwp_perform fresh_step f (CEvent vm t r m) s Q _). intros [] w' E. exists f. split; [done|]. apply HQ.
  intros cur Hc. pose proof (step_interferes _ _ _ _ E ltac:(done)) as Hi. simpl in Hc.
  rewrite Hc in Hi. inversion Hi as [|v0 ? Hso E0]; subst. eapply VInv_same_owned; [done|]. by apply Hs.
Qed.

Lemma keeps_reconcileDelete f s vm cfg :
  Tracks s vm -> VInv f vm -> being_deleted vm = true ->
  keeps f (reconcileDelete DefaultConnection vm cfg) s.
Proof.
  intros Ht Hv Hd. unfold reconcileDelete. cbv zeta.
  change (ann vm AnnotationMinionID) with (f_mid (fields_of vm)).
  change (ann vm AnnotationKeyStatus) with (f_ks (fields_of vm)).
  case_match eqn:Em; [qend|]. case_match; reflect_bools.
  { apply keeps_removeSaltFinalizer; [by eapply Tracks_SInv|by apply Ht]. }
  destruct (delete_key_edges _ _ Hv) as [He1 He2]; [done..|].
  qstep. case_match; [|qend]. eapply keeps_step; [quiet_solve|eassumption|]. intros de s2 Ht2.
  assert (forall v s3, vm_key v = k -> SInv f s3 -> forall t r m,
            keeps f (Event v t r m ;; removeSaltFinalizer v) s3) as Hend.
  { intros v s3 Hk Hs t r m. apply mwp_bind. apply gwp_Event_SInv; [done|]. intros s4 Hs4.
    by apply keeps_removeSaltFinalizer. }
  destruct de as [e|]; apply mwp_bind;
    (eapply gwp_patchAnnotations; [eassumption|done|good|edges| |]; intros; apply Hend; auto;
     [apply Ht || by match goal with H : Tracks _ ?v |- vm_key ?v = k => apply H end
     |by eapply Tracks_SInv]).
Qed.

Lemma keeps_Reconcile f s : SInv f s -> keeps f (Reconcile DefaultConnection k.1 k.2) s.
Proof.
  intros Hs. unfold Reconcile. apply mwp_bind. apply gwp_GetVM; [done|..].
  { intros e s' Hs'. by apply mwp_ret. }
  intros v s' Ht Hv. case_match; [qend|]. qstep. case_match; [|qend]. case_match; [|qend].
  case_match eqn:Hd; [by apply keeps_reconcileDelete|]. case_match; [qend|].
  by apply keeps_reconcileCreate.
Qed.

Lemma SInv_outside f s w' :
  SInv f s -> outside (stored (vs_world s)) (stored w') -> SInv f (set_world w' s).
Proof.
  intros Hs Ho cur Hc. simpl in Hc. rewrite Hc in Ho.
  inversion Ho as [x y Hi|v Hv E0]; subst.
  - inversion Hi as [|v0 ? Hso E0]; subst. eapply VInv_same_owned; [done|]. by apply Hs.
  - assert (forall x, x ∈ owned_keys -> mget (GetAnnotations cur) x = "") as Hm.
    { intros x Hx. unfold mget. by rewrite <- owned_lookup, Hv by done. }
    split; [constructor|]; unfold fields_of, fields; simpl;
      rewrite ?Hm by (vm_compute; reflexivity); done.
Qed.

Lemma fresh_ghost (t t' : list (obs C)) f f' :
  fresh_after None t = Some f -> fresh_after f t' = Some f' -> fresh_after None (t ++ t') = Some f'.
Proof. intros Ht Ht'. by rewrite monitor_app, Ht. Qed.

(** Every history keeps the pillar rule and the invariant. *)
Lemma history_inv s t :
  history DefaultConnection k stored s t -> exists f, fresh_after None t = Some f /\ SInv f s.
Proof.
  induction 1 as [s Hn Hc|s t a t' s' _ (f & Hf & Hs) E|s t w' _ (f & Hf & Hs) Ho|s t c _ (f & Hf & Hs)].
  - exists None. split; [done|]. intros cur Hcur. congruence.
  - destruct (wp_run _ _ _ _ _ _ (keeps_Reconcile f s Hs) E) as (f' & Hf' & Hs').
    exists f'. split; [by eapply fresh_ghost|done].
  - exists f. split; [done|]. by apply SInv_outside.
  - by exists f.
Qed.

End Proofs.

(** ** Lemmas: freshness *)

Lemma fresh_step_stays {C} (f : option string) m (o : obs C) :
  fresh_step f o = Some (Some m) ->
  (exists c, o = Obs (CRefreshPillar c m) (Ok true)) \/ (f = Some m /\ ends_freshness m o = false).
Proof.
  destruct o as [c r]. destruct c; simpl in *;
    try (intros [= ->]; by right); repeat case_match; intros; simplify_eq; eauto.
Qed.

Lemma fresh_after_refreshed {C} m (t : list (obs C)) :
  fresh_after None t = Some (Some m) -> pillar_fresh m t.
Proof.
  assert (forall f, fresh_after f t = Some (Some m) ->
    pillar_fresh m t \/ (f = Some m /\ Forall (fun o => ends_freshness m o = false) t)) as Hg.
  { induction t as [|o t IH]; intros f Hf; simpl in Hf; [simplify_eq; by right|].
    destruct (fresh_step f o) as [f'|] eqn:E; [|done].
    destruct (IH f' Hf) as [(c & t1 & t2 & -> & ?)|[-> Hall]].
    - left. by exists c, (o :: t1), t2.
    - apply fresh_step_stays in E as [[c ->]|[-> He]].
      + left. by exists c, [], t.
      + right. auto. }
  intros Hf. by destruct (Hg None Hf) as [|[? _]].
Qed.

Lemma dispatch_refreshed {C} (t1 t2 : list (obs C)) c m r f :
  fresh_after None (t1 ++ Obs (CDispatchHighstate c m) r :: t2) = Some f -> pillar_fresh m t1.
Proof.
  rewrite monitor_app. destruct (fresh_after None t1) as [f1|] eqn:E; [|done].
  simpl. case_decide; [subst|done]. intros _. by apply fresh_after_refreshed.
Qed.

Lemma fresh_after_patches {C} (t : list (obs C)) f f' b m r :
  fresh_after f t = Some f' -> Obs (CPatchVM b m) r ∈ t -> patch_ok b m = true.
Proof.
  revert f. induction t as [|o t IH]; intros f Hf Hin; [by apply not_elem_of_nil in Hin|].
  simpl in Hf. destruct (fresh_step f o) eqn:E; [|done].
  apply elem_of_cons in Hin as [<-|Hin]; [|by eapply IH].
  simpl in E. by destruct (patch_ok b m).
Qed.

(** ** The theorems *)

Section Theorems.
Context {W C : Type} `{GoUnicode} `{K8sLib} `{Env W C}.
Context (DefaultConnection : DefaultConn) (k : string * string) (stored : W -> option VM).
Context `{!ClusterLaws k stored} `{!SaltPromises W C}.

(** C1: In every history of a VM (reconciles with any API or Salt failure at any call, tenant
    changes between and during them, operator restarts), each highstate is dispatched on a fresh
    pillar: the same minion had a successful refresh_pillar before it, and since then no chain was
    restarted, no refresh failed or went to another minion, and no highstate finished. *)
Theorem highstate_needs_fresh_pillar s t t1 t2 c m r :
  k.2 <> "" -> history DefaultConnection k stored s t ->
  t = t1 ++ Obs (CDispatchHighstate c m) r :: t2 -> pillar_fresh m t1.
Proof.
  intros Hk Hh ->. destruct (history_inv DefaultConnection k stored Hk s _ Hh) as (f & Hf & _).
  by eapply dispatch_refreshed.
Qed.

(** C2: In every history of a VM, its annotations satisfy the invariant [FInv]: the key and chain
    statuses are those of the phase table, the chain only runs on an accepted key with a minion ID,
    a preseeded private key is marked cleared before the first ping result is recorded, ready is
    true exactly in status Ready with a successful highstate on record, a dispatched highstate has
    its job ID and intent hash, and the key is marked deleted only on a VM under deletion. *)
Theorem vm_annotations_invariant s t v :
  k.2 <> "" -> history DefaultConnection k stored s t ->
  stored (vs_world s) = Some v -> FInv (being_deleted v) (fields_of v).
Proof.
  intros Hk Hh Hv. destruct (history_inv DefaultConnection k stored Hk s t Hh) as (f & _ & Hs).
  by apply Hs.
Qed.

(** C3: In every history of a VM, each write the operator makes to it moves the key status and the
    chain status along the phase table: no phase is skipped, a chain that failed only restarts from
    its beginning, and a key once accepted only leaves that status by deletion. *)
Theorem phase_table_followed s t b m r :
  k.2 <> "" -> history DefaultConnection k stored s t ->
  Obs (CPatchVM b m) r ∈ t -> patch_ok b m = true.
Proof.
  intros Hk Hh Hin. destruct (history_inv DefaultConnection k stored Hk s t Hh) as (f & Hf & _).
  by eapply fresh_after_patches.
Qed.

End Theorems.

(** ** Witnesses: the demo VM from its creation to Ready *)

Section Witnesses.
#[local] Existing Instances ascii_only reference_lib server server_laws server_promises.

Lemma demo_run_history n s t :
  history no_default ("team", "vm-a") (stored_at ("team", "vm-a")) s t ->
  history no_default ("team", "vm-a") (stored_at ("team", "vm-a")) (demo_run n s t).1 (demo_run n s t).2.
Proof.
  revert s t. induction n as [|n IH]; intros s t Hs; [done|]. simpl.
  destruct (Reconcile no_default "team" "vm-a" s) as [[o t'] s1] eqn:E.
  apply IH. apply hist_outside; [by eapply hist_reconcile|].
  constructor. apply interferes_refl.
Qed.

Lemma demo_history n :
  history no_default ("team", "vm-a") (stored_at ("team", "vm-a")) (demo n).1 (demo n).2.
Proof.
  apply demo_run_history. change (demo_state _) with
    (set_world (vs_world (demo_state [demo_vm [(AnnotationManaged, "true")]])) (demo_state [])).
  apply hist_outside; [by apply hist_start|]. apply out_created. by vm_compute.
Qed.

(** C1 at the demo VM: the highstate dispatched in the fourth reconcile. *)
Lemma highstate_needs_fresh_pillar_witness :
  exists t1, (exists c r t2, (demo 6).2 = t1 ++ Obs (CDispatchHighstate c "vm-a") r :: t2)
    /\ pillar_fresh "vm-a" t1.
Proof.
  pose proof (take_drop_middle (demo 6).2 32
    (Obs (CDispatchHighstate ("https://raas.example", "u") "vm-a") (Ok "20260101000000000001"))) as Ht.
  specialize (Ht ltac:(vm_compute; reflexivity)). symmetry in Ht.
  exists (take 32 (demo 6).2). split; [by eauto|].
  pose proof (demo_history 6) as Hh. revert Hh Ht. generalize (take 32 (demo 6).2), (drop 33 (demo 6).2).
  generalize (demo 6). intros d t1 t2 Hh Ht.
  refine (highstate_needs_fresh_pillar no_default ("team", "vm-a") _ d.1 d.2 t1 t2 _ _ _ _ Hh Ht).
  discriminate.
Defined.

(** C2 at the demo VM, which is Ready after six reconciles. *)
Lemma vm_annotations_invariant_witness :
  exists v, stored_at ("team", "vm-a") (vs_world (demo 6).1) = Some v
    /\ f_ss (fields_of v) = saltStatusReady /\ FInv (being_deleted v) (fields_of v).
Proof.
  destruct (stored_at ("team", "vm-a") (vs_world (demo 6).1)) as [v|] eqn:E.
  - exists v. split; [done|]. split.
    + assert ((fun v => f_ss (fields_of v)) <$> stored_at ("team", "vm-a") (vs_world (demo 6).1)
              = Some saltStatusReady) as Hf by (vm_compute; reflexivity).
      rewrite E in Hf. by apply (inj Some) in Hf.
    + pose proof (demo_history 6) as Hh. revert Hh E. generalize (demo 6). intros d Hh E.
      refine (vm_annotations_invariant no_default ("team", "vm-a") _ d.1 d.2 v _ Hh E). discriminate.
  - exfalso. vm_compute in E. discriminate.
Defined.

(** C3 at the write that marks the demo VM Ready. *)
Lemma phase_table_followed_witness :
  exists b m, (exists r, Obs (CPatchVM b m) r ∈ (demo 6).2)
    /\ ann m AnnotationSaltStatus = saltStatusReady /\ patch_ok b m = true.
Proof.
  destruct ((demo 6).2 !! 40%nat) as [[c r]|] eqn:E; [|vm_compute in E; discriminate].
  assert (match c with CPatchVM _ m => ann m AnnotationSaltStatus = saltStatusReady | _ => False end) as Hc.
  { assert ((fun o => match obs_of o with CPatchVM _ m => ann m AnnotationSaltStatus | _ => "" end)
              <$> (demo 6).2 !! 40%nat = Some saltStatusReady) as Hf by (vm_compute; reflexivity).
    rewrite E in Hf. apply (inj Some) in Hf. cbn [obs_of projT1] in Hf. by destruct c. }
  apply list_elem_of_lookup_2 in E. pose proof (demo_history 6) as Hh.
  revert Hh E Hc. generalize (demo 6). intros d Hh Hin Hc.
  destruct c; try done. exists base, modified. split; [by exists r|]. split; [done|].
  refine (phase_table_followed no_default ("team", "vm-a") _ d.1 d.2 base modified r _ Hh Hin). discriminate.
Defined.

End Witnesses.
