(* ===== verification/ConfigController.v ===== *)
(** * The SaltKeyConfig controller ([internal/controller/saltkeyconfig_controller.go])

    The controller validates a config and reports the result in its Ready
    condition, which the VirtualMachine controller and the scavenger use to
    choose the configs they trust.  The theorems relate that condition to
    what the VirtualMachine controller gets from the config, and list the
    cases it leaves out: the enforcement interval, and whether RaaS is there
    ([RaasUp] are the worlds where it is). *)

From S2P Require Import Prelude GoStrings GoTime Api Effects Server RaasConn IntentHash.
From S2P Require Import VMController.

Local Open Scope Z_scope.

(** ** Model *)

Definition ConditionReady : string := "Ready".
Definition ReasonReady : string := "Ready".
Definition ReasonInvalidDuration : string := "InvalidDuration".
Definition ReasonInvalidSelector : string := "InvalidSelector".

Definition secretRetryInterval : Z := 30 * Second.

Definition secretReasons : list string :=
  [ReasonSecretNotFound; ReasonSecretInvalid; ReasonGetSecretFailed; ReasonConnectionMismatch].

(** [errors.As(err, &resolveErr)] for a [*raasconn.Error]. *)
Fixpoint as_raas_error (e : error) : option (string * message) :=
  match e with
  | ERaas r m => Some (r, m)
  | EText (Msg _ args) =>
      (fix go (l : list farg) : option (string * message) :=
         match l with
         | [] => None
         | FWrap e' :: _ => as_raas_error e'
         | _ :: l' => go l'
         end) args
  | EApi _ _ => None
  end.

(** What [time.ParseDuration] says of a text it rejects; the wording is not modelled. *)
Definition duration_error (s : string) : error := Errorf "time: invalid duration %q" [FStr s].

(** The Ready condition of [validate]: its transition time is left to [SetStatusCondition]. *)
Definition ready_condition (cfg : SaltKeyConfig) (status reason : string) (m : message) : Condition :=
  {| c_Type := ConditionReady; c_Status := status; c_ObservedGeneration := cfg_Generation cfg;
     c_LastTransitionTime := None; c_Reason := reason; c_Message := m |}.

(** The first of the duration fields that is set and does not parse. *)
Fixpoint bad_duration (fields : list (string * string)) : option (string * string) :=
  match fields with
  | [] => None
  | (name, val) :: fields' =>
      if val <>s? "" then
        match ParseDuration val with
        | Some _ => bad_duration fields'
        | None => Some (name, val)
        end
      else bad_duration fields'
  end.

Definition duration_fields (spec : SaltKeyConfigSpec) : list (string * string) :=
  [("acceptTimeout", AcceptTimeout spec); ("requeueInterval", RequeueInterval spec)].

Definition ready_message (conn : Connection) : message :=
  if conn_Source conn =s? SourceDefaultConnection then
    if conn_SkipTLSVerify conn
    then Msg "Using the operator's default RaaS connection, TLS verification skipped" []
    else Msg "Using the operator's default RaaS connection, TLS verification on" []
  else Msg "Credentials Secret found and valid" [].

Definition set_status (st : SaltKeyConfigStatus) (cfg : SaltKeyConfig) : SaltKeyConfig :=
  {| cfg_Name := cfg_Name cfg; cfg_Namespace := cfg_Namespace cfg; cfg_Labels := cfg_Labels cfg;
     cfg_ResourceVersion := cfg_ResourceVersion cfg; cfg_Generation := cfg_Generation cfg;
     cfg_Spec := cfg_Spec cfg; cfg_Status := st |}.

Section Controller.
Context {W C S : Type} `{GoUnicode} `{K8sLib} `{Env W C} `{HasWorld S W}.
Variable defaultConnection : DefaultConn.

Definition validate (cfg : SaltKeyConfig) : M C S Condition :=
  match bad_duration (duration_fields (cfg_Spec cfg)) with
  | Some (name, val) =>
      mret (ready_condition cfg ConditionFalse ReasonInvalidDuration
              (Msg "spec.%s %q is not a valid duration: %v"
                   [FStr name; FStr val; FErr (duration_error val)]))
  | None =>
      match (match VMSelector (cfg_Spec cfg) with
             | Some sel => match LabelSelectorAsSelector sel with Ok _ => None | Err e => Some e end
             | None => None
             end) with
      | Some e =>
          mret (ready_condition cfg ConditionFalse ReasonInvalidSelector
                  (Msg "spec.vmSelector is not a valid label selector: %v" [FErr e]))
      | None =>
          r ← Resolve cfg defaultConnection;
          match r with
          | Err e =>
              match as_raas_error e with
              | Some (reason, m) => mret (ready_condition cfg ConditionFalse reason m)
              | None => mret (ready_condition cfg ConditionFalse ReasonGetSecretFailed (Msg "%v" [FErr e]))
              end
          | Ok conn => mret (ready_condition cfg ConditionTrue ReasonReady (ready_message conn))
          end
      end
  end.

Definition Reconcile (ns name : string) : M C S outcome :=
  r ← perform (CGetConfig ns name);
  match r with
  | Err e => mret (returnErr (IgnoreNotFound (Some e)))
  | Ok cfg =>
      cond ← validate cfg;
      now ← perform CNow;
      let cfg' := set_status {| ObservedGeneration := cfg_Generation cfg;
                                Conditions := SetStatusCondition now (Conditions (cfg_Status cfg)) cond |} cfg in
      pr ← perform (CPatchConfigStatus cfg cfg');
      match pr with
      | Err e => mret (Fail e)
      | Ok _ =>
          if c_Status cond =s? ConditionTrue then mret (Done 0)
          else if bool_decide (c_Reason cond ∈ secretReasons) then mret (Done secretRetryInterval)
          else mret (Done 0)
      end
  end.

End Controller.

(** ** Specification *)

Section Spec.
Context {W C S : Type} `{GoUnicode} `{K8sLib} `{Env W C} `{HasWorld S W}.

(** A duration field the VirtualMachine controller uses as it stands, whatever its fallback. *)
Definition duration_usable (val : string) : Prop :=
  val = "" \/ exists d, forall fallback, parseDurationOrDefault val fallback = d.

Definition selector_usable (cfg : SaltKeyConfig) : Prop :=
  forall sel, VMSelector (cfg_Spec cfg) = Some sel -> exists s, LabelSelectorAsSelector sel = Ok s.

Definition spec_usable (cfg : SaltKeyConfig) : Prop :=
  duration_usable (AcceptTimeout (cfg_Spec cfg)) /\ duration_usable (RequeueInterval (cfg_Spec cfg))
  /\ selector_usable cfg.

(** The connection the answers in [t] resolve the config to. *)
Definition resolves (cfg : SaltKeyConfig) (def : DefaultConn) (t : list (obs C)) (conn : Connection) : Prop :=
  complete_conn conn /\ exists sec,
    t = [Obs (CGetSecret (connection_secret cfg def).1 (connection_secret cfg def).2) (Ok sec)]
    /\ connects cfg def (sec_Data sec) conn.

(** A duration the fields of a spec may hold. *)
Definition parses (val : string) : Prop := val = "" \/ is_Some (ParseDuration val).

(** The fields of the config are in order: every duration field parses and the selector converts. *)
Definition in_order (cfg : SaltKeyConfig) : Prop :=
  Forall parses [AcceptTimeout (cfg_Spec cfg); RequeueInterval (cfg_Spec cfg); EnforcementInterval (cfg_Spec cfg)]
  /\ selector_usable cfg.

(** The worlds in which RaaS is reachable and accepts the credentials of a login. *)
Class RaasUp (up : W -> Prop) : Prop := {
  up_kept : forall (c : call C) w r w', up w -> env c w = (r, w') -> up w';
  up_login : forall (c : C) w r w', up w -> env (CLogin c) w = (r, w') -> r = None;
}.

(** Waiting can help: the reason is in the Secret and not in the spec. *)
Definition waits (cond : Condition) : bool := bool_decide (c_Reason cond ∈ secretReasons).

(** What [validate] answers when its calls were [t]. *)
Definition validated (cfg : SaltKeyConfig) (def : DefaultConn) (t : list (obs C)) (cond : Condition) : Prop :=
  c_Type cond = ConditionReady /\ c_ObservedGeneration cond = cfg_Generation cfg
  /\ c_LastTransitionTime cond = None
  /\ ((c_Status cond = ConditionTrue /\ c_Reason cond = ReasonReady /\ spec_usable cfg
       /\ exists conn, resolves cfg def t conn /\ c_Message cond = ready_message conn)
      \/ (c_Status cond = ConditionFalse /\ c_Reason cond = ReasonInvalidDuration /\ t = []
          /\ ~ (duration_usable (AcceptTimeout (cfg_Spec cfg)) /\ duration_usable (RequeueInterval (cfg_Spec cfg))))
      \/ (c_Status cond = ConditionFalse /\ c_Reason cond = ReasonInvalidSelector /\ t = []
          /\ ~ selector_usable cfg)
      \/ (c_Status cond = ConditionFalse /\ (c_Reason cond ∈ secretReasons <-> t <> []) /\ spec_usable cfg
          /\ forall conn, ~ resolves cfg def t conn)).

(** ** Lemmas *)

Lemma duration_usable_iff val :
  duration_usable val <-> val = "" \/ is_Some (ParseDuration val).
Proof.
  unfold duration_usable, parseDurationOrDefault. split.
  - intros [?|[d Hd]]; [by left|]. destruct (String.eqb_spec val "") as [|]; [by left|].
    right. destruct (ParseDuration val); [by eexists|].
    specialize (Hd (d + 1)). simpl in Hd. lia.
  - intros [?|[d Hd]]; [by left|]. destruct (String.eqb_spec val "") as [|]; [by left|].
    right. exists d. intros fallback. by rewrite Hd.
Qed.

Lemma spec_usable_iff cfg : parses (EnforcementInterval (cfg_Spec cfg)) -> spec_usable cfg <-> in_order cfg.
Proof.
  intros Hi. unfold spec_usable, in_order, parses in *. rewrite !Forall_cons, !duration_usable_iff.
  split; [|naive_solver]. intros (? & ? & ?). by split_and!.
Qed.

Lemma up_Resolve (up : W -> Prop) `{!RaasUp up} def cfg (v : VMState W C) :
  up (world v) -> wp (Resolve cfg def) v (fun _ _ v' => up (world v')).
Proof.
  intros Hv. unfold Resolve, resolveNamespaceSecret, resolveDefault, Load, readSecret.
  repeat first
    [ apply wp_ret | apply wp_bind | wp_call; intros ? ? ?%(up_kept (up := up)); [|exact Hv]
    | match goal with
      | |- wp (if ?b then _ else _) _ _ => destruct b
      | |- wp (match ?r with Ok _ => _ | Err _ => _ end) _ _ => destruct r
      end
    | progress cbv beta iota zeta ]; done.
Qed.

Lemma bad_duration_None fields :
  bad_duration fields = None <-> Forall (fun f => duration_usable f.2) fields.
Proof.
  induction fields as [|[name val] fields IH]; simpl; [by split|].
  rewrite Forall_cons, <- IH, duration_usable_iff. simpl.
  destruct (String.eqb_spec val ""); simpl; [naive_solver|].
  destruct (ParseDuration val); [naive_solver|]. split; [done|].
  intros [[?|[d Hd]] _]; done.
Qed.

(** A failure to resolve is one the Secret can mend exactly when the Secret was read. *)
Definition mendable (e : error) (t : list (obs C)) : Prop :=
  exists r m, as_raas_error e = Some (r, m) /\ (r ∈ secretReasons <-> t <> []).

Lemma mendable_read r m o : r ∈ secretReasons -> mendable (ERaas r m) [o].
Proof. intros Hr. by exists r, m. Qed.

Lemma mendable_spec r m : r ∉ secretReasons -> mendable (ERaas r m) [].
Proof. intros Hr. by exists r, m. Qed.

Lemma wp_Resolve_mendable cfg def (s : S) :
  wp (Resolve cfg def) s (fun r t _ => match r with Err e => mendable e t | Ok _ => True end).
Proof.
  unfold Resolve, resolveNamespaceSecret, resolveDefault, Load, readSecret.
  repeat first
    [ apply wp_ret | apply wp_bind | wp_call; intros [] ? _
    | match goal with |- wp (if ?b then _ else _) _ _ => destruct b end
    | progress cbv beta iota zeta ];
  try done; first [apply mendable_read | apply mendable_spec]; set_solver.
Qed.

Lemma wp_validate cfg def (s : S) :
  wp (validate def cfg) s (fun cond t _ => validated cfg def t cond).
Proof.
  unfold validate. destruct (bad_duration _) as [[name val]|] eqn:Ed.
  { apply wp_ret. repeat split; [done..|]. right; left. repeat split; [done..|]. intros [Ha Hr].
    assert (bad_duration (duration_fields (cfg_Spec cfg)) = None) as E; [|congruence].
    apply bad_duration_None. unfold duration_fields. by repeat apply Forall_cons_2. }
  apply bad_duration_None in Ed. apply Forall_cons in Ed as [Ha Ed]. apply Forall_cons in Ed as [Hr _].
  simpl in Ha, Hr.
  destruct (match VMSelector _ with Some _ => _ | None => None end) as [e|] eqn:Es.
  { apply wp_ret. repeat split; [done..|]. right; right; left. repeat split; [done..|].
    intros Hs. destruct (VMSelector (cfg_Spec cfg)) as [sel|] eqn:Ev; [|done].
    destruct (Hs sel Ev) as [x Hx]. by rewrite Hx in Es. }
  assert (spec_usable cfg) as Hu.
  { repeat split; [done..|]. intros sel Ev. rewrite Ev in Es.
    destruct (LabelSelectorAsSelector sel) as [x|]; [by exists x|done]. }
  apply wp_bind. eapply wp_mono; [apply wp_and; [apply wp_Resolve|apply wp_Resolve_mendable]|].
  intros r t s' [[Hres _] Hm]. unfold resolution in Hres.
  destruct r as [conn|e].
  - apply wp_ret. rewrite app_nil_r. repeat split; [done..|]. left.
    split_and!; [done..|exact Hu|]. by exists conn.
  - destruct Hres as [_ Hno]. destruct Hm as (r & m & E & Hin). rewrite E. apply wp_ret. rewrite app_nil_r.
    repeat split; [done..|]. do 3 right. split_and!; [done..|exact Hu|].
    intros conn (Hc & sec & Ht & Hconn). exact (Hno conn sec Ht Hconn Hc).
Qed.

(** A condition is never in both states, and only the two classes of reasons wait. *)
Lemma validated_ready cfg def t cond : validated cfg def t cond ->
  c_Status cond = ConditionTrue <-> spec_usable cfg /\ exists conn, resolves cfg def t conn.
Proof.
  intros (_ & _ & _ & H'). split.
  - intros Hs. destruct H' as [(_ & _ & Hu & conn & Hc & _)|[(E & _)|[(E & _)|(E & _)]]];
      [split; [done|by exists conn]|by rewrite E in Hs..].
  - intros [(Ha & Hr & Hsel) [conn Hc]].
    destruct H' as [(E & _)|[(_ & _ & _ & Hn)|[(_ & _ & _ & Hn)|(_ & _ & _ & Hn)]]]; [done|by destruct Hn..|].
    by destruct (Hn conn).
Qed.

(** [validate] reads only the spec, the namespace and the generation, and is determined by its answers. *)
Lemma validate_same def cfg1 cfg2 :
  cfg_Spec cfg2 = cfg_Spec cfg1 -> cfg_Namespace cfg2 = cfg_Namespace cfg1 ->
  cfg_Generation cfg2 = cfg_Generation cfg1 ->
  (validate def cfg2 : M C S _) = validate def cfg1.
Proof.
  intros Es En Eg. destruct cfg1, cfg2; simpl in *; by subst.
Qed.

Lemma det_validate def cfg : determined (validate def cfg : M C S _).
Proof.
  unfold validate. destruct (bad_duration _) as [[name val]|]; [apply det_ret|].
  destruct (match VMSelector _ with Some _ => _ | None => None end); [apply det_ret|].
  apply det_bind; [apply det_Resolve|]. intros [conn|e]; [apply det_ret|].
  destruct (as_raas_error e) as [[r m]|]; apply det_ret.
Qed.

(** The answer to a config read. *)
Definition config_read (o : obs C) : option (res SaltKeyConfig) :=
  match o with
  | existT c r =>
      match c as c0 return resp c0 -> option (res SaltKeyConfig) with
      | CGetConfig _ _ => fun r => Some r
      | _ => fun _ => None
      end r
  end.

Definition status_patched (now : Z) (cond : Condition) (cfg : SaltKeyConfig) : SaltKeyConfig :=
  set_status {| ObservedGeneration := cfg_Generation cfg;
                Conditions := SetStatusCondition now (Conditions (cfg_Status cfg)) cond |} cfg.

(** What a reconcile of a config did: the calls of [validate] between the read and the one write. *)
Definition reconciled (def : DefaultConn) (ns name : string) (r : outcome) (t : list (obs C)) : Prop :=
  (exists e, t = [Obs (CGetConfig ns name) (Err e)] /\ r = returnErr (IgnoreNotFound (Some e)))
  \/ exists cfg cond tv now pr,
       (validated cfg def tv cond /\ exists sv sv', validate def cfg sv = (cond, tv, sv'))
       /\ t = Obs (CGetConfig ns name) (Ok cfg)
              :: tv ++ [Obs CNow now; Obs (CPatchConfigStatus cfg (status_patched now cond cfg)) pr]
       /\ r = match pr with
              | Err e => Fail e
              | Ok _ => if negb (c_Status cond =s? ConditionTrue) && waits cond
                        then Done secretRetryInterval else Done 0
              end.

Lemma wp_Reconcile def ns name (s : S) :
  wp (Reconcile def ns name) s (fun r t _ => reconciled def ns name r t).
Proof.
  unfold Reconcile. apply wp_bind. wp_call. intros [cfg|e] w1 _.
  2: { apply wp_ret. left. by exists e. }
  apply wp_bind, wp_intro. intros cond tv s1 Ev. pose proof (wp_run _ _ _ _ _ _ (wp_validate cfg def _) Ev) as Hv.
  apply wp_bind. wp_call. intros now w2 _. apply wp_bind. wp_call. intros pr w3 _.
  assert (forall r, r = match pr with
                        | Err e => Fail e
                        | Ok _ => if negb (c_Status cond =s? ConditionTrue) && waits cond
                                  then Done secretRetryInterval else Done 0
                        end ->
            forall t, t = [] ->
            reconciled def ns name r ([Obs (CGetConfig ns name) (Ok cfg)] ++ tv ++ [Obs CNow now]
              ++ [Obs (CPatchConfigStatus cfg _) pr] ++ t)) as Hr.
  { intros r -> t ->. right. exists cfg, cond, tv, now, pr. split_and!; [done| |done..]. by eexists _, _. }
  destruct pr as [c|e]; [|by apply wp_ret, Hr].
  unfold waits in Hr. destruct (c_Status cond =s? ConditionTrue); [by apply wp_ret, Hr|].
  destruct (bool_decide _); by apply wp_ret, Hr.
Qed.

(** The parts of a reconcile that read its config can be read off its trace. *)
Lemma reconciled_inj def ns name (s s' : S) r cfg cfg' tv now p :
  Reconcile def ns name s
  = (r, Obs (CGetConfig ns name) (Ok cfg) :: tv ++ [Obs CNow now; Obs (CPatchConfigStatus cfg cfg') p], s') ->
  exists cond now0 sv sv', validated cfg def tv cond /\ validate def cfg sv = (cond, tv, sv')
    /\ cfg' = status_patched now0 cond cfg.
Proof.
  intros E. destruct (wp_run _ _ _ _ _ _ (wp_Reconcile def ns name s) E)
    as [(e & Ht & _)|(cfg0 & cond & tv0 & now0 & pr & (Hv & sv & sv' & Ev) & Ht & _)].
  { apply (f_equal length) in Ht. simpl in Ht. rewrite length_app in Ht. simpl in Ht. lia. }
  apply (f_equal (fun l => (config_read <$> head l, tail l))) in Ht. cbn in Ht.
  injection Ht as <- Ht. apply app_inj_2 in Ht as [-> Ht]; [|done].
  apply (f_equal (fun l => (fun o => projT1 o) <$> l)) in Ht. simpl in Ht. injection Ht as ->.
  by exists cond, now0, sv, sv'.
Qed.

Lemma secretReasons_spec r : r = ReasonInvalidDuration \/ r = ReasonInvalidSelector -> r ∉ secretReasons.
Proof. intros [-> | ->]; set_solver. Qed.

(** Among the conditions that are not Ready, exactly those decided by a Secret wait. *)
Lemma validated_waits cfg def t cond : validated cfg def t cond ->
  c_Status cond <> ConditionTrue -> waits cond = true <-> t <> [].
Proof.
  intros (_ & _ & _ & Hv) Hs. unfold waits. rewrite bool_decide_eq_true.
  destruct Hv as [(E & _)|[(_ & E & -> & _)|[(_ & E & -> & _)|(_ & E & _)]]]; [done|..|done];
    (split; [|done]); rewrite E; intros Hin; exfalso; revert Hin; apply secretReasons_spec; auto.
Qed.

End Spec.

(** ** Theorems *)

Definition with_enforcement (i : string) (cfg : SaltKeyConfig) : SaltKeyConfig :=
  let s := cfg_Spec cfg in
  {| cfg_Name := cfg_Name cfg; cfg_Namespace := cfg_Namespace cfg; cfg_Labels := cfg_Labels cfg;
     cfg_ResourceVersion := cfg_ResourceVersion cfg; cfg_Generation := cfg_Generation cfg;
     cfg_Spec := {| RaasURL := RaasURL s; CredentialsSecret := CredentialsSecret s;
                    KeyAcceptance := KeyAcceptance s; AcceptTimeout := AcceptTimeout s;
                    RequeueInterval := RequeueInterval s; MasterID := MasterID s;
                    SkipTLSVerify := SkipTLSVerify s; VMSelector := VMSelector s;
                    RetryToken := RetryToken s; EnforcementInterval := i |};
     cfg_Status := cfg_Status cfg |}.

Section Theorems.
Context {W C S : Type} `{GoUnicode} `{!K8sLib} `{!K8sLibLaws} `{Env W C} `{HasWorld S W}.

(** What [validate] decides about a usable spec is what [Resolve] answers. *)
Lemma validate_resolve def cfg s cond tv s' :
  spec_usable cfg -> validate def cfg s = (cond, tv, s') ->
  exists rr, Resolve cfg def s = (rr, tv, s').
Proof.
  intros (Ha & Hr & Hsel) E. unfold validate in E.
  assert (bad_duration (duration_fields (cfg_Spec cfg)) = None) as Ed.
  { apply bad_duration_None. unfold duration_fields. by repeat apply Forall_cons_2. }
  rewrite Ed in E.
  assert (match VMSelector (cfg_Spec cfg) with
          | Some sel => match LabelSelectorAsSelector sel with Ok _ => None | Err e => Some e end
          | None => None
          end = None) as Es.
  { destruct (VMSelector _) as [sel|] eqn:Ev; [|done]. by destruct (Hsel sel Ev) as [x ->]. }
  rewrite Es in E. unfold mbind, M_bind in E. destruct (Resolve cfg def s) as [[rr tr] sr].
  exists rr. destruct rr as [conn|e]; [|destruct (as_raas_error e) as [[]|]];
    simpl in E; injection E as _ <- <-; by rewrite app_nil_r.
Qed.

(** A run of the VirtualMachine controller's [saltClientFromConfig] that reads the same gets a client
    exactly when the config resolved. *)
Lemma client_iff_resolves (up : W -> Prop) `{!RaasUp up} def cfg (s s' : S) rr tv (v : VMState W C) :
  Resolve cfg def s = (rr, tv, s') -> up (world v) -> vs_cache v = ∅ ->
  wp (saltClientFromConfig def cfg) v (fun rc t _ => tv `prefix_of` t ->
    (exists c, rc = Ok c) <-> exists conn, resolves cfg def tv conn).
Proof.
  intros E Hup Hc.
  pose proof (resolved_reads _ _ _ _ (wp_run _ _ _ _ _ _ (wp_Resolve_resolved cfg def s) E)) as Hreads.
  unfold saltClientFromConfig, cache_get. cbv zeta. apply wp_assoc, wp_bind, wp_gets.
  rewrite Hc, lookup_empty. apply wp_bind, wp_ret, wp_bind.
  eapply wp_mono; [apply wp_and; [apply wp_and; [apply wp_Resolve|apply wp_Resolve_resolved]|
                   apply (up_Resolve up def cfg v Hup)]|].
  intros r2 t2 v2 [[Hres2 Hr2] Hup2]. apply resolved_reads in Hr2.
  assert (forall rest, tv `prefix_of` t2 ++ rest -> t2 = tv) as Hsame.
  { intros rest Hp. destruct Hreads as [[Hn ->]|[Hy [a ->]]], Hr2 as [[Hn2 ->]|[Hy2 [b ->]]]; try done.
    destruct Hp as [k Hk]. exact (f_equal (take 1) Hk). }
  assert (forall rest, tv `prefix_of` t2 ++ rest ->
            (exists conn, r2 = Ok conn) <-> exists conn, resolves cfg def tv conn) as Hiff.
  { intros rest <-%Hsame. destruct Hres2 as [Hr _]. destruct r2 as [conn|e].
    - split; [|by eauto]. intros _. exists conn. exact Hr.
    - destruct Hr as [_ Hno]. split; [by intros []|]. intros (conn & Hcc & sec & Ht & Hcon).
      by destruct (Hno conn sec Ht Hcon). }
  destruct r2 as [conn|e].
  - apply wp_bind. wp_call. intros cl w1 E1. apply wp_bind. wp_call. intros le w2 E2.
    assert (up w1) as Hup1 by (eapply up_kept; [exact Hup2|exact E1]).
    rewrite (up_login (up := up) _ _ _ _ Hup1 E2). unfold cache_set. apply wp_bind, wp_bind. wp_call.
    intros now w3 E3. apply wp_modify, wp_ret. intros Hp. rewrite <- (Hiff _ Hp). split; eauto.
  - apply wp_ret. intros Hp. rewrite <- (Hiff _ Hp). split; by intros [].
Qed.

(** C11: Where RaaS can be reached and accepts the credentials it is given, a reconcile of a SaltKeyConfig
    makes one write, to its status, which changes nothing but the Ready condition and the observed
    generation. A config whose enforcement interval, if it has one, parses is Ready exactly when all its
    duration fields are empty or parse, its selector converts, and the one Secret it may name stands for a
    complete connection; and when its fields are in order, it is Ready exactly when the VirtualMachine
    controller, reading the same, gets a logged-in client from it. A config that is not Ready is looked at
    again after thirty seconds when its Secret was read, and otherwise only when it changes. *)
Theorem config_ready_iff_usable (up : W -> Prop) `{!RaasUp up} def ns name (s : S) (Hup : up (world s)) :
  wp (Reconcile def ns name) s (fun r t _ =>
    (exists e, t = [Obs (CGetConfig ns name) (Err e)] /\ r = if IsNotFound e then Done 0 else Fail e)
    \/ exists cfg cfg' tv now pr,
        t = Obs (CGetConfig ns name) (Ok cfg) :: tv ++ [Obs CNow now; Obs (CPatchConfigStatus cfg cfg') pr]
        /\ cfg' = set_status (cfg_Status cfg') cfg
        /\ ObservedGeneration (cfg_Status cfg') = cfg_Generation cfg
        /\ (forall ty, ty <> ConditionReady ->
              IsStatusConditionTrue (Conditions (cfg_Status cfg')) ty
              = IsStatusConditionTrue (Conditions (cfg_Status cfg)) ty)
        /\ (parses (EnforcementInterval (cfg_Spec cfg)) ->
              (IsReady cfg' = true <-> in_order cfg /\ exists conn, resolves cfg def tv conn)
              /\ forall v : VMState W C, in_order cfg -> up (world v) -> vs_cache v = ∅ ->
                   wp (saltClientFromConfig def cfg) v (fun rc tc _ =>
                     tv `prefix_of` tc -> IsReady cfg' = true <-> exists c, rc = Ok c))
        /\ r = match pr with
               | Err e => Fail e
               | Ok _ => Done (if IsReady cfg' || bool_decide (length tv = 0%nat)
                               then 0 else secretRetryInterval)
               end).
Proof.
  eapply wp_mono; [apply wp_Reconcile|].
  intros r t s' [(e & -> & ->)|(cfg & cond & tv & now & pr & [Hv (sv & sv' & Ev)] & -> & ->)].
  { left. exists e. split; [done|]. simpl. by destruct (IsNotFound e). }
  right. pose proof (validated_ready _ _ _ _ Hv) as Hready. pose proof (validated_waits _ _ _ _ Hv) as Hwait.
  destruct Hv as (Ety & _ & _ & _).
  set (cfg' := status_patched now cond cfg).
  assert (IsReady cfg' = (c_Status cond =s? ConditionTrue)) as Er.
  { unfold IsReady, cfg'. simpl. change "Ready" with ConditionReady. rewrite <- Ety. apply status_condition_set. }
  rewrite <- String.eqb_eq, <- Er in Hready.
  exists cfg, cfg', tv, now, pr. split_and!; [done..| | |].
  - intros ty Hty. simpl. apply status_condition_other. by rewrite Ety.
  - intros Hi. pose proof (spec_usable_iff cfg Hi) as Hiu. split; [by rewrite <- Hiu|].
    intros v Hu%Hiu Hupv Hcv.
    destruct (validate_resolve _ _ _ _ _ _ Hu Ev) as [rr Er'].
    eapply wp_mono; [by eapply (client_iff_resolves up)|]. intros rc tc v' Hiff Hp. rewrite (Hiff Hp). tauto.
  - destruct pr; [|done]. rewrite Er. destruct (String.eqb_spec (c_Status cond) ConditionTrue) as [|Hs]; [done|].
    simpl. specialize (Hwait Hs). destruct tv as [|o tv]; simpl.
    + destruct (waits cond); [|done]. by destruct (proj1 Hwait eq_refl).
    + by rewrite (proj2 Hwait).
Qed.

(** C24: The status settles: a second reconcile of a config that did not change, which finds the
    status the first one wrote and reads the same, sends an empty patch. Its own status update
    therefore starts no further round. *)
Theorem config_status_settles def ns name (s1 s2 s1' s2' : S) r1 r2 cfg1 cfg1' cfg2 cfg2' tv now1 now2 p1 p2
    (Hfirst : Reconcile def ns name s1
       = (r1, Obs (CGetConfig ns name) (Ok cfg1) :: tv
                ++ [Obs CNow now1; Obs (CPatchConfigStatus cfg1 cfg1') p1], s1'))
    (Hsecond : Reconcile def ns name s2
       = (r2, Obs (CGetConfig ns name) (Ok cfg2) :: tv
                ++ [Obs CNow now2; Obs (CPatchConfigStatus cfg2 cfg2') p2], s2'))
    (Hspec : cfg_Spec cfg2 = cfg_Spec cfg1) (Hns : cfg_Namespace cfg2 = cfg_Namespace cfg1)
    (Hgen : cfg_Generation cfg2 = cfg_Generation cfg1) (Hstatus : cfg_Status cfg2 = cfg_Status cfg1') :
  cfg2' = cfg2.
Proof.
  apply reconciled_inj in Hfirst as (c1 & n1 & sv1 & sv1' & Hv & E1 & ->).
  apply reconciled_inj in Hsecond as (c2 & n2 & sv2 & sv2' & _ & E2 & ->).
  rewrite (validate_same _ cfg1 cfg2) in E2 by done.
  destruct (det_validate _ _ _ _ _ _ _ _ _ _ [] [] E1 E2 eq_refl) as [<- _].
  unfold status_patched. rewrite Hstatus. cbn [status_patched set_status cfg_Status Conditions].
  destruct Hv as (_ & _ & Ht & _). rewrite status_condition_again by done.
  destruct cfg2; simpl in *; by subst.
Qed.

(** The enforcement interval is not validated: the controller decides the same whatever it holds,
    although an interval the CRD pattern admits may not parse, and then no VM is ever due. *)
Theorem enforcement_not_validated :
  (forall def cfg i, (validate def (with_enforcement i cfg) : M C S _) = validate def cfg)
  /\ ParseDuration "9999999h" = None
  /\ forall cfg uid last now,
       enforcementDue (Some (with_enforcement "9999999h" cfg)) uid last now = (false, 0).
Proof.
  split_and!.
  - intros def cfg i. unfold validate, Resolve, resolveNamespaceSecret, resolveDefault.
    destruct cfg as [? ? ? ? ? [] ?]. reflexivity.
  - reflexivity.
  - intros [? ? ? ? ? [] ?] uid last now. reflexivity.
Qed.

End Theorems.

(** ** A config that settles *)

Section Witness.
#[local] Existing Instances ascii_only reference_lib reference_laws server.

Definition demo_default : DefaultConn := {| def_Namespace := "salt-operator"; def_SecretName := "raas-default" |}.

(** The Ready condition of the demo config. *)
Definition demo_ready (cfg : SaltKeyConfig) : Condition :=
  ready_condition cfg ConditionTrue ReasonReady (Msg "Credentials Secret found and valid" []).

Lemma config_status_settles_witness :
  let cfg1 := demo_config_with demo_spec in
  let cfg2 := status_patched demo_now (demo_ready cfg1) cfg1 in
  let cfg2' := status_patched (demo_now + 1) (demo_ready cfg2) cfg2 in
  let w1 := demo_world cfg1 [] all_well in
  let w2 := (Reconcile demo_default "team" "salt" w1).2 in
  (Reconcile demo_default "team" "salt" w2).1.1 = Done 0 /\ cfg2' = cfg2 /\ cfg2 <> cfg1.
Proof.
  intros cfg1 cfg2 cfg2' w1 w2. split; [vm_compute; reflexivity|split].
  - eapply (config_status_settles demo_default "team" "salt" w1 w2 _ _ _ _ cfg1 cfg2 cfg2 cfg2'
              [Obs (CGetSecret "team" "raas") (Ok demo_secret)]);
      vm_compute; reflexivity.
  - intros E. apply (f_equal (fun c => c_Reason <$> Conditions (cfg_Status c))) in E. discriminate E.
Defined.

(** A service whose answers are all well stays up. *)
#[local] Instance all_well_up : RaasUp (fun w : World => w_answers w = all_well).
Proof.
  split.
  - intros c w r w' Hw E. change (serve c w = (r, w')) in E.
    destruct c; simpl in E; unfold patch_config in E; repeat case_match; injection E as _ <-; done.
  - intros c w r w' Hw E. change (serve (CLogin c) w = (r, w')) in E. injection E as <- _. by rewrite Hw.
Qed.

Lemma config_ready_iff_usable_witness :
  wp (Reconcile demo_default "team" "salt") (demo_world (demo_config_with demo_spec) [] all_well)
    (fun r t _ => r = Done 0 /\ exists cfg cfg' pr,
       last t = Some (Obs (CPatchConfigStatus cfg cfg') pr) /\ cfg' = set_status (cfg_Status cfg') cfg).
Proof.
  eapply wp_mono.
  - apply wp_and; [apply wp_intro; intros r t s' E; exact E|].
    apply (config_ready_iff_usable (fun w : World => w_answers w = all_well) demo_default "team" "salt").
    reflexivity.
  - intros r t s' [E [(e & -> & _)|(cfg & cfg' & tv & now & pr & -> & Hs & _)]].
    + apply (f_equal (fun p => length p.1.2)) in E. vm_compute in E. discriminate E.
    + split; [|by exists cfg, cfg', pr; rewrite app_comm_cons, last_app].
      apply (f_equal (fun p => p.1.1)) in E. cbn [fst] in E. rewrite <- E. vm_compute. reflexivity.
Defined.

End Witness.
