(* ===== verification/Enrolment.v ===== *)
(** * Automatic enrolment ([internal/controller/enrolment_controller.go], [cmd/main.go])

    The operator gives a namespace a SaltKeyConfig of its own, labelled
    [salt.vcf.io/managed-by], as long as the namespace matches the enrolment
    flags and its team has none.  The theorems bound what the controller may
    touch and show that repeated reconciles reach a state it leaves alone. *)

From S2P Require Import Prelude GoStrings Api Effects Server RaasConn.

Local Open Scope Z_scope.

(** ** Model *)

Definition EnrolledConfigName : string := "salt-config".

Definition DefaultEnrolmentExcludePrefixes : list string :=
  ["kube-"; "vmware-system-"; "svc-"; "tkg-system"; "kapp-controller"].

Record Enrolment := {
  en_Namespaces : list string;
  en_All : bool;
  en_Selector : option Selector;
  en_ExcludePrefixes : list string;
  en_KeyAcceptance : string;
}.

(** [e.Selector != nil && !e.Selector.Empty()]. *)
Definition selects (e : Enrolment) : option Selector :=
  match en_Selector e with
  | Some s => if negb (sel_Empty s) then Some s else None
  | None => None
  end.

Definition Enabled (e : Enrolment) : bool :=
  bool_decide (0 < length (en_Namespaces e))%nat || en_All e || bool_decide (is_Some (selects e)).

Definition matches (e : Enrolment) (ns : Namespace) : bool :=
  if existsb (fun p => (p <>s? "") && HasPrefix (ns_Name ns) p) (en_ExcludePrefixes e) then false
  else if existsb (fun n => n =s? ns_Name ns) (en_Namespaces e) || en_All e then true
  else match selects e with Some s => sel_Matches s (ns_Labels ns) | None => false end.

Definition is_own (cfg : SaltKeyConfig) : bool :=
  mget (cfg_Labels cfg) LabelManagedBy =s? ManagedByOperator.

(** The loop over the list: the last config the operator made. *)
Fixpoint find_own (own : option SaltKeyConfig) (items : list SaltKeyConfig) : option SaltKeyConfig :=
  match items with
  | [] => own
  | cfg :: items' => find_own (if is_own cfg then Some cfg else own) items'
  end.

Definition set_KeyAcceptance (ka : string) (cfg : SaltKeyConfig) : SaltKeyConfig :=
  let s := cfg_Spec cfg in
  {| cfg_Name := cfg_Name cfg; cfg_Namespace := cfg_Namespace cfg; cfg_Labels := cfg_Labels cfg;
     cfg_ResourceVersion := cfg_ResourceVersion cfg; cfg_Generation := cfg_Generation cfg;
     cfg_Spec := {| RaasURL := RaasURL s; CredentialsSecret := CredentialsSecret s;
                    KeyAcceptance := ka; AcceptTimeout := AcceptTimeout s;
                    RequeueInterval := RequeueInterval s; MasterID := MasterID s;
                    SkipTLSVerify := SkipTLSVerify s; VMSelector := VMSelector s;
                    RetryToken := RetryToken s; EnforcementInterval := EnforcementInterval s |};
     cfg_Status := cfg_Status cfg |}.

(** The config a namespace is enrolled with: every field but the key acceptance is left to its default. *)
Definition enrolled_config (e : Enrolment) (ns : string) : SaltKeyConfig :=
  {| cfg_Name := EnrolledConfigName; cfg_Namespace := ns;
     cfg_Labels := {[LabelManagedBy := ManagedByOperator]};
     cfg_ResourceVersion := ""; cfg_Generation := 0;
     cfg_Spec := {| RaasURL := ""; CredentialsSecret := ""; KeyAcceptance := en_KeyAcceptance e;
                    AcceptTimeout := ""; RequeueInterval := ""; MasterID := ""; SkipTLSVerify := false;
                    VMSelector := None; RetryToken := ""; EnforcementInterval := "" |};
     cfg_Status := {| ObservedGeneration := 0; Conditions := [] |} |}.

Section Controller.
Context {W C S : Type} `{Env W C} `{HasWorld S W}.
Variable e : Enrolment.

(** [r.Delete(ctx, own)], where an object that is already gone is no error. *)
Definition deleteOwn (own : SaltKeyConfig) : M C S outcome :=
  d ← perform (CDeleteConfig own);
  match d with
  | Some err => if negb (IsNotFound err) then mret (Fail err) else mret (Done 0)
  | None => mret (Done 0)
  end.

Definition adjustOwn (own : SaltKeyConfig) : M C S outcome :=
  if (en_KeyAcceptance e <>s? "") && (KeyAcceptance (cfg_Spec own) <>s? en_KeyAcceptance e) then
    p ← perform (CPatchConfig own (set_KeyAcceptance (en_KeyAcceptance e) own));
    match p with Err err => mret (Fail err) | Ok _ => mret (Done 0) end
  else mret (Done 0).

Definition createOwn (ns : string) : M C S outcome :=
  c ← perform (CCreateConfig (enrolled_config e ns));
  match c with
  | Some err => if negb (IsAlreadyExists err) then mret (Fail err) else mret (Done 0)
  | None => mret (Done 0)
  end.

Definition Reconcile (name : string) : M C S outcome :=
  g ← perform (CGetNamespace name);
  match g with
  | Err err => mret (returnErr (IgnoreNotFound (Some err)))
  | Ok ns =>
      if bool_decide (is_Some (ns_deletionTimestamp ns)) then mret (Done 0)
      else
        l ← perform (CListConfigs (Some (ns_Name ns)));
        match l with
        | Err err => mret (Fail err)
        | Ok items =>
            let own := find_own None items in
            if negb (matches e ns) then
              match own with Some c => deleteOwn c | None => mret (Done 0) end
            else match own with
                 | Some c => if bool_decide (1 < length items)%nat then deleteOwn c else adjustOwn c
                 | None => if bool_decide (0 < length items)%nat then mret (Done 0)
                           else createOwn (ns_Name ns)
                 end
        end
  end.

(** The loop of [ReleaseEnrolled]: the number deleted, and the error that stopped it. *)
Fixpoint release (deleted : Z) (items : list SaltKeyConfig) : M C S (Z * option error) :=
  match items with
  | [] => mret (deleted, None)
  | cfg :: items' =>
      d ← perform (CDeleteConfig cfg);
      match d with
      | Some err => if IsNotFound err then release deleted items' else mret (deleted, Some err)
      | None => release (deleted + 1) items'
      end
  end.

Definition ReleaseEnrolled : M C S (Z * option error) :=
  l ← perform (CListConfigsLabelled LabelManagedBy ManagedByOperator);
  match l with
  | Err err => mret (0, Some err)
  | Ok items => release 0 items
  end.

End Controller.

(** ** The flags of [cmd/main.go] *)

Fixpoint trimmed_items (items : list string) : list string :=
  match items with
  | [] => []
  | item :: items' =>
      let item := TrimSpace item in
      if item <>s? "" then item :: trimmed_items items' else trimmed_items items'
  end.

Definition splitList (v : string) : list string := trimmed_items (Split "," v).

Record EnrolFlags := {
  enrolNamespaces : string;
  enrolSelector : string;
  enrolAll : bool;
  enrolExclude : string;
  enrolKeyAcceptance : string;
}.

(** The flags as enrolment settings, with [labels.Parse] as [parse]; [None] ends the process. *)
Definition enrolment_of (parse : string -> res Selector) (f : EnrolFlags) (def : DefaultConn) : option Enrolment :=
  if (enrolKeyAcceptance f <>s? KeyAcceptanceDiscovery) && (enrolKeyAcceptance f <>s? KeyAcceptancePreseed)
  then None
  else
    let with_selector s :=
      Some {| en_Namespaces := splitList (enrolNamespaces f); en_All := enrolAll f; en_Selector := s;
              en_ExcludePrefixes := splitList (enrolExclude f) ++ [def_Namespace def];
              en_KeyAcceptance := enrolKeyAcceptance f |} in
    if enrolSelector f <>s? "" then
      match parse (enrolSelector f) with Ok s => with_selector (Some s) | Err _ => None end
    else with_selector None.

(** How the process goes on: it exits, runs the enrolment controller, or runs [ReleaseEnrolled] once. *)
Inductive enrolment_mode := Refused | Enrolling (e : Enrolment) | Releasing.

Definition start_enrolment (parse : string -> res Selector) (f : EnrolFlags) (def : DefaultConn) : enrolment_mode :=
  match enrolment_of parse f def with
  | None => Refused
  | Some e => if Enabled e then Enrolling e else Releasing
  end.

(** ** What a reconcile may write *)

Section Writes.
Context {W C S : Type} `{Env W C} `{HasWorld S W}.

(** The one write a reconcile of namespace [ns] that lists [items] may make. *)
Inductive may_write (e : Enrolment) (ns : Namespace) (items : list SaltKeyConfig) : call C -> Prop :=
| may_delete c :
    c ∈ items -> is_own c = true ->
    matches e ns = false \/ (1 < length items)%nat ->
    may_write e ns items (CDeleteConfig c)
| may_adjust c :
    items = [c] -> is_own c = true -> matches e ns = true ->
    KeyAcceptance (cfg_Spec c) <> en_KeyAcceptance e -> en_KeyAcceptance e <> "" ->
    may_write e ns items (CPatchConfig c (set_KeyAcceptance (en_KeyAcceptance e) c))
| may_create :
    items = [] -> matches e ns = true ->
    may_write e ns items (CCreateConfig (enrolled_config e (ns_Name ns))).

Lemma find_own_spec own items :
  find_own own items = match last (List.filter is_own items) with Some c => Some c | None => own end.
Proof.
  revert own. induction items as [|c items IH]; intros own; simpl; [done|]. rewrite IH.
  destruct (is_own c); [|done]. rewrite last_cons. by destruct (last _).
Qed.

Lemma find_own_Some items c : find_own None items = Some c -> c ∈ items /\ is_own c = true.
Proof.
  rewrite find_own_spec. destruct (last _) as [c'|] eqn:E; [|done]. intros [= ->].
  apply last_Some_elem_of, list_elem_of_In, List.filter_In in E as [Hin Ho]. by rewrite list_elem_of_In.
Qed.

Lemma find_own_None items : find_own None items = None -> List.filter is_own items = [].
Proof. rewrite find_own_spec. destruct (last _) eqn:E; [done|]. intros _. by apply last_None in E. Qed.

(** What the three write steps do to the trace. *)
Lemma wp_deleteOwn own (s : S) :
  wp (deleteOwn own) s (fun r t _ => exists d, t = [Obs (CDeleteConfig own) d]
    /\ r = returnErr (IgnoreNotFound d)).
Proof.
  unfold deleteOwn. apply wp_bind. wp_call. intros d w _.
  destruct d as [err|]; simpl; [destruct (IsNotFound err) eqn:E|]; apply wp_ret;
    eexists; (split; [done|]); simpl; by rewrite ?E.
Qed.

Lemma wp_createOwn e ns (s : S) :
  wp (createOwn e ns) s (fun r t _ => exists d, t = [Obs (CCreateConfig (enrolled_config e ns)) d]
    /\ r = match d with Some err => if IsAlreadyExists err then Done 0 else Fail err | None => Done 0 end).
Proof.
  unfold createOwn. apply wp_bind. wp_call. intros d w _.
  destruct d as [err|]; simpl; [destruct (IsAlreadyExists err) eqn:E|]; apply wp_ret;
    eexists; (split; [done|]); simpl; by rewrite ?E.
Qed.

Lemma wp_adjustOwn e own (s : S) :
  wp (adjustOwn e own) s (fun r t _ =>
    (t = [] /\ r = Done 0 /\ (en_KeyAcceptance e = "" \/ KeyAcceptance (cfg_Spec own) = en_KeyAcceptance e))
    \/ exists p, t = [Obs (CPatchConfig own (set_KeyAcceptance (en_KeyAcceptance e) own)) p]
         /\ en_KeyAcceptance e <> "" /\ KeyAcceptance (cfg_Spec own) <> en_KeyAcceptance e
         /\ r = match p with Err err => Fail err | Ok _ => Done 0 end).
Proof.
  unfold adjustOwn. destruct ((en_KeyAcceptance e <>s? "") && _) eqn:E.
  - reflect_bools. apply wp_bind. wp_call. intros p w _.
    destruct p; apply wp_ret; right; eexists; by split_and!.
  - apply wp_ret. left. split_and!; [done..|]. apply andb_false_iff in E as [E|E]; reflect_bools; auto.
Qed.

End Writes.

(** The answers to a delete: it succeeded, or it left the object gone. *)
Definition succeeded (d : option error) : bool := match d with None => true | Some _ => false end.
Definition gone (d : option error) : Prop := IgnoreNotFound d = None.

Section Safety.
Context {W C S : Type} `{Env W C} `{HasWorld S W}.

(** C31: Enrolment writes at most once per reconcile, and only to a live namespace's own objects: it
    deletes or adjusts a config it labelled itself and that the namespace listed, deletes it only
    when the namespace left enrolment or has another config, changes nothing of it but the key
    acceptance, and creates one only in a matching namespace with no config at all. A config a
    team made is never touched. *)
Theorem enrolment_writes_confined (e : Enrolment) name (s : S) :
  wp (Reconcile e name) s (fun r t _ =>
    writes t = [] \/
    exists ns items c,
      take 2 t = [Obs (CGetNamespace name) (Ok ns); Obs (CListConfigs (Some (ns_Name ns))) (Ok items)]
      /\ ns_deletionTimestamp ns = None
      /\ writes t = [c] /\ may_write e ns items c).
Proof.
  unfold Reconcile. apply wp_bind. wp_call. intros [ns|err] w1 _; [|apply wp_ret; by left].
  case_bool_decide as Ed; [apply wp_ret; by left|]. apply eq_None_not_Some in Ed.
  apply wp_bind. wp_call. intros [items|err] w2 _; [|apply wp_ret; by left]. cbv zeta.
  destruct (find_own None items) as [own|] eqn:Eo.
  - apply find_own_Some in Eo as [Hin Ho].
    destruct (matches e ns) eqn:Em; simpl; [case_bool_decide as El|].
    + eapply wp_mono; [apply wp_deleteOwn|]. intros r t s' (d & -> & _). right.
      eexists ns, items, _. split_and!; [done..|]. by apply may_delete; auto.
    + eapply wp_mono; [apply wp_adjustOwn|]. intros r t s' [(-> & _)|(p & -> & Hk & Hn & _)]; [by left|right].
      eexists ns, items, _. split_and!; [done..|]. apply may_adjust; [|done..].
      destruct items as [|x [|y items]]; simpl in El; [by apply elem_of_nil in Hin| |lia].
      by apply list_elem_of_singleton in Hin as ->.
    + eapply wp_mono; [apply wp_deleteOwn|]. intros r t s' (d & -> & _). right.
      eexists ns, items, _. split_and!; [done..|]. by apply may_delete; auto.
  - destruct (matches e ns) eqn:Em; simpl; [case_bool_decide as El|]; [apply wp_ret; by left| |apply wp_ret; by left].
    eapply wp_mono; [apply wp_createOwn|]. intros r t s' (d & -> & _). right.
    eexists ns, items, _. split_and!; [done..|]. apply may_create; [|done].
    destruct items; [done|simpl in El; lia].
Qed.

(** What a release that tried [items] with the answers [ds] returns: all were deleted or gone, or
    the last answer is the failure that stopped it. *)
Definition released (items : list SaltKeyConfig) (ds : list (option error)) (r : Z * option error) : Prop :=
  fst r = Z.of_nat (length (List.filter succeeded ds))
  /\ match snd r with
     | None => length ds = length items /\ Forall gone ds
     | Some err => exists ds', ds = ds' ++ [Some err] /\ IsNotFound err = false
                    /\ (length ds <= length items)%nat /\ Forall gone ds'
     end.

Lemma wp_release n items (s : S) :
  wp (release n items : M C S _) s (fun r t _ => exists ds,
    t = zip_with (fun c d => Obs (CDeleteConfig c) d) items ds /\ released items ds (fst r - n, snd r)).
Proof.
  revert n s. induction items as [|c items IH]; intros n s; simpl.
  { apply wp_ret. exists []. split; [done|]. split; simpl; [lia|done]. }
  apply wp_bind. wp_call. intros d w _. cbn [resp] in d.
  assert (forall m (s' : S), gone d -> m = n + Z.of_nat (length (List.filter succeeded [d])) ->
    wp (release m items) s' (fun r t _ => exists ds,
      [Obs (CDeleteConfig c) d] ++ t = zip_with (fun c d => Obs (CDeleteConfig c) d) (c :: items) ds
      /\ released (c :: items) ds (fst r - n, snd r))) as Hgo.
  { intros m s' Hd ->. eapply wp_mono; [apply IH|]. intros [k err] t s'' (ds & -> & Hk & Herr).
    exists (d :: ds). split; [done|]. cbn [fst snd] in *. split; cbn [fst snd].
    - change (d :: ds) with ([d] ++ ds). rewrite List.filter_app, length_app. lia.
    - destruct err as [err|].
      + destruct Herr as (ds' & -> & He & Hl & Hf). exists (d :: ds'). split_and!; [done..|simpl; lia|by constructor].
      + destruct Herr as [Hl Hf]. simpl. split; [by f_equal|by constructor]. }
  destruct d as [err|]; [destruct (IsNotFound err) eqn:E|].
  - apply Hgo; [|simpl; lia]. unfold gone, IgnoreNotFound. by rewrite E.
  - apply wp_ret. exists [Some err]. split; [by destruct items|]. split; cbn [fst snd]; [simpl; lia|].
    exists []. split_and!; [done..|simpl; lia|done].
  - apply Hgo; [done|simpl; lia].
Qed.

(** C33: Turning enrolment off tries every config the operator made, in order, and no other object: it
    counts the deletions that succeeded, passes over configs that are already gone, and stops with
    the error at the first other failure. *)
Theorem release_deletes_labelled (s : S) :
  wp (ReleaseEnrolled : M C S _) s (fun r t _ => exists l,
    match l with
    | Err err => t = [Obs (CListConfigsLabelled LabelManagedBy ManagedByOperator) l] /\ r = (0, Some err)
    | Ok items => exists ds,
        t = Obs (CListConfigsLabelled LabelManagedBy ManagedByOperator) l
            :: zip_with (fun c d => Obs (CDeleteConfig c) d) items ds
        /\ released items ds r
    end).
Proof.
  unfold ReleaseEnrolled. apply wp_bind. wp_call. intros l w _. destruct l as [items|err].
  - eapply wp_mono; [apply wp_release|]. intros r t s' (ds & -> & Hr). exists (Ok items), ds.
    split; [done|]. by rewrite Z.sub_0_r, <- surjective_pairing in Hr.
  - apply wp_ret. by exists (Err err).
Qed.

End Safety.

(** ** Convergence *)

Definition cfg_key (c : SaltKeyConfig) : string * string := (cfg_Namespace c, cfg_Name c).

(** The objects an API server holds, and what its documentation says of reading and writing them. The
    server may set any other field of what it stores, such as versions, the status and defaults. *)
Class ConfigServer (W C : Type) `{Env W C} := {
  cs_valid : W -> Prop;
  cs_namespace : W -> string -> option Namespace;
  cs_configs : W -> gmap (string * string) SaltKeyConfig;

  cs_named w n ns : cs_valid w -> cs_namespace w n = Some ns -> ns_Name ns = n;
  cs_keyed w k c : cs_valid w -> cs_configs w !! k = Some c -> cfg_key c = k;

  (* reads answer what is there and change nothing *)
  cs_get w n r w' : cs_valid w -> env (CGetNamespace n) w = (r, w') ->
    cs_valid w' /\ cs_configs w' = cs_configs w /\ (forall m, cs_namespace w' m = cs_namespace w m)
    /\ match r with Ok ns => cs_namespace w n = Some ns | Err e => cs_namespace w n = None /\ IsNotFound e = true end;
  cs_list w n r w' : cs_valid w -> env (CListConfigs (Some n)) w = (r, w') ->
    cs_valid w' /\ cs_configs w' = cs_configs w /\ (forall m, cs_namespace w' m = cs_namespace w m)
    /\ exists items, r = Ok items /\ NoDup items
         /\ forall c, c ∈ items <-> cs_configs w !! cfg_key c = Some c /\ cfg_Namespace c = n;

  (* a write changes the one object it names *)
  cs_delete w c r w' : cs_valid w -> is_Some (cs_configs w !! cfg_key c) -> env (CDeleteConfig c) w = (r, w') ->
    cs_valid w' /\ r = None /\ cs_configs w' = delete (cfg_key c) (cs_configs w)
    /\ (forall m, cs_namespace w' m = cs_namespace w m);
  cs_patch w b m r w' : cs_valid w -> cs_configs w !! cfg_key b = Some b -> cfg_key m = cfg_key b ->
    env (CPatchConfig b m) w = (r, w') ->
    cs_valid w' /\ (forall n, cs_namespace w' n = cs_namespace w n)
    /\ exists c, r = Ok c /\ cs_configs w' = <[cfg_key b := c]> (cs_configs w)
         /\ cfg_Labels c = cfg_Labels m /\ KeyAcceptance (cfg_Spec c) = KeyAcceptance (cfg_Spec m);
  cs_create w c r w' : cs_valid w -> cs_configs w !! cfg_key c = None -> env (CCreateConfig c) w = (r, w') ->
    cs_valid w' /\ (forall n, cs_namespace w' n = cs_namespace w n)
    /\ r = None /\ exists c', cs_configs w' = <[cfg_key c := c']> (cs_configs w)
         /\ cfg_Labels c' = cfg_Labels c
         /\ (KeyAcceptance (cfg_Spec c) <> "" -> KeyAcceptance (cfg_Spec c') = KeyAcceptance (cfg_Spec c));
}.

Section Convergence.
Context {W C : Type} `{ConfigServer W C}.
Variable e : Enrolment.

(** One reconcile of the namespace, as a step of the world. *)
Definition round (name : string) (w : W) : W := (Reconcile (C := C) e name w).2.
Definition round_writes (name : string) (w : W) : list (call C) := writes (Reconcile e name w).1.2.

Definition own_in (name : string) (c : SaltKeyConfig) : bool := (cfg_Namespace c =s? name) && is_own c.
Definition team_in (name : string) (c : SaltKeyConfig) : bool := (cfg_Namespace c =s? name) && negb (is_own c).

Definition configs_that (p : SaltKeyConfig -> bool) (w : W) : gmap (string * string) SaltKeyConfig :=
  filter (fun kc => p kc.2 = true) (cs_configs w).

Definition own_configs (name : string) : W -> gmap (string * string) SaltKeyConfig := configs_that (own_in name).
Definition team_configs (name : string) : W -> gmap (string * string) SaltKeyConfig := configs_that (team_in name).
(** Every config but those the operator made in this namespace. *)
Definition foreign_configs (name : string) : W -> gmap (string * string) SaltKeyConfig :=
  configs_that (fun c => negb (own_in name c)).

(** What enrolment promises of a live namespace. *)
Definition enrolled_right (name : string) (w : W) : Prop :=
  forall ns, cs_namespace w name = Some ns -> ns_deletionTimestamp ns = None ->
    if matches e ns
    then (team_configs name w = ∅ -> exists k c, own_configs name w = {[k := c]}
            /\ (en_KeyAcceptance e = "" \/ KeyAcceptance (cfg_Spec c) = en_KeyAcceptance e))
         /\ (team_configs name w <> ∅ -> own_configs name w = ∅)
    else own_configs name w = ∅.

Lemma configs_that_lookup p w k c : configs_that p w !! k = Some c <-> cs_configs w !! k = Some c /\ p c = true.
Proof. unfold configs_that. by rewrite map_lookup_filter_Some. Qed.

Lemma configs_that_empty p w : configs_that p w = ∅ <-> forall k c, cs_configs w !! k = Some c -> p c = false.
Proof.
  unfold configs_that. rewrite map_empty. setoid_rewrite map_lookup_filter_None. simpl.
  split; intros Hn k; [intros c Hc|]; specialize (Hn k).
  - destruct Hn as [Hn|Hn]; [congruence|]. specialize (Hn c Hc). by destruct (p c).
  - right. intros c Hc. by rewrite (Hn c Hc).
Qed.

Lemma configs_that_same p w w' : cs_configs w' = cs_configs w -> configs_that p w' = configs_that p w.
Proof. unfold configs_that. by intros ->. Qed.

(** A write of an object that the predicate holds for neither before nor after. *)
Lemma configs_that_delete p w w' c :
  cs_configs w !! cfg_key c = Some c -> cs_configs w' = delete (cfg_key c) (cs_configs w) ->
  configs_that p w' = if p c then delete (cfg_key c) (configs_that p w) else configs_that p w.
Proof.
  intros Hc Hw'. unfold configs_that. rewrite Hw', map_filter_delete. destruct (p c) eqn:Hp; [done|].
  apply delete_id. apply map_lookup_filter_None. right. intros x Hx. simpl. rewrite Hc in Hx. congruence.
Qed.

Lemma configs_that_insert p w w' k c :
  (forall c0, cs_configs w !! k = Some c0 -> p c0 = p c) -> cs_configs w' = <[k := c]> (cs_configs w) ->
  configs_that p w' = if p c then <[k := c]> (configs_that p w) else configs_that p w.
Proof.
  intros Hc Hw'. unfold configs_that. rewrite Hw'. destruct (p c) eqn:Hp.
  - by rewrite map_filter_insert_True.
  - rewrite map_filter_insert_False by (simpl; by rewrite Hp). apply map_filter_strong_ext. intros i x. simpl.
    destruct (decide (i = k)) as [->|Hne]; [|by rewrite lookup_delete_ne].
    rewrite lookup_delete_eq. split; [by intros []|]. intros [Hx E]. rewrite (Hc x E) in Hx. congruence.
Qed.

(** The listing of the namespace, as the world's own and other configs. *)
Section Listing.
Context (name : string) (w : W) (items : list SaltKeyConfig).
Hypothesis Hvalid : cs_valid w.
Hypothesis Hnd : NoDup items.
Hypothesis Hitems : forall c, c ∈ items <-> cs_configs w !! cfg_key c = Some c /\ cfg_Namespace c = name.

Lemma listed k c : cs_configs w !! k = Some c -> cfg_Namespace c = name -> c ∈ items.
Proof. intros Hc Hn. apply Hitems. pose proof (cs_keyed _ _ _ Hvalid Hc) as ->. done. Qed.

Lemma own_listed c : find_own None items = Some c -> cs_configs w !! cfg_key c = Some c /\ own_in name c = true.
Proof.
  intros [Hin Ho]%find_own_Some. apply Hitems in Hin as [Hc Hn]. split; [done|].
  unfold own_in. by rewrite Hn, String.eqb_refl.
Qed.

Lemma none_own_listed : find_own None items = None -> own_configs name w = ∅.
Proof.
  intros Hf%find_own_None. apply configs_that_empty. intros k c Hc. unfold own_in.
  destruct (String.eqb_spec (cfg_Namespace c) name) as [Hn|]; [|done]. simpl.
  destruct (is_own c) eqn:Ho; [|done]. pose proof (listed k c Hc Hn) as Hin.
  assert (In c []) as []. rewrite <- Hf. apply List.filter_In. by rewrite <- list_elem_of_In.
Qed.

(** Nothing of a team's is listed when all that is listed is the operator's. *)
Lemma no_team_listed : (forall c, c ∈ items -> is_own c = true) -> team_configs name w = ∅.
Proof.
  intros Ho. apply configs_that_empty. intros k c Hc. unfold team_in.
  destruct (String.eqb_spec (cfg_Namespace c) name) as [Hn|]; [|done]. simpl. by rewrite (Ho c (listed k c Hc Hn)).
Qed.

Lemma team_listed c : c ∈ items -> is_own c = false -> team_configs name w <> ∅.
Proof.
  intros [Hc Hn]%Hitems Ho He. pose proof (proj1 (configs_that_empty _ _) He _ _ Hc) as Hf. clear He.
  unfold team_in in Hf. by rewrite Hn, String.eqb_refl, Ho in Hf.
Qed.

Lemma one_own_listed c : items = [c] -> is_own c = true -> own_configs name w = {[cfg_key c := c]}.
Proof.
  intros Hi Ho. assert (cs_configs w !! cfg_key c = Some c /\ cfg_Namespace c = name) as [Hc Hn]
    by (apply Hitems; rewrite Hi; constructor).
  apply map_eq. intros k. apply option_eq. intros x. unfold own_configs. rewrite configs_that_lookup, lookup_singleton_Some. split.
  - intros [Hx [Hnx%String.eqb_eq Hox]%andb_true_iff]. pose proof (listed k x Hx Hnx) as Hin.
    rewrite Hi in Hin. apply list_elem_of_singleton in Hin as ->. by rewrite (cs_keyed _ _ _ Hvalid Hx).
  - intros [<- <-]. split; [done|]. unfold own_in. by rewrite Hn, String.eqb_refl.
Qed.

(** Exactly the promised config: the listing has it and nothing else. *)
Lemma right_listing k c :
  own_configs name w = {[k := c]} -> team_configs name w = ∅ -> items = [c].
Proof.
  intros Ho Ht0. pose proof (proj1 (configs_that_empty _ _) Ht0) as Ht.
  assert (forall x, x ∈ items -> x = c) as Hall.
  { intros x [Hx Hn]%Hitems. specialize (Ht _ _ Hx). unfold team_in in Ht. rewrite Hn, String.eqb_refl in Ht. simpl in Ht.
    apply negb_false_iff in Ht. assert (own_configs name w !! cfg_key x = Some x) as Hox.
    { apply configs_that_lookup. split; [done|]. unfold own_in. by rewrite Hn, String.eqb_refl. }
    rewrite Ho in Hox. by apply lookup_singleton_Some in Hox as [_ ->]. }
  assert (c ∈ items) as Hc.
  { assert (own_configs name w !! k = Some c) as Hoc by (rewrite Ho; apply lookup_singleton_eq).
    apply configs_that_lookup in Hoc as [Hc [Hn%String.eqb_eq _]%andb_true_iff]. by eapply listed. }
  destruct items as [|x [|y l]].
  - by apply elem_of_nil in Hc.
  - f_equal. apply Hall. constructor.
  - exfalso. rewrite (Hall x) in Hnd by constructor. rewrite (Hall y) in Hnd by do 2 constructor.
    apply NoDup_cons in Hnd as [Hx _]. apply Hx. constructor.
Qed.

End Listing.

(** What one reconcile does: it finds the namespace as promised and writes nothing, or leaves it as promised,
    or takes one of the operator's configs away. *)
Definition progress (name : string) (w : W) (t : list (obs C)) (w' : W) : Prop :=
  cs_valid w' /\ (forall n, cs_namespace w' n = cs_namespace w n)
  /\ foreign_configs name w' = foreign_configs name w
  /\ (enrolled_right name w -> writes t = [] /\ cs_configs w' = cs_configs w)
  /\ (enrolled_right name w \/ enrolled_right name w' \/ (size (own_configs name w') < size (own_configs name w))%nat).

Lemma right_same name w w' :
  cs_configs w' = cs_configs w -> (forall n, cs_namespace w' n = cs_namespace w n) ->
  enrolled_right name w -> enrolled_right name w'.
Proof.
  intros Hc Hn Hr ns Hns. rewrite Hn in Hns. specialize (Hr ns Hns).
  unfold team_configs, own_configs in *. by rewrite !(configs_that_same _ w w' Hc).
Qed.

Lemma progress_none name w w' t :
  cs_valid w' -> cs_configs w' = cs_configs w -> (forall n, cs_namespace w' n = cs_namespace w n) ->
  writes t = [] -> enrolled_right name w -> progress name w t w'.
Proof.
  intros Hv Hc Hn Hw Hr. split_and!; [done..| |done|by left]. by apply configs_that_same.
Qed.

(** Deleting an own config of a namespace that is not as promised. *)
Lemma progress_delete name w w1 c t0 (P : M C W outcome) :
  P = deleteOwn c -> writes t0 = [] ->
  cs_valid w1 -> cs_configs w1 = cs_configs w -> (forall n, cs_namespace w1 n = cs_namespace w n) ->
  cs_configs w !! cfg_key c = Some c -> own_in name c = true -> ~ enrolled_right name w ->
  wp P w1 (fun _ t w' => progress name w (t0 ++ t) w').
Proof.
  intros -> Ht0 Hv Hcs Hns Hc Ho Hno. unfold deleteOwn. apply wp_bind. wp_call. intros r w2 E.
  rewrite <- Hcs in Hc. destruct (cs_delete _ _ _ _ Hv (mk_is_Some _ _ Hc) E) as (Hv2 & -> & Hd & Hn2).
  cbn [world world_self] in *. apply wp_ret.
  assert (forall p, configs_that p w2 = if p c then delete (cfg_key c) (configs_that p w) else configs_that p w) as Hdel.
  { intros p. rewrite (configs_that_delete p w1 w2 c Hc Hd). by rewrite (configs_that_same p w w1 Hcs). }
  split_and!; [done|intros n; by rewrite Hn2| |done|].
  - unfold foreign_configs. by rewrite Hdel, Ho.
  - right; right. unfold own_configs. rewrite Hdel, Ho. rewrite map_size_delete.
    assert (configs_that (own_in name) w !! cfg_key c = Some c) as Hoc by (apply configs_that_lookup; by rewrite <- Hcs).
    rewrite Hoc. destruct (size (configs_that (own_in name) w)) eqn:Es; [|simpl; lia].
    apply map_size_empty_inv in Es. by rewrite Es, lookup_empty in Hoc.
Qed.

(** Storing an own config in a namespace with no other config brings it to the promised state. *)
Lemma stored_right name w w' k c ns :
  cs_valid w' -> (forall n, cs_namespace w' n = cs_namespace w n) ->
  cs_namespace w name = Some ns -> matches e ns = true ->
  cs_configs w' = <[k := c]> (cs_configs w) -> own_in name c = true ->
  (forall c0, cs_configs w !! k = Some c0 -> own_in name c0 = true) ->
  team_configs name w = ∅ -> (forall k' c', own_configs name w !! k' = Some c' -> k' = k) ->
  en_KeyAcceptance e = "" \/ KeyAcceptance (cfg_Spec c) = en_KeyAcceptance e ->
  foreign_configs name w' = foreign_configs name w /\ enrolled_right name w'.
Proof.
  intros Hv Hns Hf Hm Hw' Ho Hk Ht Hown Hka. pose proof Ho as [Hn Hoc]%andb_true_iff.
  assert (forall p : SaltKeyConfig -> bool, p c = false -> (forall c0, own_in name c0 = true -> p c0 = false) ->
    configs_that p w' = configs_that p w) as Hother.
  { intros p Hp Hp0. rewrite (configs_that_insert p w w' k c); [by rewrite Hp| |done].
    intros c0 Hc0. rewrite Hp. by apply Hp0, Hk. }
  split.
  - apply Hother; [by rewrite Ho|]. intros c0 ->. done.
  - assert (team_configs name w' = ∅) as Ht'.
    { unfold team_configs. rewrite Hother; [exact Ht| |]; unfold team_in; [by rewrite Hn, Hoc|].
      intros c0 [-> ->]%andb_true_iff. done. }
    intros ns' Hns' _. rewrite Hns, Hf in Hns'. injection Hns' as <-. rewrite Hm. split; [|done]. intros _. exists k, c.
    split; [|done]. unfold own_configs. rewrite (configs_that_insert _ w w' k c); [|intros c0 Hc0; by rewrite Ho, Hk|done].
    rewrite Ho. apply map_eq. intros k'. destruct (decide (k' = k)) as [->|Hne].
    + by rewrite lookup_insert_eq, lookup_singleton_eq.
    + rewrite lookup_insert_ne, lookup_singleton_ne by done.
      destruct (configs_that _ w !! k') as [c'|] eqn:E; [|done]. by destruct (Hne (Hown k' c' E)).
Qed.

(** A round that has read a live namespace and its configs. *)
Section Round.
Context (name : string) (w w2 : W) (ns : Namespace) (items : list SaltKeyConfig) (t0 : list (obs C)).
Hypothesis Hv : cs_valid w.
Hypothesis Hv2 : cs_valid w2.
Hypothesis Hc2 : cs_configs w2 = cs_configs w.
Hypothesis Hn2 : forall n, cs_namespace w2 n = cs_namespace w n.
Hypothesis Hg : cs_namespace w name = Some ns.
Hypothesis Hd : ns_deletionTimestamp ns = None.
Hypothesis Hnd : NoDup items.
Hypothesis Hitems : forall c, c ∈ items <-> cs_configs w !! cfg_key c = Some c /\ cfg_Namespace c = name.
Hypothesis Ht0 : writes t0 = [].

Lemma right_now : enrolled_right name w <->
  if matches e ns
  then (team_configs name w = ∅ -> exists k c, own_configs name w = {[k := c]}
          /\ (en_KeyAcceptance e = "" \/ KeyAcceptance (cfg_Spec c) = en_KeyAcceptance e))
       /\ (team_configs name w <> ∅ -> own_configs name w = ∅)
  else own_configs name w = ∅.
Proof. split; [intros Hr; exact (Hr ns Hg Hd)|]. intros Hr ns' Hns' _. rewrite Hg in Hns'. by injection Hns' as <-. Qed.

Lemma rest_progress r : enrolled_right name w -> wp (mret r : M C W outcome) w2 (fun _ t w' => progress name w (t0 ++ t) w').
Proof. intros Hr. apply wp_ret. rewrite app_nil_r. by apply progress_none. Qed.

(** The one config stored afresh, under its own key, in a namespace that was not as promised. *)
Lemma stored_progress w3 k c q r :
  matches e ns = true -> team_configs name w = ∅ -> (forall k' c', own_configs name w !! k' = Some c' -> k' = k) ->
  (forall c0, cs_configs w !! k = Some c0 -> own_in name c0 = true) -> k.1 = name -> is_own c = true ->
  en_KeyAcceptance e = "" \/ KeyAcceptance (cfg_Spec c) = en_KeyAcceptance e -> ~ enrolled_right name w ->
  cs_valid w3 -> (forall n, cs_namespace w3 n = cs_namespace w2 n) -> cs_configs w3 = <[k := c]> (cs_configs w2) ->
  progress name w (t0 ++ [Obs q r]) w3.
Proof.
  intros Hm Ht Hown Hk Hkn Ho Hka Hno Hv3 Hn3 Hc3.
  assert (cs_configs w3 !! k = Some c) as Hkc by (rewrite Hc3; apply lookup_insert_eq).
  rewrite Hc2 in Hc3. destruct (stored_right name w w3 k c ns) as [Hfor Hr3]; try done.
  - intros n. by rewrite Hn3.
  - unfold own_in. pose proof (cs_keyed _ _ _ Hv3 Hkc) as Hkey. rewrite <- Hkey in Hkn. simpl in Hkn.
    by rewrite Hkn, String.eqb_refl.
  - split_and!; [done|intros n; by rewrite Hn3|done|done|by right; left].
Qed.

Lemma adjust_progress own :
  items = [own] -> is_own own = true -> matches e ns = true ->
  wp (adjustOwn e own : M C W outcome) w2 (fun _ t w' => progress name w (t0 ++ t) w').
Proof.
  intros Hi Hio Hm. pose proof (one_own_listed name w items Hv Hitems own Hi Hio) as Ho1.
  assert (team_configs name w = ∅) as Ht.
  { apply (no_team_listed name w items Hv Hitems). rewrite Hi. by intros c ->%list_elem_of_singleton. }
  assert (cs_configs w !! cfg_key own = Some own /\ cfg_Namespace own = name) as [Hc Hnn]
    by (apply Hitems; rewrite Hi; constructor).
  unfold adjustOwn. destruct ((en_KeyAcceptance e <>s? "") && _) eqn:Ek; cycle 1.
  { apply rest_progress, right_now. rewrite Hm. split; [|done]. intros _. exists (cfg_key own), own. split; [done|].
    apply andb_false_iff in Ek as [Ek|Ek]; reflect_bools; auto. }
  reflect_bools. apply wp_bind. wp_call. intros p w3 E3. cbn [world set_world world_self] in *.
  rewrite <- Hc2 in Hc.
  destruct (cs_patch w2 own (set_KeyAcceptance (en_KeyAcceptance e) own) _ _ Hv2 Hc eq_refl E3)
    as (Hv3 & Hn3 & c & -> & Hc3 & Hl3 & Hk3). rewrite Hc2 in Hc. apply wp_ret.
  apply (stored_progress w3 (cfg_key own) c); try done.
  - intros k' c'. rewrite Ho1. by intros [<- _]%lookup_singleton_Some.
  - intros c0 Hc0. rewrite Hc in Hc0. injection Hc0 as <-. unfold own_in. by rewrite Hnn, String.eqb_refl.
  - unfold is_own in *. by rewrite Hl3.
  - by right.
  - intros Hr. apply (proj1 right_now) in Hr. rewrite Hm in Hr. destruct (proj1 Hr Ht) as (k' & c' & Ho2 & Hka). rewrite Ho1 in Ho2.
    assert (({[k' := c']} : gmap _ _) !! cfg_key own = Some own) as Hs by (rewrite <- Ho2; apply lookup_singleton_eq).
    apply lookup_singleton_Some in Hs as [_ ->]. by destruct Hka.
Qed.

Lemma create_progress :
  items = [] -> matches e ns = true -> own_configs name w = ∅ ->
  wp (createOwn e name : M C W outcome) w2 (fun _ t w' => progress name w (t0 ++ t) w').
Proof.
  intros Hi Hm Ho. assert (team_configs name w = ∅) as Ht.
  { apply (no_team_listed name w items Hv Hitems). rewrite Hi. by intros c ?%elem_of_nil. }
  assert (cs_configs w !! cfg_key (enrolled_config e name) = None) as Hnone.
  { destruct (cs_configs w !! _) as [c0|] eqn:E0; [|done]. exfalso.
    pose proof (cs_keyed _ _ _ Hv E0) as Hk0. injection Hk0 as Hn0 _.
    pose proof (listed name w items Hv Hitems _ c0 E0 Hn0) as Hin. rewrite Hi in Hin. by apply elem_of_nil in Hin. }
  unfold createOwn. apply wp_bind. wp_call. intros r w3 E3. cbn [world set_world world_self] in *.
  rewrite <- Hc2 in Hnone. destruct (cs_create _ _ _ _ Hv2 Hnone E3) as (Hv3 & Hn3 & -> & c & Hc3 & Hl3 & Hk3).
  rewrite Hc2 in Hnone. apply wp_ret. apply (stored_progress w3 (cfg_key (enrolled_config e name)) c); try done.
  - intros k' c'. by rewrite Ho, lookup_empty.
  - intros c0 Hc0. congruence.
  - unfold is_own. rewrite Hl3. reflexivity.
  - destruct (String.eqb_spec (en_KeyAcceptance e) ""); [by left|right; by apply Hk3].
  - intros Hr. apply (proj1 right_now) in Hr. rewrite Hm in Hr. destruct (proj1 Hr Ht) as (k' & c' & Ho2 & _). rewrite Ho in Ho2.
    assert (({[k' := c']} : gmap _ _) !! k' = None) as Hs by by rewrite <- Ho2.
    by rewrite lookup_singleton_eq in Hs.
Qed.

Lemma found_progress own :
  find_own None items = Some own ->
  wp ((if matches e ns then if bool_decide (1 < length items)%nat then deleteOwn own else adjustOwn e own
       else deleteOwn own) : M C W outcome) w2 (fun _ t w' => progress name w (t0 ++ t) w').
Proof.
  intros Eo. destruct (own_listed name w items Hitems own Eo) as [Hc Hown]. apply find_own_Some in Eo as [Hin Hio].
  assert (own_configs name w !! cfg_key own = Some own) as Hol by (by apply configs_that_lookup).
  assert (own_configs name w <> ∅) as Hne by (intros Ee; by rewrite Ee, lookup_empty in Hol).
  pose proof right_now as Hright. destruct (matches e ns) eqn:Em; cycle 1.
  { apply (progress_delete name w w2 own t0); try done. by rewrite Hright. }
  case_bool_decide as Hlen.
  - apply (progress_delete name w w2 own t0); try done. intros [Hr1 Hr2]%Hright.
    destruct (decide (team_configs name w = ∅)) as [Ht|Ht]; [|by apply Hne, Hr2].
    destruct (Hr1 Ht) as (k & c & Ho1 & _). rewrite (right_listing name w items Hv Hnd Hitems k c Ho1 Ht) in Hlen.
    simpl in Hlen. lia.
  - apply adjust_progress; [|done..]. destruct items as [|x [|y l]]; simpl in Hlen; [by apply elem_of_nil in Hin| |lia].
    by apply list_elem_of_singleton in Hin as ->.
Qed.

Lemma none_progress :
  find_own None items = None ->
  wp ((if matches e ns then if bool_decide (0 < length items)%nat then mret (Done 0) else createOwn e name
       else mret (Done 0)) : M C W outcome) w2 (fun _ t w' => progress name w (t0 ++ t) w').
Proof.
  intros Eo. pose proof (none_own_listed name w items Hv Hitems Eo) as Ho.
  pose proof right_now as Hright. destruct (matches e ns) eqn:Em; [|by apply rest_progress, Hright].
  case_bool_decide as Hlen.
  - apply rest_progress, Hright. split; [|done]. intros Ht. exfalso. destruct items as [|x l]; [simpl in Hlen; lia|].
    apply (team_listed name w (x :: l) Hitems x); [constructor| |done].
    apply find_own_None in Eo. simpl in Eo. by destruct (is_own x).
  - apply create_progress; [|done..]. destruct items; [done|simpl in Hlen; lia].
Qed.

End Round.

Lemma wp_round_progress name w : cs_valid w ->
  wp (Reconcile (C := C) e name) w (fun _ t w' => progress name w t w').
Proof.
  intros Hv. unfold Reconcile. apply wp_bind. wp_call. intros g w1 E1.
  destruct (cs_get _ _ _ _ Hv E1) as (Hv1 & Hc1 & Hn1 & Hg). cbn [world set_world world_self] in *.
  destruct g as [ns|err]; cycle 1.
  { destruct Hg as [Hg _]. apply wp_ret. apply progress_none; try done. intros ns Hns. congruence. }
  pose proof (cs_named _ _ _ Hv Hg) as Hname. case_bool_decide as Hd.
  { apply wp_ret. apply progress_none; try done. intros ns' Hns' Hd'. rewrite Hg in Hns'. injection Hns' as <-.
    rewrite Hd' in Hd. by destruct Hd. }
  apply eq_None_not_Some in Hd. apply wp_bind. wp_call. intros l w2 E2. rewrite Hname in *.
  destruct (cs_list _ _ _ _ Hv1 E2) as (Hv2 & Hc2 & Hn2 & items & -> & Hnd & Hitems).
  cbn [world set_world world_self] in *. rewrite Hc1 in Hc2. rewrite Hc1 in Hitems.
  assert (forall n, cs_namespace w2 n = cs_namespace w n) as Hn by (intros n; by rewrite Hn2). cbv zeta.
  set (t0 := [Obs (CGetNamespace name) (Ok ns); Obs (CListConfigs (Some name)) (Ok items)] : list (obs C)).
  destruct (find_own None items) as [own|] eqn:Eo.
  - pose proof (found_progress name w w2 ns items t0 Hv Hv2 Hc2 Hn Hg Hd Hnd Hitems eq_refl own Eo) as Hp.
    by destruct (matches e ns).
  - pose proof (none_progress name w w2 ns items t0 Hv Hv2 Hc2 Hn Hg Hd Hnd Hitems eq_refl Eo) as Hp.
    by destruct (matches e ns).
Qed.

Lemma round_progress name w : cs_valid w -> progress name w (Reconcile e name w).1.2 (round name w).
Proof. intros Hv. exact (wp_result _ _ _ (wp_round_progress name w Hv)). Qed.

(** Rounds on a namespace as promised leave it so. *)
Lemma right_iter name w k : cs_valid w -> enrolled_right name w ->
  let w' := Nat.iter k (round name) w in
  cs_valid w' /\ enrolled_right name w' /\ cs_configs w' = cs_configs w.
Proof.
  intros Hv Hr. induction k as [|k IH]; simpl; [done|]. destruct IH as (Hv' & Hr' & Hc').
  destruct (round_progress name _ Hv') as (Hv2 & Hn2 & _ & Hq & _). destruct (Hq Hr') as [_ Hc2].
  split_and!; [done| |by rewrite Hc2]. by eapply right_same.
Qed.

(** C10: Enrolment converges. Against any API server that does what [ConfigServer] says, nobody else
    writing meanwhile, as many reconciles as the namespace has configs of the operator, and one more, reach a
    state in which further reconciles write nothing and leave every config as it is. There, a matching
    namespace has exactly one config of the operator, with the wanted key acceptance, when its team
    has none, and none when its team has one; any other live namespace has none. On the way no other
    config of the cluster changes. *)
Theorem enrolment_converges name (w : W) k (Hvalid : cs_valid w)
    (Hk : (size (own_configs name w) < k)%nat) :
  let w' := Nat.iter k (round name) w in
  enrolled_right name w' /\ foreign_configs name w' = foreign_configs name w
  /\ forall j, round_writes name (Nat.iter j (round name) w') = []
            /\ cs_configs (Nat.iter j (round name) w') = cs_configs w'.
Proof.
  assert (let w' := Nat.iter k (round name) w in
    cs_valid w' /\ enrolled_right name w' /\ foreign_configs name w' = foreign_configs name w) as (Hv & Hr & Hf).
  { revert w Hvalid Hk. induction k as [|k IH]; intros w Hvalid Hk; [lia|]. cbv zeta. rewrite Nat.iter_succ_r.
    destruct (round_progress name w Hvalid) as (Hv1 & Hn1 & Hf1 & Hq & Hp). rewrite <- Hf1.
    assert (enrolled_right name (round name w) -> let w' := Nat.iter k (round name) (round name w) in
      cs_valid w' /\ enrolled_right name w' /\ foreign_configs name w' = foreign_configs name (round name w)) as Hdone.
    { intros Hr1. destruct (right_iter name (round name w) k Hv1 Hr1) as (? & ? & Hc). split_and!; [done..|].
      by apply configs_that_same. }
    destruct Hp as [Hr|[Hr|Hlt]]; [|by apply Hdone|apply IH; [done|lia]].
    apply Hdone. destruct (Hq Hr) as [_ Hc]. by eapply right_same. }
  cbv zeta in *. split_and!; [done..|]. intros j.
  destruct (right_iter name _ j Hv Hr) as (Hvj & Hrj & Hcj). split; [|exact Hcj].
  destruct (round_progress name _ Hvj) as (_ & _ & _ & Hq & _). by destruct (Hq Hrj).
Qed.

End Convergence.

(** ** The flags *)

(** An item a flag value can carry. *)
Definition flag_item (i : string) : Prop := no_byte "," i = true /\ TrimSpace i = i /\ i <> "".

Lemma trimmed_items_clean items : Forall flag_item items -> trimmed_items items = items.
Proof.
  induction 1 as [|i items (_ & Ht & Hn) _ IH]; [done|]. simpl. rewrite Ht, IH.
  by destruct (String.eqb_spec i "").
Qed.

(** A flag value made by joining trimmed, non-empty items without commas is split into the same
    items, so the default of --enrol-exclude-prefixes stands for its list. *)
Theorem splitList_join items (Hitems : Forall flag_item items) : splitList (Join items ",") = items.
Proof.
  unfold splitList. destruct items as [|i items]; [done|].
  rewrite Split_Join; [by apply trimmed_items_clean|done|].
  eapply Forall_impl; [exact Hitems|]. by intros ? (? & _).
Qed.

Lemma trimmed_items_nonempty items i : i ∈ trimmed_items items -> i <> "".
Proof.
  induction items as [|j items IH]; simpl; [by intros ?%elem_of_nil|].
  destruct (TrimSpace j =s? "") eqn:E; simpl; [done|]. reflect_bools. intros [->|?]%elem_of_cons; auto.
Qed.

Lemma matches_true e ns :
  matches e ns = true <->
  (forall p, p ∈ en_ExcludePrefixes e -> p <> "" -> HasPrefix (ns_Name ns) p = false)
  /\ (ns_Name ns ∈ en_Namespaces e \/ en_All e = true
      \/ exists s, en_Selector e = Some s /\ sel_Empty s = false /\ sel_Matches s (ns_Labels ns) = true).
Proof.
  unfold matches, selects. split.
  - destruct (existsb _ (en_ExcludePrefixes e)) eqn:Ex; [done|]. intros Hm. split.
    + intros p Hp Hn. destruct (HasPrefix (ns_Name ns) p) eqn:E; [|done].
      assert (existsb (fun p => (p <>s? "") && HasPrefix (ns_Name ns) p) (en_ExcludePrefixes e) = true); [|congruence].
      apply existsb_exists. exists p. rewrite <- list_elem_of_In. split; [done|].
      apply String.eqb_neq in Hn. by rewrite Hn, E.
    + destruct (existsb _ (en_Namespaces e)) eqn:En.
      * apply existsb_exists in En as (n & Hn%list_elem_of_In & ->%String.eqb_eq). by left.
      * destruct (en_All e); [by right; left|]. simpl in Hm. right; right.
        destruct (en_Selector e) as [s|]; [|done]. exists s. by destruct (sel_Empty s).
  - intros [Hno Hm]. destruct (existsb _ (en_ExcludePrefixes e)) eqn:Ex.
    { apply existsb_exists in Ex as (p & Hp%list_elem_of_In & [Hn Hpre]%andb_true_iff).
      apply negb_true_iff, String.eqb_neq in Hn. by rewrite (Hno p Hp Hn) in Hpre. }
    destruct (existsb _ (en_Namespaces e)) eqn:En; [done|].
    destruct Hm as [Hin|[->|(s & -> & -> & Hs)]]; [|done|by destruct (en_All e)].
    exfalso. assert (existsb (fun n => n =s? ns_Name ns) (en_Namespaces e) = true); [|congruence].
    apply existsb_exists. exists (ns_Name ns). rewrite <- list_elem_of_In, String.eqb_refl. done.
Qed.

(** The mode of key acceptance the flags allow. *)
Definition known_mode (m : string) : Prop := m = KeyAcceptanceDiscovery \/ m = KeyAcceptancePreseed.

Lemma enrolment_of_some parse f def e : enrolment_of parse f def = Some e ->
  known_mode (enrolKeyAcceptance f) /\ exists sel,
    e = {| en_Namespaces := splitList (enrolNamespaces f); en_All := enrolAll f; en_Selector := sel;
           en_ExcludePrefixes := splitList (enrolExclude f) ++ [def_Namespace def];
           en_KeyAcceptance := enrolKeyAcceptance f |}
    /\ (forall s, sel = Some s <-> enrolSelector f <> "" /\ parse (enrolSelector f) = Ok s)
    /\ (enrolSelector f <> "" -> is_Some sel).
Proof.
  unfold enrolment_of, known_mode. destruct ((_ <>s? _) && _) eqn:Ek; [done|].
  apply andb_false_iff in Ek. rewrite !negb_false_iff, !String.eqb_eq in Ek.
  destruct (String.eqb_spec (enrolSelector f) "") as [|Hn]; simpl.
  - intros [= <-]. split; [done|]. exists None. split_and!; [done|naive_solver|done].
  - destruct (parse _) as [s|]; [|done]. intros [= <-]. split; [done|]. exists (Some s). split_and!; [done| |by eexists].
    intros s'. split; [by intros [= <-]|]. by intros [_ [= <-]].
Qed.

Lemma enrolment_of_none parse f def : enrolment_of parse f def = None ->
  ~ known_mode (enrolKeyAcceptance f) \/ enrolSelector f <> "" /\ exists err, parse (enrolSelector f) = Err err.
Proof.
  unfold enrolment_of, known_mode. destruct ((_ <>s? _) && _) eqn:Ek.
  - apply andb_true_iff in Ek as [H1 H2]. reflect_bools. left. tauto.
  - destruct (String.eqb_spec (enrolSelector f) "") as [|Hn]; simpl; [done|].
    destruct (parse _) as [s|err]; [done|]. right. eauto.
Qed.


(** ** The reference API server is such a server *)

Section Reference.
#[local] Existing Instance server.

Definition config_map (l : list SaltKeyConfig) : gmap (string * string) SaltKeyConfig :=
  list_to_map ((fun c => (cfg_key c, c)) <$> l).

Definition keyed (l : list SaltKeyConfig) : Prop := NoDup (cfg_key <$> l).

Lemma config_map_lookup l k c : keyed l -> config_map l !! k = Some c <-> c ∈ l /\ cfg_key c = k.
Proof.
  intros Hk. unfold config_map. rewrite <- elem_of_list_to_map; cycle 1.
  { rewrite <- list_fmap_compose. exact Hk. }
  rewrite list_elem_of_fmap. split; [intros (x & [= -> ->] & Hx); done|]. intros [Hc <-]. by exists c.
Qed.

Lemma config_is_key ns n c : config_is ns n c = bool_decide (cfg_key c = (ns, n)).
Proof.
  unfold config_is, cfg_key. destruct (String.eqb_spec (cfg_Namespace c) ns), (String.eqb_spec (cfg_Name c) n);
    simpl; case_bool_decide; naive_solver.
Qed.

Lemma config_is_own c x : config_is (cfg_Namespace c) (cfg_Name c) x = bool_decide (cfg_key x = cfg_key c).
Proof. apply config_is_key. Qed.

(** A config of a keyed list is found by its key, and replaced or removed as in the map. *)
Lemma keyed_filter (p : SaltKeyConfig -> bool) l : keyed l -> keyed (List.filter p l).
Proof.
  unfold keyed. induction l as [|x l IH]; [done|]. cbn [fmap list_fmap]. intros [Hx Hk]%NoDup_cons. simpl.
  destruct (p x); [|by apply IH]. apply NoDup_cons. split; [|by apply IH].
  intros (y & E & Hy)%list_elem_of_fmap. apply Hx, list_elem_of_fmap. exists y. split; [done|].
  apply list_elem_of_In, List.filter_In in Hy as [Hy _]. by apply list_elem_of_In.
Qed.

Lemma find_keyed l k c : keyed l -> config_map l !! k = Some c ->
  List.find (config_is k.1 k.2) l = Some c.
Proof.
  intros Hk Hc. destruct (List.find _ l) as [x|] eqn:Ef.
  - apply List.find_some in Ef as [Hx%list_elem_of_In Hp]. rewrite config_is_key in Hp. apply bool_decide_eq_true in Hp.
    rewrite <- surjective_pairing in Hp. assert (config_map l !! k = Some x) as Hx'
      by (by apply config_map_lookup). congruence.
  - apply config_map_lookup in Hc as [Hin <-]; [|done]. apply list_elem_of_In in Hin.
    pose proof (List.find_none _ _ Ef c Hin) as Hf. rewrite config_is_key in Hf.
    by apply bool_decide_eq_false in Hf.
Qed.

Lemma config_map_without l c : keyed l ->
  config_map (List.filter (fun x => negb (config_is (cfg_Namespace c) (cfg_Name c) x)) l) = delete (cfg_key c) (config_map l).
Proof.
  intros Hk. apply map_eq. intros k. apply option_eq. intros x.
  rewrite config_map_lookup by (by apply keyed_filter). rewrite lookup_delete_Some, config_map_lookup by done.
  rewrite !list_elem_of_In, List.filter_In, config_is_own, negb_true_iff, bool_decide_eq_false. naive_solver.
Qed.

Lemma config_map_with l k c : cfg_key c = k -> keyed l -> is_Some (config_map l !! k) ->
  let l' := (fun x => if config_is k.1 k.2 x then c else x) <$> l in
  keyed l' /\ config_map l' = <[k := c]> (config_map l).
Proof.
  intros Hck Hk Hs l'. assert (cfg_key <$> l' = cfg_key <$> l) as Ekeys.
  { unfold l'. clear - Hck. rewrite <- list_fmap_compose. apply list_fmap_ext. intros i x _. simpl.
    rewrite config_is_key, <- surjective_pairing. by case_bool_decide as E; [rewrite E|]. }
  assert (keyed l') as Hk' by (unfold keyed; by rewrite Ekeys). split; [done|].
  apply map_eq. intros j. apply option_eq. intros x. rewrite config_map_lookup by done. unfold l'.
  rewrite list_elem_of_fmap. setoid_rewrite config_is_key. rewrite <- surjective_pairing.
  destruct (decide (j = k)) as [->|Hne].
  - rewrite lookup_insert_eq. destruct Hs as [c0 [Hin Hc0]%config_map_lookup]; [|done]. split.
    + intros [(y & -> & Hy) Hj]. case_bool_decide as E; [done|by destruct E].
    + intros [= <-]. split; [|done]. exists c0. by rewrite bool_decide_eq_true_2.
  - rewrite lookup_insert_ne by done. rewrite config_map_lookup by done. split.
    + intros [(y & -> & Hy) Hj]. case_bool_decide as E; [congruence|done].
    + intros [Hx Hj]. split; [|done]. exists x. split; [|done]. by rewrite bool_decide_eq_false_2 by congruence.
Qed.

#[export] Instance server_configs : ConfigServer World Handle.
Proof.
  refine {| cs_valid w := keyed (w_configs w);
            cs_namespace w n := List.find (fun x => ns_Name x =s? n) (w_namespaces w);
            cs_configs w := config_map (w_configs w) |}; unfold env, server, serve.
  - intros w n ns _ [_ Hn%String.eqb_eq]%List.find_some. done.
  - intros w k c Hk Hc. apply config_map_lookup in Hc; [by destruct Hc|done].
  - intros w n r w' Hk. destruct (List.find _ _) as [ns|]; intros [= <- <-]; by split_and!.
  - intros w n r w' Hk [= <- <-]. split_and!; [done..|]. eexists. split; [done|]. split.
    + apply NoDup_ListNoDup, List.NoDup_filter, NoDup_ListNoDup. by apply NoDup_fmap_1 in Hk.
    + intros c. rewrite config_map_lookup by done. rewrite list_elem_of_In, List.filter_In, <- list_elem_of_In.
      simpl. rewrite String.eqb_eq. tauto.
  - intros w c r w' Hk [c0 Hc]. apply (find_keyed _ (cfg_key c)) in Hc as Hf; [|done]. simpl in Hf.
    assert (existsb (config_is (cfg_Namespace c) (cfg_Name c)) (w_configs w) = true) as ->.
    { apply List.find_some in Hf. apply existsb_exists. by exists c0. }
    intros [= <- <-]. simpl. split_and!; [by apply keyed_filter|done|by apply config_map_without|done].
  - intros w b m r w' Hk Hb Hm. unfold patch_config. injection Hm as Hm1 Hm2. rewrite Hm1, Hm2.
    pose proof (find_keyed _ (cfg_key b) b Hk Hb) as Hf. cbn [fst snd cfg_key] in Hf. rewrite Hf. intros [= <- <-].
    destruct (config_map_with (w_configs w) (cfg_key b) (merge_config m b false) eq_refl Hk (mk_is_Some _ _ Hb)) as [Hk' Hc'].
    split_and!; [exact Hk'|done|]. exists (merge_config m b false). by split_and!.
  - intros w c r w' Hk Hn. destruct (existsb _ (w_configs w)) eqn:Ex.
    { exfalso. apply existsb_exists in Ex as (x & Hx%list_elem_of_In & Hp). rewrite config_is_own in Hp.
      apply bool_decide_eq_true in Hp. assert (config_map (w_configs w) !! cfg_key c = Some x) as Hs
        by (by apply config_map_lookup). congruence. }
    intros [= <- <-]. split_and!; [|done..|by exists c].
    unfold keyed. simpl. apply NoDup_cons. split; [|done]. intros (x & E & Hx)%list_elem_of_fmap.
    assert (config_map (w_configs w) !! cfg_key c = Some x) as Hs by (by apply config_map_lookup). congruence.
Defined.

End Reference.

(** ** Concrete runs *)

Section Witness.
#[local] Existing Instance server.

Definition demo_enrolment : Enrolment :=
  {| en_Namespaces := ["team"]; en_All := false; en_Selector := None;
     en_ExcludePrefixes := DefaultEnrolmentExcludePrefixes ++ ["salt-operator"];
     en_KeyAcceptance := KeyAcceptancePreseed |}.

Definition named_config (name : string) (own : bool) : SaltKeyConfig :=
  let c := enrolled_config demo_enrolment "team" in
  {| cfg_Name := name; cfg_Namespace := "team"; cfg_Labels := if own then cfg_Labels c else ∅;
     cfg_ResourceVersion := "1"; cfg_Generation := 1; cfg_Spec := cfg_Spec c; cfg_Status := cfg_Status c |}.

(** A namespace of a team with its own config and two the operator left behind. *)
Definition crowded_world : World := {|
  w_now := demo_now; w_vms := []; w_secrets := [];
  w_configs := [named_config "salt-config" true; named_config "mine" false; named_config "salt-old" true];
  w_namespaces := [{| ns_Name := "team"; ns_Labels := ∅; ns_deletionTimestamp := None |}];
  w_answers := all_well |}.

(** C10 at that namespace: three rounds take the two configs away, as the team has its own. *)
Lemma enrolment_converges_witness :
  let w' := Nat.iter 3 (round demo_enrolment "team") crowded_world in
  cfg_Name <$> w_configs w' = ["mine"] /\ enrolled_right demo_enrolment "team" w'
  /\ foreign_configs "team" w' = foreign_configs "team" crowded_world
  /\ forall j, round_writes demo_enrolment "team" (Nat.iter j (round demo_enrolment "team") w') = []
            /\ cs_configs (Nat.iter j (round demo_enrolment "team") w') = cs_configs w'.
Proof.
  split; [vm_compute; reflexivity|].
  apply (enrolment_converges demo_enrolment "team" crowded_world 3).
  - exact (proj1 (bool_decide_eq_true (NoDup (cfg_key <$> w_configs crowded_world))) eq_refl).
  - apply Nat.ltb_lt. vm_compute. reflexivity.
Defined.


(** The default of the exclude flag. *)
Lemma splitList_join_witness :
  splitList "kube-,vmware-system-,svc-,tkg-system,kapp-controller" = DefaultEnrolmentExcludePrefixes.
Proof.
  apply (splitList_join DefaultEnrolmentExcludePrefixes).
  repeat (constructor; [split; [vm_compute; reflexivity|split; [vm_compute; reflexivity|discriminate]]|]).
  constructor.
Defined.

(** With the operator installed in [salt], a team's namespace [salt-team] is not enrolled although all are. *)
Example operator_prefix_excluded :
  let f := {| enrolNamespaces := ""; enrolSelector := ""; enrolAll := true;
              enrolExclude := Join DefaultEnrolmentExcludePrefixes ","; enrolKeyAcceptance := "discovery" |} in
  let ns := {| ns_Name := "salt-team"; ns_Labels := ∅; ns_deletionTimestamp := None |} in
  match start_enrolment (fun _ => not_found) f {| def_Namespace := "salt"; def_SecretName := "raas" |} with
  | Enrolling e => matches e ns = false
  | _ => False
  end.
Proof. vm_compute. reflexivity. Qed.

End Witness.
