(* ===== verification/GoPath.v ===== *)
(** * [path.Match]

    Go's shell patterns, the language of [--exclude-minions], over the bytes
    of a string: [*] and [?] match within a path element, [\[...\]] is a
    class of runes, a backslash escapes.  A malformed pattern is an error
    whatever it is matched against, which the program relies on: it checks
    its patterns once, against the empty name. *)

From S2P Require Import Prelude GoStrings.

Local Open Scope Z_scope.

(** ** UTF-8 *)

Definition RuneError : Z := 65533.

Definition in_range (lo hi b : Z) : bool := (lo <=? b) && (b <=? hi).

(** The payload of a continuation byte. *)
Definition cont (b : Z) : Z := Z.land b 63.

(** [utf8.DecodeRuneInString]: the first rune and its width; an invalid byte is [RuneError], one wide. *)
Definition DecodeRune (s : list Z) : Z * nat :=
  match s with
  | [] => (RuneError, 0%nat)
  | b0 :: s1 =>
      if b0 <? 128 then (b0, 1%nat)
      else if in_range 194 223 b0 then
        match s1 with
        | b1 :: _ => if in_range 128 191 b1
                     then (Z.lor (Z.shiftl (Z.land b0 31) 6) (cont b1), 2%nat) else (RuneError, 1%nat)
        | _ => (RuneError, 1%nat)
        end
      else if in_range 224 239 b0 then
        match s1 with
        | b1 :: b2 :: _ =>
            if in_range (if b0 =? 224 then 160 else 128) (if b0 =? 237 then 159 else 191) b1
               && in_range 128 191 b2
            then (Z.lor (Z.lor (Z.shiftl (Z.land b0 15) 12) (Z.shiftl (cont b1) 6)) (cont b2), 3%nat)
            else (RuneError, 1%nat)
        | _ => (RuneError, 1%nat)
        end
      else if in_range 240 244 b0 then
        match s1 with
        | b1 :: b2 :: b3 :: _ =>
            if in_range (if b0 =? 240 then 144 else 128) (if b0 =? 244 then 143 else 191) b1
               && in_range 128 191 b2 && in_range 128 191 b3
            then (Z.lor (Z.lor (Z.lor (Z.shiftl (Z.land b0 7) 18) (Z.shiftl (cont b1) 12))
                               (Z.shiftl (cont b2) 6)) (cont b3), 4%nat)
            else (RuneError, 1%nat)
        | _ => (RuneError, 1%nat)
        end
      else (RuneError, 1%nat)
  end.

(** ** Chunks *)

Definition ch_star : Z := 42.       (* * *)
Definition ch_dash : Z := 45.       (* - *)
Definition ch_slash : Z := 47.      (* / *)
Definition ch_quest : Z := 63.      (* ? *)
Definition ch_open : Z := 91.       (* [ *)
Definition ch_backslash : Z := 92.  (* \ *)
Definition ch_close : Z := 93.      (* ] *)
Definition ch_caret : Z := 94.      (* ^ *)

(** One character of a class, and what is left of the chunk; [None] is [ErrBadPattern]. *)
Definition getEsc (chunk : list Z) : option (Z * list Z) :=
  match chunk with
  | [] => None
  | c :: chunk' =>
      if (c =? ch_dash) || (c =? ch_close) then None
      else
        let body := if c =? ch_backslash then chunk' else chunk in
        match body with
        | [] => None
        | _ :: _ =>
            let '(r, n) := DecodeRune body in
            if (r =? RuneError) && (n =? 1)%nat then None
            else match drop n body with [] => None | rest => Some (r, rest) end
        end
  end.

(** The ranges of a class up to its bracket: whether [r] is in one, and what follows. *)
Fixpoint class_ranges (fuel : nat) (r : Z) (matched first : bool) (chunk : list Z) : option (bool * list Z) :=
  match fuel with
  | O => None
  | Datatypes.S fuel' =>
      match chunk with
      | c :: chunk' =>
          if (c =? ch_close) && negb first then Some (matched, chunk')
          else
            match getEsc chunk with
            | None => None
            | Some (lo, rest) =>
                match (match rest with
                       | d :: rest' => if d =? ch_dash then getEsc rest' else Some (lo, rest)
                       | [] => Some (lo, rest)
                       end) with
                | None => None
                | Some (hi, rest') => class_ranges fuel' r (matched || in_range lo hi r) false rest'
                end
            end
      | [] => None
      end
  end.

Inductive chunk_result := Bad | Miss | Hit (rest : list Z).

(** [matchChunk]: once [failed], the rest of the chunk is only checked. *)
Fixpoint match_chunk (fuel : nat) (failed : bool) (chunk s : list Z) : chunk_result :=
  match fuel with
  | O => Bad
  | Datatypes.S fuel' =>
      match chunk with
      | [] => if failed then Miss else Hit s
      | c :: chunk' =>
          let failed := failed || match s with [] => true | _ => false end in
          if c =? ch_open then
            let '(r, n) := if failed then (0, 0%nat) else DecodeRune s in
            let '(negated, body) := match chunk' with
                                    | d :: chunk'' => if d =? ch_caret then (true, chunk'') else (false, chunk')
                                    | [] => (false, chunk')
                                    end in
            match class_ranges (Datatypes.S (length body)) r false true body with
            | None => Bad
            | Some (m, rest) => match_chunk fuel' (failed || Bool.eqb m negated) rest (drop n s)
            end
          else if c =? ch_quest then
            if failed then match_chunk fuel' true chunk' s
            else match_chunk fuel' (match s with b :: _ => b =? ch_slash | [] => true end) chunk'
                   (drop (snd (DecodeRune s)) s)
          else
            let literal l := match l with
                             | [] => Bad
                             | d :: l' => if failed then match_chunk fuel' true l' s
                                          else match s with
                                               | b :: s' => match_chunk fuel' (negb (d =? b)) l' s'
                                               | [] => match_chunk fuel' true l' s
                                               end
                             end in
            literal (if c =? ch_backslash then chunk' else chunk)
      end
  end.

Definition matchChunk (chunk s : list Z) : chunk_result :=
  match_chunk (Datatypes.S (length chunk)) false chunk s.

(** ** Patterns *)

Fixpoint strip_stars (pattern : list Z) : list Z :=
  match pattern with
  | c :: pattern' => if c =? ch_star then strip_stars pattern' else pattern
  | [] => []
  end.

(** The text up to the next star outside a class, and the rest. *)
Fixpoint scan_text (fuel : nat) (inrange : bool) (pattern : list Z) : list Z * list Z :=
  match fuel with
  | O => ([], pattern)
  | Datatypes.S fuel' =>
      match pattern with
      | [] => ([], [])
      | c :: pattern' =>
          if c =? ch_backslash then
            match pattern' with
            | d :: pattern'' => let '(t, rest) := scan_text fuel' inrange pattern'' in (c :: d :: t, rest)
            | [] => ([c], [])
            end
          else if (c =? ch_star) && negb inrange then ([], pattern)
          else let inrange := if c =? ch_open then true else if c =? ch_close then false else inrange in
               let '(t, rest) := scan_text fuel' inrange pattern' in (c :: t, rest)
      end
  end.

Definition scanChunk (pattern : list Z) : bool * list Z * list Z :=
  let body := strip_stars pattern in
  let '(chunk, rest) := scan_text (length body) false body in
  (match pattern with c :: _ => c =? ch_star | [] => false end, chunk, rest).

(** Under a star: the first position, within the path element, where the chunk fits. *)
Fixpoint star_skip (chunk : list Z) (last : bool) (name : list Z) : chunk_result :=
  match name with
  | [] => Miss
  | b :: name' =>
      if b =? ch_slash then Miss
      else match matchChunk chunk name' with
           | Hit t => if last && negb (bool_decide (length t = 0%nat)) then star_skip chunk last name' else Hit t
           | Bad => Bad
           | Miss => star_skip chunk last name'
           end
  end.

(** The check of what is left of the pattern: every chunk is well-formed. *)
Fixpoint chunks_ok (fuel : nat) (pattern : list Z) : bool :=
  match fuel, pattern with
  | _, [] => true
  | O, _ => false
  | Datatypes.S fuel', _ =>
      let '(_, chunk, rest) := scanChunk pattern in
      match matchChunk chunk [] with Bad => false | _ => chunks_ok fuel' rest end
  end.

Fixpoint glob (fuel : nat) (pattern name : list Z) : option bool :=
  match fuel, pattern with
  | _, [] => Some (bool_decide (length name = 0%nat))
  | O, _ => None
  | Datatypes.S fuel', _ =>
      let '(star, chunk, rest) := scanChunk pattern in
      if star && bool_decide (length chunk = 0%nat) then Some (negb (existsb (Z.eqb ch_slash) name))
      else
        let fails := if chunks_ok (length rest) rest then Some false else None in
        let under_star :=
          if star then match star_skip chunk (bool_decide (length rest = 0%nat)) name with
                       | Hit t => glob fuel' rest t
                       | Bad => None
                       | Miss => fails
                       end
          else fails in
        match matchChunk chunk name with
        | Hit t => if bool_decide (length t = 0%nat) || bool_decide (0 < length rest)%nat
                   then glob fuel' rest t else under_star
        | Bad => None
        | Miss => under_star
        end
  end.

(** [path.Match]; [None] is [path.ErrBadPattern]. *)
Definition Match (pattern name : string) : option bool :=
  glob (String.length pattern) (bytes_of pattern) (bytes_of name).

Example match_prefix : Match "infra-*" "infra-db-01" = Some true. Proof. reflexivity. Qed.
Example match_slash : Match "infra-*" "infra-db/01" = Some false. Proof. reflexivity. Qed.
Example match_inner : Match "*-db-?[0-9]" "infra-db-db-01" = Some true. Proof. reflexivity. Qed.
Example match_class : Match "[^a-c\-]x" "dx" = Some true. Proof. reflexivity. Qed.
Example match_bad : Match "a*[" "b" = None. Proof. reflexivity. Qed.
Example match_bad_range : Match "[]a]" "]" = None. Proof. reflexivity. Qed.
Example match_escape : Match "\*a" "*a" = Some true. Proof. reflexivity. Qed.

(** ** Malformed chunks *)

(** Where a class ends, and whether it is well-formed, does not depend on the rune looked for. *)
Lemma class_ranges_rest fuel r r' m m' first chunk :
  snd <$> class_ranges fuel r m first chunk = snd <$> class_ranges fuel r' m' first chunk.
Proof.
  revert m m' first chunk. induction fuel as [|fuel IH]; intros m m' first chunk; [done|]. simpl.
  destruct chunk as [|c chunk]; [done|]. destruct ((c =? ch_close) && negb first); [done|].
  destruct (getEsc (c :: chunk)) as [[lo rest]|]; [|done].
  destruct (match rest with _ :: _ => _ | [] => _ end) as [[hi rest']|]; [|done]. apply IH.
Qed.

Definition is_bad (r : chunk_result) : bool := match r with Bad => true | _ => false end.

Lemma match_chunk_bad fuel f f' chunk s s' :
  is_bad (match_chunk fuel f chunk s) = is_bad (match_chunk fuel f' chunk s').
Proof.
  revert f f' chunk s s'. induction fuel as [|fuel IH]; intros f f' chunk s s'; [done|]. cbn [match_chunk].
  destruct chunk as [|c chunk]; [by destruct f, f'|].
  destruct (c =? ch_open).
  { destruct (if f || _ then _ else DecodeRune s) as [r n], (if f' || _ then _ else DecodeRune s') as [r' n'].
    destruct (match chunk with _ :: _ => _ | [] => _ end) as [negated body].
    pose proof (class_ranges_rest (Datatypes.S (length body)) r r' false false true body) as Hr.
    destruct (class_ranges _ _ _ _ _) as [[m rest]|], (class_ranges _ _ _ _ _) as [[m' rest']|]; simpl in Hr; try done.
    injection Hr as ->. apply IH. }
  destruct (c =? ch_quest).
  { destruct (f || _), (f' || _); apply IH. }
  destruct (if c =? ch_backslash then _ else _) as [|d l]; [done|].
  destruct (f || _), (f' || _), s as [|b s], s' as [|b' s']; apply IH.
Qed.

Lemma matchChunk_bad chunk s s' : is_bad (matchChunk chunk s) = is_bad (matchChunk chunk s').
Proof. apply match_chunk_bad. Qed.

Lemma star_skip_bad chunk last name :
  star_skip chunk last name = Bad -> is_bad (matchChunk chunk []) = true.
Proof.
  induction name as [|b name IH]; simpl; [done|]. destruct (b =? ch_slash); [done|].
  destruct (matchChunk chunk name) eqn:E.
  - intros _. by rewrite (matchChunk_bad chunk [] name), E.
  - done.
  - by destruct (last && _).
Qed.

(** ** Fuel *)

Lemma strip_stars_length pattern : (length (strip_stars pattern) <= length pattern)%nat.
Proof. induction pattern as [|c p IH]; simpl; [done|]. destruct (c =? ch_star); simpl; lia. Qed.

Lemma scan_text_length fuel b pattern t rest :
  scan_text fuel b pattern = (t, rest) -> (length t + length rest <= length pattern)%nat.
Proof.
  revert b pattern t rest. induction fuel as [|fuel IH]; intros b pattern t rest; simpl; [intros [= <- <-]; simpl; lia|].
  destruct pattern as [|c p]; [intros [= <- <-]; simpl; lia|].
  destruct (c =? ch_backslash).
  { destruct p as [|d p]; [intros [= <- <-]; simpl; lia|].
    destruct (scan_text fuel b p) as [t' rest'] eqn:E. intros [= <- <-]. apply IH in E. simpl. lia. }
  destruct ((c =? ch_star) && negb b); [intros [= <- <-]; simpl; lia|].
  match goal with |- context [scan_text fuel ?b' p] => destruct (scan_text fuel b' p) as [t' rest'] eqn:E end.
  intros [= <- <-]. apply IH in E. simpl. lia.
Qed.

(** Scanning a chunk consumes some of the pattern. *)
Lemma scanChunk_length c p star chunk rest :
  scanChunk (c :: p) = (star, chunk, rest) -> (length rest <= length p)%nat.
Proof.
  unfold scanChunk. destruct (scan_text _ _ _) as [t rest'] eqn:E. intros [= <- <- <-].
  simpl in E. destruct (c =? ch_star) eqn:Ec.
  - apply scan_text_length in E. pose proof (strip_stars_length p). lia.
  - simpl in E. destruct (c =? ch_backslash).
    { destruct p as [|d p]; [injection E as <- <-; simpl; lia|].
      destruct (scan_text _ _ p) as [t' rest''] eqn:E'. injection E as <- <-.
      apply scan_text_length in E'. simpl in *. lia. }
    rewrite Ec in E. cbn [andb] in E.
    match goal with H : context [scan_text ?n ?b' p] |- _ => destruct (scan_text n b' p) as [t' rest''] eqn:E' end.
    injection E as <- <-. apply scan_text_length in E'. lia.
Qed.

Lemma chunks_ok_fuel n m pattern :
  (length pattern <= n)%nat -> (length pattern <= m)%nat -> chunks_ok n pattern = chunks_ok m pattern.
Proof.
  revert m pattern. induction n as [|n IH]; intros m [|c p] Hn Hm; destruct m as [|m]; simpl in Hn, Hm; try done; try lia.
  cbn [chunks_ok]. destruct (scanChunk (c :: p)) as [[star chunk] rest] eqn:E. apply scanChunk_length in E.
  destruct (matchChunk chunk []); [done|apply IH; lia..].
Qed.

Lemma glob_fuel n m pattern name :
  (length pattern <= n)%nat -> (length pattern <= m)%nat -> glob n pattern name = glob m pattern name.
Proof.
  revert m pattern name. induction n as [|n IH]; intros m [|c p] name Hn Hm; destruct m as [|m]; simpl in Hn, Hm; try done; try lia.
  cbn [glob]. destruct (scanChunk (c :: p)) as [[star chunk] rest] eqn:E. apply scanChunk_length in E.
  assert (forall t, glob n rest t = glob m rest t) as Ht by (intros t; apply IH; lia).
  destruct (star && _); [done|]. cbv zeta.
  destruct (matchChunk chunk name); [done| |].
  - destruct star; [|done]. destruct (star_skip _ _ _); by rewrite ?Ht.
  - destruct (bool_decide _ || _); [apply Ht|]. destruct star; [|done].
    destruct (star_skip _ _ _); by rewrite ?Ht.
Qed.

(** An error of [Match] means that a chunk is malformed. *)
Lemma glob_None fuel pattern name :
  (length pattern <= fuel)%nat -> glob fuel pattern name = None -> chunks_ok fuel pattern = false.
Proof.
  revert pattern name. induction fuel as [|fuel IH]; intros [|c p] name Hn; simpl in Hn; try lia; try (intros Hg; discriminate Hg).
  cbn [glob chunks_ok]. destruct (scanChunk (c :: p)) as [[star chunk] rest] eqn:E. apply scanChunk_length in E.
  rewrite (chunks_ok_fuel (length rest) fuel) by lia.
  pose proof (matchChunk_bad chunk [] name) as Hb.
  destruct (star && _); [done|].
  assert ((if chunks_ok fuel rest then Some false else None) = (None : option bool) ->
          match matchChunk chunk [] with Bad => false | _ => chunks_ok fuel rest end = false) as Hfail.
  { destruct (chunks_ok fuel rest); [done|]. by destruct (matchChunk chunk []). }
  assert (forall t, glob fuel rest t = None ->
          match matchChunk chunk [] with Bad => false | _ => chunks_ok fuel rest end = false) as Hrec.
  { intros t Ht. rewrite (IH rest t) by (done || lia). by destruct (matchChunk chunk []). }
  assert ((if star then match star_skip chunk (bool_decide (length rest = 0%nat)) name with
                        | Hit t => glob fuel rest t | Bad => None
                        | Miss => if chunks_ok fuel rest then Some false else None end
           else if chunks_ok fuel rest then Some false else None) = None ->
          match matchChunk chunk [] with Bad => false | _ => chunks_ok fuel rest end = false) as Hstar.
  { destruct star; [|exact Hfail]. destruct (star_skip _ _ _) eqn:Es; [|exact Hfail|apply Hrec].
    intros _. apply star_skip_bad in Es. by destruct (matchChunk chunk []). }
  destruct (matchChunk chunk name) eqn:Em.
  - intros _. by destruct (matchChunk chunk []).
  - exact Hstar.
  - destruct (_ || _); [apply Hrec|exact Hstar].
Qed.

(** On the empty name, no chunk but the last can match, so all of them are checked. *)
Lemma matchChunk_nil c chunk t : matchChunk (c :: chunk) [] <> Hit t.
Proof.
  unfold matchChunk. cbn [length]. generalize (Datatypes.S (length chunk)). intros n.
  assert (forall fuel chunk s t, match_chunk fuel true chunk s <> Hit t) as Hf.
  { clear. induction fuel as [|fuel IH]; intros chunk s t; [done|]. cbn [match_chunk orb].
    destruct chunk as [|c chunk]; [done|]. destruct (c =? ch_open).
    { destruct (match chunk with _ :: _ => _ | [] => _ end) as [negated body].
      destruct (class_ranges _ _ _ _ _) as [[m rest]|]; [|done]. apply IH. }
    destruct (c =? ch_quest); [apply IH|].
    destruct (if c =? ch_backslash then _ else _) as [|d l]; [done|apply IH]. }
  cbn [match_chunk]. cbn [orb].
  destruct (c =? ch_open).
  { destruct (match chunk with _ :: _ => _ | [] => _ end) as [negated body].
    destruct (class_ranges _ _ _ _ _) as [[m rest]|]; [|done]. apply Hf. }
  destruct (c =? ch_quest); [apply Hf|].
  destruct (if c =? ch_backslash then _ else _) as [|d l]; [done|apply Hf].
Qed.

Lemma scanChunk_empty c p star rest : scanChunk (c :: p) = (star, [], rest) -> star = true /\ rest = [].
Proof.
  unfold scanChunk. destruct (scan_text _ _ _) as [t rest'] eqn:E. intros [= <- -> <-].
  assert (forall q, match strip_stars q with x :: _ => (x =? ch_star) = false | [] => True end) as Hs.
  { clear. induction q as [|x q IH]; simpl; [done|]. destruct (x =? ch_star) eqn:Ex; [apply IH|done]. }
  specialize (Hs (c :: p)). destruct (strip_stars (c :: p)) as [|x q] eqn:Eq; simpl in E.
  - injection E as <-. split; [|done]. simpl in Eq. by destruct (c =? ch_star).
  - exfalso. destruct (x =? ch_backslash).
    { destruct q as [|d q]; [done|]. by destruct (scan_text _ _ q). }
    rewrite Hs in E. cbn [andb] in E.
    match goal with H : context [scan_text ?n ?b' q] |- _ => by destruct (scan_text n b' q) end.
Qed.

Lemma glob_nil_ok fuel pattern :
  (length pattern <= fuel)%nat -> glob fuel pattern [] <> None -> chunks_ok fuel pattern = true.
Proof.
  destruct fuel as [|fuel], pattern as [|c p]; simpl; try done; try lia. intros Hn.
  destruct (scanChunk (c :: p)) as [[star chunk] rest] eqn:E. pose proof (scanChunk_length _ _ _ _ _ E) as Hl.
  destruct chunk as [|d l].
  { apply scanChunk_empty in E as [-> ->]. by destruct fuel. }
  rewrite andb_false_r. destruct (matchChunk (d :: l) []) as [| |t] eqn:Em; [done| |by apply matchChunk_nil in Em].
  rewrite (chunks_ok_fuel (length rest) fuel) by lia. intros Hg.
  destruct (chunks_ok fuel rest); [done|]. by destruct star.
Qed.

Lemma length_bytes_of s : length (bytes_of s) = String.length s.
Proof. unfold bytes_of. rewrite length_fmap. induction s; simpl; auto. Qed.

Lemma bytes_of_app s t : bytes_of (s +:+ t) = bytes_of s ++ bytes_of t.
Proof. unfold bytes_of. induction s as [|c s IH]; [done|]. simpl. f_equal. exact IH. Qed.

Lemma byte_of_inj a b : byte_of a = byte_of b -> a = b.
Proof.
  unfold byte_of. intros E%N2Z.inj. rewrite <- (ascii_N_embedding a), <- (ascii_N_embedding b). by rewrite E.
Qed.

(** A pattern that was checked once, as [main] checks --exclude-minions against the empty name,
    is never malformed for another name: the error that [matchesAny] throws away does not occur. *)
Lemma checked_pattern_never_fails pattern name (Hchecked : Match pattern "" <> None) :
  Match pattern name <> None.
Proof.
  unfold Match in *. change (bytes_of "") with (@nil Z) in Hchecked.
  assert (length (bytes_of pattern) = String.length pattern) as Hl by apply length_bytes_of.
  apply glob_nil_ok in Hchecked; [|lia]. intros Hn. apply glob_None in Hn; [congruence|lia].
Qed.

(** ** Literal patterns *)

(** A pattern character that stands for itself. *)
Definition literal_char (c : ascii) : bool :=
  negb (existsb (Z.eqb (byte_of c)) [ch_star; ch_quest; ch_open; ch_backslash]).

Definition literal (c : Z) : Prop := c <> ch_star /\ c <> ch_quest /\ c <> ch_open /\ c <> ch_backslash.

Lemma literal_bytes p : string_forallb literal_char p = true -> Forall literal (bytes_of p).
Proof.
  unfold bytes_of. induction p as [|c p IH]; simpl; [constructor|]. intros [Hc Hp]%andb_true_iff.
  constructor; [|by apply IH]. unfold literal_char in Hc. apply negb_true_iff in Hc. cbn [existsb] in Hc.
  repeat (apply orb_false_iff in Hc as [?%Z.eqb_neq Hc]). by split_and!.
Qed.

Lemma match_literal fuel failed p s :
  Forall literal p -> (length p < fuel)%nat ->
  match_chunk fuel failed p s
  = if failed then Miss else if is_prefix p s then Hit (drop (length p) s) else Miss.
Proof.
  intros Hp. revert fuel failed s. induction Hp as [|c p (H1 & H2 & H3 & H4) Hp IH]; intros fuel failed s Hf;
    (destruct fuel as [|fuel]; [simpl in Hf; lia|]); [by destruct failed|].
  cbn [match_chunk]. apply Z.eqb_neq in H1, H2, H3, H4. rewrite H2, H3, H4. simpl in Hf.
  destruct failed; [by rewrite IH by lia|]. cbn [orb].
  destruct s as [|b s]; [by rewrite IH by lia|]. rewrite IH by lia.
  cbn [is_prefix length drop]. by destruct (c =? b).
Qed.

Lemma scan_literal p tail :
  Forall literal p -> scan_text (length (p ++ ch_star :: tail)) false (p ++ ch_star :: tail) = (p, ch_star :: tail).
Proof.
  induction 1 as [|c p (H1 & H2 & H3 & H4) Hp IH]; [done|]. cbn [app length scan_text].
  apply Z.eqb_neq in H1, H2, H3, H4. rewrite H4, H1. cbn [andb]. rewrite H3.
  destruct (c =? ch_close); by rewrite IH.
Qed.

Lemma strip_literal p tail : Forall literal p -> p <> [] -> strip_stars (p ++ tail) = p ++ tail.
Proof. intros [|c q (H1 & _)]; [done|]. intros _. simpl. apply Z.eqb_neq in H1. by rewrite H1. Qed.

Lemma is_prefix_bytes p name : is_prefix (bytes_of p) (bytes_of name) = HasPrefix name p.
Proof.
  unfold HasPrefix. revert name. induction p as [|c p IH]; intros [|d name]; simpl; try done.
  rewrite <- (IH name). destruct (ascii_dec c d) as [->|Hn]; [by rewrite Z.eqb_refl|].
  destruct (Z.eqb_spec (byte_of c) (byte_of d)) as [E|]; [|done]. by apply byte_of_inj in E.
Qed.

Lemma no_slash_bytes s : existsb (Z.eqb ch_slash) (bytes_of s) = negb (no_byte "/" s).
Proof.
  unfold no_byte. induction s as [|c s IH]; [done|].
  change (bytes_of (String c s)) with (byte_of c :: bytes_of s). cbn [existsb string_forallb].
  rewrite IH, negb_andb, negb_involutive. f_equal.
  destruct (Ascii.eqb_spec c "/") as [->|Hn]; [done|]. apply Z.eqb_neq. intros E. apply Hn. by apply byte_of_inj.
Qed.

(** A literal text followed by a star excludes exactly the names that begin with the text and have
    no slash after it. *)
Lemma prefix_pattern p name (Hp : string_forallb literal_char p = true) :
  Match (p +:+ "*") name <> None
  /\ (Match (p +:+ "*") name = Some true <-> exists rest, name = p +:+ rest /\ no_byte "/" rest = true).
Proof.
  apply literal_bytes in Hp.
  assert (Match (p +:+ "*") name = Some (HasPrefix name p
            && negb (existsb (Z.eqb ch_slash) (drop (length (bytes_of p)) (bytes_of name))))) as ->.
  { unfold Match. rewrite <- length_bytes_of, bytes_of_app. change (bytes_of "*") with [ch_star].
    rewrite length_app, Nat.add_comm. rewrite <- is_prefix_bytes. set (n := length (bytes_of p)).
    destruct (bytes_of p) as [|c q] eqn:Eb; [done|]. rewrite <- Eb in *.
    assert (scanChunk (bytes_of p ++ [ch_star]) = (false, bytes_of p, [ch_star])) as Es.
    { unfold scanChunk. rewrite strip_literal, scan_literal by (done || by rewrite Eb). rewrite Eb. simpl.
      rewrite Eb in Hp. apply Forall_cons in Hp as [(H1 & _) _]. apply Z.eqb_neq in H1. by rewrite H1. }
    cbn [length Nat.add glob]. rewrite Es. cbn [andb]. rewrite Eb at 1. cbn [app]. cbv zeta.
    unfold matchChunk. rewrite match_literal by (done || lia). fold n.
    destruct (is_prefix (bytes_of p) (bytes_of name)); [|done].
    rewrite orb_true_r. unfold n. rewrite Eb. reflexivity. }
  split; [done|]. split.
  - intros [= [Hpre Hs]%andb_true_iff]. apply HasPrefix_inv in Hpre as [rest ->]. exists rest. split; [done|].
    rewrite bytes_of_app, drop_app_length in Hs. by rewrite no_slash_bytes, negb_involutive in Hs.
  - intros (rest & -> & Hs). rewrite HasPrefix_app, bytes_of_app, drop_app_length.
    by rewrite no_slash_bytes, negb_involutive, Hs.
Qed.
