(* ===== verification/Scavenger.v ===== *)
(** * The scavenger ([cmd/scavenger/main.go])

    A nightly job that looks for accepted Salt keys without a VM.  It groups
    the namespaces of the ready configs by RaaS endpoint, lists each
    endpoint's accepted keys, and reports or deletes those that no VM of the
    group's namespaces carries.  Go walks a map in no fixed order, so the
    walk over the groups takes its order as a parameter. *)

From S2P Require Import Prelude GoStrings Api Effects Server RaasConn IntentHash Enrolment GoPath.

Local Open Scope Z_scope.

(** ** Model *)

Definition defaultDryRun : bool := true.

Definition annotationMinionID : string := "salt.vcf.io/minion-id".

Record raasGroup := { grp_conn : Connection; grp_namespaces : list string }.

(** [for item := range strings.SplitSeq(v, ",")], as in [cmd/main.go]. *)
Definition splitList (v : string) : list string := Enrolment.splitList v.

(** The error of [path.Match] is dropped. *)
Fixpoint matchesAny (patterns : list string) (minionID : string) : bool :=
  match patterns with
  | [] => false
  | p :: patterns' =>
      match Match p minionID with
      | Some true => true
      | _ => matchesAny patterns' minionID
      end
  end.

(** The check of the patterns in [main]: [None] ends the process. *)
Definition checked_excludes (excludeMinions : string) : option (list string) :=
  let exclude := splitList excludeMinions in
  if forallb (fun p => match Match p "" with Some _ => true | None => false end) exclude
  then Some exclude else None.

Definition minion_ids (vms : list VM) : gset string :=
  list_to_set (List.filter (fun id => id <>s? "") ((fun vm => mget (GetAnnotations vm) annotationMinionID) <$> vms)).

Section Scavenger.
Context {W C S : Type} `{GoUnicode} `{K8sLib} `{Env W C} `{HasWorld S W}.

Definition liveVMMinionIDs (namespace : string) : M C S (res (gset string)) :=
  r ← perform (CListVMs (Some namespace));
  match r with
  | Err e => mret (Err e)
  | Ok vms => mret (Ok (minion_ids vms))
  end.

(** The minion IDs of every namespace of the group; [None] when a listing failed. *)
Fixpoint liveMinions (live : gset string) (namespaces : list string) : M C S (option (gset string)) :=
  match namespaces with
  | [] => mret (Some live)
  | ns :: namespaces' =>
      r ← liveVMMinionIDs ns;
      match r with
      | Err _ => mret None
      | Ok ids => liveMinions (live ∪ ids) namespaces'
      end
  end.

(** The loop over the accepted keys, with its counts: deleted, stale, excluded. *)
Fixpoint sweep (c : C) (dryRun : bool) (exclude : list string) (live : gset string)
    (deleted stale excluded : Z) (keys : list string) : M C S (Z * Z * Z) :=
  match keys with
  | [] => mret (deleted, stale, excluded)
  | key :: keys' =>
      if bool_decide (key ∈ live) then sweep c dryRun exclude live deleted stale excluded keys'
      else if matchesAny exclude key then sweep c dryRun exclude live deleted stale (excluded + 1) keys'
      else if dryRun then sweep c dryRun exclude live deleted (stale + 1) excluded keys'
      else
        d ← perform (CDeleteKey c key);
        match d with
        | Some _ => sweep c dryRun exclude live deleted (stale + 1) excluded keys'
        | None => sweep c dryRun exclude live (deleted + 1) (stale + 1) excluded keys'
        end
  end.

Definition scavengeRaasGroup (g : raasGroup) (dryRun : bool) (exclude : list string) : M C S (option error) :=
  let conn := grp_conn g in
  saltClient ← perform (CNewClient (conn_URL conn) (conn_Username conn) (conn_Password conn)
                                   (conn_MasterID conn) (conn_SkipTLSVerify conn));
  le ← perform (CLogin saltClient);
  match le with
  | Some e => mret (Some (Errorf "login to RaaS: %w" [FWrap e]))
  | None =>
      acceptedKeys ← perform (CListAcceptedKeys saltClient);
      match acceptedKeys with
      | Err e => mret (Some (Errorf "list accepted keys: %w" [FWrap e]))
      | Ok keys =>
          if bool_decide (length keys = 0%nat) then mret None
          else
            live ← liveMinions ∅ (grp_namespaces g);
            match live with
            | None => mret None
            | Some live => sweep saltClient dryRun exclude live 0 0 0 keys ;; mret None
            end
      end
  end.

(** The namespace of one more config joins the group of its endpoint, which keeps its first connection. *)
Definition add_to_group (conn : Connection) (ns : string) (groups : gmap string raasGroup) : gmap string raasGroup :=
  let g := default {| grp_conn := conn; grp_namespaces := [] |} (groups !! conn_URL conn) in
  <[conn_URL conn := {| grp_conn := grp_conn g; grp_namespaces := grp_namespaces g ++ [ns] |}]> groups.

Fixpoint group_configs (def : DefaultConn) (groups : gmap string raasGroup) (items : list SaltKeyConfig)
    : M C S (gmap string raasGroup) :=
  match items with
  | [] => mret groups
  | cfg :: items' =>
      if negb (IsReady cfg) then group_configs def groups items'
      else
        r ← Resolve cfg def;
        match r with
        | Err _ => group_configs def groups items'
        | Ok conn => group_configs def (add_to_group conn (cfg_Namespace cfg) groups) items'
        end
  end.

(** Each group in turn; a group's error is logged. *)
Fixpoint scavenge_groups (dryRun : bool) (exclude : list string) (l : list (string * raasGroup)) : M C S unit :=
  match l with
  | [] => mret tt
  | (_, g) :: l' => scavengeRaasGroup g dryRun exclude ;; scavenge_groups dryRun exclude l'
  end.

(** [order] is the order in which Go's [range] visits the map. *)
Definition scavenge (order : gmap string raasGroup -> list (string * raasGroup))
    (dryRun : bool) (exclude : list string) (defaultConnection : DefaultConn) : M C S (option error) :=
  r ← perform (CListConfigs None);
  match r with
  | Err e => mret (Some (Errorf "list SaltKeyConfigs: %w" [FWrap e]))
  | Ok items =>
      groups ← group_configs defaultConnection ∅ items;
      scavenge_groups dryRun exclude (order groups) ;;
      mret None
  end.

(** ** Specification *)

(** A read of a group's run that failed. *)
Inductive read_failed : obs C -> Prop :=
| login_failed c e : read_failed (Obs (CLogin c) (Some e))
| keys_failed c e : read_failed (Obs (CListAcceptedKeys c) (Err e))
| vms_failed ns e : read_failed (Obs (CListVMs (Some ns)) (Err e)).

Definition stale_key (exclude : list string) (live : gset string) (key : string) : bool :=
  negb (bool_decide (key ∈ live)) && negb (matchesAny exclude key).

(** The reads before a sweep: a client that logged in, its accepted keys, the VMs of every namespace. *)
Definition group_reads (g : raasGroup) (c : C) (keys : list string) (vmss : list (list VM)) : list (obs C) :=
  let conn := grp_conn g in
  [Obs (CNewClient (conn_URL conn) (conn_Username conn) (conn_Password conn)
                   (conn_MasterID conn) (conn_SkipTLSVerify conn)) c;
   Obs (CLogin c) None; Obs (CListAcceptedKeys c) (Ok keys)]
  ++ zip_with (fun ns vms => Obs (CListVMs (Some ns)) (Ok vms)) (grp_namespaces g) vmss.

(** What a run over one group does: the stale keys, all of them and no other, are tried once each and in
    order, unless this is a dry run, there is no key, or a read failed, and then nothing is. *)
Inductive group_trace (g : raasGroup) (dryRun : bool) (exclude : list string) (t : list (obs C)) : Prop :=
| group_swept c keys vmss :
    length vmss = length (grp_namespaces g) ->
    (exists ds, t = group_reads g c keys vmss ++ ds) ->
    writes t = (if dryRun then []
                else CDeleteKey c <$> List.filter (stale_key exclude (⋃ (minion_ids <$> vmss))) keys) ->
    group_trace g dryRun exclude t
| group_no_keys c :
    Obs (CListAcceptedKeys c) (Ok []) ∈ t -> writes t = [] -> group_trace g dryRun exclude t
| group_failed o :
    o ∈ t -> read_failed o -> writes t = [] -> group_trace g dryRun exclude t.

(** ** Lemmas *)

Lemma wp_liveMinions live nss (s : S) :
  wp (liveMinions live nss) s (fun r t _ => writes t = [] /\
    match r with
    | Some l => exists vmss, length vmss = length nss
                  /\ t = zip_with (fun ns vms => Obs (CListVMs (Some ns)) (Ok vms)) nss vmss
                  /\ l = live ∪ ⋃ (minion_ids <$> vmss)
    | None => exists ns e, Obs (CListVMs (Some ns)) (Err e) ∈ t
    end).
Proof.
  revert live s. induction nss as [|ns nss IH]; intros live s; cbn [liveMinions].
  { apply wp_ret. split; [done|]. exists []. split_and!; [done..|]. simpl. set_solver. }
  apply wp_bind. unfold liveVMMinionIDs. apply wp_bind. wp_call. intros r w _. destruct r as [vms|e]; apply wp_ret.
  - eapply wp_mono; [apply IH|]. intros [l|] t s' [Hw Ht].
    + destruct Ht as (vmss & Hl & -> & ->). split; [done|]. exists (vms :: vmss).
      split_and!; [simpl; congruence|done|]. simpl. set_solver.
    + destruct Ht as (ns' & e & Ht). split; [done|]. exists ns', e. set_solver.
  - apply wp_ret. split; [done|]. exists ns, e. set_solver.
Qed.

Lemma wp_sweep c dryRun exclude live d0 st0 ex0 keys (s : S) :
  wp (sweep c dryRun exclude live d0 st0 ex0 keys) s (fun _ t _ =>
    writes t = if dryRun then [] else CDeleteKey c <$> List.filter (stale_key exclude live) keys).
Proof.
  revert d0 st0 ex0 s. induction keys as [|key keys IH]; intros d0 st0 ex0 s; cbn [sweep].
  { apply wp_ret. by destruct dryRun. }
  cbn [List.filter]. unfold stale_key at 1. case_bool_decide as Hl; [apply IH|].
  destruct (matchesAny exclude key); [apply IH|]. cbn [negb andb].
  destruct dryRun; [apply IH|]. apply wp_bind. wp_call. intros d w _.
  destruct d; (eapply wp_mono; [apply IH|]); intros a t s' Ht; rewrite writes_app, Ht; done.
Qed.

Lemma wp_scavengeRaasGroup g dryRun exclude (s : S) :
  wp (scavengeRaasGroup g dryRun exclude) s (fun _ t _ => group_trace g dryRun exclude t).
Proof.
  unfold scavengeRaasGroup. cbv zeta. apply wp_bind. wp_call. intros c w1 _.
  apply wp_bind. wp_call. intros le w2 _. destruct le as [e|].
  { apply wp_ret. eapply group_failed; [|apply (login_failed c e)|done]. set_solver. }
  apply wp_bind. wp_call. intros ak w3 _. destruct ak as [keys|e]; cycle 1.
  { apply wp_ret. eapply group_failed; [|apply (keys_failed c e)|done]. set_solver. }
  case_bool_decide as Hk.
  { apply wp_ret. destruct keys; [|done]. apply (group_no_keys _ _ _ _ c); [|done]. set_solver. }
  apply wp_bind. eapply wp_mono; [apply wp_liveMinions|]. intros [l|] t s' [Hw Ht]; cycle 1.
  { destruct Ht as (ns & e & Ht). apply wp_ret. eapply group_failed; [|apply (vms_failed ns e)|].
    - set_solver.
    - by rewrite !writes_app, Hw. }
  destruct Ht as (vmss & Hl & -> & ->). apply wp_bind. eapply wp_mono; [apply wp_sweep|].
  intros a ts s'' Hts. apply wp_ret. apply (group_swept _ _ _ _ c keys vmss); [done| |].
  - exists ts. unfold group_reads. by rewrite app_nil_r, !app_assoc.
  - rewrite !writes_app, Hw, Hts. cbn. rewrite app_nil_r. by rewrite union_empty_l_L.
Qed.

(** Which configs count, in the order listed: the ready ones whose connection resolved, with the answers
    that resolved them. *)
Inductive classified (def : DefaultConn) : list SaltKeyConfig -> list (obs C) -> list (string * Connection) -> Prop :=
| cl_nil : classified def [] [] []
| cl_unready cfg items t l :
    IsReady cfg = false -> classified def items t l -> classified def (cfg :: items) t l
| cl_unresolved cfg items t t' l e :
    IsReady cfg = true -> resolution cfg def (Err e) t -> classified def items t' l ->
    classified def (cfg :: items) (t ++ t') l
| cl_resolved cfg items t t' l conn :
    IsReady cfg = true -> resolution cfg def (Ok conn) t -> classified def items t' l ->
    classified def (cfg :: items) (t ++ t') ((cfg_Namespace cfg, conn) :: l).

(** The group of an endpoint: the namespaces that use it, with the connection of the first. *)
Definition group_of (url : string) (pairs : list (string * Connection)) : option raasGroup :=
  match List.filter (fun p => conn_URL (snd p) =s? url) pairs with
  | [] => None
  | (ns, conn) :: l => Some {| grp_conn := conn; grp_namespaces := ns :: (fst <$> l) |}
  end.

Definition extend (o : option raasGroup) (pairs : list (string * Connection)) (url : string) : option raasGroup :=
  match o with
  | None => group_of url pairs
  | Some g => Some {| grp_conn := grp_conn g;
                      grp_namespaces := grp_namespaces g
                        ++ (fst <$> List.filter (fun p => conn_URL (snd p) =s? url) pairs) |}
  end.

Lemma extend_add conn ns groups pairs url :
  extend (add_to_group conn ns groups !! url) pairs url = extend (groups !! url) ((ns, conn) :: pairs) url.
Proof.
  unfold add_to_group, extend, group_of. cbn [List.filter snd].
  destruct (String.eqb_spec (conn_URL conn) url) as [<-|Hn].
  - rewrite lookup_insert_eq. destruct (groups !! conn_URL conn) as [g|]; simpl; [|done]. by rewrite <- app_assoc.
  - by rewrite lookup_insert_ne.
Qed.

Lemma wp_group_configs def groups items (s : S) :
  wp (group_configs def groups items) s (fun groups' t _ => writes t = [] /\ exists pairs,
    classified def items t pairs /\ forall url, groups' !! url = extend (groups !! url) pairs url).
Proof.
  revert groups s. induction items as [|cfg items IH]; intros groups s; cbn [group_configs].
  { apply wp_ret. split; [done|]. exists []. split; [constructor|]. intros url. unfold extend, group_of.
    destruct (groups !! url) as [[conn nss]|]; simpl; [by rewrite app_nil_r|done]. }
  destruct (IsReady cfg) eqn:Er; cbn [negb]; cycle 1.
  { eapply wp_mono; [apply IH|]. intros g t s' (Hw & pairs & Hc & Hg). split; [done|]. exists pairs.
    split; [by constructor|done]. }
  apply wp_bind. eapply wp_mono; [apply wp_Resolve|]. intros r t s' Hr.
  assert (writes t = []) as Hw0.
  { destruct Hr as [_ [->|[r' ->]]]; done. }
  destruct r as [conn|e]; (eapply wp_mono; [apply IH|]); intros g t' s'' (Hw & pairs & Hc & Hg);
    (split; [by rewrite writes_app, Hw0, Hw|]).
  - exists ((cfg_Namespace cfg, conn) :: pairs). split; [by apply cl_resolved|].
    intros url. by rewrite Hg, extend_add.
  - exists pairs. split; [by apply cl_unresolved with e|done].
Qed.

Lemma wp_scavenge_groups dryRun exclude l (s : S) :
  wp (scavenge_groups dryRun exclude l) s (fun _ t _ => exists ts,
    t = concat ts /\ Forall2 (fun ug tg => group_trace (snd ug) dryRun exclude tg) l ts).
Proof.
  revert s. induction l as [|[url g] l IH]; intros s; cbn [scavenge_groups].
  { apply wp_ret. by exists []. }
  apply wp_bind. eapply wp_mono; [apply wp_scavengeRaasGroup|]. intros r t s' Ht.
  eapply wp_mono; [apply IH|]. intros u t' s'' (ts & -> & Hts). exists (t :: ts). split; [done|by constructor].
Qed.

(** What a whole run did when the configs were listed. *)
Definition scavenged (order : gmap string raasGroup -> list (string * raasGroup)) (dryRun : bool)
    (exclude : list string) (def : DefaultConn) (items : list SaltKeyConfig)
    (pairs : list (string * Connection)) (t : list (obs C)) : Prop :=
  exists t1 groups ts,
    t = Obs (CListConfigs None) (Ok items) :: t1 ++ concat ts
    /\ writes t1 = [] /\ classified def items t1 pairs
    /\ (forall url, groups !! url = group_of url pairs)
    /\ Forall2 (fun ug tg => group_trace (snd ug) dryRun exclude tg) (order groups) ts.

Lemma wp_scavenge order dryRun exclude def (s : S) :
  wp (scavenge order dryRun exclude def) s (fun r t _ => exists l,
    match l with
    | Err e => t = [Obs (CListConfigs None) l] /\ r = Some (Errorf "list SaltKeyConfigs: %w" [FWrap e])
    | Ok items => r = None /\ exists pairs, scavenged order dryRun exclude def items pairs t
    end).
Proof.
  unfold scavenge. apply wp_bind. wp_call. intros l w _. destruct l as [items|e].
  2: { apply wp_ret. by exists (Err e). }
  apply wp_bind. eapply wp_mono; [apply wp_group_configs|]. intros groups t1 s1 (Hw & pairs & Hc & Hg).
  apply wp_bind. eapply wp_mono; [apply wp_scavenge_groups|]. intros u t2 s2 (ts & -> & Hts). apply wp_ret.
  exists (Ok items). split; [done|]. exists pairs, t1, groups, ts. rewrite app_nil_r. split_and!; [done..| |done].
  intros url. by rewrite Hg, lookup_empty.
Qed.

End Scavenger.

Lemma matchesAny_true patterns key : matchesAny patterns key = true <-> exists p, p ∈ patterns /\ Match p key = Some true.
Proof.
  induction patterns as [|p patterns IH]; simpl.
  - split; [done|]. intros (p & Hp & _). by apply elem_of_nil in Hp.
  - destruct (Match p key) as [[]|] eqn:E; [split; [|done]; intros _; exists p; by repeat constructor|..];
      rewrite IH; split; intros (q & Hq & Hm); exists q; (split; [|done]); rewrite ?elem_of_cons in *; naive_solver.
Qed.

(** ** Theorems *)

Section Theorems.
Context {W C S : Type} `{GoUnicode} `{K8sLib} `{Env W C} `{HasWorld S W}.

Lemma minion_ids_elem vms id :
  id ∈ minion_ids vms <-> id <> "" /\ exists vm, vm ∈ vms /\ mget (GetAnnotations vm) annotationMinionID = id.
Proof.
  unfold minion_ids. rewrite elem_of_list_to_set, list_elem_of_In, List.filter_In, negb_true_iff, String.eqb_neq.
  rewrite <- list_elem_of_In, list_elem_of_fmap. naive_solver.
Qed.

Lemma group_of_elem url pairs g ns conn :
  group_of url pairs = Some g -> (ns, conn) ∈ pairs -> conn_URL conn = url -> ns ∈ grp_namespaces g.
Proof.
  unfold group_of. intros Hg Hin Hu.
  assert ((ns, conn) ∈ List.filter (fun p => conn_URL (snd p) =s? url) pairs) as Hf.
  { rewrite list_elem_of_In, List.filter_In, <- list_elem_of_In. split; [done|]. simpl. by apply String.eqb_eq. }
  destruct (List.filter _ pairs) as [|[ns0 conn0] l]; [done|]. injection Hg as <-. simpl.
  apply elem_of_cons in Hf as [[= -> ->]|Hf]; [constructor|]. constructor.
  apply list_elem_of_fmap. by exists (ns, conn).
Qed.

Lemma group_of_url url pairs g : group_of url pairs = Some g -> conn_URL (grp_conn g) = url.
Proof.
  unfold group_of. destruct (List.filter _ pairs) as [|[ns conn] l] eqn:E; [done|]. intros [= <-]. simpl.
  assert (In (ns, conn) (List.filter (fun p => conn_URL (snd p) =s? url) pairs)) as Hin by (rewrite E; by left).
  apply List.filter_In in Hin as [_ Hu]. by apply String.eqb_eq in Hu.
Qed.

Lemma writes_concat (ts : list (list (obs C))) : writes (concat ts) = concat (writes <$> ts).
Proof. induction ts as [|t ts IH]; [done|]. simpl. by rewrite writes_app, IH. Qed.

(** The VMs of every namespace of the group were listed before a sweep. *)
Lemma group_reads_vms g (c : C) keys vmss ns :
  length vmss = length (grp_namespaces g) -> ns ∈ grp_namespaces g ->
  exists vms, vms ∈ vmss /\ Obs (CListVMs (Some ns)) (Ok vms) ∈ group_reads g c keys vmss.
Proof.
  intros Hl [i Hi]%list_elem_of_lookup. apply lookup_lt_Some in Hi as Hlt. rewrite <- Hl in Hlt.
  apply lookup_lt_is_Some in Hlt as [vms Hv]. exists vms. split; [by eapply list_elem_of_lookup_2|].
  unfold group_reads. apply elem_of_app. right. apply list_elem_of_lookup. exists i.
  rewrite lookup_zip_with. by rewrite Hi; simpl; rewrite Hv.
Qed.

Lemma dry_groups_silent exclude (l : list (string * raasGroup)) (ts : list (list (obs C))) :
  Forall2 (fun ug tg => group_trace (snd ug) true exclude tg) l ts -> concat (writes <$> ts) = [].
Proof.
  induction 1 as [|ug tg l ts Ht Hts IH]; [done|]. cbn [fmap list_fmap concat].
  assert (writes tg = []) as -> by by destruct Ht. exact IH.
Qed.

(** [vm] carries the minion ID [key]. *)
Definition carries (vm : VM) (key : string) : Prop := GetAnnotations vm !! annotationMinionID = Some key.

(** The VM listings of a trace only have VMs of [cluster]. *)
Definition lists_within (cluster : list VM) (t : list (obs C)) : Prop :=
  forall ns vms, Obs (CListVMs (Some ns)) (Ok vms) ∈ t -> vms ⊆ cluster.

Definition vm_listing (o : obs C) : option (list VM) :=
  match o with
  | existT q r => match q as q0 return resp q0 -> option (list VM) with
                  | CListVMs (Some _) => fun r => match r with Ok vms => Some vms | Err _ => None end
                  | _ => fun _ => None
                  end r
  end.

Lemma lists_within_listings cluster t : Forall (fun vms => vms ⊆ cluster) (omap vm_listing t) -> lists_within cluster t.
Proof.
  intros Hf ns vms Hin. rewrite Forall_forall in Hf. apply Hf. apply list_elem_of_omap. by exists (Obs (CListVMs (Some ns)) (Ok vms)).
Qed.

(** What a run over one group tries, in a cluster with the VMs [cluster]: of the accepted keys, in order, every
    one that is an orphan, carried by no VM at all, and that is not excluded; and never one that is excluded
    or that a VM listed in the group's namespaces carries. *)
Inductive group_run (cluster : list VM) (g : raasGroup) (dryRun : bool) (exclude : list string)
    (t : list (obs C)) : Prop :=
| run_swept c keys vmss tried :
    length vmss = length (grp_namespaces g) ->
    (exists ds, t = group_reads g c keys vmss ++ ds) ->
    writes t = (if dryRun then [] else CDeleteKey c <$> List.filter tried keys) ->
    (forall key, key <> "" -> key ∈ keys -> (forall p, p ∈ exclude -> Match p key <> Some true) ->
       (forall vm, vm ∈ cluster -> ~ carries vm key) -> tried key = true) ->
    (forall key, tried key = true -> (forall p, p ∈ exclude -> Match p key <> Some true)
       /\ forall vms vm, vms ∈ vmss -> vm ∈ vms -> carries vm key -> key = "") ->
    group_run cluster g dryRun exclude t
| run_no_keys c :
    Obs (CListAcceptedKeys c) (Ok []) ∈ t -> writes t = [] -> group_run cluster g dryRun exclude t
| run_failed o :
    o ∈ t -> read_failed o -> writes t = [] -> group_run cluster g dryRun exclude t.

Lemma group_traced_run cluster g dryRun exclude (t : list (obs C)) :
  lists_within cluster t -> group_trace g dryRun exclude t -> group_run cluster g dryRun exclude t.
Proof.
  intros Hl [c keys vmss Hlen [ds Ht] Hw|c Hin Hw|o Hin Hf Hw];
    [|by eapply run_no_keys|by eapply run_failed].
  assert (forall vms, vms ∈ vmss -> vms ⊆ cluster) as Hsub.
  { intros vms [i Hi]%list_elem_of_lookup. apply lookup_lt_Some in Hi as Hlt. rewrite Hlen in Hlt.
    apply lookup_lt_is_Some in Hlt as [ns Hns]. apply (Hl ns vms). rewrite Ht. unfold group_reads.
    apply elem_of_app. left. apply elem_of_app. right. apply list_elem_of_lookup. exists i.
    rewrite lookup_zip_with. by rewrite Hns; simpl; rewrite Hi. }
  assert (forall key, key ∈ (⋃ (minion_ids <$> vmss) : gset string) <->
    key <> "" /\ exists vms vm, vms ∈ vmss /\ vm ∈ vms /\ carries vm key) as Hlive.
  { intros key. rewrite elem_of_union_list. split.
    - intros (X & (vms & -> & Hv)%list_elem_of_fmap & (Hne & vm & Hvm & Hk)%minion_ids_elem). split; [done|].
      exists vms, vm. split_and!; [done..|]. unfold carries. unfold mget in Hk.
      destruct (GetAnnotations vm !! _); simpl in Hk; congruence.
    - intros (Hne & vms & vm & Hv & Hvm & Hk). exists (minion_ids vms). split; [by apply list_elem_of_fmap; exists vms|].
      apply minion_ids_elem. split; [done|]. exists vm. split; [done|]. unfold mget. by rewrite Hk. }
  eapply (run_swept _ _ _ _ _ c keys vmss); [done|by exists ds|exact Hw|..]; unfold stale_key; intros key.
  - intros Hne Hin Hex Hor. apply andb_true_iff. split; apply negb_true_iff.
    + apply bool_decide_eq_false. rewrite Hlive. intros (_ & vms & vm & Hv & Hvm & Hk).
      apply (Hor vm); [|done]. by apply (Hsub vms).
    + apply not_true_iff_false. rewrite matchesAny_true. intros (p & Hp & Hm). by apply (Hex p).
  - intros [Hk Hex]%andb_true_iff. apply negb_true_iff in Hk, Hex. split.
    + intros p Hp Hm. apply not_true_iff_false in Hex. apply Hex, matchesAny_true. by exists p.
    + intros vms vm Hv Hvm Hc. apply bool_decide_eq_false in Hk. rewrite Hlive in Hk.
      destruct (decide (key = "")); [done|]. destruct Hk. split; [done|]. by exists vms, vm.
Qed.

(** C34: A scavenge groups the ready configs whose connection resolves by endpoint, in the order listed
    and with the first connection, and runs over every group once, whatever becomes of the others. In
    each it tries every accepted key that no VM of the cluster carries and that no pattern
    excludes, once and in order; it tries no excluded key and no key of a VM in a namespace it searched; and it
    makes no write in a dry run or when a login or a listing failed. Nothing is said of the keys of VMs in
    other namespaces, which the documentation protects and the code does not (a finding). *)
Theorem scavenge_run (order : gmap string raasGroup -> list (string * raasGroup))
    (Horder : forall m, order m ≡ₚ map_to_list m) dryRun exclude def (s : S) :
  wp (scavenge order dryRun exclude def) s (fun r t _ => exists l,
    match l with
    | Err e => t = [Obs (CListConfigs None) l] /\ r = Some (Errorf "list SaltKeyConfigs: %w" [FWrap e])
    | Ok items => r = None /\ exists pairs t1 (groups : gmap string raasGroup) visited ts,
        t = Obs (CListConfigs None) (Ok items) :: t1 ++ concat ts
        /\ writes t1 = [] /\ classified def items t1 pairs
        /\ (forall url, groups !! url = group_of url pairs) /\ visited ≡ₚ map_to_list groups
        /\ forall cluster, lists_within cluster t ->
             Forall2 (fun ug tg => group_run cluster (snd ug) dryRun exclude tg) visited ts
    end).
Proof.
  eapply wp_mono; [apply wp_scavenge|]. intros r t s' [l Hl]. exists l. destruct l as [items|e]; [|done].
  destruct Hl as (-> & pairs & t1 & groups & ts & -> & Hw & Hc & Hg & Hts). split; [done|].
  exists pairs, t1, groups, (order groups), ts. split_and!; [done..|]. intros cluster Hcl.
  apply Forall2_same_length_lookup. split; [by eapply Forall2_length|]. intros i ug tg Hu Ht.
  apply group_traced_run; [|by eapply (Forall2_lookup_lr _ _ _ _ _ _ Hts Hu Ht)].
  intros ns vms Hin. apply (Hcl ns). apply elem_of_cons. right. apply elem_of_app. right.
  apply list_elem_of_In, in_concat. exists tg. rewrite <- !list_elem_of_In. split; [|done]. by eapply list_elem_of_lookup_2.
Qed.

(** C7: The scavenger spares what it must: in a dry run it writes nothing, and a key it does delete was
    accepted, is not excluded, and is the minion ID of no VM in any namespace whose ready config
    resolved to the same endpoint, every one of which was listed. *)
Theorem scavenger_spares_live (order : gmap string raasGroup -> list (string * raasGroup))
    (Horder : forall m, order m ≡ₚ map_to_list m) dryRun exclude def (s : S) :
  wp (scavenge order dryRun exclude def) s (fun _ t _ =>
    (dryRun = true -> writes t = []) /\
    forall w, w ∈ writes t -> exists c key conn items pairs t1,
      w = CDeleteKey c key /\ matchesAny exclude key = false
      /\ (exists keys, Obs (CListAcceptedKeys c) (Ok keys) ∈ t /\ key ∈ keys)
      /\ Obs (CNewClient (conn_URL conn) (conn_Username conn) (conn_Password conn)
                         (conn_MasterID conn) (conn_SkipTLSVerify conn)) c ∈ t
      /\ (exists t2, t = Obs (CListConfigs None) (Ok items) :: t1 ++ t2) /\ classified def items t1 pairs
      /\ forall ns conn', (ns, conn') ∈ pairs -> conn_URL conn' = conn_URL conn ->
           exists vms, Obs (CListVMs (Some ns)) (Ok vms) ∈ t
             /\ forall vm, vm ∈ vms -> GetAnnotations vm !! annotationMinionID = Some key -> key = "").
Proof.
  eapply wp_mono; [apply wp_scavenge|]. intros r t s' [[items|e] Hl]; [|destruct Hl as [-> _]].
  2: { split; [done|]. intros w Hw. by apply elem_of_nil in Hw. }
  destruct Hl as (_ & pairs & t1 & groups & ts & -> & Hw1 & Hc & Hg & Hts).
  assert (writes (Obs (CListConfigs None) (Ok items) :: t1 ++ concat ts) = concat (writes <$> ts)) as Ew.
  { change (?o :: ?l) with ([o] ++ l). by rewrite !writes_app, Hw1, writes_concat. }
  rewrite Ew. split.
  - intros ->. by eapply dry_groups_silent.
  - intros w Hw. apply list_elem_of_In, in_concat in Hw as (ws & Hws & Hw). apply list_elem_of_In in Hws, Hw.
    apply list_elem_of_fmap in Hws as (tg & -> & Htg).
    apply list_elem_of_lookup in Htg as [i Hi].
    destruct (Forall2_lookup_r _ _ _ _ _ Hts Hi) as ([url g] & Hug & Ht).
    assert (forall o, o ∈ tg -> o ∈ Obs (CListConfigs None) (Ok items) :: t1 ++ concat ts) as Hsub.
    { intros o Ho. apply elem_of_cons; right. apply elem_of_app; right.
      apply list_elem_of_In, in_concat. exists tg. rewrite <- !list_elem_of_In. split; [|done].
      by eapply list_elem_of_lookup_2. }
    assert (groups !! url = Some g) as Hgu.
    { apply elem_of_map_to_list. rewrite <- Horder. by eapply list_elem_of_lookup_2. }
    rewrite Hg in Hgu. pose proof (group_of_url _ _ _ Hgu) as Hurl.
    destruct Ht as [c keys vmss Hlen [ds Htg] Hwr|? ? Hwr|? ? ? Hwr]; simpl in Hwr;
      [|by rewrite Hwr in Hw; apply elem_of_nil in Hw..].
    rewrite Hwr in Hw. destruct dryRun; [by apply elem_of_nil in Hw|].
    apply list_elem_of_fmap in Hw as (key & -> & Hk). apply list_elem_of_In, List.filter_In in Hk as [Hkin Hst].
    unfold stale_key in Hst. apply andb_true_iff in Hst as [Hlive Hex]. apply negb_true_iff in Hlive, Hex.
    apply bool_decide_eq_false in Hlive. apply list_elem_of_In in Hkin.
    exists c, key, (grp_conn g), items, pairs, t1. split_and!; [done|done| | |by eexists|done|].
    + exists keys. split; [|done]. apply Hsub. rewrite Htg. set_solver.
    + apply Hsub. rewrite Htg. set_solver.
    + intros ns conn' Hp Hu. simpl in Hlen.
      assert (ns ∈ grp_namespaces g) as Hns by (eapply group_of_elem; [done..|congruence]).
      destruct (group_reads_vms g c keys vmss ns Hlen Hns) as (vms & Hv & Ho). exists vms. split.
      { apply Hsub. rewrite Htg. apply elem_of_app. by left. }
      intros vm Hvm Ha. destruct (decide (key = "")) as [|Hne]; [done|]. destruct Hlive.
      apply elem_of_union_list. exists (minion_ids vms). split; [apply list_elem_of_fmap; by exists vms|].
      apply minion_ids_elem. split; [done|]. exists vm. split; [done|]. unfold mget. by rewrite Ha.
Qed.

End Theorems.

(** ** The exclusions *)

(** C35: Once [main] has accepted --exclude-minions, no pattern of it fails on any minion ID, a key is
    excluded exactly when one of the patterns matches it, and an item made of a literal text and a
    star excludes every ID that begins with the text and has no slash in the rest (a star does not match
    a slash: infra-* leaves infra-db/01 in). *)
Theorem accepted_exclusions_hold v exclude (Hv : checked_excludes v = Some exclude) key :
  (forall p, p ∈ exclude -> Match p key <> None)
  /\ (matchesAny exclude key = true <-> exists p, p ∈ exclude /\ Match p key = Some true)
  /\ (forall p rest, string_forallb literal_char p = true -> no_byte "/" rest = true ->
        p +:+ "*" ∈ exclude -> matchesAny exclude (p +:+ rest) = true).
Proof.
  split_and!.
  - intros p Hp. apply checked_pattern_never_fails. unfold checked_excludes in Hv.
    destruct (forallb _ _) eqn:Ef; [|done]. injection Hv as <-.
    rewrite forallb_forall in Ef. apply list_elem_of_In, Ef in Hp. by destruct (Match p "").
  - apply matchesAny_true.
  - intros p rest Hl Hs Hin. apply matchesAny_true. exists (p +:+ "*"). split; [done|].
    apply prefix_pattern; [done|]. by exists rest.
Qed.

(** ** Concrete runs *)

Lemma accepted_exclusions_hold_witness :
  checked_excludes " saltmaster, infra-* " = Some ["saltmaster"; "infra-*"]
  /\ matchesAny ["saltmaster"; "infra-*"] "infra-db" = true.
Proof.
  split; [vm_compute; reflexivity|].
  refine (proj2 (proj2 (accepted_exclusions_hold " saltmaster, infra-* " ["saltmaster"; "infra-*"] eq_refl ""))
            "infra-" "db" eq_refl eq_refl _).
  repeat constructor.
Defined.

Section Examples.
#[local] Existing Instances ascii_only reference_lib server.

Definition demo_no_default : DefaultConn := {| def_Namespace := ""; def_SecretName := "" |}.

Definition accepted_answers (keys : list string) : Answers :=
  {| an_login := None; an_pending := Ok []; an_accepted := Ok keys; an_accept := None; an_delete := None;
     an_ping := Ok true; an_refresh := Ok true; an_highstate := Ok "1"; an_poll := Ok None;
     an_seen := Ok ""; an_states := Ok []; an_pair := Ok None; an_masterPub := Ok "" |}.

(** The demo config, moved to another namespace and not ready there. *)
Definition unready_config : SaltKeyConfig :=
  let c := demo_config_with demo_spec in
  {| cfg_Name := cfg_Name c; cfg_Namespace := "other"; cfg_Labels := ∅; cfg_ResourceVersion := "8";
     cfg_Generation := 1; cfg_Spec := cfg_Spec c; cfg_Status := {| ObservedGeneration := 0; Conditions := [] |} |}.

Definition vm_in (ns name minion : string) : VM :=
  let v := demo_vm [(annotationMinionID, minion)] in
  {| vm_name := name; vm_namespace := ns; vm_uid := name; vm_apiVersion := vm_apiVersion v; vm_kind := vm_kind v;
     vm_labels := ∅; vm_annotations := vm_annotations v; vm_finalizers := []; vm_deletionTimestamp := None;
     vm_resourceVersion := Some "1"; vm_managedFields := None; vm_guestInfo := []; vm_conditions := [];
     vm_phase := ""; vm_powerState := "PoweredOn"; vm_primaryIP4 := ""; vm_rest := ANull |}.

Definition scavenger_world : World := {|
  w_now := demo_now; w_vms := [vm_in "team" "vm-a" "vm-a"; vm_in "other" "vm-b" "vm-b"];
  w_secrets := [demo_secret]; w_configs := [demo_config_with demo_spec; unready_config]; w_namespaces := [];
  w_answers := accepted_answers ["vm-a"; "infra-db"; "vm-b"; "gone"] |}.

Definition scavenger_writes (dryRun : bool) : list (call Handle) :=
  writes (scavenge map_to_list dryRun ["infra-*"] demo_no_default scavenger_world).1.2.

(** The key of a live VM can be deleted: the job looks only into namespaces whose config is ready, so
    a VM in a namespace whose config is not ready at the moment counts as gone, while the
    documentation says that any VM in any namespace keeps its key. *)
Theorem unready_namespace_not_searched :
  exists vm c, vm ∈ w_vms scavenger_world /\ vm_deletionTimestamp vm = None
    /\ GetAnnotations vm !! annotationMinionID = Some "vm-b"
    /\ CDeleteKey c "vm-b" ∈ scavenger_writes false.
Proof.
  exists (vm_in "other" "vm-b" "vm-b"), ("https://raas.example", "u").
  split_and!; [repeat constructor|done|vm_compute; reflexivity|].
  assert (scavenger_writes false = CDeleteKey ("https://raas.example", "u") <$> ["vm-b"; "gone"]) as ->
    by (vm_compute; reflexivity).
  constructor.
Qed.

(** C34 at that world with its two VMs: the one group is run over. *)
Lemma scavenge_run_witness :
  let t := (scavenge map_to_list false ["infra-*"] demo_no_default scavenger_world).1.2 in
  lists_within (w_vms scavenger_world) t
  /\ exists (visited : list (string * raasGroup)) ts,
       Forall2 (fun ug tg => group_run (w_vms scavenger_world) (snd ug) false ["infra-*"] tg) visited ts
       /\ exists t1, t = t1 ++ concat ts /\ writes t1 = [] /\ writes t <> [].
Proof.
  intros t. assert (lists_within (w_vms scavenger_world) t) as Hl.
  { apply lists_within_listings. replace (omap vm_listing t) with [[vm_in "team" "vm-a" "vm-a"]] by (vm_compute; reflexivity).
    apply Forall_singleton. intros vm ->%list_elem_of_singleton. constructor. }
  assert (writes t <> []) as Hne by (vm_compute; discriminate).
  split; [exact Hl|].
  pose proof (scavenge_run map_to_list (fun m => reflexivity _) false ["infra-*"] demo_no_default scavenger_world) as Hs.
  unfold wp in Hs. unfold t in *. destruct (scavenge _ _ _ _ _) as [[r t'] w']. cbn [fst snd] in *.
  destruct Hs as ([items|e] & Hs); [|destruct Hs as [-> _]; by destruct Hne].
  destruct Hs as (_ & pairs & t1 & groups & visited & ts & -> & Hw & _ & _ & _ & Hrun).
  exists visited, ts. split; [by apply Hrun|]. by exists (Obs (CListConfigs None) (Ok items) :: t1).
Defined.

Lemma scavenger_spares_live_witness :
  scavenger_writes true = []
  /\ forall w, w ∈ scavenger_writes false ->
       exists c key, w = CDeleteKey c key /\ matchesAny ["infra-*"] key = false.
Proof.
  split.
  - exact (proj1 (wp_result _ _ _ (scavenger_spares_live map_to_list (fun m => reflexivity _) true ["infra-*"]
                                     demo_no_default scavenger_world)) eq_refl).
  - intros w Hw.
    destruct (proj2 (wp_result _ _ _ (scavenger_spares_live map_to_list (fun m => reflexivity _) false ["infra-*"]
                       demo_no_default scavenger_world)) w Hw) as (c & key & _ & _ & _ & _ & E & Hm & _).
    by exists c, key.
Defined.

End Examples.
