(* ===== verification/RaasClient.v ===== *)
(** * The RaaS client ([pkg/salt/client.go])

    The implementation of the [salt.Client] interface: HTTP requests to the
    RaaS API with a session token and an anti-forgery cookie.  The network,
    the cookie jar and the deadline of the caller's context answer [hcall]s;
    the decoder of JSON texts is the parameter [GoJSON], and what the code
    does with a decoded document, its typed decoding included, is defined
    here.  The two polling loops take fuel; an exhausted loop returns
    [out_of_fuel], which a deadline rules out. *)

From Stdlib Require Import SpecFloat.
From S2P Require Import Prelude GoStrings GoTime Api Effects.

#[local] Set Warnings "-register-all".

Local Open Scope Z_scope.

(** ** The network *)

(** A header or a cookie. *)
Definition header : Type := string * string.

Record request := {
  rq_method : string;
  rq_url : string;
  rq_headers : list header;
  rq_body : option any;      (* the document that is marshalled *)
}.

(** Reading the body can fail after the status came. *)
Record response := { rs_status : Z; rs_body : res string }.

Inductive hcall :=
| HNewRequest (method url : string)   (* http.NewRequestWithContext; nil or why it refuses *)
| HDo (req : request)                 (* httpClient.Do *)
| HCookies (url : string)             (* the jar's cookies for the URL; none when it does not parse *)
| HWait (d : Z).                      (* select: nil after d, or the error of the context *)

Definition hresp (c : hcall) : Type :=
  match c with
  | HNewRequest _ _ => option error
  | HDo _ => res response
  | HCookies _ => list header
  | HWait _ => option error
  end.

Class HEnv (W : Type) := henv : forall c : hcall, W -> hresp c * W.

Definition hobs : Type := { c : hcall & hresp c }.
Definition HObs (c : hcall) (r : hresp c) : hobs := existT c r.

(** [encoding/json]: the document of a text, with object keys distinct; [None] is a syntax error. *)
Class GoJSON := { json_decode : string -> option any }.

Definition json_error : error := Errorf "json: cannot unmarshal" [].

(** What an exhausted loop of the model returns; no error of the client has this form. *)
Definition out_of_fuel : error := EApi OtherReason "out of fuel".

(** ** Typed decoding *)

(** [json.Unmarshal] into a struct: [step] stores one field, [None] is a type error. *)
Fixpoint decode_object {R} (step : R -> string -> any -> option R) (r : R) (m : list (string * any)) : option R :=
  match m with
  | [] => Some r
  | (k, v) :: m' => match step r k v with Some r' => decode_object step r' m' | None => None end
  end.

Definition decode_struct {R} (step : R -> string -> any -> option R) (zero : R) (v : any) : option R :=
  match v with
  | AMap m => decode_object step zero m
  | ANull => Some zero
  | _ => None
  end.

Definition decode_string (old : string) (v : any) : option string :=
  match v with AStr s => Some s | ANull => Some old | _ => None end.

Definition decode_bool (old : bool) (v : any) : option bool :=
  match v with ABool b => Some b | ANull => Some old | _ => None end.

(** Into a [map\[string\]any]: [None] inside is the nil map, an existing map is added to. *)
Definition decode_anymap (old : option (list (string * any))) (v : any) : option (option (list (string * any))) :=
  match v with
  | AMap m => Some (Some (m ++ default [] old))
  | ANull => Some None
  | _ => None
  end.

Fixpoint decode_elems {R} (elem : any -> option R) (l : list any) : option (list R) :=
  match l with
  | [] => Some []
  | v :: l' => match elem v, decode_elems elem l' with
               | Some r, Some rs => Some (r :: rs)
               | _, _ => None
               end
  end.

Definition decode_slice {R} (elem : any -> option R) (v : any) : option (list R) :=
  match v with AList l => decode_elems elem l | ANull => Some [] | _ => None end.

(** Into a [map\[string\]string]. *)
Fixpoint decode_strings (m : list (string * any)) : option (list (string * string)) :=
  match m with
  | [] => Some []
  | (k, v) :: m' => match decode_string "" v, decode_strings m' with
                    | Some s, Some l => Some ((k, s) :: l)
                    | _, _ => None
                    end
  end.

Section Decoding.
Context `{GoUnicode}.

(** [struct { Ret string; Error map\[string\]any }]. *)
Record routed := { rt_Ret : string; rt_Error : option (list (string * any)) }.

Definition routed_step (r : routed) (k : string) (v : any) : option routed :=
  if EqualFold k "ret" then
    (fun s => {| rt_Ret := s; rt_Error := rt_Error r |}) <$> decode_string (rt_Ret r) v
  else if EqualFold k "error" then
    (fun e => {| rt_Ret := rt_Ret r; rt_Error := e |}) <$> decode_anymap (rt_Error r) v
  else Some r.

Definition decode_routed (v : any) : option routed :=
  decode_struct routed_step {| rt_Ret := ""; rt_Error := None |} v.

(** [struct { Ret map\[string\]json.RawMessage; Error map\[string\]any }]. *)
Record jid_reply := { jy_Ret : list (string * any); jy_Error : option (list (string * any)) }.

Definition jid_step (r : jid_reply) (k : string) (v : any) : option jid_reply :=
  if EqualFold k "ret" then
    (fun m => {| jy_Ret := default [] m; jy_Error := jy_Error r |}) <$> decode_anymap (Some (jy_Ret r)) v
  else if EqualFold k "error" then
    (fun e => {| jy_Ret := jy_Ret r; jy_Error := e |}) <$> decode_anymap (jy_Error r) v
  else Some r.

Definition decode_jid (v : any) : option jid_reply :=
  decode_struct jid_step {| jy_Ret := []; jy_Error := None |} v.

(** [struct { Return json.RawMessage; Success bool }]; an absent return is [None]. *)
Definition wheel_step (r : option any * bool) (k : string) (v : any) : option (option any * bool) :=
  if EqualFold k "return" then Some (Some v, snd r)
  else if EqualFold k "success" then pair (fst r) <$> decode_bool (snd r) v
  else Some r.

Definition decode_wheel (v : any) : option (option any * bool) := decode_struct wheel_step (None, false) v.

Definition pair_step (r : KeyPair) (k : string) (v : any) : option KeyPair :=
  if EqualFold k "pub" then (fun s => {| kp_Pub := s; kp_Priv := kp_Priv r |}) <$> decode_string (kp_Pub r) v
  else if EqualFold k "priv" then (fun s => {| kp_Pub := kp_Pub r; kp_Priv := s |}) <$> decode_string (kp_Priv r) v
  else Some r.

Definition decode_pair (v : any) : option KeyPair := decode_struct pair_step {| kp_Pub := ""; kp_Priv := "" |} v.

(** [struct { Local map\[string\]string }]. *)
Definition local_step (r : list (string * string)) (k : string) (v : any) : option (list (string * string)) :=
  if EqualFold k "local" then
    match v with
    | AMap m => (fun l => l ++ List.filter (fun p => negb (existsb (fun q => fst q =s? fst p) l)) r) <$> decode_strings m
    | ANull => Some []
    | _ => None
    end
  else Some r.

Definition decode_local (v : any) : option (list (string * string)) := decode_struct local_step [] v.

(** [struct { Ret struct { Results \[\]R } }]. *)
Definition results_step {R} (elem : any -> option R) (r : list R) (k : string) (v : any) : option (list R) :=
  if EqualFold k "results" then decode_slice elem v else Some r.

Definition ret_step {R} (elem : any -> option R) (r : list R) (k : string) (v : any) : option (list R) :=
  if EqualFold k "ret" then decode_struct (results_step elem) r v else Some r.

Definition decode_results {R} (elem : any -> option R) (v : any) : option (list R) :=
  decode_struct (ret_step elem) [] v.

(** [struct { MasterID, LastSeen string }]. *)
Definition master_step (r : string * string) (k : string) (v : any) : option (string * string) :=
  if EqualFold k "master_id" then (fun s => (s, snd r)) <$> decode_string (fst r) v
  else if EqualFold k "last_seen" then pair (fst r) <$> decode_string (snd r) v
  else Some r.

Definition decode_master (v : any) : option (string * string) := decode_struct master_step ("", "") v.

(** [struct { Minion string; KeyState \[\]string }]. *)
Definition keystate_step (r : string * list string) (k : string) (v : any) : option (string * list string) :=
  if EqualFold k "minion" then (fun s => (s, snd r)) <$> decode_string (fst r) v
  else if EqualFold k "key_state" then pair (fst r) <$> decode_slice (decode_string "") v
  else Some r.

Definition decode_keystate (v : any) : option (string * list string) := decode_struct keystate_step ("", []) v.

End Decoding.

(** Into a [map\[string\]any]; reading a nil map finds nothing. *)
Definition into_map (v : any) : option (list (string * any)) :=
  match v with AMap m => Some m | ANull => Some [] | _ => None end.

(** ** The client *)

Record RaaSClient := {
  baseURL : string;
  username : string;
  password : string;
  masterID : string;
}.

(** [NewRaaSClient]; the TLS mode is a property of the network the client runs on. *)
Definition NewRaaSClient (url user pass master : string) : RaaSClient :=
  {| baseURL := TrimRight "/" url; username := user; password := pass; masterID := master |}.

(** The network and the fields the mutex guards. *)
Record ClientState (W : Type) := { cs_world : W; cs_jwt : string; cs_masterPub : string }.
Arguments Build_ClientState {W}.
Arguments cs_world {W}.
Arguments cs_jwt {W}.
Arguments cs_masterPub {W}.

Definition set_net {W} (w : W) (s : ClientState W) : ClientState W :=
  {| cs_world := w; cs_jwt := cs_jwt s; cs_masterPub := cs_masterPub s |}.
Definition set_jwt {W} (jwt : string) (s : ClientState W) : ClientState W :=
  {| cs_world := cs_world s; cs_jwt := jwt; cs_masterPub := cs_masterPub s |}.
Definition set_masterPub {W} (pub : string) (s : ClientState W) : ClientState W :=
  {| cs_world := cs_world s; cs_jwt := cs_jwt s; cs_masterPub := pub |}.

Definition status_ok (status : Z) : bool := negb ((status <? 200) || (300 <=? status)).

(** [io.LimitReader] drops what is past the limit. *)
Definition limit_read (limit : Z) (s : string) : string :=
  if Z.of_nat (String.length s) <=? limit then s else String.substring 0 (Z.to_nat limit) s.

Definition no_numbers : any := ANum (S754_zero false).

Definition rpc (resource method : string) (kwarg : list (string * any)) : any :=
  AMap [("resource", AStr resource); ("method", AStr method); ("kwarg", AMap kwarg)].

Definition jobArg (args : list any) (kwarg : list (string * any)) : any :=
  AMap [("arg", AList args); ("kwarg", AMap kwarg)].

(** The replacer of [dispatch]: dots and underscores become dashes. *)
Definition dashed (fun_ : string) : string :=
  string_map (fun a => if Ascii.eqb a "." || Ascii.eqb a "_" then "-"%char else a) fun_.

(** [int(f)] on amd64: the truncated float, and the smallest integer for one that is no int64. *)
Definition int_of_float (f : spec_float) : Z :=
  match f with
  | S754_infinity _ | S754_nan => int64_min
  | _ => let z := trunc_float f in if in_int64 z then z else int64_min
  end.

Example int_of_minus_one : int_of_float (S754_finite true 4503599627370496 (-52)) = -1.
Proof. reflexivity. Qed.

Example int_of_minus_three_halves : int_of_float (S754_finite true 3 (-1)) = -1.
Proof. reflexivity. Qed.

(** The API error of a body, if any, as [checkBodyError] and its copies find it. The text of an error
    object without a message is not modelled. *)
Definition body_error (prefix : string) (args : list farg) (m : list (string * any)) : option error :=
  match alookup "error" m with
  | None | Some ANull => None
  | Some e =>
      match (as_map e ≫= alookup "message") ≫= as_str with
      | Some msg => if msg <>s? "" then Some (Errorf (prefix +:+ "%s") (args ++ [FStr msg]))
                    else Some (Errorf (prefix +:+ "%v") args)
      | None => Some (Errorf (prefix +:+ "%v") args)
      end
  end.

Section Client.
Context {W : Type} `{HEnv W} `{GoUnicode} `{GoJSON}.
Variable c : RaaSClient.

Abbreviation HTTP := (Traced hobs (ClientState W)).

Definition hperform (q : hcall) : HTTP (hresp q) := fun s =>
  let '(r, w') := henv q (cs_world s) in (r, [HObs q r], set_net w' s).

Definition xsrfToken : HTTP string :=
  cookies ← hperform (HCookies (baseURL c));
  mret (match List.find (fun k => fst k =s? "_xsrf") cookies with Some k => snd k | None => "" end).

Definition fetchCookies (path : string) : HTTP (Z * option error) :=
  ne ← hperform (HNewRequest "GET" (baseURL c +:+ path));
  match ne with
  | Some e => mret (0, Some (Errorf "build GET %s: %w" [FStr path; FWrap e]))
  | None =>
      r ← hperform (HDo {| rq_method := "GET"; rq_url := baseURL c +:+ path;
                           rq_headers := [("Accept", "application/json"); ("X-Requested-With", "XMLHttpRequest")];
                           rq_body := None |});
      match r with
      | Err e => mret (0, Some e)
      | Ok resp => mret (rs_status resp, None)
      end
  end.

(** The answer of the login endpoint: the token, or why there is none. *)
Definition login_token (resp : response) : res string :=
  match rs_body resp with
  | Err e => Err (Errorf "login: read response: %w" [FWrap e])
  | Ok b =>
      let body := limit_read (2 ^ 20) b in
      if negb (status_ok (rs_status resp)) then
        Err (Errorf "login failed: HTTP %d (check username/password): %s" [FInt (rs_status resp); FStr body])
      else
        match json_decode body ≫= into_map with
        | None => Err (Errorf "login: parse response: %w" [FWrap json_error])
        | Some m =>
            match alookup "jwt" m ≫= as_str with
            | Some jwt => if jwt <>s? "" then Ok jwt
                          else Err (Errorf "login failed: no JWT in response: %s" [FStr body])
            | None => Err (Errorf "login failed: no JWT in response: %s" [FStr body])
            end
        end
  end.

Definition login_request (xsrf : string) : request :=
  {| rq_method := "POST"; rq_url := baseURL c +:+ "/account/login";
     rq_headers := [("Content-Type", "application/json"); ("Accept", "application/json");
                    ("X-Xsrftoken", xsrf); ("X-Requested-With", "XMLHttpRequest")];
     rq_body := Some (AMap [("username", AStr (username c)); ("password", AStr (password c));
                            ("config_name", AStr "internal"); ("token_type", AStr "jwt")]) |}.

Definition Login : HTTP (option error) :=
  '(status, fe) ← fetchCookies "/account/login";
  match fe with
  | Some e => mret (Some (Errorf "login failed: %w" [FWrap e]))
  | None =>
      xsrf ← xsrfToken;
      if xsrf =s? "" then
        mret (Some (Errorf "login failed: no _xsrf cookie returned by %s/account/login (HTTP %d, check that the URL is the RaaS API)"
                           [FStr (baseURL c); FInt status]))
      else
        ne ← hperform (HNewRequest "POST" (baseURL c +:+ "/account/login"));
        match ne with
        | Some e => mret (Some (Errorf "login: build request: %w" [FWrap e]))
        | None =>
            r ← hperform (HDo (login_request xsrf));
            match r with
            | Err e => mret (Some (Errorf "login: POST /account/login: %w" [FWrap e]))
            | Ok resp =>
                match login_token resp with
                | Err e => mret (Some e)
                | Ok jwt => modify (set_jwt jwt) ;; mret None
                end
            end
        end
  end.

(** The headers of an RPC: the cookie's token and the session's token, when there are any. *)
Definition rpc_headers (xsrf jwt : string) : list header :=
  [("Content-Type", "application/json"); ("Accept", "application/json");
   ("X-Requested-With", "XMLHttpRequest")]
  ++ (if xsrf <>s? "" then [("X-Xsrftoken", xsrf)] else [])
  ++ (if jwt <>s? "" then [("Authorization", "Bearer " +:+ jwt)] else []).

Definition rpc_request (xsrf jwt : string) (fields : any) : request :=
  {| rq_method := "POST"; rq_url := baseURL c +:+ "/rpc";
     rq_headers := rpc_headers xsrf jwt; rq_body := Some fields |}.

(** Body, status and error. *)
Definition doPost (fields : any) : HTTP (string * Z * option error) :=
  ne ← hperform (HNewRequest "POST" (baseURL c +:+ "/rpc"));
  match ne with
  | Some e => mret ("", 0, Some (Errorf "build request: %w" [FWrap e]))
  | None =>
      xsrf ← xsrfToken;
      jwt ← gets cs_jwt;
      r ← hperform (HDo (rpc_request xsrf jwt fields));
      match r with
      | Err e => mret ("", 0, Some (Errorf "POST /rpc: %w" [FWrap e]))
      | Ok resp =>
          match rs_body resp with
          | Err e => mret ("", rs_status resp, Some (Errorf "read response body: %w" [FWrap e]))
          | Ok b => mret (limit_read (10 * 2 ^ 20) b, rs_status resp, None)
          end
      end
  end.

Definition rawPost (fields : any) : HTTP (string * Z * option error) :=
  '(body, status, err) ← doPost fields;
  match err with
  | Some e => mret (body, status, Some e)
  | None =>
      if status =? 401 then
        le ← Login;
        match le with
        | Some e => mret ("", status, Some (Errorf "JWT expired; re-login failed: %w" [FWrap e]))
        | None => doPost fields
        end
      else mret (body, status, None)
  end.

(** The beginning of every RPC: post, and refuse an error or a status outside 2xx. *)
Definition post (what : string) (args : list farg) (fields : any) : HTTP (res string) :=
  '(body, status, err) ← rawPost fields;
  match err with
  | Some e => mret (Err (Errorf (what +:+ ": %w") (args ++ [FWrap e])))
  | None =>
      if negb (status_ok status)
      then mret (Err (Errorf (what +:+ ": HTTP %d: %s") (args ++ [FInt status; FStr body])))
      else mret (Ok body)
  end.

Definition Call (resource method : string) (kwarg : list (string * any)) : HTTP (res string) :=
  '(body, status, err) ← rawPost (rpc resource method kwarg);
  match err with
  | Some e => mret (Err e)
  | None => if negb (status_ok status) then mret (Err (Errorf "HTTP %d: %s" [FInt status; FStr body]))
            else mret (Ok body)
  end.

(** [checkBodyError]: a body that is not a JSON object has no error. *)
Definition checkBodyError (body : string) : option error :=
  match json_decode body ≫= into_map with
  | None => None
  | Some m => body_error "API error: " [] m
  end.

(** The non-empty minion IDs of the results. *)
Definition minion_of (item : any) : option string :=
  match as_map item with
  | Some m => match alookup "minion" m with
              | Some (AStr minion) => if minion <>s? "" then Some minion else None
              | _ => None
              end
  | None => None
  end.

Definition extractMinions (body : string) : res (list string) :=
  match json_decode body ≫= into_map with
  | None => Err (Errorf "response is not valid JSON: %w" [FWrap json_error])
  | Some raw =>
      match body_error "RaaS API error: " [] raw with
      | Some e => Err e
      | None =>
          match alookup "ret" raw ≫= as_map with
          | None => Ok []
          | Some ret =>
              match alookup "results" ret ≫= as_list with
              | None => Ok []
              | Some results => Ok (omap minion_of results)
              end
          end
      end
  end.

Definition list_keys (what state : string) : HTTP (res (list string)) :=
  r ← post what [] (rpc "minions" "get_minion_key_state"
                        [("limit", no_numbers); ("page", no_numbers); ("key_state", AStr state)]);
  match r with
  | Err e => mret (Err e)
  | Ok body => mret (extractMinions body)
  end.

Definition ListPendingKeys : HTTP (res (list string)) := list_keys "list_pending" "pending".
Definition ListAcceptedKeys : HTTP (res (list string)) := list_keys "list_accepted" "accepted".

(** The body of a key state change is only looked at for an API error. *)
Definition set_key_state (what minionID : string) (fields : any) : HTTP (option error) :=
  r ← post what [FStr minionID] fields;
  match r with
  | Err e => mret (Some e)
  | Ok body => match checkBodyError body with
               | Some e => mret (Some (Errorf (what +:+ ": %w") [FStr minionID; FWrap e]))
               | None => mret None
               end
  end.

Definition AcceptKey (minionID : string) : HTTP (option error) :=
  set_key_state "accept key for %q" minionID
    (rpc "minions" "set_minion_key_state"
       [("minions", AList [AList [AStr (masterID c); AStr minionID]]); ("state", AStr "accept");
        ("include_rejected", ABool true); ("include_denied", ABool true)]).

Definition DeleteKey (minionID : string) : HTTP (option error) :=
  set_key_state "delete key for %q" minionID
    (rpc "minions" "set_minion_key_state"
       [("minions", AList [AList [AStr (masterID c); AStr minionID]]); ("state", AStr "delete")]).

(** *** Jobs *)

(** The ID a job call answers with; [what] names the call and [empty] the complaint about its absence. *)
Definition routed_id (what empty arg body : string) : res string :=
  match json_decode body ≫= decode_routed with
  | None => Err (Errorf (what +:+ "(%s): parse response: %w") [FStr arg; FWrap json_error])
  | Some r =>
      match rt_Error r with
      | Some em =>
          match alookup "message" em ≫= as_str with
          | Some msg => if msg <>s? "" then Err (Errorf (what +:+ "(%s): API error: %s") [FStr arg; FStr msg])
                        else Err (Errorf (what +:+ "(%s): API error: %v") [FStr arg])
          | None => Err (Errorf (what +:+ "(%s): API error: %v") [FStr arg])
          end
      | None =>
          if rt_Ret r =s? "" then Err (Errorf (what +:+ "(%s): empty " +:+ empty +:+ " in response: %s") [FStr arg; FStr body])
          else Ok (rt_Ret r)
      end
  end.

Definition saveJob (name fun_ : string) (kwarg : list (string * any)) : HTTP (res string) :=
  r ← post "save_job(%s)" [FStr fun_]
        (rpc "job" "save_job" [("name", AStr name); ("cmd", AStr "local"); ("fun", AStr fun_);
                               ("arg", jobArg [] kwarg)]);
  match r with
  | Err e => mret (Err e)
  | Ok body => mret (routed_id "save_job" "job UUID" fun_ body)
  end.

(** The target of a job: a list matcher on the one minion. *)
Definition target (minionID : string) : any :=
  AMap [("salt", AMap [("tgt", AStr ("L@" +:+ minionID)); ("tgt_type", AStr "compound")])].

Definition routeCmd (jobUUID minionID : string) : HTTP (res string) :=
  r ← post "route_cmd(%s)" [FStr minionID]
        (rpc "cmd" "route_cmd" [("job_uuid", AStr jobUUID); ("tgt", target minionID)]);
  match r with
  | Err e => mret (Err e)
  | Ok body => mret (routed_id "route_cmd" "JID" minionID body)
  end.

Definition dispatch (minionID fun_ : string) (kwarg : list (string * any)) : HTTP (res string) :=
  r ← saveJob ("op-" +:+ dashed fun_) fun_ kwarg;
  match r with
  | Err e => mret (Err e)
  | Ok jobUUID => routeCmd jobUUID minionID
  end.

(** The minion's entry in the answer to a poll; [None] is not done yet. *)
Definition job_result (minionID jid body : string) : res (option JIDResult) :=
  match json_decode body ≫= into_map with
  | None => Err (Errorf "poll_jid(%s): parse response: %w" [FStr jid; FWrap json_error])
  | Some resp =>
      match body_error "poll_jid(%s): API error: " [FStr jid] resp with
      | Some e => Err e
      | None =>
          match alookup "ret" resp ≫= as_map with
          | None => Ok None
          | Some ret =>
              match alookup minionID ret with
              | None => Ok None
              | Some minionData =>
                  match as_map minionData with
                  | None => Err (Errorf "poll_jid(%s): unexpected result shape for %s" [FStr jid; FStr minionID])
                  | Some m =>
                      Ok (Some {| jr_MinionID := minionID; jr_JID := jid;
                                  jr_Fun := default "" (alookup "fun" m ≫= as_str);
                                  jr_Return := default ANull (alookup "return" m);
                                  jr_Retcode := match alookup "retcode" m with
                                                | Some (ANum f) => int_of_float f
                                                | _ => 0
                                                end;
                                  jr_Success := default false (alookup "success" m ≫= as_bool) |})
                  end
              end
          end
      end
  end.

Definition PollJID (minionID jid : string) : HTTP (res (option JIDResult)) :=
  r ← post "poll_jid(%s)" [FStr jid] (rpc "ret" "get_jid" [("jid", AStr jid)]);
  match r with
  | Err e => mret (Err e)
  | Ok body => mret (job_result minionID jid body)
  end.

Fixpoint waitBoolResult (fuel : nat) (minionID jid fun_ : string) : HTTP (res bool) :=
  match fuel with
  | O => mret (Err out_of_fuel)
  | S fuel' =>
      r ← PollJID minionID jid;
      match r with
      | Err e => mret (Err e)
      | Ok (Some result) =>
          match BoolReturn result with
          | (b, true) => mret (Ok b)
          | (_, false) => mret (Err (Errorf "%s: unexpected non-boolean return for %s (raw: %s)"
                                            [FStr fun_; FStr minionID]))
          end
      | Ok None =>
          d ← hperform (HWait (5 * Second));
          match d with
          | Some e => mret (Err (Errorf "%s: timed out waiting for result (jid=%s): %w" [FStr fun_; FStr jid; FWrap e]))
          | None => waitBoolResult fuel' minionID jid fun_
          end
      end
  end.

(** A boolean job: dispatched, and waited for. *)
Definition bool_job (fuel : nat) (minionID fun_ : string) : HTTP (res bool) :=
  r ← dispatch minionID fun_ [];
  match r with
  | Err e => mret (Err e)
  | Ok jid => waitBoolResult fuel minionID jid fun_
  end.

Definition TestPing (fuel : nat) (minionID : string) : HTTP (res bool) := bool_job fuel minionID "test.ping".
Definition RefreshPillar (fuel : nat) (minionID : string) : HTTP (res bool) :=
  bool_job fuel minionID "saltutil.refresh_pillar".
Definition DispatchHighstate (minionID : string) : HTTP (res string) := dispatch minionID "state.highstate" [].

(** *** The master *)

Definition last_seen (results : list (string * string)) : string :=
  match List.find (fun m => fst m =s? masterID c) results with Some m => snd m | None => "" end.

Definition MasterLastSeen : HTTP (res string) :=
  r ← post "get_master_presence" [] (rpc "master" "get_master_presence" []);
  match r with
  | Err e => mret (Err e)
  | Ok body =>
      match checkBodyError body with
      | Some e => mret (Err (Errorf "get_master_presence: %w" [FWrap e]))
      | None =>
          match json_decode body ≫= decode_results decode_master with
          | None => mret (Err (Errorf "get_master_presence: %w" [FWrap json_error]))
          | Some results => mret (Ok (last_seen results))
          end
      end
  end.

Definition KeyStates (minionID : string) : HTTP (res (list string)) :=
  r ← post "key_state(%s)" [FStr minionID]
        (rpc "minions" "get_minion_key_state" [("minion_id", AStr minionID)]);
  match r with
  | Err e => mret (Err e)
  | Ok body =>
      match checkBodyError body with
      | Some e => mret (Err (Errorf "key_state(%s): %w" [FStr minionID; FWrap e]))
      | None =>
          match json_decode body ≫= decode_results decode_keystate with
          | None => mret (Err (Errorf "key_state(%s): parse response: %w" [FStr minionID; FWrap json_error]))
          | Some results =>
              mret (Ok (concat (snd <$> List.filter (fun r => fst r =s? minionID) results)))
          end
      end
  end.

(** The answer to a poll of a wheel job: [Ok None] is not done yet, [Ok (Some raw)] its return. *)
Definition wheel_result (fun_ jid body : string) : res (option (option any)) :=
  match json_decode body ≫= decode_jid with
  | None => Err (Errorf "%s: get_jid(%s): parse response: %w" [FStr fun_; FStr jid; FWrap json_error])
  | Some resp =>
      match jy_Error resp with
      | Some _ => Err (Errorf "%s: get_jid(%s): API error: %v" [FStr fun_; FStr jid])
      | None =>
          match alookup (masterID c) (jy_Ret resp) with
          | None => Ok None
          | Some raw =>
              match decode_wheel raw with
              | None => Err (Errorf "%s: get_jid(%s): parse result: %w" [FStr fun_; FStr jid; FWrap json_error])
              | Some (ret, success) =>
                  if negb success
                  then Err (Errorf "%s: failed on master %s (jid %s)" [FStr fun_; FStr (masterID c); FStr jid])
                  else Ok (Some ret)
              end
          end
      end
  end.

Fixpoint wheel_loop (fuel : nat) (fun_ jid : string) : HTTP (res (option any)) :=
  match fuel with
  | O => mret (Err out_of_fuel)
  | S fuel' =>
      '(body, status, err) ← rawPost (rpc "ret" "get_jid" [("jid", AStr jid)]);
      match err with
      | Some e => mret (Err (Errorf "%s: get_jid(%s): %w" [FStr fun_; FStr jid; FWrap e]))
      | None =>
          if negb (status_ok status)
          then mret (Err (Errorf "%s: get_jid(%s): HTTP %d" [FStr fun_; FStr jid; FInt status]))
          else
            match wheel_result fun_ jid body with
            | Err e => mret (Err e)
            | Ok (Some ret) => mret (Ok ret)
            | Ok None =>
                d ← hperform (HWait (2 * Second));
                match d with
                | Some e => mret (Err (Errorf "%s: timed out waiting for result (jid=%s): %w" [FStr fun_; FStr jid; FWrap e]))
                | None => wheel_loop fuel' fun_ jid
                end
            end
      end
  end.

Definition wheel (fuel : nat) (fun_ : string) (args : list any) (kwarg : list (string * any))
    : HTTP (res (option any)) :=
  r ← post "%s: route_cmd" [FStr fun_]
        (rpc "cmd" "route_cmd" [("cmd", AStr "wheel"); ("fun", AStr fun_);
                                ("masters", AList [AStr (masterID c)]); ("arg", jobArg args kwarg)]);
  match r with
  | Err e => mret (Err e)
  | Ok body =>
      match json_decode body ≫= decode_routed with
      | None => mret (Err (Errorf "%s: route_cmd: parse response: %w" [FStr fun_; FWrap json_error]))
      | Some routed =>
          if bool_decide (is_Some (rt_Error routed)) || (rt_Ret routed =s? "")
          then mret (Err (Errorf "%s: route_cmd: %s" [FStr fun_; FStr body]))
          else wheel_loop fuel fun_ (rt_Ret routed)
      end
  end.

(** The key pair of a return; both halves empty is no pair. *)
Definition accepted_pair (minionID : string) (ret : option any) : res (option KeyPair) :=
  match ret ≫= decode_pair with
  | None => Err (Errorf "key.gen_accept(%s): unexpected return shape" [FStr minionID])
  | Some kp =>
      if (kp_Pub kp =s? "") && (kp_Priv kp =s? "") then Ok None
      else if (kp_Pub kp =s? "") || (kp_Priv kp =s? "")
      then Err (Errorf "key.gen_accept(%s): incomplete key pair returned" [FStr minionID])
      else Ok (Some kp)
  end.

Definition GenAcceptKey (fuel : nat) (minionID : string) (force : bool) : HTTP (res (option KeyPair)) :=
  r ← wheel fuel "key.gen_accept" [AStr minionID] [("force", ABool force)];
  match r with
  | Err e => mret (Err e)
  | Ok ret => mret (accepted_pair minionID ret)
  end.

Definition public_key (ret : option any) : res string :=
  match ret ≫= decode_local with
  | None => Err (Errorf "key.master_key_str: parse return: %w" [FWrap json_error])
  | Some [(_, pub)] =>
      if negb (Contains pub "PUBLIC KEY") then Err (Errorf "key.master_key_str: return is not a public key" [])
      else Ok pub
  | Some local => Err (Errorf "key.master_key_str: expected one master key, got %d" [FInt (Z.of_nat (length local))])
  end.

Definition MasterPublicKey (fuel : nat) : HTTP (res string) :=
  cached ← gets cs_masterPub;
  if cached <>s? "" then mret (Ok cached)
  else
    r ← wheel fuel "key.master_key_str" [] [];
    match r with
    | Err e => mret (Err e)
    | Ok ret =>
        match public_key ret with
        | Err e => mret (Err e)
        | Ok pub => modify (set_masterPub pub) ;; mret (Ok pub)
        end
    end.

(** *** The interface *)

(** The operation behind a call of the [salt.Client] interface. *)
Definition run_salt {D} (fuel : nat) (q : call D) : option (HTTP (resp q)) :=
  match q as q0 return option (HTTP (resp q0)) with
  | CLogin _ => Some Login
  | CListPendingKeys _ => Some ListPendingKeys
  | CListAcceptedKeys _ => Some ListAcceptedKeys
  | CAcceptKey _ m => Some (AcceptKey m)
  | CDeleteKey _ m => Some (DeleteKey m)
  | CTestPing _ m => Some (TestPing fuel m)
  | CRefreshPillar _ m => Some (RefreshPillar fuel m)
  | CDispatchHighstate _ m => Some (DispatchHighstate m)
  | CPollJID _ m jid => Some (PollJID m jid)
  | CMasterLastSeen _ => Some MasterLastSeen
  | CKeyStates _ m => Some (KeyStates m)
  | CGenAcceptKey _ m force => Some (GenAcceptKey fuel m force)
  | CMasterPublicKey _ => Some (MasterPublicKey fuel)
  | _ => None
  end.

End Client.
