(* ===== verification/RaasSession.v ===== *)
(** * What the RaaS client sends, and what it returns

    The shared pieces of the client's theorems: relations on traces that every
    operation respects, the session as a monitor over requests, the exact
    course of a login, and what a post does.  [RaasPromises] and
    [RaasSecrecy] build on them. *)

From S2P Require Import Prelude GoStrings GoTime Api Effects Cluster RaasClient.

Local Open Scope Z_scope.

(** ** Relations that operations respect *)

Section Network.
Context {W : Type} `{HEnv W}.

Lemma wp_hperform q (s : ClientState W) (Q : hresp q -> list hobs -> ClientState W -> Prop) :
  (forall r w', henv q (cs_world s) = (r, w') -> Q r [HObs q r] (set_net w' s)) -> wp (hperform q) s Q.
Proof. intros HQ. unfold wp, hperform. destruct (henv q (cs_world s)) as [r w'] eqn:E. by apply HQ. Qed.

(** What [MasterPublicKey] takes for a public key. *)
Definition genuine (pub : string) : Prop := Contains pub "PUBLIC KEY" = true.

(** A relation between the states around a trace that composes along traces, and holds of a network
    call that is no request and of caching a public key of the master. *)
Class Composes (R : ClientState W -> list hobs -> ClientState W -> Prop) : Prop := {
  comp_nil s : R s [] s;
  comp_app s1 t1 s2 t2 s3 : R s1 t1 s2 -> R s2 t2 s3 -> R s1 (t1 ++ t2) s3;
  comp_net s q r w' : match q with HDo _ => False | _ => True end ->
    henv q (cs_world s) = (r, w') -> R s [HObs q r] (set_net w' s);
  comp_pub s pub : genuine pub -> R s [] (set_masterPub pub s);
}.

Definition respects {A} (R : ClientState W -> list hobs -> ClientState W -> Prop)
    (m : Traced hobs (ClientState W) A) : Prop :=
  forall s, wp m s (fun _ t s' => R s t s').

Section Respects.
Context (R : ClientState W -> list hobs -> ClientState W -> Prop) `{!Composes R}.

Lemma respects_ret {A} (a : A) : respects R (mret a).
Proof. intros s. apply wp_ret, comp_nil. Qed.

Lemma respects_bind {A B} (m : Traced hobs (ClientState W) A) (k : A -> Traced hobs (ClientState W) B) :
  respects R m -> (forall a, respects R (k a)) -> respects R (m ≫= k).
Proof.
  intros Hm Hk s. apply wp_bind. eapply wp_mono; [exact (Hm s)|]. intros a t s1 Ht.
  eapply wp_mono; [exact (Hk a s1)|]. intros b t' s2 Ht'. cbv beta in *. by eapply comp_app.
Qed.

Lemma respects_gets {A} (f : ClientState W -> A) : respects R (gets f).
Proof. intros s. apply wp_gets, comp_nil. Qed.

Lemma respects_pub pub : genuine pub -> respects R (modify (set_masterPub pub)).
Proof. intros Hp s. by apply wp_modify, comp_pub. Qed.

Lemma respects_perform q : match q with HDo _ => False | _ => True end -> respects R (hperform q).
Proof.
  intros Hq s. unfold wp, hperform. destruct (henv q (cs_world s)) as [r w'] eqn:E. by apply comp_net.
Qed.

End Respects.

End Network.

(** Step over a network call, to a goal about every answer. *)
Ltac wp_hcall := match goal with |- wp (hperform ?q) ?s ?Q => refine (wp_hperform q s Q _) end.

(** Step through the structure of an operation. *)
Ltac keeps_step :=
  match goal with
  | |- respects _ (mret _) => apply respects_ret; exact _
  | |- respects _ (gets _) => apply respects_gets; exact _
  | Hp : genuine ?pub |- respects _ (modify (set_masterPub ?pub)) => apply respects_pub; [exact _|exact Hp]
  | |- respects _ (_ ≫= _) => apply respects_bind; [exact _| |intros ?]
  | |- respects _ (match ?x with _ => _ end) => destruct x
  | |- respects _ (if ?b then _ else _) => destruct b
  | |- respects _ _ => first [refine (respects_perform _ (HNewRequest _ _) I)
                             | refine (respects_perform _ (HCookies _) I)
                             | refine (respects_perform _ (HWait _) I)]
  end.

(** A relation that asks nothing of the requests and of the session token. *)
Section Blind.
Context {W : Type} `{HEnv W} `{GoUnicode} `{GoJSON}.

Class Blind (R : ClientState W -> list hobs -> ClientState W -> Prop) : Prop := {
  blind_composes :: Composes R;
  blind_net s q r w' : henv q (cs_world s) = (r, w') -> R s [HObs q r] (set_net w' s);
  blind_jwt s jwt : R s [] (set_jwt jwt s);
}.

Context (R : ClientState W -> list hobs -> ClientState W -> Prop) `{!Blind R}.
Variable c : RaaSClient.

Lemma blind_perform q : respects R (hperform q).
Proof. intros s. apply wp_hperform. intros r w' E. by apply blind_net. Qed.

Lemma blind_set_jwt jwt : respects R (modify (set_jwt jwt)).
Proof. intros s. apply wp_modify, blind_jwt. Qed.

Ltac blind_step := first [apply blind_set_jwt | keeps_step | refine (blind_perform (HDo _))].

Lemma blind_xsrfToken : respects R (xsrfToken c).
Proof. unfold xsrfToken. repeat blind_step. Qed.

Lemma blind_Login : respects R (Login c).
Proof. unfold Login, fetchCookies. repeat first [apply blind_xsrfToken | blind_step]. Qed.

Lemma blind_doPost fields : respects R (doPost c fields).
Proof. unfold doPost. repeat first [apply blind_xsrfToken | blind_step]. Qed.

Lemma blind_rawPost fields : respects R (rawPost c fields).
Proof. unfold rawPost. repeat first [apply blind_doPost | apply blind_Login | keeps_step]. Qed.

End Blind.

(** ** The session monitor *)

Definition is_rpc (c : RaaSClient) (req : request) : bool :=
  (rq_method req =s? "POST") && (rq_url req =s? baseURL c +:+ "/rpc").

Definition is_login_page (c : RaaSClient) (req : request) : bool :=
  (rq_method req =s? "GET") && (rq_url req =s? baseURL c +:+ "/account/login")
  && match rq_body req with None => true | Some _ => false end.

Definition header_value (k : string) (req : request) : option string :=
  snd <$> List.find (fun h => fst h =s? k) (rq_headers req).

(** The answer to the credentials that gives a token: a 2xx status, and a JSON object whose [jwt] is a
    non-empty string. *)
Inductive token_given `{GoJSON} (resp : response) (jwt : string) : Prop :=
| token_in raw m :
    200 <= rs_status resp < 300 -> rs_body resp = Ok raw ->
    json_decode (limit_read (2 ^ 20) raw) = Some (AMap m) -> alookup "jwt" m = Some (AStr jwt) -> jwt <> "" ->
    token_given resp jwt.

Lemma login_token_given `{GoJSON} resp jwt : login_token resp = Ok jwt <-> token_given resp jwt.
Proof.
  unfold login_token. cbv zeta. split.
  - destruct (rs_body resp) as [raw|] eqn:Eb; [|done]. unfold status_ok.
    destruct (Z.ltb_spec (rs_status resp) 200), (Z.leb_spec 300 (rs_status resp)); try done. simpl negb. cbv iota.
    destruct (json_decode _) as [[]|] eqn:Ej; try done. simpl.
    destruct (alookup "jwt" m) as [[]|] eqn:Em; try done. simpl.
    destruct (String.eqb_spec s "") as [|Hs]; [done|]. intros [= <-]. by econstructor.
  - intros [raw m Hst Hb Hj Hm Hne]. rewrite Hb, Hj. unfold status_ok.
    destruct (Z.ltb_spec (rs_status resp) 200), (Z.leb_spec 300 (rs_status resp)); try lia. simpl. rewrite Hm. simpl.
    by destruct (String.eqb_spec jwt "").
Qed.

(** The jar's anti-forgery token: the first cookie of that name, when it is not empty. *)
Definition xsrf_cookie (cookies : list header) (x : string) : Prop :=
  x <> "" /\ exists l1 l2, cookies = l1 ++ ("_xsrf", x) :: l2 /\ Forall (fun k => fst k <> "_xsrf") l1.

Lemma xsrf_find cookies :
  let x := match List.find (fun k => fst k =s? "_xsrf") cookies with Some k => snd k | None => "" end in
  (x <> "" -> xsrf_cookie cookies x) /\ forall y, xsrf_cookie cookies y -> x = y.
Proof.
  induction cookies as [|[k v] l [IH1 IH2]]; simpl.
  { split; [done|]. by intros y [_ ([] & l2 & [=] & _)]. }
  destruct (String.eqb_spec k "_xsrf") as [->|Hk]; simpl; split.
  - intros Hv. split; [done|]. exists [], l. by split.
  - intros y [_ ([|k' l1] & l2 & E & Hf)]; [by simplify_eq/=|]. simplify_eq/=. by inversion Hf.
  - intros Hx. destruct (IH1 Hx) as [_ (l1 & l2 & El & Hf)]. split; [exact Hx|]. exists ((k, v) :: l1), l2.
    split; [by f_equal/=|by constructor].
  - intros y [Hy ([|k' l1] & l2 & E & Hf)]; [by simplify_eq/=|]. simplify_eq/=. apply IH2.
    split; [done|]. exists l1, l2. by inversion Hf.
Qed.

Section Session.
Context {W : Type} `{HEnv W} `{GoUnicode} `{GoJSON}.

(** The login request of the client, with the token the jar holds. *)
Definition is_login (c : RaaSClient) (req : request) : Prop :=
  exists xsrf, xsrf <> "" /\ req = login_request c xsrf.

(** The token after an observation, or [None] for a request the session does not allow: an RPC carries
    the current token if there is one, a login sends the credentials, the login page is fetched
    without a body, and no other request is made. *)
Inductive session (c : RaaSClient) : string -> hobs -> string -> Prop :=
| se_rpc jwt req r :
    is_rpc c req = true ->
    header_value "Authorization" req = (if jwt =s? "" then None else Some ("Bearer " +:+ jwt)) ->
    session c jwt (HObs (HDo req) r) jwt
| se_login jwt req resp token :
    is_login c req -> token_given resp token -> session c jwt (HObs (HDo req) (Ok resp)) token
| se_login_failed jwt req r :
    is_login c req -> (forall resp token, r = Ok resp -> ~ token_given resp token) ->
    session c jwt (HObs (HDo req) r) jwt
| se_page jwt req r :
    is_login_page c req = true -> session c jwt (HObs (HDo req) r) jwt
| se_other jwt q r :
    match q with HDo _ => False | _ => True end -> session c jwt (HObs q r) jwt.

(** The token after a trace. *)
Inductive sessions (c : RaaSClient) : string -> list hobs -> string -> Prop :=
| ses_nil jwt : sessions c jwt [] jwt
| ses_cons jwt jwt' jwt'' o t : session c jwt o jwt' -> sessions c jwt' t jwt'' -> sessions c jwt (o :: t) jwt''.

Lemma sessions_app c j1 j2 j3 t1 t2 : sessions c j1 t1 j2 -> sessions c j2 t2 j3 -> sessions c j1 (t1 ++ t2) j3.
Proof. induction 1; [done|]. intros. econstructor; eauto. Qed.

Lemma sessions_one c j o j' : session c j o j' -> sessions c j [o] j'.
Proof. intros. econstructor; [done|constructor]. Qed.

(** The session along a trace. *)
Definition session_rel (c : RaaSClient) (s : ClientState W) (t : list hobs) (s' : ClientState W) : Prop :=
  sessions c (cs_jwt s) t (cs_jwt s').

#[export] Instance session_composes c : Composes (session_rel c).
Proof.
  constructor; unfold session_rel.
  - constructor.
  - intros. by eapply sessions_app.
  - intros s q r w' Hq _. simpl. by apply sessions_one, se_other.
  - constructor.
Qed.

End Session.

Section Operations.
Context {W : Type} `{HEnv W} `{GoUnicode} `{GoJSON}.
Variable c : RaaSClient.

Lemma header_value_rpc xsrf jwt fields :
  header_value "Authorization" (rpc_request c xsrf jwt fields)
  = if jwt =s? "" then None else Some ("Bearer " +:+ jwt).
Proof.
  unfold header_value, rpc_request, rpc_headers. simpl.
  destruct (xsrf =s? ""), (jwt =s? ""); reflexivity.
Qed.

Lemma wp_xsrfToken (s : ClientState W) :
  wp (xsrfToken c) s (fun _ t s' => sessions c (cs_jwt s) t (cs_jwt s') /\ cs_jwt s' = cs_jwt s).
Proof.
  unfold xsrfToken. apply wp_bind; wp_hcall. intros cookies w _. apply wp_ret.
  split; [|done]. by apply sessions_one, se_other.
Qed.

Lemma keeps_doPost fields : respects (session_rel c) (doPost c fields : Traced hobs (ClientState W) _).
Proof.
  unfold doPost. keeps_step; [keeps_step|]. destruct a as [e|]; [keeps_step|].
  intros s. apply wp_bind. eapply wp_mono; [apply wp_xsrfToken|]. intros xsrf t0 s0 [Ht0 _].
  apply wp_bind, wp_gets. apply wp_bind; wp_hcall. intros r w' _.
  assert (session c (cs_jwt s0) (HObs (HDo (rpc_request c xsrf (cs_jwt s0) fields)) r) (cs_jwt s0)) as Hs.
  { apply se_rpc; [|apply header_value_rpc]. unfold is_rpc. simpl. apply String.eqb_refl. }
  destruct r as [resp|e]; [destruct (rs_body resp)|]; apply wp_ret; rewrite app_nil_r;
    by (eapply sessions_app; [exact Ht0|]; apply sessions_one).
Qed.

Lemma keeps_fetchCookies : respects (session_rel c) (fetchCookies c "/account/login" : Traced hobs (ClientState W) _).
Proof.
  unfold fetchCookies. keeps_step; [keeps_step|]. destruct a as [e|]; [keeps_step|].
  keeps_step; [|destruct a; keeps_step].
  intros s. wp_hcall. intros r w' _. apply sessions_one, se_page.
  unfold is_login_page. simpl. by rewrite String.eqb_refl.
Qed.

Lemma keeps_Login : respects (session_rel c) (Login c : Traced hobs (ClientState W) _).
Proof.
  unfold Login. keeps_step; [apply keeps_fetchCookies|]. destruct a as [status [e|]]; [keeps_step|].
  keeps_step; [intros s; eapply wp_mono; [apply wp_xsrfToken|]; by intros ? ? ? [? _]|].
  destruct (a =s? "") eqn:Ex; [keeps_step|]. apply String.eqb_neq in Ex.
  keeps_step; [keeps_step|]. destruct a0 as [e|]; [keeps_step|].
  intros s. apply wp_bind; wp_hcall. intros r w' _.
  assert (is_login c (login_request c a)) as Hl by by exists a.
  destruct r as [resp|e]; [destruct (login_token resp) as [jwt|e] eqn:Et|].
  - apply wp_bind, wp_modify, wp_ret. eapply sessions_one, se_login; [done|]. by apply login_token_given.
  - apply wp_ret. apply sessions_one, se_login_failed; [done|]. intros ? ? [= <-]. by rewrite <- login_token_given, Et.
  - apply wp_ret. apply sessions_one, se_login_failed; [done|]. by intros ? ? [=].
Qed.

Lemma keeps_rawPost fields : respects (session_rel c) (rawPost c fields : Traced hobs (ClientState W) _).
Proof.
  unfold rawPost. keeps_step; [apply keeps_doPost|]. destruct a as [[body status] [e|]]; [keeps_step|].
  keeps_step; [|keeps_step]. keeps_step; [apply keeps_Login|]. destruct a; [keeps_step|apply keeps_doPost].
Qed.

End Operations.

(** ** What a post does *)

(** The documents a trace posts to the RPC endpoint of the client. *)
Definition rpc_body (c : RaaSClient) (o : hobs) : option (option any) :=
  match o with
  | existT (HDo req) _ => if is_rpc c req then Some (rq_body req) else None
  | _ => None
  end.

Definition rpc_bodies (c : RaaSClient) (t : list hobs) : list (option any) := omap (rpc_body c) t.

(** The login requests of a trace, those with the credentials. *)
Definition login_post (c : RaaSClient) (o : hobs) : bool :=
  match o with
  | existT (HDo req) _ => (rq_method req =s? "POST") && (rq_url req =s? baseURL c +:+ "/account/login")
  | _ => false
  end.

Definition logins (c : RaaSClient) (t : list hobs) : nat := length (List.filter (login_post c) t).

(** The last observation: the RPC of [fields] was answered with [resp]. *)
Definition answered (c : RaaSClient) (fields : any) (resp : response) (t : list hobs) : Prop :=
  exists req, is_rpc c req = true /\ rq_body req = Some fields /\ last t = Some (HObs (HDo req) (Ok resp)).

(** The last RPC succeeded with this body, up to the limit on its size. *)
Definition replied (c : RaaSClient) (fields : any) (body : string) (t : list hobs) : Prop :=
  exists resp raw, answered c fields resp t /\ status_ok (rs_status resp) = true
    /\ rs_body resp = Ok raw /\ body = limit_read (10 * 2 ^ 20) raw.

Section Posts.
Context {W : Type} `{HEnv W} `{GoUnicode} `{GoJSON}.
Variable c : RaaSClient.

Lemma rpc_bodies_app t t' : rpc_bodies c (t ++ t') = rpc_bodies c t ++ rpc_bodies c t'.
Proof. unfold rpc_bodies. induction t as [|o t IH]; [done|]. cbn. destruct (rpc_body c o); cbn; by rewrite IH. Qed.

Lemma logins_app t t' : logins c (t ++ t') = (logins c t + logins c t')%nat.
Proof. unfold logins. by rewrite List.filter_app, length_app. Qed.

Lemma rpc_bodies_do req r :
  rpc_bodies c [HObs (HDo req) r] = if is_rpc c req then [rq_body req] else [].
Proof. unfold rpc_bodies, omap, list_omap, rpc_body, HObs. by destruct (is_rpc c req). Qed.

Lemma url_ne : (baseURL c +:+ "/account/login" =s? baseURL c +:+ "/rpc") = false.
Proof.
  apply String.eqb_neq. induction (baseURL c) as [|a s IH]; [done|].
  change (String a s +:+ "/account/login") with (String a (s +:+ "/account/login")).
  change (String a s +:+ "/rpc") with (String a (s +:+ "/rpc")). intros [= E]. by apply IH.
Qed.

Lemma wp_xsrf (s : ClientState W) : wp (xsrfToken c) s (fun _ t s' =>
  rpc_bodies c t = [] /\ logins c t = 0%nat /\ cs_jwt s' = cs_jwt s /\ cs_masterPub s' = cs_masterPub s).
Proof. unfold xsrfToken. apply wp_bind; wp_hcall. intros cookies w _. by apply wp_ret. Qed.

(** The document is posted once, or not at all and that is an error. [r] is the answer, and an error is
    one of the network: no answer whose body could be read came. *)
Definition sent_once (fields : any) (s s' : ClientState W) (r : string * Z * option error) (t : list hobs) : Prop :=
  cs_jwt s' = cs_jwt s /\ cs_masterPub s' = cs_masterPub s /\ logins c t = 0%nat
  /\ (rpc_bodies c t = [Some fields] \/ rpc_bodies c t = [] /\ r.2 <> None)
  /\ (r.2 = None -> exists resp raw, answered c fields resp t /\ r.1.2 = rs_status resp
        /\ rs_body resp = Ok raw /\ r.1.1 = limit_read (10 * 2 ^ 20) raw)
  /\ (r.2 <> None -> forall resp raw, answered c fields resp t -> rs_body resp <> Ok raw).

(** The answer to a request. *)
Definition response_of (o : hobs) : option (res response) :=
  match o with
  | existT q r => match q as q0 return hresp q0 -> option (res response) with
                  | HDo _ => fun r => Some r
                  | _ => fun _ => None
                  end r
  end.

Lemma answered_last fields resp t o r :
  answered c fields resp (t ++ [o]) -> response_of o = r -> r = Some (Ok resp).
Proof. intros (req & _ & _ & Hl) <-. rewrite last_snoc in Hl. by injection Hl as ->. Qed.

Lemma wp_doPost fields (s : ClientState W) :
  wp (doPost c fields) s (fun r t s' => sent_once fields s s' r t).
Proof.
  unfold doPost. apply wp_bind; wp_hcall. intros [e|] w1 _.
  { apply wp_ret. split_and!; [done..|by right|done|]. intros _ resp raw Ha%(answered_last _ _ [] _ None); done. }
  apply wp_bind. eapply wp_mono; [apply wp_xsrf|]. intros xsrf t0 s0 (Hb & Hl & Hj & Hm).
  apply wp_bind, wp_gets. apply wp_bind; wp_hcall. intros r w' _.
  set (req := rpc_request c xsrf (cs_jwt s0) fields).
  assert (is_rpc c req = true) as Hreq by (unfold is_rpc; simpl; apply String.eqb_refl).
  set (t1 := HObs (HNewRequest "POST" (baseURL c +:+ "/rpc")) None :: t0).
  assert (forall r : res response, [HObs (HNewRequest "POST" (baseURL c +:+ "/rpc")) None]
            ++ t0 ++ [] ++ [HObs (HDo req) r] ++ [] = t1 ++ [HObs (HDo req) r]) as Ht by done.
  assert (forall r : res response, rpc_bodies c (t1 ++ [HObs (HDo req) r]) = [Some fields]
            /\ logins c (t1 ++ [HObs (HDo req) r]) = 0%nat) as Hbody.
  { intros r'. rewrite <- Ht, !rpc_bodies_app, !logins_app, Hb, Hl, rpc_bodies_do, Hreq. split; [done|].
    unfold logins. cbn. rewrite (String.eqb_sym _ (baseURL c +:+ "/account/login")). by rewrite url_ne. }
  destruct r as [resp|e]; [destruct (rs_body resp) as [raw|e] eqn:Eb|]; apply wp_ret; rewrite Ht;
    (split_and!; [done|done|apply Hbody|left; apply Hbody| |]); try done.
  - intros _. exists resp, raw. split_and!; [|done..]. exists req. by rewrite last_snoc.
  - intros _ resp' raw Ha%(answered_last _ _ _ _ (Some (Ok resp))); [|done]. injection Ha as <-. by rewrite Eb.
  - intros _ resp' raw Ha%(answered_last _ _ _ _ (Some (Err e))); done.
Qed.

(** The page that sets the cookie. *)
Definition login_page : request :=
  {| rq_method := "GET"; rq_url := baseURL c +:+ "/account/login";
     rq_headers := [("Accept", "application/json"); ("X-Requested-With", "XMLHttpRequest")]; rq_body := None |}.

(** The page was fetched, and the jar then held these cookies. *)
Definition page_fetched (cookies : list header) (t : list hobs) : Prop :=
  exists resp, t = [HObs (HNewRequest "GET" (baseURL c +:+ "/account/login")) None;
                    HObs (HDo login_page) (Ok resp); HObs (HCookies (baseURL c)) cookies].

(** A login, and the token it gave. Each failure has its cause: a request that cannot be built, a page
    that is not answered, no cookie, credentials that are not answered with a token. *)
Inductive login_run : list hobs -> option string -> Prop :=
| lr_page_unbuilt e :
    login_run [HObs (HNewRequest "GET" (baseURL c +:+ "/account/login")) (Some e)] None
| lr_page_unanswered e :
    login_run [HObs (HNewRequest "GET" (baseURL c +:+ "/account/login")) None; HObs (HDo login_page) (Err e)] None
| lr_no_cookie cookies t :
    page_fetched cookies t -> (forall x, ~ xsrf_cookie cookies x) -> login_run t None
| lr_post_unbuilt cookies t x e :
    page_fetched cookies t -> xsrf_cookie cookies x ->
    login_run (t ++ [HObs (HNewRequest "POST" (baseURL c +:+ "/account/login")) (Some e)]) None
| lr_refused cookies t x r :
    page_fetched cookies t -> xsrf_cookie cookies x ->
    (forall resp jwt, r = Ok resp -> ~ token_given resp jwt) ->
    login_run (t ++ [HObs (HNewRequest "POST" (baseURL c +:+ "/account/login")) None;
                     HObs (HDo (login_request c x)) r]) None
| lr_token cookies t x resp jwt :
    page_fetched cookies t -> xsrf_cookie cookies x -> token_given resp jwt ->
    login_run (t ++ [HObs (HNewRequest "POST" (baseURL c +:+ "/account/login")) None;
                     HObs (HDo (login_request c x)) (Ok resp)]) (Some jwt).

(** A login and what it leaves: without an error the new token, else the one before. *)
Definition logged_in (s s' : ClientState W) (r : option error) (t : list hobs) : Prop :=
  cs_masterPub s' = cs_masterPub s
  /\ match r with
     | None => exists jwt, login_run t (Some jwt) /\ cs_jwt s' = jwt
     | Some _ => login_run t None /\ cs_jwt s' = cs_jwt s
     end.

Lemma login_run_requests t o : login_run t o -> rpc_bodies c t = [] /\ (logins c t <= 1)%nat.
Proof.
  assert (forall x (r : res response),
    rpc_bodies c [HObs (HNewRequest "POST" (baseURL c +:+ "/account/login")) None; HObs (HDo (login_request c x)) r] = []
    /\ logins c [HObs (HNewRequest "POST" (baseURL c +:+ "/account/login")) None; HObs (HDo (login_request c x)) r] = 1%nat) as Hp.
  { intros x r. unfold rpc_bodies, logins, omap, list_omap, rpc_body, HObs, is_rpc. simpl. by rewrite url_ne, String.eqb_refl. }
  assert (forall cookies t, page_fetched cookies t -> rpc_bodies c t = [] /\ logins c t = 0%nat) as Hf by by intros ? ? [resp ->].
  destruct 1 as [e|e|cookies t Ht _|cookies t x e Ht _|cookies t x r Ht _ _|cookies t x resp jwt Ht _ _];
    try (split; [done|apply Nat.leb_le; done]); destruct (Hf _ _ Ht) as [Hb Hl]; rewrite ?rpc_bodies_app, ?logins_app, Hb, Hl;
    try (split; [done|apply Nat.leb_le; done]).
  - destruct (Hp x r) as [-> ->]. by split.
  - destruct (Hp x (Ok resp)) as [-> ->]. by split.
Qed.

Lemma logged_in_requests s s' r t : logged_in s s' r t -> rpc_bodies c t = [] /\ (logins c t <= 1)%nat.
Proof. intros [_ Hr]. destruct r; [destruct Hr as [Hr _]|destruct Hr as (jwt & Hr & _)]; by apply login_run_requests in Hr. Qed.

Lemma wp_Login (s : ClientState W) : wp (Login c) s (fun r t s' => logged_in s s' r t).
Proof.
  unfold Login, fetchCookies. apply wp_bind, wp_bind; wp_hcall. intros [e|] w1 _.
  { do 2 apply wp_ret. split; [done|]. split; [apply lr_page_unbuilt|done]. }
  apply wp_bind; wp_hcall. intros [page|e] w2 _; cycle 1.
  { do 2 apply wp_ret. split; [done|]. split; [apply lr_page_unanswered|done]. }
  apply wp_ret. unfold xsrfToken. apply wp_bind, wp_bind; wp_hcall. intros cookies w3 _. apply wp_ret.
  destruct (xsrf_find cookies) as [Hx1 Hx2].
  set (x := match List.find _ _ with Some _ => _ | None => _ end) in *.
  assert (exists t, page_fetched cookies t /\ forall u, ([HObs (HNewRequest "GET" (baseURL c +:+ "/account/login")) None]
    ++ [HObs (HDo login_page) (Ok page)] ++ []) ++ ([HObs (HCookies (baseURL c)) cookies] ++ []) ++ u = t ++ u) as (t & Ht & Hu).
  { eexists. split; [by exists page|]. done. }
  destruct (String.eqb_spec x "") as [Ex|Ex].
  { apply wp_ret. split; [done|]. split; [|done]. refine (eq_ind_r (fun u => login_run u _) _ (Hu _)). rewrite app_nil_r. eapply lr_no_cookie; [exact Ht|].
    intros y Hy. pose proof (proj1 Hy) as Hne. apply Hne. rewrite <- (Hx2 y Hy). exact Ex. }
  specialize (Hx1 Ex). apply wp_bind; wp_hcall. intros [e|] w4 _.
  { apply wp_ret. split; [done|]. split; [|done]. refine (eq_ind_r (fun u => login_run u _) _ (Hu _)). by eapply lr_post_unbuilt. }
  apply wp_bind; wp_hcall. intros r w5 _.
  destruct r as [resp|e]; [destruct (login_token resp) as [jwt|e] eqn:Et|].
  - apply wp_bind, wp_modify, wp_ret. split; [done|]. exists jwt. split; [|done]. refine (eq_ind_r (fun u => login_run u _) _ (Hu _)).
    eapply lr_token; [done..|]. by apply login_token_given.
  - apply wp_ret. split; [done|]. split; [|done]. refine (eq_ind_r (fun u => login_run u _) _ (Hu _)). eapply lr_refused; [done..|].
    intros resp' jwt [= <-]. by rewrite <- login_token_given, Et.
  - apply wp_ret. split; [done|]. split; [|done]. refine (eq_ind_r (fun u => login_run u _) _ (Hu _)). eapply lr_refused; [done..|]. by intros ? ? [=].
Qed.

(** A post with one renewal of the session: [r] is body, status and error. *)
Inductive posted (fields : any) (s s' : ClientState W) (r : string * Z * option error) : list hobs -> Prop :=
| posted_once t : sent_once fields s s' r t -> r.2 <> None \/ r.1.2 <> 401 -> posted fields s s' r t
| posted_refused t1 s1 body t2 e :
    sent_once fields s s1 (body, 401, None) t1 -> logged_in s1 s' (Some e) t2 -> r.2 <> None ->
    posted fields s s' r (t1 ++ t2)
| posted_again t1 s1 body t2 s2 t3 :
    sent_once fields s s1 (body, 401, None) t1 -> logged_in s1 s2 None t2 -> sent_once fields s2 s' r t3 ->
    posted fields s s' r (t1 ++ t2 ++ t3).

Lemma answered_app fields resp t t' : answered c fields resp t' -> answered c fields resp (t ++ t').
Proof. intros (req & Hr & Hb & Hl). exists req. split_and!; [done..|]. by rewrite last_app, Hl. Qed.

Lemma wp_rawPost fields (s : ClientState W) :
  wp (rawPost c fields) s (fun r t s' => posted fields s s' r t).
Proof.
  unfold rawPost. apply wp_bind. eapply wp_mono; [apply wp_doPost|].
  intros [[body status] err] t1 s1 Hs1. destruct err as [e|]; [|destruct (Z.eqb_spec status 401) as [->|Hne]].
  - apply wp_ret. rewrite app_nil_r. apply posted_once; [exact Hs1|by left].
  - apply wp_bind. eapply wp_mono; [apply wp_Login|]. intros [e|] t2 s2 Hlog.
    + apply wp_ret. rewrite app_nil_r. by eapply posted_refused.
    + eapply wp_mono; [apply wp_doPost|]. intros r t3 s3 Hs3. by eapply posted_again.
  - apply wp_ret. rewrite app_nil_r. apply posted_once; [exact Hs1|by right].
Qed.

(** What every case has in common: at most two posts, at most one login, and the answer is the last one. *)
Lemma posted_facts fields s s' r t : posted fields s s' r t ->
  Forall (eq (Some fields)) (rpc_bodies c t) /\ (length (rpc_bodies c t) <= 2)%nat /\ (logins c t <= 1)%nat
  /\ cs_masterPub s' = cs_masterPub s
  /\ (r.2 = None -> exists resp raw, answered c fields resp t /\ r.1.2 = rs_status resp
        /\ rs_body resp = Ok raw /\ r.1.1 = limit_read (10 * 2 ^ 20) raw).
Proof.
  assert (forall s s' r t, sent_once fields s s' r t -> Forall (eq (Some fields)) (rpc_bodies c t)
            /\ (length (rpc_bodies c t) <= 1)%nat) as Hone.
  { intros ? ? ? ? (_ & _ & _ & [->|[-> _]] & _); (split; [by repeat constructor|simpl; lia]). }
  destruct 1 as [t Hs _|t1 s1 body t2 e Hs Hlog Herr|t1 s1 body t2 s2 t3 Hs Hlog Hs'].
  - pose proof (Hone _ _ _ _ Hs) as [Hf Hn]. destruct Hs as (_ & Hm & Hl & _ & Ha & _). split_and!; auto; lia.
  - pose proof (Hone _ _ _ _ Hs) as [Hf Hn]. destruct Hs as (_ & Hm & Hl & _ & _).
    destruct (logged_in_requests _ _ _ _ Hlog) as [Hb2 Hl2], Hlog as [Hm2 _]. rewrite rpc_bodies_app, logins_app, Hb2, app_nil_r, Hl.
    split_and!; [done|lia|lia|congruence|done].
  - pose proof (Hone _ _ _ _ Hs) as [Hf Hn]. pose proof (Hone _ _ _ _ Hs') as [Hf' Hn'].
    destruct Hs as (_ & Hm & Hl & _ & _). destruct Hs' as (_ & Hm' & Hl' & _ & Ha & _).
    destruct (logged_in_requests _ _ _ _ Hlog) as [Hb2 Hl2], Hlog as [Hm2 _]. rewrite !rpc_bodies_app, !logins_app, Hb2, Hl, Hl', !length_app. simpl.
    split_and!; [by apply Forall_app|lia|lia|congruence|]. intros Hr. destruct (Ha Hr) as (resp & raw & Hans & ?).
    exists resp, raw. split; [|done]. by do 2 apply answered_app.
Qed.

Lemma wp_post what args fields (s : ClientState W) :
  wp (post c what args fields) s (fun r t s' =>
    Forall (eq (Some fields)) (rpc_bodies c t) /\ cs_masterPub s' = cs_masterPub s
    /\ match r with
       | Ok body => replied c fields body t
       | Err _ => True
       end).
Proof.
  unfold post. apply wp_bind. eapply wp_mono; [apply wp_rawPost|].
  intros [[body status] err] t s' (Hf & _ & _ & Hm & Hr)%posted_facts. simpl in Hr.
  destruct err as [e|]; [apply wp_ret; by rewrite app_nil_r|].
  destruct (status_ok status) eqn:Es; apply wp_ret; rewrite app_nil_r; split_and!; try done.
  destruct (Hr eq_refl) as (resp & raw & Ha & Hst & Hb & Hbody). exists resp, raw. by rewrite <- Hst.
Qed.

End Posts.
