(* ===== verification/RaasPromises.v ===== *)
(** * What the RaaS client promises the controllers

    The table of requests each operation may send, how a login and an RPC go,
    the meaning of the results in terms of the last reply, and the end of the
    waits under a deadline. *)

From Stdlib Require Import SpecFloat.
From S2P Require Import Prelude GoStrings GoTime Api Effects Server Cluster RaasClient RaasSession.

Local Open Scope Z_scope.

(** ** The table of requests *)

Section Table.
Variable c : RaaSClient.

(** An RPC document, and the arguments of a job. *)
Definition asks (resource method : string) (kwarg : list (string * any)) : any :=
  AMap [("resource", AStr resource); ("method", AStr method); ("kwarg", AMap kwarg)].

Definition arguments (args : list any) (kwarg : list (string * any)) : any :=
  AMap [("arg", AList args); ("kwarg", AMap kwarg)].

(** The documents of a job on one minion: save it, route it, poll it. *)
Inductive job_body (m fun_ : string) : any -> Prop :=
| jb_save : job_body m fun_ (asks "job" "save_job"
    [("name", AStr ("op-" +:+ dashed fun_)); ("cmd", AStr "local"); ("fun", AStr fun_); ("arg", arguments [] [])])
| jb_route uuid : job_body m fun_ (asks "cmd" "route_cmd"
    [("job_uuid", AStr uuid);
     ("tgt", AMap [("salt", AMap [("tgt", AStr ("L@" +:+ m)); ("tgt_type", AStr "compound")])])])
| jb_poll jid : job_body m fun_ (asks "ret" "get_jid" [("jid", AStr jid)]).

(** The documents of a wheel job on the client's master. *)
Inductive wheel_body (fun_ : string) (args : list any) (kwarg : list (string * any)) : any -> Prop :=
| wb_route : wheel_body fun_ args kwarg (asks "cmd" "route_cmd"
    [("cmd", AStr "wheel"); ("fun", AStr fun_); ("masters", AList [AStr (masterID c)]); ("arg", arguments args kwarg)])
| wb_poll jid : wheel_body fun_ args kwarg (asks "ret" "get_jid" [("jid", AStr jid)]).

Definition key_list (state : string) : any :=
  asks "minions" "get_minion_key_state" [("limit", no_numbers); ("page", no_numbers); ("key_state", AStr state)].

Definition allowed_body {D} (q : call D) (b : any) : Prop :=
  match q with
  | CListPendingKeys _ => b = key_list "pending"
  | CListAcceptedKeys _ => b = key_list "accepted"
  | CAcceptKey _ m => b = asks "minions" "set_minion_key_state"
      [("minions", AList [AList [AStr (masterID c); AStr m]]); ("state", AStr "accept");
       ("include_rejected", ABool true); ("include_denied", ABool true)]
  | CDeleteKey _ m => b = asks "minions" "set_minion_key_state"
      [("minions", AList [AList [AStr (masterID c); AStr m]]); ("state", AStr "delete")]
  | CTestPing _ m => job_body m "test.ping" b
  | CRefreshPillar _ m => job_body m "saltutil.refresh_pillar" b
  | CDispatchHighstate _ m => job_body m "state.highstate" b
  | CPollJID _ _ jid => b = asks "ret" "get_jid" [("jid", AStr jid)]
  | CMasterLastSeen _ => b = asks "master" "get_master_presence" []
  | CKeyStates _ m => b = asks "minions" "get_minion_key_state" [("minion_id", AStr m)]
  | CGenAcceptKey _ m force => wheel_body "key.gen_accept" [AStr m] [("force", ABool force)] b
  | CMasterPublicKey _ => wheel_body "key.master_key_str" [] [] b
  | _ => False
  end.

End Table.

(** ** Operations respect what their requests respect *)

Section Operations.
Context {W : Type} `{HEnv W} `{GoUnicode} `{GoJSON}.
Variable c : RaaSClient.
Context (R : ClientState W -> list hobs -> ClientState W -> Prop) `{!Composes R}.
Context (ok : any -> Prop).
Hypothesis Hpost : forall fields, ok fields -> respects R (rawPost c fields : Traced hobs (ClientState W) _).

Lemma respects_post what args fields : ok fields -> respects R (post c what args fields).
Proof.
  intros Hok. unfold post. keeps_step; [by apply Hpost|]. destruct a as [[body status] [e|]]; repeat keeps_step.
Qed.

Lemma respects_PollJID m jid : ok (rpc "ret" "get_jid" [("jid", AStr jid)]) -> respects R (PollJID c m jid).
Proof. intros Hok. unfold PollJID. keeps_step; [by apply respects_post|]. repeat keeps_step. Qed.

Lemma respects_bool_job fuel m f : (forall b, job_body m f b -> ok b) -> respects R (bool_job c fuel m f).
Proof.
  intros Hok. unfold bool_job, dispatch, saveJob, routeCmd. keeps_step.
  - keeps_step; [keeps_step; [apply respects_post, Hok; constructor|repeat keeps_step]|].
    keeps_step; [|keeps_step]. keeps_step; [apply respects_post, Hok; constructor|]. repeat keeps_step.
  - keeps_step; [|keeps_step]. revert fuel a. intros fuel jid.
    induction fuel as [|fuel IH]; cbn [waitBoolResult]; [keeps_step|].
    keeps_step; [apply respects_PollJID, Hok; constructor|]. repeat first [exact IH | keeps_step].
Qed.

Lemma respects_dispatch m f : (forall b, job_body m f b -> ok b) -> respects R (dispatch c m f []).
Proof.
  intros Hok. unfold dispatch, saveJob, routeCmd.
  keeps_step; [keeps_step; [apply respects_post, Hok; constructor|repeat keeps_step]|].
  keeps_step; [|keeps_step]. keeps_step; [apply respects_post, Hok; constructor|]. repeat keeps_step.
Qed.

Lemma respects_wheel fuel f args kw : (forall b, wheel_body c f args kw b -> ok b) -> respects R (wheel c fuel f args kw).
Proof.
  intros Hok. unfold wheel. keeps_step; [apply respects_post, Hok; constructor|].
  keeps_step; [|keeps_step]. keeps_step; [|keeps_step]. keeps_step; [keeps_step|].
  generalize (rt_Ret r). intros jid.
  induction fuel as [|fuel IH]; cbn [wheel_loop]; [keeps_step|].
  keeps_step; [apply Hpost, Hok; constructor|]. destruct a0 as [[body status] [e|]]; [keeps_step|].
  repeat first [exact IH | keeps_step].
Qed.

Lemma public_key_genuine ret pub : public_key ret = Ok pub -> genuine pub.
Proof.
  unfold public_key, genuine. destruct (ret ≫= decode_local) as [[|[k p] [|]]|]; try done.
  destruct (Contains p "PUBLIC KEY") eqn:E; [|done]. by intros [= <-].
Qed.

Lemma respects_MasterPublicKey fuel :
  (forall b, wheel_body c "key.master_key_str" [] [] b -> ok b) -> respects R (MasterPublicKey c fuel).
Proof.
  intros Hok. unfold MasterPublicKey. keeps_step; [keeps_step|]. keeps_step; [keeps_step|].
  keeps_step; [by apply respects_wheel|]. destruct a0 as [ret|e]; [|keeps_step].
  destruct (public_key ret) as [pub|e] eqn:Ep; [|keeps_step]. apply public_key_genuine in Ep. repeat keeps_step.
Qed.

Lemma respects_run_salt {D} fuel (q : call D) m :
  respects R (Login c : Traced hobs (ClientState W) _) ->
  (forall b, allowed_body c q b -> ok b) ->
  run_salt c fuel q = Some m -> respects R (m : Traced hobs (ClientState W) _).
Proof.
  intros Hlogin Hok. destruct q; intros [= <-]; simpl in Hok; first
    [ exact Hlogin
    | apply respects_bool_job, Hok | apply respects_dispatch, Hok | apply respects_PollJID, Hok; reflexivity
    | unfold GenAcceptKey; keeps_step; [apply respects_wheel, Hok|repeat keeps_step]
    | unfold ListPendingKeys, ListAcceptedKeys, list_keys, AcceptKey, DeleteKey, set_key_state, MasterLastSeen, KeyStates;
      keeps_step; [apply respects_post, Hok; reflexivity|repeat keeps_step]
    | apply respects_MasterPublicKey, Hok ].
Qed.

End Operations.

(** ** Sessions and requests *)

Section Requests.
Context {W : Type} `{HEnv W} `{GoUnicode} `{GoJSON}.
Variable c : RaaSClient.

Lemma run_salt_session {D} fuel (q : call D) m :
  run_salt c fuel q = Some m -> respects (session_rel c) (m : Traced hobs (ClientState W) _).
Proof.
  intros E. apply (respects_run_salt c (session_rel c) (fun _ => True)) in E;
    [exact E|intros; apply keeps_rawPost|apply keeps_Login|done].
Qed.

(** C28: A login succeeds exactly when the endpoint answers the login page, the jar then holds a
    non-empty anti-forgery cookie, and the credentials, sent once with that cookie's value, are
    answered with a token: it then holds that token. Every failure is one of the causes
    [login_run] lists, and leaves the client the token it had. *)
Theorem login_holds_token (s : ClientState W) : wp (Login c) s (fun r t s' => exists o,
  login_run c t o /\ (r = None <-> is_Some o) /\ cs_jwt s' = default (cs_jwt s) o /\ cs_masterPub s' = cs_masterPub s).
Proof.
  eapply wp_mono; [apply wp_Login|]. intros [e|] t s' [Hm Hr].
  - destruct Hr as [Hr Hj]. exists None. split_and!; try done; by intros [].
  - destruct Hr as (jwt & Hr & Hj). by exists (Some jwt).
Qed.

(** C27: An RPC renews an expired session once. The document is posted, and an answer that is not 401 is
    passed on; a 401 makes the client log in: when that fails the call is an error, and else the
    document is posted again and the answer to it is passed on, whatever it is. An error otherwise
    means that no readable answer came. So the document is posted at most twice, with at most one
    login between, and no other document is. *)
Theorem expired_session_renewed fields (s : ClientState W) :
  wp (rawPost c fields) s (fun r t s' => posted c fields s s' r t
    /\ Forall (eq (Some fields)) (rpc_bodies c t) /\ (length (rpc_bodies c t) <= 2)%nat /\ (logins c t <= 1)%nat).
Proof.
  eapply wp_mono; [apply wp_rawPost|]. intros r t s' Hp. split; [exact Hp|].
  by apply posted_facts in Hp as (? & ? & ? & _).
Qed.

(** The argument [k] of an RPC document. *)
Definition argument (k : string) (b : any) : option any :=
  match b with
  | AMap m => match alookup "kwarg" m with Some (AMap kw) => alookup k kw | _ => None end
  | _ => None
  end.

(** The minion an operation is about. *)
Definition about {D} (q : call D) : option string :=
  match q with
  | CAcceptKey _ m | CDeleteKey _ m | CTestPing _ m | CRefreshPillar _ m | CDispatchHighstate _ m
  | CGenAcceptKey _ m _ | CKeyStates _ m | CPollJID _ m _ => Some m
  | _ => None
  end.

(** The document routes a job to the minions of a compound expression. *)
Definition targets (b : any) (expr : string) : Prop :=
  argument "tgt" b = Some (AMap [("salt", AMap [("tgt", AStr expr); ("tgt_type", AStr "compound")])]).

(** Salt's compound matcher: after [L@], up to the next space, come minion IDs between commas. *)
Class CompoundMatcher (compound : string -> string -> bool) : Prop :=
  compound_list l m : no_byte " " l = true -> compound ("L@" +:+ l) m = true <-> m ∈ Split "," l.

(** An ID that the matcher takes for one ID. *)
Definition plain_id (m : string) : Prop := no_byte " " m = true /\ no_byte "," m = true.

Lemma allowed_target `{!CompoundMatcher compound} {D} (q : call D) m b expr :
  allowed_body c q b -> about q = Some m -> plain_id m -> targets b expr -> forall m', compound expr m' = true <-> m' = m.
Proof.
  intros Hb Hq [Hs Hc] Ht m'. enough (expr = "L@" +:+ m) as ->.
  { rewrite compound_list by done. rewrite Split_no_sep by done. apply list_elem_of_singleton. }
  unfold targets in Ht. revert Hb Hq. destruct q; simpl; try done;
    first [intros -> | inversion 1; subst]; intros [= <-]; cbn in Ht; by simplify_eq.
Qed.

(** The documents a trace posts all satisfy [P]. *)
Definition posts_only (P : any -> Prop) (s : ClientState W) (t : list hobs) (s' : ClientState W) : Prop :=
  Forall (fun b => exists doc, b = Some doc /\ P doc) (rpc_bodies c t).

#[local] Instance posts_only_composes P : Composes (posts_only P).
Proof.
  constructor; unfold posts_only; [constructor|intros; rewrite rpc_bodies_app; by apply Forall_app| |constructor].
  intros s0 [] r w' Hq _; done || constructor.
Qed.

Lemma run_salt_posts {D} fuel (q : call D) m :
  run_salt c fuel q = Some m -> respects (posts_only (allowed_body c q)) (m : Traced hobs (ClientState W) _).
Proof.
  intros E. refine (respects_run_salt c (posts_only (allowed_body c q)) (allowed_body c q) _ fuel q m _ (fun b Hb => Hb) E).
  - intros fields Hok s0. eapply wp_mono; [apply wp_rawPost|]. intros r t s' (Hf & _)%posted_facts. unfold posts_only.
    eapply Forall_impl; [exact Hf|]. intros b <-. by exists fields.
  - intros s0. eapply wp_mono; [apply wp_Login|]. intros r t s' [Hb _]%logged_in_requests. unfold posts_only. rewrite Hb. constructor.
Qed.

(** C25: An operation only posts the documents it stands for, those of [allowed_body]: a key is accepted
    or deleted on the client's master and for the operation's minion alone, key states and job
    results are asked for with its own arguments, a job runs its own function without arguments, and
    a wheel function runs on the client's master with its own arguments. The target of a job is a
    list expression that, for an ID without commas and spaces, names the operation's minion and no
    other (an ID with a comma is a finding). *)
Theorem requests_confined (compound : string -> string -> bool) (Hcompound : CompoundMatcher compound)
    {D} fuel (q : call D) (s : ClientState W) :
  match run_salt c fuel q with
  | Some op => wp op s (fun _ t _ => Forall (fun b => exists doc, b = Some doc /\ allowed_body c q doc
      /\ forall m expr, about q = Some m -> plain_id m -> targets doc expr -> forall m', compound expr m' = true <-> m' = m)
      (rpc_bodies c t))
  | None => True
  end.
Proof.
  destruct (run_salt c fuel q) as [op|] eqn:E; [|done].
  eapply wp_mono; [exact (run_salt_posts fuel q op E s)|]. intros r t s' Hf. eapply Forall_impl; [exact Hf|].
  intros b (doc & -> & Hd). exists doc. split_and!; [done..|]. intros m expr. by apply allowed_target.
Qed.

End Requests.

(** ** Results *)

(** An error the client made up itself. *)
Definition worded (e : error) : Prop := exists m, e = EText m.

Definition worded_res {A} (r : res A) : Prop := match r with Ok _ => True | Err e => worded e end.

#[local] Hint Extern 0 (worded _) => (eexists; reflexivity) : core.
#[local] Hint Extern 0 (worded_res _) => (simpl; first [exact I | eexists; reflexivity]) : core.

Lemma worded_fuel : ~ worded out_of_fuel.
Proof. by intros [m Hm]. Qed.

Section Results.
Context {W : Type} `{HEnv W} `{GoUnicode} `{GoJSON}.
Variable c : RaaSClient.

Lemma wp_post_worded what args fields (s : ClientState W) :
  wp (post c what args fields) s (fun r t s' => worded_res r /\ cs_masterPub s' = cs_masterPub s
    /\ match r with Ok body => replied c fields body t | Err _ => True end).
Proof.
  eapply wp_mono; [apply wp_and; [apply wp_post|]|].
  - unfold post. apply wp_bind. eapply wp_mono; [apply wp_rawPost|]. intros [[body status] err] t s' _.
    instantiate (1 := fun r _ _ => worded_res r). destruct err as [e|]; [by apply wp_ret|].
    by destruct (negb (status_ok status)); apply wp_ret.
  - intros r t s' [(_ & Hm & Hr) Hw]. by split_and!.
Qed.

(** A body that is no document has no API error: a key change reports success on it. *)
Lemma unreadable_answer_succeeds body : json_decode body = None -> checkBodyError body = None.
Proof. unfold checkBodyError. by intros ->. Qed.

Lemma routed_id_worded what empty arg body : worded_res (routed_id what empty arg body).
Proof. unfold routed_id. repeat case_match; eauto. Qed.

(** What an answer to a job call says: the ID, and no API error. *)
Definition gives_id (body jid : string) : Prop :=
  jid <> "" /\ json_decode body ≫= decode_routed = Some {| rt_Ret := jid; rt_Error := None |}.

Lemma routed_id_gives what empty arg body jid : routed_id what empty arg body = Ok jid -> gives_id body jid.
Proof.
  unfold routed_id, gives_id. destruct (_ ≫= decode_routed) as [[ret [em|]]|]; [| |done]; simpl.
  { destruct (_ ≫= as_str); [destruct (_ <>s? "")|]; done. }
  destruct (String.eqb_spec ret ""); [done|]. by intros [= <-].
Qed.

(** A dispatched job: a saved job is routed to the minion, and the reply gives the ID. *)
Definition routed_to (m jid : string) (t : list hobs) : Prop :=
  exists uuid body, replied c (asks "cmd" "route_cmd" [("job_uuid", AStr uuid);
      ("tgt", AMap [("salt", AMap [("tgt", AStr ("L@" +:+ m)); ("tgt_type", AStr "compound")])])]) body t
    /\ gives_id body jid.

Lemma replied_app fields body t t' : replied c fields body t' -> replied c fields body (t ++ t').
Proof. intros (resp & raw & Ha & ?). exists resp, raw. split; [by apply answered_app|done]. Qed.

Lemma wp_dispatch m f (s : ClientState W) :
  wp (dispatch c m f []) s (fun r t _ => worded_res r /\ forall jid, r = Ok jid -> routed_to m jid t).
Proof.
  unfold dispatch, saveJob, routeCmd. apply wp_bind, wp_bind. eapply wp_mono; [apply wp_post_worded|].
  intros [body|e] t s' (Hw & _); cycle 1; [by do 2 apply wp_ret|].
  apply wp_ret. destruct (routed_id "save_job" _ _ _) as [uuid|e] eqn:Eu; cycle 1.
  { apply wp_ret. split; [|done]. pose proof (routed_id_worded "save_job" "job UUID" f body) as Hr. by rewrite Eu in Hr. }
  apply wp_bind. eapply wp_mono; [apply wp_post_worded|].
  intros [body'|e] t' s'' (Hw' & _ & Hrep); apply wp_ret; [|done].
  split; [apply routed_id_worded|]. intros jid Hj%routed_id_gives.
  exists uuid, body'. split; [|done]. rewrite !app_nil_r. by apply replied_app.
Qed.

Lemma job_result_worded m jid body : worded_res (job_result m jid body).
Proof.
  unfold job_result, body_error. repeat case_match; simplify_eq/=; eauto.
Qed.

(** The document of an answer to a poll: an object without an API error, whose [ret] holds the
    results by minion. *)
Definition job_results (body : string) (ret : list (string * any)) : Prop :=
  exists raw, json_decode body ≫= into_map = Some raw /\ alookup "error" raw ∈ [None; Some ANull]
    /\ alookup "ret" raw = Some (AMap ret).

(** The result of the minion [m] in it. *)
Definition minion_entry (m body : string) (entry : list (string * any)) : Prop :=
  exists ret, job_results body ret /\ alookup m ret = Some (AMap entry).

(** The integer a JSON number stands for, when it is one. *)
Definition number_is (f : spec_float) (z : Z) : Prop :=
  match f with
  | S754_zero _ => z = 0
  | S754_finite sign m e => exists k, Z.pos m * 2 ^ Z.max 0 e = k * 2 ^ Z.max 0 (- e) /\ z = if sign then - k else k
  | _ => False
  end.

(** The fields of an entry as the client reports them. *)
Definition reports (entry : list (string * any)) (r : JIDResult) : Prop :=
  jr_Return r = default ANull (alookup "return" entry)
  /\ (jr_Success r = true <-> alookup "success" entry = Some (ABool true))
  /\ (forall f, alookup "fun" entry = Some (AStr f) -> jr_Fun r = f)
  /\ (forall f z, alookup "retcode" entry = Some (ANum f) -> number_is f z -> int64_min <= z <= int64_max ->
        jr_Retcode r = z)
  /\ ((forall f, alookup "retcode" entry <> Some (ANum f)) -> jr_Retcode r = 0).

Lemma body_error_none prefix args m : body_error prefix args m = None -> alookup "error" m ∈ [None; Some ANull].
Proof.
  unfold body_error. destruct (alookup "error" m) as [[]|]; try (intros _; set_solver);
    repeat case_match; done.
Qed.

Lemma int_of_number f z : number_is f z -> int64_min <= z <= int64_max -> int_of_float f = z.
Proof.
  intros Hf Hz. assert (forall z', trunc_float f = z' -> z' = z -> (let z := trunc_float f in
    if in_int64 z then z else int64_min) = z) as Hin.
  { intros z' -> ->. cbv zeta. unfold in_int64.
    destruct (Z.leb_spec int64_min z), (Z.leb_spec z int64_max); simpl; lia. }
  destruct f as [b| | |sign m e]; simpl in Hf; [by subst|done|done|]. destruct Hf as (k & Hk & ->).
  apply (Hin _ eq_refl). unfold trunc_float. cbv zeta. enough ((if 0 <=? e then Z.pos m * 2 ^ e else Z.pos m / 2 ^ (- e)) = k) as ->.
  { done. }
  destruct (Z.leb_spec 0 e).
  - rewrite Z.max_r, Z.max_l in Hk by lia. rewrite Z.pow_0_r in Hk. lia.
  - rewrite Z.max_l, Z.max_r in Hk by lia. rewrite Z.pow_0_r, Z.mul_1_r in Hk. rewrite Hk. apply Z.div_mul.
    pose proof (Z.pow_pos_nonneg 2 (- e)). lia.
Qed.

Lemma job_result_reports m jid body r :
  job_result m jid body = Ok (Some r) ->
  jr_MinionID r = m /\ jr_JID r = jid /\ exists entry, minion_entry m body entry /\ reports entry r.
Proof.
  unfold job_result. destruct (json_decode body ≫= into_map) as [raw|] eqn:Ej; [|done].
  destruct (body_error _ _ _) eqn:Ee; [done|]. apply body_error_none in Ee.
  destruct (alookup "ret" raw) as [[| | | | |ret]|] eqn:Er; try done. simpl.
  destruct (alookup m ret) as [[| | | | |entry]|] eqn:Em; try done. simpl. intros [= <-]. split_and!; [done..|].
  exists entry. split; [by exists ret; split; [exists raw|]|]. unfold reports. simpl. split_and!; [done|..].
  - destruct (alookup "success" entry) as [[]|]; simpl; naive_solver.
  - intros f Hf. by rewrite Hf.
  - intros f z Hf. rewrite Hf. apply int_of_number.
  - intros Hf. destruct (alookup "retcode" entry) as [[]|]; try done. by destruct (Hf _ eq_refl).
Qed.

(** No result of the minion yet: the document names none. *)
Lemma job_result_absent m jid body : job_result m jid body = Ok None -> forall entry, ~ minion_entry m body entry.
Proof.
  intros Hr entry (ret & (raw & Hj & He & Ht) & Hm). revert Hr. unfold job_result. rewrite Hj. simpl.
  destruct (body_error _ _ _); [done|]. by rewrite Ht; simpl; rewrite Hm.
Qed.

(** What a poll returns is what the last reply says. *)
Definition polled (m jid : string) (o : option JIDResult) (t : list hobs) : Prop :=
  exists body, replied c (asks "ret" "get_jid" [("jid", AStr jid)]) body t
    /\ match o with
       | Some r => jr_MinionID r = m /\ jr_JID r = jid /\ exists entry, minion_entry m body entry /\ reports entry r
       | None => forall entry, ~ minion_entry m body entry
       end.

Lemma wp_PollJID m jid (s : ClientState W) :
  wp (PollJID c m jid) s (fun r t _ => worded_res r /\ forall o, r = Ok o -> polled m jid o t).
Proof.
  unfold PollJID. apply wp_bind. eapply wp_mono; [apply wp_post_worded|].
  intros [body|e] t s' (Hw & _ & Hrep); apply wp_ret; [|done].
  split; [apply job_result_worded|]. intros o Ho. exists body. rewrite app_nil_r. split; [done|].
  destruct o as [r|]; [by apply job_result_reports in Ho|by eapply job_result_absent].
Qed.

(** The boolean an entry returns: an absent or null return counts as false. *)
Definition entry_returns (entry : list (string * any)) (b : bool) : Prop :=
  alookup "return" entry = Some (ABool b) \/ alookup "return" entry ∈ [None; Some ANull] /\ b = false.

(** The minion's entry in the last reply holds the boolean. *)
Definition returned (m jid : string) (b : bool) (t : list hobs) : Prop :=
  exists body entry, replied c (asks "ret" "get_jid" [("jid", AStr jid)]) body t
    /\ minion_entry m body entry /\ entry_returns entry b.

Lemma wp_waitBoolResult fuel m jid f (s : ClientState W) :
  wp (waitBoolResult c fuel m jid f) s (fun r t _ => forall b, r = Ok b -> returned m jid b t).
Proof.
  revert s. induction fuel as [|fuel IH]; intros s; cbn [waitBoolResult]; [by apply wp_ret|].
  apply wp_bind. eapply wp_mono; [apply wp_PollJID|]. intros [[result|]|e] t s' [_ Hr]; [| |by apply wp_ret].
  - destruct (BoolReturn result) as [b []] eqn:Eb; apply wp_ret; [|done]. rewrite app_nil_r. intros b' [= <-].
    destruct (Hr _ eq_refl) as (body & Hrep & _ & _ & entry & He & Hret & _). exists body, entry. split_and!; [done..|].
    unfold BoolReturn in Eb. rewrite Hret in Eb. unfold entry_returns.
    destruct (alookup "return" entry) as [[]|]; simpl in Eb; simplify_eq; first [by left|right; set_solver].
  - apply wp_bind; wp_hcall. intros [e|] w' _; [by apply wp_ret|].
    eapply wp_mono; [apply IH|]. intros r t' s'' Ht b Hb. destruct (Ht b Hb) as (body & entry & Hrep & ?).
    exists body, entry. split; [|done]. by do 2 apply replied_app.
Qed.

(** A boolean job reports what the minion said. *)
Definition answered_by (m : string) (b : bool) (t : list hobs) : Prop :=
  exists jid t1 t2, t = t1 ++ t2 /\ routed_to m jid t1 /\ returned m jid b t2.

Lemma wp_bool_job fuel m f (s : ClientState W) :
  wp (bool_job c fuel m f) s (fun r t _ => forall b, r = Ok b -> answered_by m b t).
Proof.
  unfold bool_job. apply wp_bind. eapply wp_mono; [apply wp_dispatch|]. intros [jid|e] t s' [_ Hd]; [|by apply wp_ret].
  specialize (Hd jid eq_refl).
  eapply wp_mono; [apply wp_waitBoolResult|]. intros r t' s'' Hr b Hb. exists jid, t, t'. split_and!; auto.
Qed.


(** *** Keys and the master *)

(** The key listing of a reply: the non-empty names of its results. *)
Definition lists_keys (body : string) (ids : list string) : Prop :=
  exists raw, json_decode body ≫= into_map = Some raw /\ alookup "error" raw ∈ [None; Some ANull]
    /\ forall m, m ∈ ids <-> m <> "" /\ exists ret results entry,
         alookup "ret" raw = Some (AMap ret) /\ alookup "results" ret = Some (AList results)
         /\ AMap entry ∈ results /\ alookup "minion" entry = Some (AStr m).

Lemma minion_of_Some item m :
  minion_of item = Some m <-> m <> "" /\ exists entry, item = AMap entry /\ alookup "minion" entry = Some (AStr m).
Proof.
  unfold minion_of. split.
  - destruct item as [| | | | |entry]; try done. simpl. destruct (alookup "minion" entry) as [[]|] eqn:E; try done.
    destruct (String.eqb_spec s ""); [done|]. intros [= <-]. eauto.
  - intros (Hm & entry & -> & He). simpl. rewrite He. by destruct (String.eqb_spec m "").
Qed.

Lemma extractMinions_lists body ids : extractMinions body = Ok ids -> lists_keys body ids.
Proof.
  unfold extractMinions. destruct (json_decode body ≫= into_map) as [raw|] eqn:Ej; [|done].
  destruct (body_error _ _ _) eqn:Ee; [done|]. apply body_error_none in Ee. intros Hr. exists raw. split_and!; [done..|].
  destruct (alookup "ret" raw) as [[| | | | |ret]|] eqn:Et; simpl in Hr;
    try (injection Hr as <-; set_solver by naive_solver).
  destruct (alookup "results" ret) as [[| | | |results|]|] eqn:Es; simpl in Hr;
    try (injection Hr as <-; set_solver by naive_solver).
  injection Hr as <-. intros m. rewrite list_elem_of_omap. setoid_rewrite minion_of_Some. split.
  - intros (item & Hi & Hm & entry & -> & He). naive_solver.
  - intros (Hm & ret' & results' & entry & [= <-] & Es' & Hi & He). rewrite Es in Es'. naive_solver.
Qed.

Lemma wp_list_keys what state (s : ClientState W) :
  wp (list_keys c what state) s (fun r t _ => forall ids, r = Ok ids ->
    exists body, replied c (key_list state) body t /\ lists_keys body ids).
Proof.
  unfold list_keys. apply wp_bind. eapply wp_mono; [apply wp_post_worded|].
  intros [body|e] t s' (_ & _ & Hr); apply wp_ret; [|done]. intros ids Hi%extractMinions_lists. exists body.
  by rewrite app_nil_r.
Qed.

(** No API error: the reply is no object, or has none. *)
Definition no_api_error (body : string) : Prop :=
  forall raw, json_decode body ≫= into_map = Some raw -> alookup "error" raw ∈ [None; Some ANull].

Lemma checkBodyError_none body : checkBodyError body = None -> no_api_error body.
Proof. unfold checkBodyError, no_api_error. intros He raw Hr. rewrite Hr in He. by apply body_error_none in He. Qed.

Lemma wp_set_key_state what m fields (s : ClientState W) :
  wp (set_key_state c what m fields) s (fun r t _ => r = None -> exists body, replied c fields body t /\ no_api_error body).
Proof.
  unfold set_key_state. apply wp_bind. eapply wp_mono; [apply wp_post_worded|].
  intros [body|e] t s' (_ & _ & Hr); [|by apply wp_ret]. destruct (checkBodyError body) eqn:Ee; apply wp_ret; [done|].
  intros _. exists body. rewrite app_nil_r. split; [done|by apply checkBodyError_none].
Qed.

(** The key states of the results that name the minion. *)
Definition states_of (m body : string) (states : list string) : Prop :=
  no_api_error body /\ exists results, json_decode body ≫= decode_results decode_keystate = Some results
    /\ forall st, st ∈ states <-> exists l, (m, l) ∈ results /\ st ∈ l.

Lemma wp_KeyStates m (s : ClientState W) :
  wp (KeyStates c m) s (fun r t _ => forall states, r = Ok states ->
    exists body, replied c (asks "minions" "get_minion_key_state" [("minion_id", AStr m)]) body t /\ states_of m body states).
Proof.
  unfold KeyStates. apply wp_bind. eapply wp_mono; [apply wp_post_worded|].
  intros [body|e] t s' (_ & _ & Hr); [|by apply wp_ret]. destruct (checkBodyError body) eqn:Ee; [by apply wp_ret|].
  destruct (_ ≫= decode_results decode_keystate) as [results|] eqn:Ed; apply wp_ret; [|done].
  intros states [= <-]. exists body. rewrite app_nil_r. split; [done|]. split; [by apply checkBodyError_none|].
  exists results. split; [done|]. intros st. rewrite list_elem_of_In, in_concat. setoid_rewrite <- list_elem_of_In. split.
  - intros (l & (p & -> & Hp)%list_elem_of_fmap & Hst). apply list_elem_of_In, List.filter_In in Hp as [Hp Hn].
    apply String.eqb_eq in Hn. exists (snd p). rewrite <- Hn. split; [|done]. apply list_elem_of_In. by destruct p.
  - intros (l & Hl & Hst). exists l. split; [|done]. apply list_elem_of_fmap. exists (m, l). split; [done|].
    apply list_elem_of_In, List.filter_In. split; [by apply list_elem_of_In|apply String.eqb_refl].
Qed.

(** When the client's master was last seen: its first result, or nothing. *)
Definition seen_at (body seen : string) : Prop :=
  no_api_error body /\ exists results, json_decode body ≫= decode_results decode_master = Some results
    /\ ((exists l1 l2, results = l1 ++ (masterID c, seen) :: l2 /\ Forall (fun r => fst r <> masterID c) l1)
        \/ Forall (fun r => fst r <> masterID c) results /\ seen = "").

Lemma last_seen_first results :
  (exists l1 l2, results = l1 ++ (masterID c, last_seen c results) :: l2 /\ Forall (fun r => fst r <> masterID c) l1)
  \/ Forall (fun r => fst r <> masterID c) results /\ last_seen c results = "".
Proof.
  unfold last_seen. induction results as [|[id seen] l IH]; simpl; [right; by split|].
  destruct (String.eqb_spec id (masterID c)) as [->|Hne]; simpl; [left; by exists [], l|].
  destruct IH as [(l1 & l2 & El & Hf)|[Hf Hs]].
  - left. exists ((id, seen) :: l1), l2. split; [by f_equal/=|by constructor].
  - right. split; [by constructor|done].
Qed.

Lemma wp_MasterLastSeen (s : ClientState W) :
  wp (MasterLastSeen c) s (fun r t _ => forall seen, r = Ok seen ->
    exists body, replied c (asks "master" "get_master_presence" []) body t /\ seen_at body seen).
Proof.
  unfold MasterLastSeen. apply wp_bind. eapply wp_mono; [apply wp_post_worded|].
  intros [body|e] t s' (_ & _ & Hr); [|by apply wp_ret]. destruct (checkBodyError body) eqn:Ee; [by apply wp_ret|].
  destruct (_ ≫= decode_results decode_master) as [results|] eqn:Ed; apply wp_ret; [|done].
  intros seen [= <-]. exists body. rewrite app_nil_r. split; [done|]. split; [by apply checkBodyError_none|].
  exists results. split; [done|apply last_seen_first].
Qed.

(** What a wheel job returned: the successful entry of the client's master in the last reply to a poll
    of the job, whose ID the reply to its routing gave. *)
Definition wheel_returned (f : string) (args : list any) (kw : list (string * any)) (ret : option any) (t : list hobs) : Prop :=
  exists jid t1 t2 b1 b2 resp raw, t = t1 ++ t2
    /\ replied c (asks "cmd" "route_cmd"
         [("cmd", AStr "wheel"); ("fun", AStr f); ("masters", AList [AStr (masterID c)]); ("arg", arguments args kw)]) b1 t1
    /\ gives_id b1 jid
    /\ replied c (asks "ret" "get_jid" [("jid", AStr jid)]) b2 t2
    /\ json_decode b2 ≫= decode_jid = Some resp /\ jy_Error resp = None
    /\ alookup (masterID c) (jy_Ret resp) = Some raw /\ decode_wheel raw = Some (ret, true).

Lemma wp_wheel_loop fuel f jid (s : ClientState W) :
  wp (wheel_loop c fuel f jid) s (fun r t _ => forall ret, r = Ok ret -> exists body resp raw,
    replied c (asks "ret" "get_jid" [("jid", AStr jid)]) body t
    /\ json_decode body ≫= decode_jid = Some resp /\ jy_Error resp = None
    /\ alookup (masterID c) (jy_Ret resp) = Some raw /\ decode_wheel raw = Some (ret, true)).
Proof.
  revert s. induction fuel as [|fuel IH]; intros s; cbn [wheel_loop]; [by apply wp_ret|].
  apply wp_bind. eapply wp_mono; [apply wp_rawPost|].
  intros [[body status] [e|]] t s' (_ & _ & _ & _ & Hr)%posted_facts; [by apply wp_ret|].
  destruct (status_ok status) eqn:Es; [simpl negb; cbv iota|by apply wp_ret].
  destruct (Hr eq_refl) as (resp0 & raw0 & Ha & Hst & Hb & Hbody). simpl in Hst, Hbody.
  destruct (wheel_result c f jid body) as [[ret|]|e] eqn:Ew; [| |by apply wp_ret].
  - apply wp_ret. intros ret' [= <-]. rewrite app_nil_r. unfold wheel_result in Ew.
    destruct (_ ≫= decode_jid) as [resp|] eqn:Ej; [|done]. destruct (jy_Error resp) eqn:Ee; [done|].
    destruct (alookup _ _) as [raw|] eqn:Er; [|done]. destruct (decode_wheel raw) as [[ret0 []]|] eqn:Ed; try done.
    injection Ew as <-. exists body, resp, raw. split_and!; [|done..]. exists resp0, raw0. by rewrite <- Hst.
  - apply wp_bind; wp_hcall. intros [e|] w' _; [by apply wp_ret|]. eapply wp_mono; [apply IH|].
    intros r t' s'' Ht ret Hret. destruct (Ht ret Hret) as (b & resp & raw & Hrep & ?). exists b, resp, raw.
    split; [|done]. by do 2 apply replied_app.
Qed.

Lemma wp_wheel fuel f args kw (s : ClientState W) :
  wp (wheel c fuel f args kw) s (fun r t _ => forall ret, r = Ok ret -> wheel_returned f args kw ret t).
Proof.
  unfold wheel. apply wp_bind. eapply wp_mono; [apply wp_post_worded|].
  intros [body|e] t s' (_ & _ & Hr); [|by apply wp_ret].
  destruct (_ ≫= decode_routed) as [[jid err]|] eqn:Ed; [|by apply wp_ret]. simpl.
  destruct err as [em|]; [by rewrite bool_decide_true by done; apply wp_ret|].
  destruct (String.eqb_spec jid ""); [rewrite orb_true_r; by apply wp_ret|]. rewrite bool_decide_false by by intros [].
  eapply wp_mono; [apply wp_wheel_loop|]. intros r t' s'' Hw ret Hret. destruct (Hw ret Hret) as (b & resp & raw & ?).
  exists jid, t, t', body, b, resp, raw. split_and!; try done; naive_solver.
Qed.

End Results.

(** ** The waits end *)

Section Deadline.
Context {W : Type} `{HEnv W} `{GoUnicode} `{GoJSON}.
Variable c : RaaSClient.

(** The deadline of the caller's context: so many waits are left before the context is done. *)
Class Deadline (patience : W -> nat) : Prop := {
  wait_uses d w w' : henv (HWait d) w = (None, w') -> (patience w' < patience w)%nat;
  net_keeps q w r w' : henv q w = (r, w') -> (patience w' <= patience w)%nat;
}.

Context (patience : W -> nat) `{!Deadline patience}.

Definition later (s : ClientState W) (t : list hobs) (s' : ClientState W) : Prop :=
  (patience (cs_world s') <= patience (cs_world s))%nat.

#[local] Instance later_blind : Blind later.
Proof.
  constructor; [constructor| |]; unfold later; simpl; try (intros; lia); intros; by eapply net_keeps.
Qed.

Lemma later_post what args fields : respects later (post c what args fields).
Proof. apply (respects_post c later (fun _ => True)); [|done]. intros. exact (blind_rawPost later c _). Qed.

(** Running a bind whose continuations agree on what came back. *)
Lemma bind_agree {A B} (m : Traced hobs (ClientState W) A) (k k' : A -> Traced hobs (ClientState W) B) s :
  wp m s (fun a _ s1 => k a s1 = k' a s1) -> (m ≫= k) s = (m ≫= k') s.
Proof. unfold wp, mbind, M_bind. destruct (m s) as [[a t] s1]. by intros ->. Qed.

Lemma waitBoolResult_fuel n n' m jid f s :
  (patience (cs_world s) < n)%nat -> (patience (cs_world s) < n')%nat ->
  waitBoolResult c n m jid f s = waitBoolResult c n' m jid f s
  /\ wp (waitBoolResult c n m jid f) s (fun r _ _ => worded_res r).
Proof.
  revert n' s. induction n as [|n IH]; intros [|n'] s Hn Hn'; try lia. cbn [waitBoolResult].
  assert (wp (PollJID c m jid) s (fun r _ s1 => worded_res r /\ later s [] s1)) as Hp.
  { apply wp_and; [eapply wp_mono; [apply wp_PollJID|by intros ? ? ? [? _]]|].
    refine (respects_PollJID c later (fun _ => True) _ m jid I s). intros. exact (blind_rawPost later c _). }
  split.
  - apply bind_agree. eapply wp_mono; [exact Hp|]. intros [[result|]|e] _ s1 [_ Hl]; [done| |done].
    apply bind_agree; wp_hcall. intros [e|] w' E; [done|]. apply wait_uses in E. unfold later in Hl.
    apply IH; simpl; lia.
  - apply wp_bind. eapply wp_mono; [exact Hp|]. intros [[result|]|e] _ s1 [Hw Hl]; [| |by apply wp_ret].
    + destruct (BoolReturn result) as [b []]; by apply wp_ret.
    + apply wp_bind; wp_hcall. intros [e|] w' E; [by apply wp_ret|]. apply wait_uses in E. unfold later in Hl.
      apply (IH (Datatypes.S (patience w'))); simpl; lia.
Qed.

Lemma wheel_result_worded f jid body : worded_res (wheel_result c f jid body).
Proof. unfold wheel_result. repeat case_match; done. Qed.

Lemma wheel_loop_fuel n n' f jid s :
  (patience (cs_world s) < n)%nat -> (patience (cs_world s) < n')%nat ->
  wheel_loop c n f jid s = wheel_loop c n' f jid s
  /\ wp (wheel_loop c n f jid) s (fun r _ _ => worded_res r).
Proof.
  revert n' s. induction n as [|n IH]; intros [|n'] s Hn Hn'; try lia. cbn [wheel_loop].
  pose proof (blind_rawPost later c (rpc "ret" "get_jid" [("jid", AStr jid)]) s) as Hp.
  split.
  - apply bind_agree. eapply wp_mono; [exact Hp|]. intros [[body status] [e|]] t s1 Hl; [done|].
    destruct (negb (status_ok status)); [done|]. destruct (wheel_result c f jid body) as [[ret|]|e]; [done| |done].
    apply bind_agree; wp_hcall. intros [e|] w' E; [done|]. apply wait_uses in E. unfold later in Hl.
    apply IH; simpl; lia.
  - apply wp_bind. eapply wp_mono; [exact Hp|]. intros [[body status] [e|]] t s1 Hl; [by apply wp_ret|].
    destruct (negb (status_ok status)); [by apply wp_ret|]. pose proof (wheel_result_worded f jid body) as Hw.
    destruct (wheel_result c f jid body) as [[ret|]|e]; [by apply wp_ret| |by apply wp_ret].
    apply wp_bind; wp_hcall. intros [e|] w' E; [by apply wp_ret|]. apply wait_uses in E. unfold later in Hl.
    apply (IH (Datatypes.S (patience w'))); simpl; lia.
Qed.

Lemma bool_job_fuel n n' m f s :
  (patience (cs_world s) < n)%nat -> (patience (cs_world s) < n')%nat ->
  bool_job c n m f s = bool_job c n' m f s /\ wp (bool_job c n m f) s (fun r _ _ => worded_res r).
Proof.
  intros Hn Hn'.
  assert (wp (dispatch c m f []) s (fun r _ s1 => worded_res r /\ later s [] s1)) as Hp.
  { apply wp_and; [eapply wp_mono; [apply wp_dispatch|by intros ? ? ? [? _]]|].
    refine (respects_dispatch c later (fun _ => True) _ m f (fun _ _ => I) s). intros. exact (blind_rawPost later c _). }
  unfold bool_job. split.
  - apply bind_agree. eapply wp_mono; [exact Hp|]. intros [jid|e] _ s1 [_ Hl]; [|done]. unfold later in Hl.
    apply waitBoolResult_fuel; lia.
  - apply wp_bind. eapply wp_mono; [exact Hp|]. intros [jid|e] _ s1 [Hw Hl]; [|by apply wp_ret]. unfold later in Hl.
    eapply wp_mono; [apply (waitBoolResult_fuel n n'); lia|]. done.
Qed.

Lemma wheel_fuel n n' f args kw s :
  (patience (cs_world s) < n)%nat -> (patience (cs_world s) < n')%nat ->
  wheel c n f args kw s = wheel c n' f args kw s /\ wp (wheel c n f args kw) s (fun r _ _ => worded_res r).
Proof.
  intros Hn Hn'. unfold wheel.
  match goal with |- (post c ?w ?a ?b ≫= _) s = _ /\ _ =>
    assert (wp (post c w a b) s (fun r _ s1 => worded_res r /\ later s [] s1)) as Hp
      by (apply wp_and; [eapply wp_mono; [apply wp_post_worded|by intros ? ? ? [? _]]|exact (later_post w a b s)]) end.
  split.
  - apply bind_agree. eapply wp_mono; [exact Hp|]. intros [body|e] _ s1 [_ Hl]; [|done]. unfold later in Hl.
    destruct (_ ≫= decode_routed) as [rt|]; [|done]. destruct (_ || _); [done|]. apply wheel_loop_fuel; lia.
  - apply wp_bind. eapply wp_mono; [exact Hp|]. intros [body|e] _ s1 [Hw Hl]; [|by apply wp_ret]. unfold later in Hl.
    destruct (_ ≫= decode_routed) as [rt|]; [|by apply wp_ret]. destruct (_ || _); [by apply wp_ret|].
    eapply wp_mono; [apply (wheel_loop_fuel n n'); lia|]. done.
Qed.

(** C8: The waits end: a caller with a deadline gets an answer. Once the fuel exceeds the waits the
    deadline leaves, more fuel changes nothing about any operation, and neither polling loop runs
    out of it. *)
Theorem waits_end {D} fuel fuel' (q : call D) s
    (Hfuel : (patience (cs_world s) < fuel)%nat) (Hfuel' : (patience (cs_world s) < fuel')%nat) :
  match run_salt c fuel q, run_salt c fuel' q with
  | Some m, Some m' => m s = m' s
  | None, None => True
  | _, _ => False
  end
  /\ (forall m f, wp (bool_job c fuel m f) s (fun r _ _ => r <> Err out_of_fuel))
  /\ (forall f args kw, wp (wheel c fuel f args kw) s (fun r _ _ => r <> Err out_of_fuel)).
Proof.
  assert (forall A (r : res A), worded_res r -> r <> Err out_of_fuel) as Hne.
  { intros A r Hr ->. by apply worded_fuel. }
  split_and!.
  - destruct q; simpl; try done; try (by apply bool_job_fuel).
    + unfold GenAcceptKey. unfold mbind, M_bind.
      by rewrite (proj1 (wheel_fuel fuel fuel' "key.gen_accept" [AStr minionID] [("force", ABool force)] s Hfuel Hfuel')).
    + unfold MasterPublicKey. apply bind_agree, wp_gets. destruct (cs_masterPub s <>s? ""); [done|].
      unfold mbind, M_bind. by rewrite (proj1 (wheel_fuel fuel fuel' "key.master_key_str" [] [] s Hfuel Hfuel')).
  - intros m f. eapply wp_mono; [apply (bool_job_fuel fuel fuel'); done|]. intros r t s' Hw. by apply Hne.
  - intros f args kw. eapply wp_mono; [apply (wheel_fuel fuel fuel'); done|]. intros r t s' Hw. by apply Hne.
Qed.

End Deadline.


(** ** Witness: a minion that never answers *)

Section Witness.
#[local] Existing Instance ascii_only.

(** The world is the number of waits left; every request is answered, and every document says [ret]. *)
#[local] Instance slow_network : HEnv nat := fun q w =>
  match q as q0 return hresp q0 * nat with
  | HNewRequest _ _ => (None, w)
  | HDo _ => (Ok {| rs_status := 200; rs_body := Ok "" |}, w)
  | HCookies _ => ([("_xsrf", "token")], w)
  | HWait _ => match w with O => (Some (EText (Msg "context deadline exceeded" [])), O) | S w' => (None, w') end
  end.

#[local] Instance slow_json : GoJSON := {| json_decode _ := Some (AMap [("ret", AStr "20260101000000000001")]) |}.

#[local] Instance slow_deadline : Deadline (fun w : nat => w).
Proof.
  constructor.
  - intros d [|w] w'; cbn; intros [= <-]. lia.
  - intros [] [|w] r w'; cbn; intros [= _ <-]; lia.
Qed.

Definition slow_client : RaaSClient := NewRaaSClient "https://raas.example/" "u" "p" "master-1".

(** C8: at a ping with two waits left: the job is dispatched, polled three times and given up. *)
Lemma waits_end_witness :
  let s := {| cs_world := 2%nat; cs_jwt := "jwt"; cs_masterPub := "" |} in
  TestPing slow_client 3 "vm-a" s = TestPing slow_client 7 "vm-a" s
  /\ fst (fst (TestPing slow_client 3 "vm-a" s))
     = Err (Errorf "%s: timed out waiting for result (jid=%s): %w"
              [FStr "test.ping"; FStr "20260101000000000001"; FWrap (EText (Msg "context deadline exceeded" []))]).
Proof.
  intros s. split; [|by vm_compute].
  exact (proj1 (waits_end slow_client (fun w => w) 3 7 (CTestPing tt "vm-a") s ltac:(simpl; lia) ltac:(simpl; lia))).
Defined.

(** The list matcher. *)
Definition list_matcher (expr m : string) : bool :=
  HasPrefix expr "L@" && bool_decide (m ∈ Split "," (String.substring 2 (String.length expr - 2) expr)).

Lemma substring_all s : String.substring 0 (String.length s) s = s.
Proof. induction s as [|a s IH]; [done|]. simpl. by rewrite IH. Qed.

#[local] Instance list_matcher_law : CompoundMatcher list_matcher.
Proof.
  intros l m _. unfold list_matcher. rewrite HasPrefix_app. simpl. rewrite Nat.sub_0_r, substring_all.
  apply bool_decide_eq_true.
Qed.

(** C25 at the same ping: five documents are posted, and the routed one targets [vm-a] alone. *)
Lemma requests_confined_witness :
  let s := {| cs_world := 2%nat; cs_jwt := "jwt"; cs_masterPub := "" |} in
  plain_id "vm-a" /\ wp (TestPing slow_client 3 "vm-a") s (fun _ t _ =>
    length (rpc_bodies slow_client t) = 5%nat
    /\ Forall (fun b => exists doc, b = Some doc /\ allowed_body slow_client (CTestPing tt "vm-a") doc
         /\ forall expr, targets doc expr -> forall m', list_matcher expr m' = true <-> m' = "vm-a") (rpc_bodies slow_client t)).
Proof.
  intros s. split; [by split|]. apply wp_and; [by vm_compute|].
  pose proof (requests_confined slow_client list_matcher list_matcher_law 3 (CTestPing tt "vm-a") s) as Hc.
  eapply wp_mono; [exact Hc|]. intros r t s' Hf. eapply Forall_impl; [exact Hf|].
  intros b (doc & -> & Hd & Ht). exists doc. split_and!; [done..|]. intros expr. by apply Ht.
Defined.

End Witness.
