(* ===== verification/RaasSecrecy.v ===== *)
(** * The session and the credentials of a RaaS client

    What a client does over its whole life, whatever operations it runs.
    Every request fits the session: the endpoint, the token, the login page,
    the login.  And the credentials are in the login documents only: two
    clients that differ in user name and password do the same, request by
    request, but for the bodies of their logins. *)

From S2P Require Import Prelude GoStrings GoTime Api Effects RaasClient RaasSession RaasPromises.

Local Open Scope Z_scope.

(** ** The life of a client *)

(** One operation of the interface after the other, with what each returned. *)
Fixpoint life {W} `{HEnv W} `{GoUnicode} `{GoJSON} {D} (c : RaaSClient) (fuel : nat) (qs : list (call D))
    : Traced hobs (ClientState W) (list (obs D)) :=
  match qs with
  | [] => mret []
  | q :: qs' => match run_salt c fuel q with
                | Some m => r ← m; rs ← life c fuel qs'; mret (Obs q r :: rs)
                | None => life c fuel qs'
                end
  end.

(** The document of a login. *)
Definition credentials (user pass : string) : any :=
  AMap [("username", AStr user); ("password", AStr pass); ("config_name", AStr "internal"); ("token_type", AStr "jwt")].

(** The request [req], with the credentials of [user] when it is a login to [url]. *)
Definition as_user (url user pass : string) (req : request) : request :=
  if (rq_method req =s? "POST") && (rq_url req =s? url +:+ "/account/login")
  then {| rq_method := rq_method req; rq_url := rq_url req; rq_headers := rq_headers req;
          rq_body := Some (credentials user pass) |}
  else req.

Definition obs_as_user (url user pass : string) (o : hobs) : hobs :=
  match o with
  | existT q r => match q as q0 return hresp q0 -> hobs with
                  | HDo req => fun r => HObs (HDo (as_user url user pass req)) r
                  | q0 => fun r => HObs q0 r
                  end r
  end.

(** A network that answers the logins of [user] the way [net] answers those of the client [c]. *)
Definition seen_as {W} (net : HEnv W) (c : RaaSClient) : HEnv W := fun q w =>
  match q as q0 return hresp q0 * W with
  | HDo req => net (HDo (as_user (baseURL c) (username c) (password c) req)) w
  | q0 => net q0 w
  end.

(** The client [c] with other credentials. *)
Definition with_credentials (c : RaaSClient) (user pass : string) : RaaSClient :=
  {| baseURL := baseURL c; username := user; password := pass; masterID := masterID c |}.

Section Credentials.
Context {W : Type} (net : HEnv W) `{GoUnicode} `{GoJSON}.
Variable c : RaaSClient.
Variables user pass : string.

#[local] Abbreviation other := (with_credentials c user pass).
#[local] Abbreviation other_net := (seen_as net c).

(** The second run does what the first does, with the other credentials in its logins. *)
#[local] Abbreviation agrees := (Effects.agrees (S := ClientState W) (obs_as_user (baseURL c) user pass)).

Lemma agrees_hperform q : match q with HDo _ => False | _ => True end ->
  agrees (hperform (H := net) q) (hperform (H := other_net) q).
Proof.
  intros Hq s. unfold hperform, henv, seen_as. destruct q; try done; by destruct (net _ _) as [r w'].
Qed.

Lemma agrees_do req req' :
  as_user (baseURL c) (username c) (password c) req' = req -> as_user (baseURL c) user pass req = req' ->
  agrees (hperform (H := net) (HDo req)) (hperform (H := other_net) (HDo req')).
Proof.
  intros Hr Hr' s. unfold hperform, henv, seen_as. rewrite Hr. destruct (net _ _) as [r w'].
  unfold fmap, list_fmap, obs_as_user, HObs. by rewrite Hr'.
Qed.

(** Requests that are no login are the same. *)
Lemma agrees_same req :
  (rq_method req =s? "POST") && (rq_url req =s? baseURL c +:+ "/account/login") = false ->
  agrees (hperform (H := net) (HDo req)) (hperform (H := other_net) (HDo req)).
Proof. intros Hr. apply agrees_do; unfold as_user; by rewrite Hr. Qed.

Ltac agrees_step :=
  match goal with
  | |- agrees (mret _) _ => apply agrees_ret
  | |- agrees (_ ≫= _) _ => apply agrees_bind; [|intros ?]
  | |- agrees (gets _) _ => apply agrees_gets
  | |- agrees (modify _) _ => apply agrees_modify
  | |- agrees (match ?x with _ => _ end) _ => destruct x
  | |- agrees (hperform ?q) _ => refine (agrees_hperform q I)
  end.

Lemma agrees_doPost fields : agrees (doPost (H := net) c fields) (doPost (H := other_net) other fields).
Proof.
  unfold doPost, xsrfToken, rpc_request. cbn [baseURL with_credentials].
  repeat first [agrees_step | apply agrees_same; cbn; rewrite (String.eqb_sym _ (baseURL c +:+ "/account/login")); apply url_ne].
Qed.

Lemma agrees_Login : agrees (Login (H := net) c) (Login (H := other_net) other).
Proof.
  unfold Login, fetchCookies, xsrfToken. cbn [baseURL with_credentials].
  repeat first [agrees_step | apply agrees_same; reflexivity | apply agrees_do];
    unfold as_user, login_request; cbn [rq_method rq_url baseURL with_credentials];
    by rewrite (String.eqb_refl (baseURL c +:+ "/account/login")).
Qed.

Lemma agrees_rawPost fields : agrees (rawPost (H := net) c fields) (rawPost (H := other_net) other fields).
Proof.
  unfold rawPost. repeat first [apply agrees_doPost | apply agrees_Login | agrees_step].
Qed.

Ltac agrees_post := repeat first [apply agrees_rawPost | agrees_step].

Lemma agrees_post what args fields :
  agrees (post (H := net) c what args fields) (post (H := other_net) other what args fields).
Proof. unfold post. agrees_post. Qed.

Lemma agrees_dispatch m f kw : agrees (dispatch (H := net) c m f kw) (dispatch (H := other_net) other m f kw).
Proof. unfold dispatch, saveJob, routeCmd. repeat first [apply agrees_post | agrees_step]. Qed.

Lemma agrees_PollJID m jid : agrees (PollJID (H := net) c m jid) (PollJID (H := other_net) other m jid).
Proof. unfold PollJID. repeat first [apply agrees_post | agrees_step]. Qed.

Lemma agrees_waitBoolResult fuel m jid f :
  agrees (waitBoolResult (H := net) c fuel m jid f) (waitBoolResult (H := other_net) other fuel m jid f).
Proof.
  induction fuel as [|fuel IH]; cbn [waitBoolResult]; repeat first [exact IH | apply agrees_PollJID | agrees_step].
Qed.

Lemma agrees_wheel_loop fuel f jid :
  agrees (wheel_loop (H := net) c fuel f jid) (wheel_loop (H := other_net) other fuel f jid).
Proof.
  induction fuel as [|fuel IH]; cbn [wheel_loop]; [agrees_step|]. change (wheel_result other) with (wheel_result c).
  repeat first [exact IH | apply agrees_rawPost | agrees_step].
Qed.

Lemma agrees_wheel fuel f args kw :
  agrees (wheel (H := net) c fuel f args kw) (wheel (H := other_net) other fuel f args kw).
Proof.
  unfold wheel. cbn [masterID with_credentials]. repeat first [apply agrees_post | apply agrees_wheel_loop | agrees_step].
Qed.

Lemma agrees_run_salt {D} fuel (q : call D) :
  match run_salt (H := net) c fuel q, run_salt (H := other_net) other fuel q with
  | Some m, Some m' => agrees m m'
  | None, None => True
  | _, _ => False
  end.
Proof.
  destruct q; simpl; try done;
    unfold ListPendingKeys, ListAcceptedKeys, list_keys, AcceptKey, DeleteKey, set_key_state, TestPing, RefreshPillar,
      bool_job, DispatchHighstate, MasterLastSeen, KeyStates, GenAcceptKey, MasterPublicKey;
    cbn [masterID with_credentials]; change (last_seen other) with (last_seen c);
    repeat first [apply agrees_Login | apply agrees_post | apply agrees_dispatch | apply agrees_PollJID
                 | apply agrees_waitBoolResult | apply agrees_wheel | agrees_step].
Qed.

Lemma agrees_life {D} fuel (qs : list (call D)) :
  agrees (life (H := net) c fuel qs) (life (H := other_net) other fuel qs).
Proof.
  induction qs as [|q qs IH]; cbn [life]; [agrees_step|]. pose proof (agrees_run_salt fuel q) as Hq.
  destruct (run_salt (H := net) c fuel q) as [m|], (run_salt (H := other_net) other fuel q) as [m'|]; try done.
  repeat first [exact Hq | exact IH | agrees_step].
Qed.

Lemma life_session {D} fuel (qs : list (call D)) : respects (session_rel c) (life (H := net) c fuel qs).
Proof.
  induction qs as [|q qs IH]; cbn [life]; [keeps_step|].
  destruct (run_salt c fuel q) as [m|] eqn:E; [|exact IH]. keeps_step; [by eapply run_salt_session|].
  keeps_step; [exact IH|keeps_step].
Qed.


End Credentials.
