(* ===== verification/RaasSystem.v ===== *)
(** * The controllers on the RaaS client

    The two halves put together: the API server answers the Kubernetes
    calls, and every call of the [salt.Client] interface runs the client of
    [RaasClient] on the network.  A handle is the index of a client, in the
    order [NewRaaSClient] made them.  What the controllers' theorems ask of
    Salt is what this composition gives, so they hold of the whole program
    under hypotheses on the API server alone. *)

From S2P Require Import Prelude GoStrings GoTime Api Effects Server IntentHash VMController.
From S2P Require Import Cluster VMInvariant RaasClient RaasSession RaasPromises.

Local Open Scope Z_scope.

(** ** The composition *)

(** A client with the fields its mutex guards. *)
Record conn := {
  cn_client : RaaSClient;
  cn_skipTLS : bool;
  cn_jwt : string;
  cn_masterPub : string;
}.

#[export] Instance conn_inhabited : Inhabited conn :=
  populate {| cn_client := {| baseURL := ""; username := ""; password := ""; masterID := "" |};
              cn_skipTLS := false; cn_jwt := ""; cn_masterPub := "" |}.

(** [W] is the state of the API server, [N] of the network; the clients are in order of creation. *)
Record Sys (W N : Type) := {
  sy_cluster : W;
  sy_net : N;
  sy_conns : list conn;
  sy_sent : list (RaaSClient * hobs);     (* what each client did on the network *)
}.
Arguments Build_Sys {W N}.
Arguments sy_cluster {W N}.
Arguments sy_net {W N}.
Arguments sy_conns {W N}.
Arguments sy_sent {W N}.

Definition handle {C} (q : call C) : option C :=
  match q with
  | CLogin c | CListPendingKeys c | CListAcceptedKeys c | CAcceptKey c _ | CDeleteKey c _ | CTestPing c _
  | CRefreshPillar c _ | CDispatchHighstate c _ | CPollJID c _ _ | CMasterLastSeen c | CKeyStates c _
  | CGenAcceptKey c _ _ | CMasterPublicKey c => Some c
  | _ => None
  end.

Section System.
Context {W N : Type} `{GoUnicode} `{GoJSON}.
(* The API server, and the network with the cookie jar of each client and its TLS mode. *)
Context (cluster : Env W nat) (net : nat -> bool -> HEnv N) (fuel : nat).

Abbreviation System := (Sys W N).

Definition client_state (cn : conn) (s : System) : ClientState N :=
  {| cs_world := sy_net s; cs_jwt := cn_jwt cn; cs_masterPub := cn_masterPub cn |}.

(** The client of handle [h] after it did [t] and ended in [cs]. *)
Definition client_done (h : nat) (cn : conn) (t : list hobs) (cs : ClientState N) (s : System) : System :=
  {| sy_cluster := sy_cluster s; sy_net := cs_world cs;
     sy_conns := <[h := {| cn_client := cn_client cn; cn_skipTLS := cn_skipTLS cn;
                           cn_jwt := cs_jwt cs; cn_masterPub := cs_masterPub cs |}]> (sy_conns s);
     sy_sent := sy_sent s ++ (pair (cn_client cn) <$> t) |}.

Definition on_cluster (q : call nat) (s : System) : resp q * System :=
  let '(r, w') := cluster q (sy_cluster s) in
  (r, {| sy_cluster := w'; sy_net := sy_net s; sy_conns := sy_conns s; sy_sent := sy_sent s |}).

Definition on_client (h : nat) (q : call nat) (s : System) : resp q * System :=
  let cn := sy_conns s !!! h in
  match run_salt (H := net h (cn_skipTLS cn)) (cn_client cn) fuel q with
  | Some m => let '(r, t, cs) := m (client_state cn s) in (r, client_done h cn t cs s)
  | None => on_cluster q s
  end.

(** [NewRaaSClient]: the next handle. *)
Definition new_conn (url user pass master : string) (skipTLS : bool) (s : System) : nat * System :=
  (length (sy_conns s),
   {| sy_cluster := sy_cluster s; sy_net := sy_net s;
      sy_conns := sy_conns s ++ [{| cn_client := NewRaaSClient url user pass master;
                                    cn_skipTLS := skipTLS; cn_jwt := ""; cn_masterPub := "" |}];
      sy_sent := sy_sent s |}).

Definition system : Env System nat := fun q s =>
  match q as q0 return resp q0 * System with
  | CNewClient url user pass master skipTLS => new_conn url user pass master skipTLS s
  | q0 => match handle q0 with Some h => on_client h q0 s | None => on_cluster q0 s end
  end.

End System.

(** ** What each call of the client promises *)

Section Calls.
Context {N : Type} `{HEnv N} `{GoUnicode} `{GoJSON}.
Variable c : RaaSClient.

(** What a result means, in terms of what the client saw on the network during the call. *)
Definition promised {D} (q : call D) (t : list hobs) : resp q -> Prop :=
  match q as q0 return resp q0 -> Prop with
  | CLogin _ => fun r => r = None -> exists jwt, login_run c t (Some jwt)
  | CListPendingKeys _ => fun r => forall ids, r = Ok ids ->
      exists body, replied c (key_list "pending") body t /\ lists_keys body ids
  | CListAcceptedKeys _ => fun r => forall ids, r = Ok ids ->
      exists body, replied c (key_list "accepted") body t /\ lists_keys body ids
  | CAcceptKey _ _ | CDeleteKey _ _ => fun r => r = None ->
      exists doc body, allowed_body c q doc /\ replied c doc body t /\ no_api_error body
  | CTestPing _ m | CRefreshPillar _ m => fun r => forall b, r = Ok b -> answered_by c m b t
  | CDispatchHighstate _ m => fun r => forall jid, r = Ok jid -> routed_to c m jid t
  | CPollJID _ m jid => fun r => forall o, r = Ok o -> polled c m jid o t
  | CMasterLastSeen _ => fun r => forall seen, r = Ok seen ->
      exists body, replied c (asks "master" "get_master_presence" []) body t /\ seen_at c body seen
  | CKeyStates _ m => fun r => forall states, r = Ok states ->
      exists body, replied c (asks "minions" "get_minion_key_state" [("minion_id", AStr m)]) body t /\ states_of m body states
  | CGenAcceptKey _ m force => fun r => forall kp, r = Ok (Some kp) -> kp_Pub kp <> "" /\ kp_Priv kp <> ""
      /\ exists ret, wheel_returned c "key.gen_accept" [AStr m] [("force", ABool force)] (Some ret) t /\ decode_pair ret = Some kp
  | CMasterPublicKey _ => fun r => forall pub, r = Ok pub -> genuine pub
  | _ => fun _ => True
  end.

(** The cached master key is none, or a public key. *)
Definition cached_genuine (pub : string) : Prop := pub = "" \/ genuine pub.

Definition keeps_genuine (s : ClientState N) (t : list hobs) (s' : ClientState N) : Prop :=
  cached_genuine (cs_masterPub s) -> cached_genuine (cs_masterPub s').

#[local] Instance keeps_genuine_blind : Blind keeps_genuine.
Proof.
  constructor; [constructor| |]; unfold keeps_genuine; simpl; auto. intros s pub Hp _. by right.
Qed.

Lemma accepted_pair_whole m ret kp :
  accepted_pair m ret = Ok (Some kp) -> kp_Pub kp <> "" /\ kp_Priv kp <> "" /\ exists v, ret = Some v /\ decode_pair v = Some kp.
Proof.
  unfold accepted_pair. destruct ret as [v|]; [simpl|done]. destruct (decode_pair v) as [kp'|] eqn:Ev; [|done].
  destruct (String.eqb_spec (kp_Pub kp') ""), (String.eqb_spec (kp_Priv kp') ""); try done. intros [= <-]. eauto.
Qed.

(** A property of the result that the end of an operation gives. *)
Lemma wp_end {A B} (m : Traced hobs (ClientState N) A) (k : A -> Traced hobs (ClientState N) B) s (P : B -> Prop) :
  (forall a s', wp (k a) s' (fun b _ _ => P b)) -> wp (m ≫= k) s (fun b _ _ => P b).
Proof. intros Hk. apply wp_bind. unfold wp at 1. destruct (m s) as [[a t] s']. apply Hk. Qed.

Lemma promised_run_salt {D} fuel (q : call D) m s :
  run_salt c fuel q = Some m -> cached_genuine (cs_masterPub s) -> wp m s (fun r t _ => promised q t r).
Proof.
  intros Hm Hg. revert Hm. destruct q; intros [= <-]; cbn [promised].
  - eapply wp_mono; [apply wp_Login|]. intros r t s' [_ Hr] ->. naive_solver.
  - exact (wp_list_keys c _ _ s).
  - exact (wp_list_keys c _ _ s).
  - eapply wp_mono; [apply wp_set_key_state|]. intros r t s' Hr Hn. destruct (Hr Hn) as (body & ?). by eexists _, body.
  - eapply wp_mono; [apply wp_set_key_state|]. intros r t s' Hr Hn. destruct (Hr Hn) as (body & ?). by eexists _, body.
  - exact (wp_bool_job c _ _ _ s).
  - exact (wp_bool_job c _ _ _ s).
  - eapply wp_mono; [apply wp_dispatch|]. by intros r t s' [_ Hr].
  - eapply wp_mono; [apply wp_PollJID|]. by intros r t s' [_ Hr].
  - exact (wp_MasterLastSeen c s).
  - exact (wp_KeyStates c _ s).
  - unfold GenAcceptKey. apply wp_bind. eapply wp_mono; [apply wp_wheel|]. intros [ret|e] t s' Hr; apply wp_ret; [|done].
    intros kp (? & ? & v & -> & Hv)%accepted_pair_whole. rewrite app_nil_r. split_and!; [done..|]. exists v. by split; [apply Hr|].
  - unfold MasterPublicKey. apply wp_bind, wp_gets. destruct (String.eqb_spec (cs_masterPub s) "") as [E|E].
    + apply wp_end. intros [ret|e] s'; [|by apply wp_ret]. destruct (public_key ret) as [pub|e] eqn:Ep; [|by apply wp_ret].
      apply wp_bind, wp_modify, wp_ret. intros pub' [= <-]. by eapply public_key_genuine.
    + apply wp_ret. intros pub [= <-]. by destruct Hg.
Qed.

Lemma genuine_run_salt {D} fuel (q : call D) m : run_salt c fuel q = Some m -> respects keeps_genuine m.
Proof.
  intros Hm. refine (respects_run_salt c keeps_genuine (fun _ => True) _ fuel q m _ _ Hm); [|apply blind_Login; exact _|done].
  intros. apply blind_rawPost. exact _.
Qed.

End Calls.

(** ** The system keeps what the controllers' theorems ask for *)

Section Promises.
Context {W N : Type} `{GoUnicode} `{GoJSON}.
Context (cluster : Env W nat) (net : nat -> bool -> HEnv N) (fuel : nat).

Abbreviation System := (Sys W N).
#[local] Instance the_system : Env System nat := system cluster net fuel.

Definition keys_genuine (s : System) : Prop := Forall (fun cn => cached_genuine (cn_masterPub cn)) (sy_conns s).

Lemma run_salt_handle {M} `{HEnv M} c (q : call nat) h :
  handle q = Some h -> exists m, run_salt (W := M) c fuel q = Some m.
Proof. destruct q; intros [=]; by eexists. Qed.

(** A Salt call: the client's operation, on the client's state. *)
Lemma system_client q h s :
  handle q = Some h -> exists m,
    run_salt (H := net h (cn_skipTLS (sy_conns s !!! h))) (cn_client (sy_conns s !!! h)) fuel q = Some m
    /\ env q s = let '(r, t, cs) := m (client_state (sy_conns s !!! h) s) in
                 (r, client_done h (sy_conns s !!! h) t cs s).
Proof.
  intros Hh. destruct (run_salt_handle (H1 := net h (cn_skipTLS (sy_conns s !!! h)))
    (cn_client (sy_conns s !!! h)) q h Hh) as [m Hm].
  exists m. split; [done|]. unfold env, the_system, system.
  transitivity (on_client cluster net fuel h q s); [|unfold on_client; by rewrite Hm].
  revert Hh. clear. by destruct q; intros [= <-].
Qed.

Lemma client_genuine h s : keys_genuine s -> cached_genuine (cn_masterPub (sy_conns s !!! h)).
Proof.
  intros Hg. rewrite list_lookup_total_alt. destruct (sy_conns s !! h) as [cn|] eqn:E; [|by left].
  exact (proj1 (Forall_lookup _ _) Hg _ _ E).
Qed.


Lemma system_promises : SaltPromises System nat.
Proof.
  constructor. intros h m s j s' E. destruct (system_client (CDispatchHighstate h m) h s eq_refl) as (op & Hop & E').
  rewrite E in E'. injection Hop as <-.
  pose proof (wp_dispatch (H := net h (cn_skipTLS (sy_conns s !!! h))) (cn_client (sy_conns s !!! h)) m "state.highstate"
                (client_state (sy_conns s !!! h) s)) as Hd.
  unfold wp in Hd. unfold DispatchHighstate in E'. destruct (dispatch _ _ _ _ _) as [[r t] cs].
  injection E' as <- _. destruct Hd as [_ Hd]. by destruct (Hd j eq_refl) as (? & ? & _ & ? & _).
Qed.

Context (k : string * string) (stored : W -> option VM) `{!ClusterLaws k stored}.

(** The Salt calls do not touch the API server. *)
Lemma system_laws : ClusterLaws k (fun s : System => stored (sy_cluster s)).
Proof.
  constructor; [|intros s v; apply (cluster_key (stored := stored))].
  intros q s r s' E. destruct (handle q) as [h|] eqn:Hh.
  - destruct (system_client q h s Hh) as (m & _ & E'). rewrite E in E'.
    destruct (m _) as [[r0 t] cs]. injection E' as -> ->.
    destruct q; try discriminate Hh; apply interferes_refl.
  - unfold env, the_system, system in E.
    destruct q; try discriminate Hh; unfold on_cluster in E; simpl in E;
      try (destruct (cluster _ _) as [r0 w'] eqn:Ec; injection E as <- <-;
           exact (cluster_step (ClusterLaws := ClusterLaws0) _ _ _ _ Ec)).
    injection E as <- <-. apply interferes_refl.
Qed.

End Promises.

(** ** Witness: a job result on a small network *)

Section Witness.
#[local] Existing Instance ascii_only.

(** An API server without objects. *)
Definition empty_cluster : Env unit nat := fun q w =>
  (match q as q0 return resp q0 with
   | CNow => 0
   | CGetVM _ _ | CPatchVM _ _ => not_found
   | CListVMs _ => Ok []
   | CGetSecret _ _ => not_found
   | CCreateSecret _ | CUpdateSecret _ | CPatchSecretData _ _ _ => None
   | CGetConfig _ _ | CPatchConfig _ _ | CPatchConfigStatus _ _ => not_found
   | CListConfigs _ | CListConfigsLabelled _ _ => Ok []
   | CCreateConfig _ | CDeleteConfig _ => None
   | CGetNamespace _ => not_found
   | CEvent _ _ _ _ => tt
   | CNewClient _ _ _ _ _ => O
   | CLogin _ | CAcceptKey _ _ | CDeleteKey _ _ => None
   | CListPendingKeys _ | CListAcceptedKeys _ | CKeyStates _ _ => Ok []
   | CTestPing _ _ | CRefreshPillar _ _ => Ok false
   | CDispatchHighstate _ _ | CMasterLastSeen _ | CMasterPublicKey _ => Ok ""
   | CPollJID _ _ _ => Ok None
   | CGenAcceptKey _ _ _ => Ok None
   end, w).

(** A network where every request is answered with the same document. *)
Definition one_answer : HEnv unit := fun q w =>
  (match q as q0 return hresp q0 with
   | HNewRequest _ _ => None
   | HDo _ => Ok {| rs_status := 200; rs_body := Ok "" |}
   | HCookies _ => [("_xsrf", "token")]
   | HWait _ => None
   end, w).

#[local] Instance one_document : GoJSON :=
  {| json_decode _ := Some (AMap [("ret", AMap [("vm-a", AMap [("return", ABool true)])])]) |}.

Definition one_client : Sys unit unit :=
  {| sy_cluster := tt; sy_net := tt; sy_sent := [];
     sy_conns := [{| cn_client := NewRaaSClient "https://raas.example" "u" "p" "master-1"; cn_skipTLS := false;
                     cn_jwt := "jwt"; cn_masterPub := "" |}] |}.


End Witness.
