(* ===== verification/Wire.v ===== *)
(** * What a reconcile puts on the wire

    The controller on the RaaS client, down to the requests: a reconcile
    acts through its calls alone ([follows]), each Salt call posts only what
    it stands for, and the calls are authorised by a VM the API server
    returned ([VMSafety]).  Put together, every key change and every job
    target that reaches RaaS is that of such a VM. *)

From S2P Require Import Prelude GoStrings GoTime Matcher Api Effects Server RaasConn IntentHash VMController.
From S2P Require Import Cluster VMInvariant RaasClient RaasSession RaasPromises RaasSystem VMSafety.

Local Open Scope Z_scope.

(** ** The controller acts through its calls *)

Section Follows.
Context {W C : Type} `{GoUnicode} `{K8sLib} `{Env W C}.
Context (DefaultConnection : DefaultConn).

#[local] Instance VMState_law : WorldLaw W (S := VMState W C).
Proof. done. Qed.

Lemma follows_patchAnnotations vm a : follows (patchAnnotations vm a : M C (VMState W C) _).
Proof. repeat follows_step. Qed.

Lemma follows_since_create cs : follows (since_create cs : M C (VMState W C) _).
Proof. induction cs as [|c cs IH]; cbn [since_create]; repeat first [exact IH | follows_step]. Qed.

Lemma follows_Reconcile ns name : follows (Reconcile DefaultConnection ns name : M C (VMState W C) _).
Proof. repeat first [apply follows_patchAnnotations | apply follows_since_create | follows_step]. Qed.

End Follows.

(** ** Every request has its call *)

Section System.
Context {W N : Type} `{GoUnicode} `{GoJSON}.
Context (cluster : Env W nat) (net : nat -> bool -> HEnv N) (fuel : nat).

Abbreviation System := (Sys W N).
#[local] Instance whole : Env System nat := system cluster net fuel.

(** A document one of the calls [t] stands for. *)
Definition accounted (t : list (obs nat)) (c : RaaSClient) (b : option any) : Prop :=
  exists q r doc, Obs q r ∈ t /\ b = Some doc /\ allowed_body c q doc.

Lemma accounted_app t t' c b : accounted t c b \/ accounted t' c b -> accounted (t ++ t') c b.
Proof. intros [(q & r & doc & Hin & ?)|(q & r & doc & Hin & ?)]; exists q, r, doc; (split; [set_solver|done]). Qed.

Lemma rpc_bodies_elem c o t b : o ∈ t -> rpc_body c o = Some b -> b ∈ rpc_bodies c t.
Proof. intros Hin Hb. apply list_elem_of_omap. by exists o. Qed.

(** The posts of a run are those of its calls. *)
Lemma runs_accounted s t s' :
  runs s t s' ->
  exists l, sy_sent s' = sy_sent s ++ l
    /\ forall c o b, (c, o) ∈ l -> rpc_body c o = Some b -> accounted t c b.
Proof.
  induction 1 as [s|s q r s1 t s2 E _ (l & Hl & IH)].
  { exists []. split; [by rewrite app_nil_r|]. by intros ? ? ? ?%not_elem_of_nil. }
  destruct (handle q) as [h|] eqn:Hh.
  - destruct (system_client cluster net fuel q h s Hh) as (m & Hm & E').
    unfold env, the_system in E'. unfold env, whole in E. rewrite E in E'.
    pose proof (run_salt_posts _ fuel q m Hm (client_state (sy_conns s !!! h) s)) as Hp.
    unfold wp in Hp. destruct (m _) as [[r0 t0] cs]. injection E' as -> ->. simpl in Hl.
    exists ((pair (cn_client (sy_conns s !!! h)) <$> t0) ++ l). split; [by rewrite Hl, app_assoc|].
    intros c o b [Hin|Hin]%elem_of_app Hb; apply (accounted_app [Obs q r0]); [left|right; by eapply IH].
    apply list_elem_of_fmap in Hin as (o' & [= -> ->] & Hin).
    pose proof (rpc_bodies_elem _ _ _ _ Hin Hb) as Hbody. unfold posts_only in Hp.
    rewrite Forall_forall in Hp. destruct (Hp _ Hbody) as (doc & -> & Hd).
    exists q, r0, doc. split; [set_solver|done].
  - exists l. split.
    + rewrite Hl. f_equal. unfold env, whole, system in E.
      destruct q; try discriminate Hh; unfold on_cluster in E; simpl in E;
        try (destruct (cluster _ _) as [r0 w'] eqn:Ec; by injection E as <- <-). by injection E as <- <-.
    + intros c o b Hin Hb. apply (accounted_app [Obs q r]). right. by eapply IH.
Qed.

(** ** The requests of a reconcile *)

Context `{K8sLib} (DefaultConnection : DefaultConn).

(** The documents that change nothing: key states, results of jobs and the presence of the master. *)
Inductive reads : any -> Prop :=
| rd_keys state : reads (key_list state)
| rd_key minion : reads (asks "minions" "get_minion_key_state" [("minion_id", AStr minion)])
| rd_job jid : reads (asks "ret" "get_jid" [("jid", AStr jid)])
| rd_masters : reads (asks "master" "get_master_presence" []).

(** The change of the key of one minion on the client's master. *)
Definition key_change (c : RaaSClient) (minion : string) (how : list (string * any)) : any :=
  asks "minions" "set_minion_key_state" (("minions", AList [AList [AStr (masterID c); AStr minion]]) :: how).

(** A wheel function on the client's master. *)
Definition wheel_job (c : RaaSClient) (fun_ : string) (args : any) : any :=
  asks "cmd" "route_cmd"
    [("cmd", AStr "wheel"); ("fun", AStr fun_); ("masters", AList [AStr (masterID c)]); ("arg", args)].

(** A reconcile of a managed VM that is not under deletion. *)
Definition for_bootstrap (t : list (obs nat)) : Prop := exists v0, returned t v0 /\ bootstraps v0 = true.

(** What a document posted by a reconcile may be, and the VM, returned by the API server, it is for. *)
Inductive on_behalf (t : list (obs nat)) (c : RaaSClient) : any -> Prop :=
| ob_read doc : reads doc -> on_behalf t c doc
| ob_master_key : on_behalf t c (wheel_job c "key.master_key_str" (arguments [] []))
| ob_accept v key m :
    for_bootstrap t -> returned t v -> key_matches (vm_name v) (vm_primaryIP4 v) key m ->
    key_status v <> keyStatusAccepted ->
    (exists c' pending, Obs (CListPendingKeys c') (Ok pending) ∈ t /\ key ∈ pending) ->
    on_behalf t c (key_change c key
      [("state", AStr "accept"); ("include_rejected", ABool true); ("include_denied", ABool true)])
| ob_generate v force :
    for_bootstrap t -> returned t v -> key_generated_for t (vm_name v) force v ->
    on_behalf t c (wheel_job c "key.gen_accept" (arguments [AStr (vm_name v)] [("force", ABool force)]))
| ob_delete v :
    returned t v -> being_deleted v = true -> ann v AnnotationManaged = annotationTrue -> minion_of v <> "" ->
    key_status v <> keyStatusDeleted ->
    on_behalf t c (key_change c (minion_of v) [("state", AStr "delete")])
| ob_job fun_ name :
    for_bootstrap t -> fun_ ∈ ["test.ping"; "saltutil.refresh_pillar"; "state.highstate"] ->
    on_behalf t c (asks "job" "save_job"
      [("name", AStr name); ("cmd", AStr "local"); ("fun", AStr fun_); ("arg", arguments [] [])])
| ob_route v acc uuid :
    for_bootstrap t -> returned t v -> minion_of v <> "" -> returned t acc -> key_status acc = keyStatusAccepted ->
    on_behalf t c (asks "cmd" "route_cmd"
      [("job_uuid", AStr uuid);
       ("tgt", AMap [("salt", AMap [("tgt", AStr ("L@" +:+ minion_of v)); ("tgt_type", AStr "compound")])])]).

Lemma for_bootstrap_app t t' : (exists v0, returned t v0 /\ bootstraps v0 = true) -> for_bootstrap (t ++ t').
Proof. intros (v0 & Hr & Hb). exists v0. split; [by apply returned_app|done]. Qed.

Lemma generated_for_app (t t' : list (obs nat)) minion force v : key_generated_for t minion force v -> key_generated_for (t ++ t') minion force v.
Proof.
  intros (vms & states & Hr & Hn & Ha & Hp & Hl & Ho & (c' & m' & Hs) & Hf). exists vms, states.
  split_and!; try done; [by apply returned_app|set_solver|]. exists c', m'. set_solver.
Qed.

(** A job on the minion of an accepted VM. *)
Lemma job_on_behalf t1 t2 c (q : call nat) r g minion fun_ doc :
  monitor key_step nothing_seen (t1 ++ Obs q r :: t2) = Some g -> commands q = Some minion ->
  fun_ ∈ ["test.ping"; "saltutil.refresh_pillar"; "state.highstate"] -> job_body minion fun_ doc ->
  on_behalf (t1 ++ Obs q r :: t2) c doc.
Proof.
  intros Hm Hc Hf Hd. destruct (command_authorised _ _ _ _ _ _ Hc Hm) as (Hne & Hb & (acc & Hacc & Hk) & v & Hr & Hv).
  apply (for_bootstrap_app _ (Obs q r :: t2)) in Hb.
  destruct Hd; [by apply ob_job| |apply ob_read; constructor].
  rewrite <- Hv. apply ob_route with acc; try done; [by apply returned_app|by rewrite Hv|by apply returned_app].
Qed.

Lemma on_behalf_one t1 t2 c (q : call nat) r doc g :
  monitor key_step nothing_seen (t1 ++ Obs q r :: t2) = Some g ->
  allowed_body c q doc -> on_behalf (t1 ++ Obs q r :: t2) c doc.
Proof.
  intros Hm Hd. destruct q; simpl in Hd; try done;
    try (eapply job_on_behalf; [exact Hm|reflexivity| |exact Hd]; set_solver);
    try (subst doc; apply ob_read; constructor).
  - subst doc. destruct (accept_authorised _ _ _ _ _ _ Hm) as (Hb & c' & l & v & m & Hl & Hr & Hin & Hk & Hs).
    eapply (ob_accept _ _ v); [by apply for_bootstrap_app|by apply returned_app|done..|]. exists c', l. set_solver.
  - subst doc. destruct (delete_authorised _ _ _ _ _ _ Hm) as (Hne & v & Hr & Hdel & Hman & -> & Hs).
    apply (ob_delete _ _ v); try done. by apply returned_app.
  - destruct (generate_authorised _ _ _ _ _ _ _ Hm) as (Hb & v & Hv). pose proof Hv as (_ & _ & Hr & -> & _).
    inversion Hd; subst; [|apply ob_read; constructor].
    apply (ob_generate _ _ v); [by apply for_bootstrap_app|by apply returned_app|by apply generated_for_app].
  - inversion Hd; subst; [apply ob_master_key|apply ob_read; constructor].
Qed.


End System.

(** ** Histories of the whole program *)

Section Whole.
Context {W N : Type} `{GoUnicode} `{GoJSON} `{K8sLib}.
Context (cluster : Env W nat) (net : nat -> bool -> HEnv N) (fuel : nat).
Context (DefaultConnection : DefaultConn) (k : string * string) (stored : W -> option VM) `{!ClusterLaws k stored}.

#[local] Instance program : Env (Sys W N) nat := system cluster net fuel.

(** The histories of a VM under the controller on the RaaS client: the invariant of its annotations and
    the pillar rule need no promise of Salt, only the laws of the API server. *)
Corollary program_history (s : VMState (Sys W N) nat) t :
  k.2 <> "" -> history DefaultConnection k (fun s => stored (sy_cluster s)) s t ->
  (forall v, stored (sy_cluster (vs_world s)) = Some v -> FInv (being_deleted v) (fields_of v))
  /\ (forall t1 t2 c m r, t = t1 ++ Obs (CDispatchHighstate c m) r :: t2 -> pillar_fresh m t1).
Proof.
  intros Hk Hh. pose proof (system_laws cluster net fuel k stored) as Hlaws.
  pose proof (system_promises cluster net fuel) as Hpromises.
  destruct (history_inv DefaultConnection k _ Hk s t Hh) as (f & Hf & Hs). split.
  - intros v Hv. by apply Hs.
  - intros t1 t2 c m r ->. by eapply dispatch_refreshed.
Qed.

End Whole.
